(* ===== verification/_CoqProject ===== *)
-Q . S2P
Prelude.v
Binary.v
Wire.v
GoHeap.v
Address.v
Crypto.v
Messages.v
PacketQueue.v
Bloom.v
Tree.v
Router.v
Routing.v
Pathfinder.v
SessionInit.v
Sessions.v
SessionNonces.v
SessionPair.v
Peers.v
PeerQueue.v
PacketConn.v
Handshake.v
KeyStore.v
Discovery.v
Links.v
LinkTable.v
Proto.v
GoLib.v
Listings.v
Remote.v
Debug.v
Admin.v
Multicast.v
MulticastLife.v
Config.v
Dial.v
Listeners.v
Tun.v
TunPlatforms.v
Node.v
Mobile.v
Ctl.v
GenKeys.v
CommandLine.v
