(* ===== verification/Prelude.v ===== *)
(** * UQDA Core: a verification development

    UQDA Core is a daemon that joins an encrypted IPv6 overlay. A node's ed25519
    key determines its IPv6 address and /64 subnet; nodes peer over TCP, TLS,
    QUIC, WebSocket, SOCKS or UNIX sockets, announce themselves in a spanning
    tree, look each other up through bloom filters and exchange packets in
    end-to-end sessions. This library models that program definition by
    definition, as executable functions on the data the code has, and proves what
    makes its parts correct. This file is the root: after this overview it holds
    the notation, tactics and lemmas that the other files share.

    ** Parts of the program and the files that model them

    - Binary: the varints and big-endian integers of encoding/binary.
    - Wire, Crypto, Messages, Bloom, Peers: the routing layer that the repository
      carries in third_party/ironwood/network. Wire is wire.go; Crypto is
      crypto.go, with ed25519 behind the class [Ed25519] and its laws; Messages
      has a record per message of router.go, pathfinder.go and traffic.go; Bloom
      is bloomfilter.go, with the filter library behind [BloomFilter]; Peers is
      peers.go: framing and dispatch, port allocation, the keep-alive monitor.
    - Tree, Router, Routing: router.go of the same library. Tree has the walks
      towards the root, the distances and the choice of the next hop; Router the
      actor with announcements, signature requests, parents, timers and
      maintenance; Routing what several routers do together. Pathfinder is
      pathfinder.go, the discovery of paths in the router's actor, written in a
      monad of its state and outputs.
    - GoHeap, PacketQueue, PeerQueue, PacketConn: container/heap, the queue of
      packetqueue.go, the actor and the writer of a connection that use it
      (peers.go), and the packet connection of packetconn.go, config.go and
      core.go with its receive queue and its deadlines. Debug is debug.go, what the
      routing layer reports about itself.
    - SessionInit, Sessions, SessionNonces, SessionPair: the end-to-end sessions of
      third_party/ironwood/encrypted. SessionInit has the init and ack messages
      with Curve25519 boxes behind [Box]; Sessions the session with its key
      rotation, the manager and the packet connection; SessionNonces the nonces
      over any history; SessionPair two nodes that talk to each other.
    - Address: src/address/address.go.
    - Handshake: src/core/version.go, the metadata exchange that authenticates a
      connection, with the keyed hash behind [Blake2b].
    - Links, LinkTable: src/core/link.go. Links has the options of a peering, the
      back-off, the handler of a connection with every check, and the table of
      links with the operations of its actor; LinkTable the goroutines that dial,
      serve and accept, interleaved in any order with these operations. Dial: the
      transports (link_tcp.go, link_tls.go, link_socks.go, link_quic.go,
      link_unix.go, link_ws.go, link_wss.go, findSuitableIP), their TLS settings
      and the traffic counters.
      Listeners: the listening side of the same transports, with its goroutines.
    - KeyStore: src/ipv6rwc, the map from addresses to keys between the TUN side
      and the network, and the ICMPv6 replies. Discovery joins it with Pathfinder
      through the callback of src/core/core.go.
    - Proto: src/core/proto.go and nodeinfo.go, the requests between nodes, and
      the packet interface of src/core/core.go.
    - GoLib, Listings, Admin: src/admin and the structures of src/core/api.go.
      GoLib has the sorting, hexadecimal and floating-point functions of Go that
      they use; Listings the entries and their order; Admin the socket, the
      commands and the diagnosis of the doctor command.
    - Remote: the commands that ask another node, the wrappers of src/core/api.go
      and the outer interfaces of the packet layer, the administration socket and
      the mobile bindings.
    - Multicast: src/multicast, discovery of peers on the local network;
      MulticastLife: the same module over time, with its actor, timers and reader.
    - Config: src/config. Tun: src/tun (on Linux). TunPlatforms: the set-up of the
      interface on macOS, Windows, the BSDs and unknown platforms. Node: the
      constructor of the core, cmd/uqda and contrib/mobile, which put the parts
      together. Mobile: the instance that an application holds, call by call.
    - Ctl: cmd/uqdactl, the client of the administration socket. CommandLine: the
      flags of the daemon and the client, by the rules of package flag.
    - GenKeys: cmd/genkeys and contrib/ansible, the generators of identities.

    ** Conventions

    A byte or word is an integer of [Z]; operations that can leave its range carry
    an explicit [wrap]. A Go string of protocol data is a list of bytes, a text is
    a [string]. Fallible code returns [res]: a value, an error or a panic. State is
    passed explicitly; an operation of an actor, or a critical section under a
    mutex, is one function from state to state with the calls it makes to other
    parts as outputs, and interleavings are sequences of such operations. Go maps
    are [gmap]s; where the random order of a range matters it is a parameter.
    Code outside the repository (ed25519, BLAKE2b, JSON, HJSON, X.509, DNS,
    sockets) is a parameter: a type class names the functions and a second class
    or a hypothesis states what their documentation promises. A module of
    witnesses at the end of each file instantiates them and evaluates every
    theorem that has hypotheses on a concrete input.

    ** What the theorems show

    - Routing layer: the messages written on a connection are read back in order
      at the other end; on arbitrary input the reader ends with an error, without
      a panic, and hands over only well-formed messages, of which signature
      responses and announcements carry valid signatures (path notifications are
      checked by the pathfinder of their destination);
      ports identify neighbours; the keep-alive state is exact; the filter sent
      to a neighbour has no false negatives and a multicast reaches each matching
      neighbour once.
    - Routing tree: no event makes the router panic; announcements converge
      whatever their order, when no two of a node have the same rank, and an
      exchange about them ends; a new parent makes no
      loop; forwarding makes progress in any state of the routers and delivers
      once the tree has settled.
    - Path discovery: in any history only paths signed by their node are stored,
      packets are sent to their own destination along such paths, and no event
      makes it panic; in a settled network a packet for an unknown key,
      and one written for an unknown address, is delivered, from the lookup that
      the sender floods to the answer and the route of the packet.
    - Queues: the queue of a connection refines the list of waiting packets in the
      order of their arrival; a connection whose messages fit never stalls and
      works off what waits; one reader gets each packet at most once and is never
      left waiting beside a packet.
    - Sessions: only signed handshakes of the same group are accepted, no nonce is
      used twice, no packet of an honest node is delivered twice between handshakes, two honest
      nodes do establish a session, and it refines a channel that may lose
      messages, through all rotations of keys.
    - Addresses: derivation and recovery are inverse up to the bits an address
      can hold, so a lookup by address or subnet matches the node that owns it.
    - Connections: the handshake decoder is safe on any input and accepts exactly
      what an honest peer with the same password sends; a connection reaches the
      router only through every check; two honest nodes do connect; in any
      interleaving of their goroutines the table of links has the links that are
      alive, and removing a peer closes its connection; a dial tries no address of the
      overlay; a listener hands every connection over once.
    - Packets: what leaves the node goes only to the owner of the destination,
      what is delivered comes from the owner of the source, and the composition of
      two key stores delivers; the interface's queue refines a FIFO.
    - Node: what the daemon starts is what the configuration says, the certificate
      belongs to its key, local discovery calls only members with the same password
      and keeps announcing while it runs, privileges are dropped in a safe order,
      and command lines are read back as they are written.
    - Administration: one response per request, a private socket, a sound
      diagnosis, answers of other nodes filed under their address, the exit codes
      and the tables of the client.
    - Key generators: the search agrees with its reference, and a better key gives
      no lower address.

    Where the code does not do what it means to, a theorem states what it does:
    [bloom_stale_bits_survive], [duplicate_accept_drops_live_link],
    [remove_accepted_link_panics], [removed_peer_stays_connected],
    [aborted_dial_hides_connection], [failed_dial_admits_second_connection],
    [listener_leaks_on_bad_options], [uptime_order_lost],
    [lookups_returns_expired], [multicast_first_match_not_kept],
    [quic_server_name_unused], [mobile_group_password_ignored],
    [ctl_panic_exits_zero], [sortKeySetArray_does_not_sort],
    [two_threads_undercount], [lookup_priority_lost], [equal_rank_never_settles],
    [init_allows_replay], [short_box_panics], [channel_listener_never_stops],
    [quic_waits_for_one_client], [abbreviated_address_panics],
    [freebsd_setup_hides_failure], [oversized_packet_stalls], [mtu_leaves_no_room],
    [two_readers_panic], [read_deadline_panics], [broken_reports_not_throttled],
    [known_path_not_announced], [same_path_stays_broken] and [announce_now_blocks].

    ** Fuel and bounds

    The loops that are not structural carry fuel that is proved to be enough: the
    reader of a connection consumes a byte per iteration, so the length of its
    input plus one ([peer_reader_terminates]); the decoder of the handshake
    consumes four bytes per field, so the length of its input plus one
    ([decode_fields_spec]); the search for a port stops within the number of ports
    in use plus one; a walk towards the root ends within the number of
    announcements plus one ([tree_walks_agree]); the loops of a heap end within its
    length, and dropping packets over the limit within the number of packets that
    wait plus one; path discovery calls itself at most twice
    ([handleTraffic_good]); packets and notifications are forwarded no more often
    than their distance in the tree; a varint has ten bytes. The machine integers
    that can wrap (back-off, counters, sequence numbers, MTUs) are kept at their
    width.

    ** Not modelled

    Socket options, buffer pools, profiling, the text of log lines and of the
    usage, the loggers of the mobile platforms and test programs, which carry no
    state of the protocol. The signed sessions of third_party/ironwood/signed,
    which the node does not use. Timers are modelled by the operations that they
    trigger, without their durations, except where a duration is computed. *)

From stdpp Require Export base tactics numbers list gmap strings sorting.
From Stdlib Require Export ZArith Lia.

#[global] Open Scope Z_scope.

#[global] Arguments Nat.div : simpl never.
#[global] Arguments Nat.modulo : simpl never.
#[global] Arguments Z.mul : simpl never.
#[global] Arguments Nat.mul : simpl never.

(** ** Bytes and machine words

    Go's [byte], [uint16], [uint32] and [uint64] are integers of [Z]; the
    places where an operation can leave the range carry an explicit [wrap]. *)

Abbreviation byte := Z (only parsing).
Abbreviation bytes := (list Z) (only parsing).

Definition wrap (w z : Z) : Z := z mod 2 ^ w.
Abbreviation u8 := (wrap 8).
Abbreviation u16 := (wrap 16).
Abbreviation u32 := (wrap 32).
Abbreviation u64 := (wrap 64).

Definition max_u64 : Z := 2 ^ 64 - 1.

Definition in_range (w z : Z) : Prop := 0 <= z < 2 ^ w.
Abbreviation is_byte := (in_range 8).
Abbreviation is_u16 := (in_range 16).
Abbreviation is_u32 := (in_range 32).
Abbreviation is_u64 := (in_range 64).

Definition bytes_ok (bs : bytes) : Prop := Forall is_byte bs.

Definition len {A} (l : list A) : Z := Z.of_nat (length l).

#[export] Instance in_range_dec w z : Decision (in_range w z).
Proof. unfold in_range. apply _. Defined.

#[export] Instance bytes_ok_dec bs : Decision (bytes_ok bs).
Proof. unfold bytes_ok. apply _. Defined.

(** [copy(dst[:], src)] on a fixed-size destination: the common prefix is
    overwritten, the rest of the destination is kept. *)
Definition copy {A} (dst src : list A) : list A :=
  take (length dst) src ++ drop (length src) dst.

(** The bit of a byte string at position [i], most significant bit first. *)
Definition bit (bs : bytes) (i : nat) : bool :=
  Z.testbit (nth (i / 8) bs 0) (7 - Z.of_nat (i mod 8)).

(** ** Results of fallible Go code

    [Err] is a returned error, [Panic] an explicit [panic] or a run-time panic
    of the code. *)
Inductive res (E A : Type) : Type :=
| Ok (a : A)
| Err (e : E)
| Panic.
Arguments Ok {E A} a.
Arguments Err {E A} e.
Arguments Panic {E A}.

#[export] Instance res_bind {E} : MBind (res E) := λ A B f m,
  match m with
  | Ok a => f a
  | Err e => Err e
  | Panic => Panic
  end.

#[export] Instance res_ret {E} : MRet (res E) := λ A a, Ok a.

(** A boolean-returning helper with an output parameter, as an error. *)
Definition or_err {E A} (e : E) (o : option A) : res E A :=
  match o with
  | Some a => Ok a
  | None => Err e
  end.

(** ** The hint database and the tactics of the development *)

Create HintDb uqda.

(** Destruct the innermost [match] or [if] scrutinee of the goal or of a
    hypothesis, keeping the equation. *)
Ltac case_head :=
  match goal with
  | H : context [match ?x with _ => _ end] |- _ =>
      lazymatch x with
      | context [match _ with _ => _ end] => fail
      | _ => destruct x eqn:?
      end
  | |- context [match ?x with _ => _ end] =>
      lazymatch x with
      | context [match _ with _ => _ end] => fail
      | _ => destruct x eqn:?
      end
  end.

Ltac crush :=
  repeat (case_head; simplify_eq/=); try done; try lia.

(** Turn boolean comparisons of the code into propositions. *)
Ltac bool_to_prop :=
  repeat match goal with
  | H : (_ =? _) = true |- _ => apply Z.eqb_eq in H
  | H : (_ =? _) = false |- _ => apply Z.eqb_neq in H
  | H : (_ <? _) = true |- _ => apply Z.ltb_lt in H
  | H : (_ <? _) = false |- _ => apply Z.ltb_ge in H
  | H : (_ <=? _) = true |- _ => apply Z.leb_le in H
  | H : (_ <=? _) = false |- _ => apply Z.leb_gt in H
  | H : (_ && _) = true |- _ => apply andb_true_iff in H as [? ?]
  | H : (_ || _) = false |- _ => apply orb_false_iff in H as [? ?]
  | H : negb _ = true |- _ => apply negb_true_iff in H
  | H : negb _ = false |- _ => apply negb_false_iff in H
  | H : bool_decide _ = true |- _ => apply bool_decide_eq_true in H
  | H : bool_decide _ = false |- _ => apply bool_decide_eq_false in H
  end.

(** [l[i] |= v] on a byte array; the callers keep [i] in range. *)
Definition or_at (l : bytes) (i : nat) (v : Z) : bytes := alter (λ b, Z.lor b v) i l.

Lemma to_nat_len {A} (l : list A) : Z.to_nat (len l) = length l.
Proof. apply Nat2Z.id. Qed.

(** ** Words *)

Lemma wrap_small w z : in_range w z → wrap w z = z.
Proof. intros [??]. by apply Z.mod_small. Qed.

Lemma wrap_in_range w z : 0 <= w → in_range w (wrap w z).
Proof. intros Hw. apply Z.mod_pos_bound, Z.pow_pos_nonneg; lia. Qed.

#[export] Hint Resolve wrap_small wrap_in_range : uqda.
#[export] Hint Extern 1 (0 <= _) => lia : uqda.
#[export] Hint Extern 1 (in_range _ 0) => done : uqda.
#[export] Hint Extern 1 (in_range _ (Zpos _)) => done : uqda.

Lemma in_range_mono w w' z : 0 <= w <= w' → in_range w z → in_range w' z.
Proof.
  unfold in_range. intros Hw Hz.
  pose proof (Z.pow_le_mono_r 2 w w'). lia.
Qed.

Lemma in_range_testbit w z i : in_range w z → w <= i → Z.testbit z i = false.
Proof.
  intros Hz Hi. destruct (decide (0 <= w)) as [Hw|Hw].
  - rewrite <- (wrap_small w z Hz). by apply Z.mod_pow2_bits_high.
  - unfold in_range in Hz. rewrite Z.pow_neg_r in Hz; lia.
Qed.

Lemma testbit_in_range w z :
  0 <= w → 0 <= z → (∀ i, w <= i → Z.testbit z i = false) → in_range w z.
Proof.
  intros Hw Hz Hbits. split; [done|].
  assert (z = wrap w z) as ->; [|apply wrap_in_range; lia].
  apply Z.bits_inj'. intros i Hi. unfold wrap.
  destruct (decide (i < w)).
  - by rewrite Z.mod_pow2_bits_low.
  - rewrite Z.mod_pow2_bits_high by lia. apply Hbits. lia.
Qed.

Lemma lor_in_range w a b : 0 <= w → in_range w a → in_range w b → in_range w (Z.lor a b).
Proof.
  intros Hw Ha Hb. apply testbit_in_range; [done| |].
  - apply Z.lor_nonneg. unfold in_range in *. lia.
  - intros i Hi. by rewrite Z.lor_spec, !(in_range_testbit w).
Qed.

Lemma land_pow2 x p : 0 <= p → Z.land x (2 ^ p) = Z.b2z (Z.testbit x p) * 2 ^ p.
Proof.
  intros Hp. apply Z.bits_inj'. intros i Hi.
  rewrite Z.land_spec, Z.pow2_bits_eqb by done.
  destruct (Z.eqb_spec p i) as [->|Hne].
  - rewrite andb_true_r. destruct (Z.testbit x i); simpl Z.b2z.
    + rewrite Z.mul_1_l. by rewrite Z.pow2_bits_true.
    + by rewrite Z.mul_0_l, Z.bits_0.
  - rewrite andb_false_r. destruct (Z.testbit x p); simpl Z.b2z.
    + rewrite Z.mul_1_l. by rewrite Z.pow2_bits_false.
    + by rewrite Z.mul_0_l, Z.bits_0.
Qed.

Lemma shiftr_128 m : (m < 8)%nat → Z.shiftr 0x80 (Z.of_nat m) = 2 ^ (7 - Z.of_nat m).
Proof. intros Hm. do 8 (destruct m as [|m]; [done|]). lia. Qed.

(** ** Byte strings and their bits *)

Lemma bytes_ok_nth bs i : bytes_ok bs → is_byte (nth i bs 0).
Proof.
  intros Hok. destruct (decide (i < length bs)%nat).
  - apply (proj1 (Forall_nth _ 0 bs) Hok). done.
  - rewrite nth_overflow by lia. by unfold in_range.
Qed.

Lemma bytes_ok_app bs1 bs2 : bytes_ok (bs1 ++ bs2) ↔ bytes_ok bs1 ∧ bytes_ok bs2.
Proof. apply Forall_app. Qed.

Lemma bytes_ok_replicate n b : is_byte b → bytes_ok (replicate n b).
Proof. intros. by apply Forall_replicate. Qed.

Lemma bytes_ok_take n bs : bytes_ok bs → bytes_ok (take n bs).
Proof. apply Forall_take. Qed.

Lemma bytes_ok_drop n bs : bytes_ok bs → bytes_ok (drop n bs).
Proof. apply Forall_drop. Qed.

Lemma bytes_ok_nil : bytes_ok [].
Proof. constructor. Qed.

Lemma bytes_ok_cons b bs : bytes_ok (b :: bs) ↔ is_byte b ∧ bytes_ok bs.
Proof. apply Forall_cons. Qed.

Lemma bytes_ok_cons_2 b bs : is_byte b → bytes_ok bs → bytes_ok (b :: bs).
Proof. intros. by constructor. Qed.

Lemma bytes_ok_app_2 bs1 bs2 : bytes_ok bs1 → bytes_ok bs2 → bytes_ok (bs1 ++ bs2).
Proof. intros. by apply Forall_app_2. Qed.

(** Prove that a byte string given by its parts is in range. *)
Ltac solve_bytes :=
  repeat first [apply bytes_ok_app_2 | apply bytes_ok_cons_2 | apply bytes_ok_nil];
  try done; try (unfold in_range in *; lia); eauto with uqda.

#[export] Hint Resolve bytes_ok_nil : uqda.

#[export] Hint Resolve bytes_ok_nth bytes_ok_replicate bytes_ok_take bytes_ok_drop : uqda.

Lemma bytes_ok_copy dst src : bytes_ok dst → bytes_ok src → bytes_ok (copy dst src).
Proof. intros. apply bytes_ok_app. auto with uqda. Qed.

#[export] Hint Resolve bytes_ok_copy : uqda.

Lemma length_copy {A} (dst src : list A) : length (copy dst src) = length dst.
Proof. unfold copy. rewrite length_app, length_take, length_drop. lia. Qed.

Lemma copy_full {A} (dst src : list A) : length src = length dst → copy dst src = src.
Proof.
  intros Hl. unfold copy. rewrite take_ge by lia. rewrite drop_ge by lia.
  by rewrite app_nil_r.
Qed.

Lemma copy_app {A} (dst src rest : list A) : length src = length dst → copy dst (src ++ rest) = src.
Proof.
  intros Hl. unfold copy. rewrite <- Hl, take_app_length, drop_ge by (rewrite length_app; lia).
  by rewrite app_nil_r.
Qed.

Lemma nth_copy {A} (dst src : list A) i d :
  nth i (copy dst src) d =
    if decide (i < length src ∧ i < length dst)%nat then nth i src d else nth i dst d.
Proof.
  unfold copy. rewrite !nth_lookup.
  destruct (decide _) as [[??]|Hn]; f_equal.
  - rewrite lookup_app_l by (rewrite length_take; lia). by rewrite lookup_take_lt by lia.
  - destruct (decide (i < length dst)%nat).
    + rewrite lookup_app_r by (rewrite length_take; lia).
      rewrite length_take, lookup_drop. f_equal. lia.
    + rewrite !lookup_ge_None_2; [done|lia|].
      rewrite length_app, length_take, length_drop. lia.
Qed.

Lemma bit_overflow bs i : (8 * length bs <= i)%nat → bit bs i = false.
Proof.
  intros Hi. unfold bit. rewrite nth_overflow; [by rewrite Z.bits_0|].
  apply Nat.div_le_lower_bound; lia.
Qed.

Lemma bit_at bs q r : (r < 8)%nat → bit bs (8 * q + r) = Z.testbit (nth q bs 0) (7 - Z.of_nat r).
Proof.
  intros Hr. unfold bit.
  rewrite Nat.mul_comm, Nat.div_add_l by lia.
  rewrite Nat.div_small by done. rewrite Nat.add_0_r.
  rewrite (Nat.add_comm _ r), Nat.Div0.mod_add by lia.
  by rewrite Nat.mod_small.
Qed.

(** Two byte strings of the same length are equal when their bits are. *)
Lemma bytes_bit_ext bs1 bs2 :
  length bs1 = length bs2 → bytes_ok bs1 → bytes_ok bs2 →
  (∀ i, (i < 8 * length bs1)%nat → bit bs1 i = bit bs2 i) → bs1 = bs2.
Proof.
  intros Hl Hok1 Hok2 Hbits. apply (nth_ext _ _ 0 0 Hl). intros q Hq.
  apply Z.bits_inj'. intros i Hi. destruct (decide (i < 8)) as [Hi8|].
  - specialize (Hbits (8 * q + Z.to_nat (7 - i))%nat ltac:(lia)).
    rewrite !bit_at in Hbits by lia.
    by replace (7 - Z.of_nat (Z.to_nat (7 - i))) with i in Hbits by lia.
  - rewrite !(in_range_testbit 8) by (auto with uqda || lia). done.
Qed.

Lemma length_or_at l i v : length (or_at l i v) = length l.
Proof. apply length_alter. Qed.

Lemma nth_or_at l i v j :
  (i < length l)%nat → nth j (or_at l i v) 0 = if decide (i = j) then Z.lor (nth j l 0) v else nth j l 0.
Proof.
  intros Hi. rewrite !nth_lookup. unfold or_at.
  destruct (decide (i = j)) as [->|Hne].
  - rewrite list_lookup_alter_eq. destruct (lookup_lt_is_Some_2 l j Hi) as [x ->]. done.
  - by rewrite list_lookup_alter_ne.
Qed.

Lemma bytes_ok_or_at l i v : bytes_ok l → is_byte v → bytes_ok (or_at l i v).
Proof.
  intros Hl Hv. apply Forall_alter; [done|]. intros x Hx Hbx.
  by apply lor_in_range.
Qed.

#[export] Hint Resolve bytes_ok_or_at : uqda.

(** Or-ing the mask of one bit position sets that bit and no other. *)
Lemma bit_or_at l i (b : bool) j :
  (i < 8 * length l)%nat →
  bit (or_at l (i / 8) (Z.b2z b * 2 ^ (7 - Z.of_nat (i mod 8)))) j =
    bit l j || (bool_decide (i = j) && b).
Proof.
  intros Hi. unfold bit. rewrite nth_or_at by (apply Nat.Div0.div_lt_upper_bound; lia).
  pose proof (Nat.mod_upper_bound i 8). pose proof (Nat.mod_upper_bound j 8).
  destruct (decide (i / 8 = j / 8)%nat) as [Hq|Hq].
  - rewrite Z.lor_spec. f_equal.
    destruct b; simpl Z.b2z; rewrite ?Z.mul_1_l, ?Z.mul_0_l, ?andb_true_r, ?andb_false_r, ?Z.bits_0; [|done].
    rewrite Z.pow2_bits_eqb by lia.
    destruct (decide (i = j)) as [->|Hne].
    + rewrite bool_decide_true by done. by apply Z.eqb_eq.
    + rewrite bool_decide_false by done. apply Z.eqb_neq.
      rewrite (Nat.div_mod_eq i 8), (Nat.div_mod_eq j 8) in Hne. lia.
  - rewrite bool_decide_false by congruence. by rewrite orb_false_r.
Qed.

Lemma bit_nil i : bit [] i = false.
Proof. apply bit_overflow. simpl. lia. Qed.

Lemma bit_app_l bs1 bs2 i : (i < 8 * length bs1)%nat → bit (bs1 ++ bs2) i = bit bs1 i.
Proof.
  intros Hi. unfold bit. rewrite app_nth1; [done|].
  apply Nat.Div0.div_lt_upper_bound. lia.
Qed.

Lemma bit_app_r bs1 bs2 i : bit (bs1 ++ bs2) (8 * length bs1 + i) = bit bs2 i.
Proof.
  pose proof (Nat.mod_upper_bound i 8).
  rewrite (Nat.div_mod_eq i 8) at 1.
  replace (8 * length bs1 + (8 * (i / 8) + i mod 8))%nat
    with (8 * (length bs1 + i / 8) + i mod 8)%nat by lia.
  rewrite bit_at by lia. rewrite app_nth2_plus. done.
Qed.

(** Copying into a zeroed buffer keeps the bits that fit. *)
Lemma bit_copy_zeros n src j :
  bit (copy (replicate n 0) src) j = if decide (j < 8 * n)%nat then bit src j else false.
Proof.
  destruct (decide (j < 8 * n)%nat) as [Hj|Hj].
  - unfold bit. f_equal. rewrite nth_copy, length_replicate.
    destruct (decide _) as [|Hn]; [done|].
    assert (j / 8 < n)%nat by (apply Nat.Div0.div_lt_upper_bound; lia).
    rewrite (nth_overflow src) by lia. by rewrite nth_lookup, lookup_replicate_2.
  - apply bit_overflow. rewrite length_copy, length_replicate. lia.
Qed.

Lemma if_same {A} (P : Prop) `{Decision P} (x : A) : (if decide P then x else x) = x.
Proof. by destruct (decide P). Qed.

Lemma bit_replicate_0 n i : bit (replicate n 0) i = false.
Proof.
  unfold bit. rewrite nth_lookup. destruct (replicate n 0 !! (i / 8)%nat) as [x|] eqn:Hx; simpl.
  - apply lookup_replicate in Hx as [-> _]. apply Z.bits_0.
  - apply Z.bits_0.
Qed.

Lemma bit_mask_byte (b : bool) (m : nat) :
  (m < 8)%nat → is_byte (Z.b2z b * 2 ^ (7 - Z.of_nat m)).
Proof. intros Hm. destruct b; do 8 (destruct m as [|m]; [done|]); lia. Qed.

(** ** Loops *)

(** Invariant rule for a [for idx := 0; idx < n; idx++] loop. *)
Lemma foldl_seq_ind {A} (P : nat → A → Prop) (step : A → nat → A) (init : A) (n : nat) :
  P 0%nat init → (∀ i st, (i < n)%nat → P i st → P (S i) (step st i)) →
  P n (foldl step init (seq 0 n)).
Proof.
  intros H0 HS. induction n as [|n IH]; [done|].
  rewrite seq_S, foldl_snoc. apply HS; [lia|]. apply IH. intros. apply HS; [lia|done].
Qed.
