(* ===== verification/Binary.v ===== *)
(** * Binary: the parts of Go's [encoding/binary] that the sources use

    Unsigned varints ([AppendUvarint], [PutUvarint], [Uvarint]) and fixed-width
    big-endian integers.  They belong to Go's standard library, so they have no
    lines under src/; every wire format of the development is built on them. *)

From S2P Require Import Prelude.

(** The bytes that [AppendUvarint] and [PutUvarint] write.  A [uint64] needs at
    most ten of them, so nine continuation bytes are enough. *)
Fixpoint uvarint_bytes (fuel : nat) (x : Z) : bytes :=
  match fuel with
  | O => [u8 x]
  | S fuel =>
      if 0x80 <=? x then Z.lor (u8 x) 0x80 :: uvarint_bytes fuel (Z.shiftr x 7)
      else [u8 x]
  end.

Definition uvarint (x : Z) : bytes := uvarint_bytes 9 x.

Definition AppendUvarint (buf : bytes) (x : Z) : bytes := buf ++ uvarint x.

(** [PutUvarint(b[:], u)] on a buffer that is long enough returns the number
    of bytes written. *)
Definition PutUvarint_len (x : Z) : Z := len (uvarint x).

Definition MaxVarintLen64 : Z := 10.

(** [Uvarint]: the value and the number of bytes read; [0] bytes when the
    buffer is too small, a negative number on overflow. *)
Fixpoint Uvarint_loop (buf : bytes) (i x s : Z) : Z * Z :=
  match buf with
  | [] => (0, 0)
  | b :: buf =>
      if i =? MaxVarintLen64 then (0, - (i + 1))
      else if b <? 0x80 then
        if (i =? MaxVarintLen64 - 1) && (1 <? b) then (0, - (i + 1))
        else (Z.lor x (u64 (Z.shiftl b s)), i + 1)
      else Uvarint_loop buf (i + 1) (Z.lor x (u64 (Z.shiftl (Z.land b 0x7f) s))) (s + 7)
  end.

Definition Uvarint (buf : bytes) : Z * Z := Uvarint_loop buf 0 0 0.

(** Big-endian integers: the most significant byte comes first. *)
Fixpoint be_bytes (n : nat) (x : Z) : bytes :=
  match n with
  | O => []
  | S n => u8 (Z.shiftr x (8 * Z.of_nat n)) :: be_bytes n x
  end.

Definition be_val (bs : bytes) : Z := foldl (λ acc b, Z.lor (Z.shiftl acc 8) b) 0 bs.

(** ** Varints *)

Lemma lor_shiftl_add x b s : in_range s x → 0 <= s → Z.lor x (Z.shiftl b s) = x + b * 2 ^ s.
Proof.
  intros Hx Hs. rewrite <- Z.shiftl_mul_pow2 by done. rewrite <- Z.add_lor_land.
  assert (Z.land x (Z.shiftl b s) = 0) as ->; [|lia].
  apply Z.bits_inj'. intros i Hi. rewrite Z.land_spec, Z.bits_0.
  destruct (decide (i < s)).
  - rewrite Z.shiftl_spec_low by done. apply andb_false_r.
  - rewrite (in_range_testbit s) by (done || lia). done.
Qed.

Lemma uvarint_step_byte x :
  0 <= x → let b := Z.lor (u8 x) 0x80 in
  is_byte b ∧ 0x80 <= b ∧ Z.land b 0x7f = x mod 128.
Proof.
  intros Hx b.
  assert (is_byte b) as Hb by (apply lor_in_range; [lia|by apply wrap_in_range|done]).
  assert (Z.testbit b 7 = true) as H7.
  { unfold b. rewrite Z.lor_spec. apply orb_true_r. }
  split_and!; [done| |].
  - destruct (decide (0x80 <= b)); [done|].
    rewrite (in_range_testbit 7 b) in H7; [done|split; [by destruct Hb|lia]|lia].
  - unfold b. change 0x7f with (Z.ones 7). rewrite Z.land_ones by lia.
    apply Z.bits_inj'. intros i Hi. change 128 with (2 ^ 7).
    destruct (decide (i < 7)).
    + rewrite !Z.mod_pow2_bits_low by lia. rewrite Z.lor_spec.
      unfold wrap. rewrite Z.mod_pow2_bits_low by lia.
      change (2 ^ 7) with (2 ^ 7). rewrite (Z.pow2_bits_false 7) by lia. apply orb_false_r.
    + by rewrite !Z.mod_pow2_bits_high by lia.
Qed.

Lemma uvarint_bytes_ok fuel x : 0 <= x → bytes_ok (uvarint_bytes fuel x).
Proof.
  revert x. induction fuel as [|fuel IH]; intros x Hx; simpl.
  - solve_bytes.
  - destruct (0x80 <=? x); [|solve_bytes].
    apply Forall_cons_2; [by apply uvarint_step_byte|].
    apply IH. by apply Z.shiftr_nonneg.
Qed.

(** The last byte of a varint. *)
Lemma Uvarint_loop_last x i acc rest :
  0 <= i <= 9 → 0 <= x < 128 → in_range (7 * i) acc → x * 2 ^ (7 * i) < 2 ^ 64 →
  Uvarint_loop (u8 x :: rest) i acc (7 * i) = (acc + x * 2 ^ (7 * i), i + 1).
Proof.
  intros Hi Hx Hacc Hlt. assert (0 < 2 ^ (7 * i)) as Hpos by (apply Z.pow_pos_nonneg; lia).
  rewrite wrap_small by (unfold in_range; lia). cbn [Uvarint_loop]. unfold MaxVarintLen64.
  rewrite (proj2 (Z.eqb_neq i 10)) by lia. rewrite (proj2 (Z.ltb_lt x 128)) by lia.
  destruct ((i =? 10 - 1) && (1 <? x)) eqn:Hov.
  - bool_to_prop. subst. replace (7 * (10 - 1)) with 63 in Hlt by lia. lia.
  - rewrite wrap_small by (rewrite Z.shiftl_mul_pow2 by lia; unfold in_range; nia).
    by rewrite lor_shiftl_add by (done || lia).
Qed.

Lemma Uvarint_loop_bytes fuel x i acc rest :
  0 <= i → i + Z.of_nat fuel <= 9 → in_range (7 * (Z.of_nat fuel + 1)) x →
  in_range (7 * i) acc → x * 2 ^ (7 * i) < 2 ^ 64 →
  Uvarint_loop (uvarint_bytes fuel x ++ rest) i acc (7 * i) =
    (acc + x * 2 ^ (7 * i), i + len (uvarint_bytes fuel x)).
Proof.
  revert x i acc. induction fuel as [|fuel IH]; intros x i acc Hi0 Hi Hx Hacc Hlt.
  - unfold in_range in Hx. simpl in Hx. cbn [uvarint_bytes app].
    by rewrite Uvarint_loop_last by (done || lia).
  - cbn [uvarint_bytes]. destruct (Z.leb_spec 0x80 x) as [Hge|Hsmall].
    + unfold in_range in Hx.
      destruct (uvarint_step_byte x ltac:(lia)) as (Hb & Hb80 & Hland).
      set (b := Z.lor (u8 x) 0x80) in *. cbn [app Uvarint_loop].
      assert (0 < 2 ^ (7 * i)) as Hpos by (apply Z.pow_pos_nonneg; lia).
      rewrite (proj2 (Z.eqb_neq i _)) by (unfold MaxVarintLen64; lia).
      rewrite (proj2 (Z.ltb_ge b 128)) by lia. rewrite Hland.
      assert (0 <= x mod 128 < 128) by (apply Z.mod_pos_bound; lia).
      pose proof (Z.div_mod x 128 ltac:(lia)) as Hdm.
      assert (0 <= x / 128) by (apply Z.div_pos; lia).
      assert (2 ^ (7 * (i + 1)) = 128 * 2 ^ (7 * i)) as Hp.
      { replace (7 * (i + 1)) with (7 + 7 * i) by lia. by rewrite Z.pow_add_r by lia. }
      rewrite wrap_small by (rewrite Z.shiftl_mul_pow2 by lia; unfold in_range; nia).
      rewrite lor_shiftl_add by (done || lia).
      replace (7 * i + 7) with (7 * (i + 1)) by lia.
      rewrite Z.shiftr_div_pow2 by lia. change (2 ^ 7) with 128.
      rewrite IH; [|lia|lia| | |].
      * f_equal; [rewrite Hp; nia|]. unfold len. simpl length. lia.
      * split; [done|]. apply Z.div_lt_upper_bound; [lia|].
        change 128 with (2 ^ 7). rewrite <- Z.pow_add_r by lia.
        replace (7 + 7 * (Z.of_nat fuel + 1)) with (7 * (Z.of_nat (S fuel) + 1)) by lia. lia.
      * unfold in_range in *. rewrite Hp. nia.
      * rewrite Hp. nia.
    + cbn [app]. unfold in_range in Hx. by rewrite Uvarint_loop_last by (done || lia).
Qed.

(** Reading back a varint, whatever follows it. *)
Lemma Uvarint_uvarint x rest : is_u64 x → Uvarint (uvarint x ++ rest) = (x, len (uvarint x)).
Proof.
  intros Hx. unfold Uvarint, uvarint.
  pose proof (Uvarint_loop_bytes 9 x 0 0 rest) as Hloop.
  change (7 * 0) with 0 in Hloop. rewrite Z.pow_0_r, Z.mul_1_r, !Z.add_0_l in Hloop.
  apply Hloop; [lia|lia| |by unfold in_range|by destruct Hx].
  eapply in_range_mono; [|exact Hx]. lia.
Qed.

Lemma uvarint_ok x : 0 <= x → bytes_ok (uvarint x).
Proof. apply uvarint_bytes_ok. Qed.

Lemma uvarint_bytes_len fuel x : 1 <= len (uvarint_bytes fuel x) <= Z.of_nat fuel + 1.
Proof.
  revert x. induction fuel as [|fuel IH]; intros x; cbn [uvarint_bytes]; [done|].
  unfold len in *. destruct (0x80 <=? x); simpl length; [|lia].
  specialize (IH (Z.shiftr x 7)). lia.
Qed.

Lemma uvarint_len x : 1 <= len (uvarint x) <= 10.
Proof. apply uvarint_bytes_len. Qed.

(** The value read and the number of bytes consumed are always in range. *)
Lemma Uvarint_loop_bound buf i x s :
  0 <= i → let '(u, n) := Uvarint_loop buf i x s in
  n <= 0 ∨ (is_u64 x → is_u64 u) ∧ i < n <= i + len buf.
Proof.
  unfold len. revert i x s. induction buf as [|b buf IH]; intros i x s Hi; simpl; [by left; lia|].
  destruct (i =? MaxVarintLen64); [left; lia|].
  destruct (b <? 0x80).
  - destruct (_ && _); [left; lia|]. right. split; [|lia]. intros Hx.
    apply lor_in_range; [lia|done|by apply wrap_in_range].
  - specialize (IH (i + 1) (Z.lor x (u64 (Z.shiftl (Z.land b 0x7f) s))) (s + 7) ltac:(lia)).
    destruct (Uvarint_loop _ _ _ _) as [u n]. destruct IH as [IH|[IH IHn]]; [by left|right].
    split; [|lia]. intros Hx. apply IH.
    apply lor_in_range; [lia|done|by apply wrap_in_range].
Qed.

Lemma Uvarint_bound buf u n :
  Uvarint buf = (u, n) → 0 < n → is_u64 u ∧ n <= len buf.
Proof.
  intros Heq Hn. pose proof (Uvarint_loop_bound buf 0 0 0 ltac:(lia)) as Hb.
  unfold Uvarint in Heq. rewrite Heq in Hb. destruct Hb as [?|[Hb Hl]]; [lia|].
  split; [|lia]. by apply Hb.
Qed.

(** ** Big-endian integers *)

Lemma length_be_bytes n x : length (be_bytes n x) = n.
Proof. induction n; simpl; congruence. Qed.

Lemma be_bytes_ok n x : bytes_ok (be_bytes n x).
Proof. induction n; simpl; solve_bytes. Qed.

#[export] Hint Resolve be_bytes_ok uvarint_ok : uqda.

Lemma be_val_snoc bs b : be_val (bs ++ [b]) = Z.lor (Z.shiftl (be_val bs) 8) b.
Proof. unfold be_val. by rewrite foldl_snoc. Qed.

Lemma be_bytes_snoc n x : be_bytes (S n) x = be_bytes n (Z.shiftr x 8) ++ [u8 x].
Proof.
  induction n as [|n IH]; [simpl; by rewrite Z.shiftr_0_r|].
  cbn [be_bytes] in IH |- *. rewrite IH. rewrite Z.shiftr_shiftr by lia.
  simpl. f_equal. do 2 f_equal. lia.
Qed.

Lemma lor_shiftl8 x b : is_byte b → Z.lor (Z.shiftl x 8) b = 256 * x + b.
Proof.
  intros Hb. rewrite Z.lor_comm, lor_shiftl_add by (done || lia). lia.
Qed.

Lemma be_val_bytes n x : be_val (be_bytes n x) = x mod 2 ^ (8 * Z.of_nat n).
Proof.
  revert x. induction n as [|n IH]; intros x; [simpl; by rewrite Z.mod_1_r|].
  rewrite be_bytes_snoc, be_val_snoc, IH, lor_shiftl8 by (by apply wrap_in_range).
  rewrite Z.shiftr_div_pow2 by lia. unfold wrap. change (2 ^ 8) with 256.
  replace (8 * Z.of_nat (S n)) with (8 + 8 * Z.of_nat n) by lia.
  rewrite Z.pow_add_r by lia. change (2 ^ 8) with 256.
  rewrite Z.rem_mul_r by (lia || apply Z.pow_pos_nonneg; lia). lia.
Qed.

Lemma be_val_bytes_small n x : in_range (8 * Z.of_nat n) x → be_val (be_bytes n x) = x.
Proof. intros Hx. rewrite be_val_bytes. by apply wrap_small. Qed.

Lemma be_val_bound bs : bytes_ok bs → in_range (8 * len bs) (be_val bs).
Proof.
  unfold len. induction bs as [|b bs IH] using rev_ind; intros Hok; [done|].
  apply bytes_ok_app in Hok as [Hok Hb]. apply Forall_cons in Hb as [Hb _].
  rewrite be_val_snoc, lor_shiftl8, length_app by done. simpl.
  specialize (IH Hok). unfold in_range in *.
  replace (8 * Z.of_nat (length bs + 1)) with (8 + 8 * Z.of_nat (length bs)) by lia.
  rewrite Z.pow_add_r by lia. change (2 ^ 8) with 256 in *. lia.
Qed.

Lemma be_bytes_val bs : bytes_ok bs → be_bytes (length bs) (be_val bs) = bs.
Proof.
  induction bs as [|b bs IH] using rev_ind; intros Hok; [done|].
  apply bytes_ok_app in Hok as [Hok Hb]. apply bytes_ok_cons in Hb as [Hb _].
  rewrite length_app, Nat.add_comm. simpl (length [b] + _)%nat.
  rewrite be_bytes_snoc, be_val_snoc, (lor_shiftl8 _ _ Hb). unfold in_range in Hb. change (2 ^ 8) with 256 in Hb.
  f_equal.
  - rewrite Z.shiftr_div_pow2 by lia. change (2 ^ 8) with 256.
    replace ((256 * be_val bs + b) / 256) with (be_val bs); [by apply IH|].
    apply (Z.div_unique _ _ _ b); lia.
  - f_equal. unfold wrap. change (2 ^ 8) with 256. symmetry. apply (Z.mod_unique _ _ (be_val bs)); lia.
Qed.
