(* ===== verification/Wire.v ===== *)
(** * Wire: the wire format of the routing layer
    (third_party/ironwood/network/wire.go, third_party/ironwood/types/errors.go)

    [out] and [data] slices are passed and returned explicitly: a [wireChop*]
    helper that returns [false] is [None], one that returns [true] is the value
    read with the rest of the data. *)

From S2P Require Import Prelude Binary.

(** [types.Error]. *)
Inductive iw_error :=
| ErrUndefined | ErrEncode | ErrDecode | ErrClosed | ErrTimeout | ErrBadMessage
| ErrEmptyMessage | ErrOversizedMessage | ErrUnrecognizedMessage | ErrPeerNotFound
| ErrBadAddress | ErrBadKey.

#[export] Instance iw_error_eq_dec : EqDecision iw_error.
Proof. solve_decision. Defined.

(** [wirePacketType]. *)
Inductive wirePacketType :=
| wireDummy | wireKeepAlive | wireProtoSigReq | wireProtoSigRes | wireProtoAnnounce
| wireProtoBloomFilter | wireProtoPathLookup | wireProtoPathNotify | wireProtoPathBroken
| wireTraffic.

Definition wireType_byte (t : wirePacketType) : byte :=
  match t with
  | wireDummy => 0 | wireKeepAlive => 1 | wireProtoSigReq => 2 | wireProtoSigRes => 3
  | wireProtoAnnounce => 4 | wireProtoBloomFilter => 5 | wireProtoPathLookup => 6
  | wireProtoPathNotify => 7 | wireProtoPathBroken => 8 | wireTraffic => 9
  end.

Definition wireType_of_byte (b : byte) : option wirePacketType :=
  if b =? 0 then Some wireDummy else if b =? 1 then Some wireKeepAlive
  else if b =? 2 then Some wireProtoSigReq else if b =? 3 then Some wireProtoSigRes
  else if b =? 4 then Some wireProtoAnnounce else if b =? 5 then Some wireProtoBloomFilter
  else if b =? 6 then Some wireProtoPathLookup else if b =? 7 then Some wireProtoPathNotify
  else if b =? 8 then Some wireProtoPathBroken else if b =? 9 then Some wireTraffic
  else None.

Definition wireChopSlice (n : nat) (data : bytes) : option (bytes * bytes) :=
  if len data <? Z.of_nat n then None else Some (take n data, drop n data).

Definition wireChopBytes (out data : bytes) (size : Z) : option (bytes * bytes) :=
  if len data <? size then None
  else Some (out ++ take (Z.to_nat size) data, drop (Z.to_nat size) data).

Definition wireChopUint (data : bytes) : option (Z * bytes) :=
  let '(u, l) := Uvarint data in
  if l <=? 0 then None else Some (u, drop (Z.to_nat l) data).

Definition wireSizeUint (u : Z) : Z := PutUvarint_len u.

Definition wireAppendUint (out : bytes) (u : Z) : bytes := AppendUvarint out u.

(** [wireEncodeable]: what the writer needs of a message. *)
Class WireEncodeable (A : Type) := {
  wsize : A → Z;
  wencode : bytes → A → res iw_error bytes;
}.

Definition wireEncode `{WireEncodeable A} (out : bytes) (pType : byte) (obj : A) : res iw_error bytes :=
  let out := out ++ [pType] in
  match wencode out obj with
  | Ok out => Ok out
  | Err e => Err e
  | Panic => Panic
  end.

Definition wireSizePath (path : list Z) : Z :=
  foldl (λ size port, size + wireSizeUint port) 0 path + wireSizeUint 0.

Definition wireAppendPath (dest : bytes) (path : list Z) : bytes :=
  wireAppendUint (foldl wireAppendUint dest path) 0.

(** The loop of [wireDecodePath].  Every iteration consumes at least one byte,
    so the length of the source plus one iterations are enough
    ([wireDecodePath_fuel]). *)
Fixpoint wireDecodePath_loop (fuel : nat) (path : list Z) (bs : bytes) : option (list Z * bytes) :=
  match fuel with
  | O => None
  | S fuel =>
      match wireChopUint bs with
      | None => None
      | Some (u, bs) =>
          if u =? 0 then Some (path, bs) else wireDecodePath_loop fuel (path ++ [u]) bs
      end
  end.

Definition wireDecodePath (path : list Z) (source : bytes) : list Z * Z :=
  match wireDecodePath_loop (S (length source)) path source with
  | None => ([], -1)
  | Some (path, bs) => (path, len source - len bs)
  end.

Definition wireChopPath (out : list Z) (data : bytes) : option (list Z * bytes) :=
  let '(path, length) := wireDecodePath [] data in
  if length <? 0 then None else Some (out ++ path, drop (Z.to_nat length) data).

(** A message type with its codec: what the sender writes, the receiver reads
    back.  [wf] is what the fields of the Go struct guarantee by their types
    (array lengths, [uint64] ranges) together with the zero-freedom of paths. *)
Class WireMessage (A : Type) `{WireEncodeable A} := {
  wdecode : bytes → res iw_error A;
  wf : A → Prop;
  wpayload : A → bytes;
  wencode_payload : ∀ x out, wf x → wencode out x = Ok (out ++ wpayload x);
  wsize_payload : ∀ x, wf x → wsize x = len (wpayload x);
  wdecode_payload : ∀ x, wf x → wdecode (wpayload x) = Ok x;
}.

(** ** Properties *)

Lemma wireType_roundtrip t : wireType_of_byte (wireType_byte t) = Some t.
Proof. by destruct t. Qed.

Lemma wireChopSlice_app a rest n : length a = n → wireChopSlice n (a ++ rest) = Some (a, rest).
Proof.
  intros <-. unfold wireChopSlice, len. rewrite length_app.
  rewrite (proj2 (Z.ltb_ge _ _)) by lia. by rewrite take_app_length, drop_app_length.
Qed.

Lemma wireChopUint_app u rest : is_u64 u → wireChopUint (uvarint u ++ rest) = Some (u, rest).
Proof.
  intros Hu. unfold wireChopUint. rewrite Uvarint_uvarint by done.
  pose proof (uvarint_len u). rewrite (proj2 (Z.leb_gt _ _)) by lia.
  unfold len. by rewrite Nat2Z.id, drop_app_length.
Qed.

Lemma wireChopUint_shorter data u rest :
  wireChopUint data = Some (u, rest) → (length rest < length data)%nat.
Proof.
  unfold wireChopUint. destruct (Uvarint data) as [u' l] eqn:Hu.
  destruct (Z.leb_spec l 0); [done|]. intros. simplify_eq.
  destruct (Uvarint_bound _ _ _ Hu) as [_ Hl]; [done|]. unfold len in Hl.
  rewrite length_drop. lia.
Qed.

Lemma wireAppendUint_app out u : wireAppendUint out u = out ++ uvarint u.
Proof. done. Qed.

(** The bytes of a path: its ports, then the terminating zero. *)
Definition path_bytes (path : list Z) : bytes := concat (uvarint <$> path) ++ uvarint 0.

Lemma foldl_wireAppendUint out path :
  foldl wireAppendUint out path = out ++ concat (uvarint <$> path).
Proof.
  revert out. induction path as [|u path IH]; intros out; simpl; [by rewrite app_nil_r|].
  rewrite IH, wireAppendUint_app. by rewrite app_assoc.
Qed.

Lemma wireAppendPath_app out path : wireAppendPath out path = out ++ path_bytes path.
Proof.
  unfold wireAppendPath, path_bytes. rewrite foldl_wireAppendUint, wireAppendUint_app.
  by rewrite <- app_assoc.
Qed.

Lemma len_app {A} (l1 l2 : list A) : len (l1 ++ l2) = len l1 + len l2.
Proof. unfold len. rewrite length_app. lia. Qed.

Lemma len_nonneg {A} (l : list A) : 0 <= len l.
Proof. unfold len. lia. Qed.

Lemma wireSizePath_len path : wireSizePath path = len (path_bytes path).
Proof.
  unfold wireSizePath, path_bytes, wireSizeUint, PutUvarint_len. rewrite len_app. f_equal.
  assert (∀ z, foldl (λ size port, size + len (uvarint port)) z path =
               z + len (concat (uvarint <$> path))) as Hf.
  { induction path as [|u path IH]; intros z; csimpl; [unfold len; simpl; lia|].
    rewrite IH, len_app. lia. }
  rewrite Hf. lia.
Qed.

Lemma wireDecodePath_fuel fuel fuel' path bs :
  (length bs < fuel)%nat → (length bs < fuel')%nat →
  wireDecodePath_loop fuel path bs = wireDecodePath_loop fuel' path bs.
Proof.
  revert fuel' path bs. induction fuel as [|fuel IH]; intros [|fuel'] path bs Hf Hf'; simpl; try lia.
  destruct (wireChopUint bs) as [[u bs']|] eqn:Hc; [|done].
  apply wireChopUint_shorter in Hc. destruct (u =? 0); [done|]. apply IH; lia.
Qed.

(** The ports of a path are positive [uint64]s: zero terminates a path. *)
Definition path_ok (path : list Z) : Prop := Forall (λ u, is_u64 u ∧ u ≠ 0) path.

Lemma wireDecodePath_loop_app fuel acc path rest :
  path_ok path → (length path < fuel)%nat →
  wireDecodePath_loop fuel acc (path_bytes path ++ rest) = Some (acc ++ path, rest).
Proof.
  revert fuel acc. induction path as [|u path IH]; intros [|fuel] acc Hp Hf; simpl in Hf; try lia;
    cbn [wireDecodePath_loop].
  - unfold path_bytes. simpl concat. rewrite app_nil_l, wireChopUint_app by done.
    by rewrite app_nil_r.
  - apply Forall_cons in Hp as [[Hu Hnz] Hp].
    unfold path_bytes. csimpl. rewrite <- !app_assoc.
    rewrite wireChopUint_app by done. rewrite (proj2 (Z.eqb_neq _ _)) by done.
    rewrite app_assoc. fold (path_bytes path). rewrite IH by (done || lia).
    by rewrite <- app_assoc.
Qed.

Lemma path_bytes_length path : (length path < length (path_bytes path))%nat.
Proof.
  unfold path_bytes. induction path as [|u path IH]; [simpl; lia|].
  csimpl. rewrite <- app_assoc, length_app.
  pose proof (uvarint_len u) as Hu. unfold len in Hu. simpl length. lia.
Qed.

Lemma wireChopPath_app out path rest :
  path_ok path → wireChopPath out (path_bytes path ++ rest) = Some (out ++ path, rest).
Proof.
  intros Hp. unfold wireChopPath, wireDecodePath.
  pose proof (path_bytes_length path).
  rewrite wireDecodePath_loop_app by (done || (rewrite length_app; lia)).
  rewrite len_app. pose proof (len_nonneg (path_bytes path)).
  rewrite (proj2 (Z.ltb_ge _ _)) by lia.
  replace (len (path_bytes path) + len rest - len rest) with (len (path_bytes path)) by lia.
  unfold len. by rewrite Nat2Z.id, drop_app_length.
Qed.

(** The same lemmas at the end of the data. *)
Lemma wireChopSlice_end a n : length a = n → wireChopSlice n a = Some (a, []).
Proof. intros. rewrite <- (app_nil_r a) at 1. by apply wireChopSlice_app. Qed.

Lemma wireChopUint_end u : is_u64 u → wireChopUint (uvarint u) = Some (u, []).
Proof. intros. rewrite <- (app_nil_r (uvarint u)). by apply wireChopUint_app. Qed.

Lemma wireChopPath_end out path : path_ok path → wireChopPath out (path_bytes path) = Some (out ++ path, []).
Proof. intros. rewrite <- (app_nil_r (path_bytes path)). by apply wireChopPath_app. Qed.

#[export] Hint Rewrite wireChopSlice_app wireChopUint_app wireChopPath_app
  wireChopSlice_end wireChopUint_end wireChopPath_end using (first [done | assumption]) : wire.
#[export] Hint Rewrite wireAppendUint_app wireAppendPath_app wireSizePath_len @len_app : wire_enc.

(** What a successful read guarantees about the value. *)
Lemma wireChopSlice_Some n data a rest : wireChopSlice n data = Some (a, rest) → length a = n.
Proof.
  unfold wireChopSlice. destruct (Z.ltb_spec (len data) (Z.of_nat n)); [done|].
  intros. simplify_eq. rewrite length_take. unfold len in *. lia.
Qed.

Lemma wireChopSlice_split n data a rest : wireChopSlice n data = Some (a, rest) → data = a ++ rest.
Proof.
  unfold wireChopSlice. destruct (_ <? _); [done|]. intros. simplify_eq. by rewrite take_drop.
Qed.

Lemma wireChopUint_Some data u rest : wireChopUint data = Some (u, rest) → is_u64 u.
Proof.
  unfold wireChopUint. destruct (Uvarint data) as [u' l] eqn:Hu.
  destruct (Z.leb_spec l 0); [done|]. intros. simplify_eq.
  by destruct (Uvarint_bound _ _ _ Hu) as [? _].
Qed.

Lemma wireDecodePath_loop_Some fuel acc bs path rest :
  path_ok acc → wireDecodePath_loop fuel acc bs = Some (path, rest) → path_ok path.
Proof.
  revert acc bs. induction fuel as [|fuel IH]; intros acc bs Hacc; [done|]. cbn [wireDecodePath_loop].
  destruct (wireChopUint bs) as [[u bs']|] eqn:Hc; [|done].
  destruct (Z.eqb_spec u 0); [naive_solver|]. apply IH, Forall_app_2; [done|].
  constructor; [|done]. split; [|done]. by eapply wireChopUint_Some.
Qed.

Lemma wireChopPath_Some data path rest : wireChopPath [] data = Some (path, rest) → path_ok path.
Proof.
  unfold wireChopPath, wireDecodePath.
  destruct (wireDecodePath_loop _ _ _) as [[p bs]|] eqn:Hl; [|done].
  apply wireDecodePath_loop_Some in Hl; [|constructor].
  destruct (_ <? 0); [done|]. naive_solver.
Qed.
