(* ===== verification/GoHeap.v ===== *)
(** * The heap of Go's standard library

    The functions of container/heap that the packet queues use: [up], [down],
    [Fix] and [Remove], on the list of the elements.  [Less] is the comparison of
    the heap's interface, which can panic; [Swap] exchanges two positions; the
    [Pop] at the end of [Remove] belongs to the client, so [heap_Remove] stops
    before it, with the removed element in the last place. *)

From S2P Require Import Prelude Wire.

Section Heap.
Context {A : Type} (Less : A → A → res iw_error bool).

Definition Swap (i j : nat) (h : list A) : list A :=
  match h !! i, h !! j with
  | Some x, Some y => <[i := y]> (<[j := x]> h)
  | _, _ => h
  end.

(** [h.Less(i, j)]: an index out of range panics. *)
Definition heap_less (h : list A) (i j : nat) : res iw_error bool :=
  match h !! i, h !! j with
  | Some x, Some y => Less x y
  | _, _ => Panic
  end.

(** In Go [(0 - 1) / 2] is [0], as it is for natural numbers. *)
Definition parent (j : nat) : nat := ((j - 1) / 2)%nat.

Fixpoint heap_up (fuel : nat) (h : list A) (j : nat) : res iw_error (list A) :=
  match fuel with
  | O => Ok h
  | S fuel =>
      let i := parent j in
      if decide (i = j) then Ok h
      else
        less ← heap_less h j i;
        if negb less then Ok h else heap_up fuel (Swap i j h) i
  end.

(** The result: the heap and the position where the loop ended. *)
Fixpoint heap_down (fuel : nat) (h : list A) (i n : nat) : res iw_error (list A * nat) :=
  match fuel with
  | O => Ok (h, i)
  | S fuel =>
      let j1 := (2 * i + 1)%nat in
      if decide (n <= j1)%nat then Ok (h, i)
      else
        let j2 := S j1 in
        right ← (if decide (j2 < n)%nat then heap_less h j2 j1 else Ok false);
        let j := if (right : bool) then j2 else j1 in
        less ← heap_less h j i;
        if negb less then Ok (h, i) else heap_down fuel (Swap i j h) j n
  end.

(** [if !down(h, i, n) { up(h, i) }] *)
Definition heap_settle (h : list A) (i n : nat) : res iw_error (list A) :=
  '(h, i') ← heap_down (length h) h i n;
  if decide (i < i')%nat then Ok h else heap_up (length h) h i.

Definition heap_Fix (h : list A) (i : nat) : res iw_error (list A) :=
  heap_settle h i (length h).

Definition heap_Remove (h : list A) (i : nat) : res iw_error (list A) :=
  let n := (length h - 1)%nat in
  if decide (n = i) then Ok h else heap_settle (Swap i n h) i n.

(** ** Swapping *)

Lemma Swap_lookup i j h k : (i < length h)%nat → (j < length h)%nat →
  Swap i j h !! k = if decide (k = i) then h !! j else if decide (k = j) then h !! i else h !! k.
Proof.
  intros [x Hx]%lookup_lt_is_Some_2 [y Hy]%lookup_lt_is_Some_2. unfold Swap. rewrite Hx, Hy.
  assert (i < length h)%nat by by apply lookup_lt_Some in Hx.
  assert (j < length h)%nat by by apply lookup_lt_Some in Hy.
  destruct (decide (k = i)) as [->|].
  { rewrite list_lookup_insert_eq by (rewrite length_insert; lia). done. }
  rewrite list_lookup_insert_ne by done. destruct (decide (k = j)) as [->|].
  - by rewrite list_lookup_insert_eq by lia.
  - by rewrite list_lookup_insert_ne.
Qed.

Lemma length_Swap i j h : length (Swap i j h) = length h.
Proof. unfold Swap. repeat case_match; by rewrite ?length_insert. Qed.

Lemma Swap_perm i j h : Swap i j h ≡ₚ h.
Proof.
  unfold Swap. destruct (h !! i) as [x|] eqn:Hx; [|done]. destruct (h !! j) as [y|] eqn:Hy; [|done].
  destruct (decide (i = j)) as [->|Hij].
  { simplify_eq. rewrite list_insert_insert_eq. by rewrite list_insert_id. }
  rewrite <- (take_drop_middle h j y Hy) at 2. rewrite (insert_take_drop h j x) by (by eapply lookup_lt_Some).
  set (a := take j h). set (b := drop (S j) h).
  assert (length a = j) as Ha by (apply length_take_le; apply lookup_lt_Some in Hy; lia).
  assert (h = a ++ y :: b) as Hh by (symmetry; by apply take_drop_middle).
  rewrite Hh in Hx. destruct (decide (i < j)%nat).
  - rewrite lookup_app_l in Hx by lia. rewrite insert_app_l by lia.
    rewrite <- (take_drop_middle a i x Hx) at 2. rewrite (insert_take_drop a i y) by lia.
    rewrite <- !app_assoc. simpl. solve_Permutation.
  - rewrite lookup_app_r in Hx by lia. rewrite insert_app_r_alt by lia.
    destruct (i - length a)%nat as [|m] eqn:Hm; [lia|]. simpl in Hx |- *.
    rewrite <- (take_drop_middle b m x Hx) at 2. apply lookup_lt_Some in Hx.
    rewrite (insert_take_drop b m y) by lia. solve_Permutation.
Qed.

(** ** The order of a heap

    [val h k] is the key at position [k]; the elements up to position [n] are
    comparable. *)
Lemma parent_iff c i : (0 < c)%nat → parent c = i ↔ (c = 2 * i + 1 ∨ c = 2 * i + 2)%nat.
Proof.
  intros Hc. unfold parent. pose proof (Nat.div_mod_eq (c - 1) 2).
  pose proof (Nat.mod_upper_bound (c - 1) 2). lia.
Qed.

Lemma parent_lt c : (0 < c)%nat → (parent c < c)%nat.
Proof. intros Hc. pose proof (proj1 (parent_iff c (parent c) Hc) eq_refl). lia. Qed.

Context (P : A → Prop) (key : A → Z) (Hless : ∀ x y, P x → P y → Less x y = Ok (key x <? key y)).

Definition val (h : list A) (k : nat) : Z := default 0 (key <$> h !! k).

Definition defined (n : nat) (h : list A) : Prop :=
  (n <= length h)%nat ∧ ∀ k x, (k < n)%nat → h !! k = Some x → P x.

Definition heap_upto (n : nat) (h : list A) : Prop :=
  ∀ c, (0 < c < n)%nat → val h (parent c) <= val h c.

(** The order holds for all pairs that position [i] is not in, and between the
    parent and the children of [i]. *)
Definition almost (n : nat) (h : list A) (i : nat) : Prop :=
  (∀ c, (0 < c < n)%nat → c ≠ i → parent c ≠ i → val h (parent c) <= val h c) ∧
  (∀ c, (0 < c < n)%nat → parent c = i → (0 < i)%nat → val h (parent i) <= val h c).

Definition same_from (n : nat) (h h' : list A) : Prop :=
  h' ≡ₚ h ∧ ∀ k, (n <= k)%nat → h' !! k = h !! k.

Lemma val_Swap i j h k : (i < length h)%nat → (j < length h)%nat →
  val (Swap i j h) k = if decide (k = i) then val h j else if decide (k = j) then val h i else val h k.
Proof. intros Hi Hj. unfold val. rewrite Swap_lookup by done. by repeat case_decide. Qed.

Lemma heap_less_val n h i j : defined n h → (i < n)%nat → (j < n)%nat →
  heap_less h i j = Ok (val h i <? val h j).
Proof.
  intros [Hn HP] Hi Hj. unfold heap_less, val.
  destruct (lookup_lt_is_Some_2 h i) as [x Hx]; [lia|]. destruct (lookup_lt_is_Some_2 h j) as [y Hy]; [lia|].
  rewrite Hx, Hy. simpl. apply Hless; [by eapply (HP i)|by eapply (HP j)].
Qed.

Lemma defined_Swap n h i j : defined n h → (i < n)%nat → (j < n)%nat → defined n (Swap i j h).
Proof.
  intros [Hn HP] Hi Hj. split; [by rewrite length_Swap|]. intros k x Hk.
  rewrite Swap_lookup by lia. repeat case_decide; intros Hx; eapply HP; try exact Hx; done.
Qed.

Lemma same_from_Swap n h i j : (i < n <= length h)%nat → (j < n)%nat → same_from n h (Swap i j h).
Proof.
  intros Hi Hj. split; [apply Swap_perm|]. intros k Hk. rewrite Swap_lookup by lia.
  by repeat (rewrite decide_False by lia).
Qed.

Lemma same_from_refl n h : same_from n h h.
Proof. done. Qed.

Lemma same_from_trans n h1 h2 h3 : same_from n h1 h2 → same_from n h2 h3 → same_from n h1 h3.
Proof. intros [H1 H2] [H3 H4]. split; [by rewrite H3|]. intros k Hk. by rewrite H4, H2. Qed.

Ltac parents :=
  repeat match goal with
  | H : parent ?c = _ |- _ => apply parent_iff in H; [|lia]
  | H : parent ?c ≠ _ |- _ => rewrite parent_iff in H by lia
  end.

Lemma heap_up_spec fuel h j n :
  defined n h → (j < n)%nat → (j < fuel)%nat →
  (∀ c, (0 < c < n)%nat → c ≠ j → val h (parent c) <= val h c) →
  (∀ c, (0 < c < n)%nat → parent c = j → (0 < j)%nat → val h (parent j) <= val h c) →
  ∃ h', heap_up fuel h j = Ok h' ∧ same_from n h h' ∧ heap_upto n h'.
Proof.
  revert h j. induction fuel as [|fuel IH]; intros h j Hd Hj Hf Hp Hg; [lia|]. simpl.
  destruct (decide (parent j = j)) as [E|Hij].
  { exists h. split_and!; [done..|]. intros c Hc. apply Hp; [lia|]. intros ->.
    pose proof (parent_lt j ltac:(lia)). lia. }
  assert (0 < j)%nat as H0 by (destruct j; [by destruct Hij|lia]).
  pose proof (parent_lt j H0) as Hlt. set (i := parent j) in *.
  rewrite (heap_less_val n) by (done || lia). simpl.
  destruct (Z.ltb_spec (val h j) (val h i)) as [Hl|Hl]; simpl.
  2:{ exists h. split_and!; [done..|]. intros c Hc. destruct (decide (c = j)) as [->|]; [done|by apply Hp]. }
  pose proof (proj1 Hd) as Hn.
  assert (∀ k, val (Swap i j h) k = if decide (k = i) then val h j else if decide (k = j) then val h i else val h k)
    as Hv by (intros; apply val_Swap; lia).
  destruct (IH (Swap i j h) i) as (h' & -> & Hs & Hh); [by apply defined_Swap; try lia|lia|lia|..].
  - intros c Hc Hci. rewrite !Hv. rewrite (decide_False (P := c = i)) by done.
    destruct (decide (c = j)) as [->|Hcj]; [rewrite decide_True by done; lia|].
    pose proof (Hp c Hc Hcj) as Hc1. destruct (decide (parent c = i)) as [E|]; [rewrite E in *; lia|].
    destruct (decide (parent c = j)) as [E|]; [by apply Hg|done].
  - intros c Hc Hci Hi0. pose proof (parent_lt i Hi0). pose proof (Hp i ltac:(lia) ltac:(lia)).
    rewrite !Hv. rewrite !(decide_False (P := parent i = _)) by lia.
    rewrite (decide_False (P := c = i)) by (parents; lia).
    destruct (decide (c = j)) as [->|Hcj]; [lia|]. pose proof (Hp c Hc Hcj) as Hc1. rewrite Hci in Hc1. lia.
  - exists h'. split_and!; [done| |done]. eapply same_from_trans; [|exact Hs]. apply same_from_Swap; lia.
Qed.

(** The child that [down] compares with its parent. *)
Definition smaller_child (h : list A) (i j n : nat) : Prop :=
  (0 < j < n)%nat ∧ parent j = i ∧ ∀ c, (0 < c < n)%nat → parent c = i → val h j <= val h c.

Lemma down_choice n h i : defined n h → (2 * i + 1 < n)%nat →
  ∃ right : bool,
    (if decide (S (2 * i + 1) < n)%nat then heap_less h (S (2 * i + 1)) (2 * i + 1) else Ok false) = Ok right ∧
    smaller_child h i (if right then S (2 * i + 1) else 2 * i + 1)%nat n.
Proof.
  intros Hd Hn. unfold smaller_child. destruct (decide (S (2 * i + 1) < n)%nat).
  - rewrite (heap_less_val n) by (done || lia). eexists. split; [done|].
    destruct (Z.ltb_spec (val h (S (2 * i + 1))) (val h (2 * i + 1)));
      (split; [lia|]; split; [apply parent_iff; lia|]); intros c Hc Hp; parents;
      destruct Hp as [->| ->]; try replace (2 * i + 2)%nat with (S (2 * i + 1)) by lia; lia.
  - exists false. split; [done|]. split; [lia|]. split; [apply parent_iff; lia|].
    intros c Hc Hp. parents. destruct Hp as [->| ->]; [lia|exfalso; lia].
Qed.

Lemma almost_Swap n h i j : defined n h → almost n h i → smaller_child h i j n → almost n (Swap i j h) j.
Proof.
  intros [Hn _] [Hp Hg] (Hj & Hij & Hmin).
  assert (i < j)%nat as Hlt by (rewrite <- Hij; apply parent_lt; lia).
  assert (∀ k, val (Swap i j h) k = if decide (k = i) then val h j else if decide (k = j) then val h i else val h k)
    as Hv by (intros; apply val_Swap; lia).
  split.
  - intros c Hc Hcj Hpj. rewrite !Hv. rewrite (decide_False (P := c = j)) by done.
    rewrite (decide_False (P := parent c = j)) by done.
    destruct (decide (c = i)) as [->|Hci].
    + rewrite decide_False by (pose proof (parent_lt i); lia). apply Hg; [done..|lia].
    + destruct (decide (parent c = i)) as [E|]; [by apply Hmin|by apply Hp].
  - intros c Hc Hpj Hj0. rewrite !Hv, Hij, decide_True by done. pose proof (parent_lt c ltac:(lia)).
    rewrite !decide_False by lia. rewrite <- Hpj. apply Hp; [done|lia|lia].
Qed.

(** After [down] from [i] only the pair of [i] and its parent can be out of order,
    and not if the element moved; what is before [i] or behind [n] stays. *)
Lemma heap_down_spec fuel h i n :
  defined n h → (i < n)%nat → (n <= i + fuel)%nat → almost n h i →
  ∃ h' i', heap_down fuel h i n = Ok (h', i') ∧ (i <= i')%nat ∧ defined n h' ∧ same_from n h h' ∧
    (∀ k, (k < i)%nat → val h' k = val h k) ∧ (i' = i → h' = h) ∧
    (∀ c, (0 < c < n)%nat → c ≠ i → val h' (parent c) <= val h' c) ∧
    ((i < i')%nat → (0 < i)%nat → val h' (parent i) <= val h' i).
Proof.
  revert h i. induction fuel as [|fuel IH]; intros h i Hd Hi Hf Ha; [lia|]. cbn [heap_down].
  destruct (decide (n <= 2 * i + 1)%nat) as [Hleaf|Hin].
  { exists h, i. split_and!; try done; [|lia]. intros c Hc Hci. apply (proj1 Ha); [done..|].
    intros E. parents. lia. }
  destruct (down_choice n h i Hd ltac:(lia)) as (right & Hr & Hc). rewrite Hr. cbn [mbind res_bind].
  set (j := if right then S (2 * i + 1) else (2 * i + 1)%nat) in *. pose proof Hc as (Hj & Hij & Hmin).
  assert (i < j)%nat as Hlt by (rewrite <- Hij; apply parent_lt; lia).
  rewrite (heap_less_val n) by (done || lia). cbn [mbind res_bind].
  destruct (Z.ltb_spec (val h j) (val h i)) as [Hl|Hl]; cbn [negb].
  2:{ exists h, i. split_and!; try done; [|lia]. intros c Hc1 Hci. destruct (decide (parent c = i)) as [E|].
      - rewrite E. specialize (Hmin c Hc1 E). lia.
      - by apply (proj1 Ha). }
  pose proof (proj1 Hd) as Hn.
  assert (∀ k, val (Swap i j h) k = if decide (k = i) then val h j else if decide (k = j) then val h i else val h k)
    as Hv by (intros; apply val_Swap; lia).
  destruct (IH (Swap i j h) j) as (h' & i' & -> & Hle & Hd' & Hs & Hbef & Hstay & Hall & Hmoved);
    [by apply defined_Swap; try lia|lia|lia|by apply almost_Swap|].
  exists h', i'. split_and!; try done; try lia.
  - eapply same_from_trans; [|exact Hs]. apply same_from_Swap; lia.
  - intros k Hk. rewrite Hbef, Hv by lia. by rewrite !decide_False by lia.
  - intros c Hc1 Hci. destruct (decide (c = j)) as [->|Hcj]; [|by apply Hall].
    destruct (decide (i' = j)) as [E|]; [|by apply Hmoved; lia].
    rewrite (Hstay E), !Hv, Hij, decide_True by done. rewrite decide_False, decide_True by lia. lia.
  - intros _ Hi0. pose proof (parent_lt i Hi0). rewrite !Hbef, !Hv by lia.
    rewrite !(decide_False (P := parent i = _)) by lia. rewrite decide_True by done. apply (proj2 Ha); [lia|done..].
Qed.

Lemma heap_settle_spec h i n :
  defined n h → (i < n)%nat → almost n h i →
  ∃ h', heap_settle h i n = Ok h' ∧ same_from n h h' ∧ heap_upto n h'.
Proof.
  intros Hd Hi Ha. pose proof (proj1 Hd) as Hn. unfold heap_settle.
  destruct (heap_down_spec (length h) h i n) as (h' & i' & -> & Hle & Hd' & Hs & Hbef & Hstay & Hall & Hmoved);
    [done|done|lia|done|]. cbn [mbind res_bind].
  destruct (decide (i < i')%nat) as [Hlt|Hnlt].
  - exists h'. split_and!; [done..|]. intros c Hc. destruct (decide (c = i)) as [->|]; [|by apply Hall].
    apply Hmoved; lia.
  - rewrite (Hstay ltac:(lia)) in *. destruct (heap_up_spec (length h) h i n) as (h'' & -> & Hs' & Hh);
      [done..|lia|done|apply Ha|]. by exists h''.
Qed.

(** [Fix] restores the order after the element at [i] was changed. *)
Lemma heap_Fix_spec h i :
  Forall P h → (i < length h)%nat → almost (length h) h i →
  ∃ h', heap_Fix h i = Ok h' ∧ h' ≡ₚ h ∧ heap_upto (length h') h'.
Proof.
  intros HP Hi Ha. destruct (heap_settle_spec h i (length h)) as (h' & Hr & [Hp _] & Hh); [|done..|].
  - split; [done|]. intros k x _ Hx. rewrite Forall_lookup in HP. eauto.
  - exists h'. split_and!; [done..|]. by rewrite (Permutation_length Hp).
Qed.

(** [Remove] moves the element at [i] to the end and restores the order of the
    others, whatever the element at [i] is. *)
Lemma heap_Remove_spec h i x :
  h !! i = Some x → (∀ k y, k ≠ i → h !! k = Some y → P y) → almost (length h) h i →
  ∃ h', heap_Remove h i = Ok (h' ++ [x]) ∧ x :: h' ≡ₚ h ∧ heap_upto (length h') h'.
Proof.
  intros Hx HP Ha. pose proof (lookup_lt_Some _ _ _ Hx) as Hi. unfold heap_Remove.
  set (n := (length h - 1)%nat). destruct (decide (n = i)) as [Hn|Hn].
  - exists (take i h). assert (h = take i h ++ [x]) as Hh.
    { rewrite <- (take_drop_middle h i x Hx) at 1. by rewrite drop_ge by lia. }
    split_and!; [by rewrite <- Hh|rewrite Hh at 2; by rewrite Permutation_app_comm|].
    intros c Hc. rewrite length_take in Hc. pose proof (parent_lt c ltac:(lia)).
    unfold val. rewrite !lookup_take_lt by lia. apply (proj1 Ha); lia.
  - assert (i < n)%nat as Hlt by lia.
    assert (∀ k, val (Swap i n h) k = if decide (k = i) then val h n else if decide (k = n) then val h i else val h k)
      as Hv by (intros; apply val_Swap; lia).
    destruct (heap_settle_spec (Swap i n h) i n) as (h' & -> & [Hp Hs] & Hh); [|done|..].
    + split; [rewrite length_Swap; lia|]. intros k y Hk. rewrite Swap_lookup by lia.
      repeat case_decide; try lia; intros Hy; eapply HP; try exact Hy; lia.
    + split; intros c Hc; pose proof (parent_lt c ltac:(lia)); intros H1 H2; rewrite !Hv.
      * rewrite !decide_False by lia. apply (proj1 Ha); [lia|done..].
      * pose proof (parent_lt i H2). rewrite !decide_False by lia. apply (proj2 Ha); [lia|done..].
    + rewrite Swap_perm in Hp. assert (length h' = S n) as Hl by (rewrite Hp; lia).
      assert (h' !! n = Some x) as Hlast.
      { rewrite Hs, Swap_lookup by lia. rewrite decide_False, decide_True by lia. done. }
      assert (h' = take n h' ++ [x]) as E.
      { rewrite <- (take_drop_middle h' n x Hlast) at 1. by rewrite drop_ge by lia. }
      exists (take n h'). split_and!; [by rewrite <- E|rewrite <- Hp; rewrite E at 2; by rewrite Permutation_app_comm|].
      intros c Hc. rewrite length_take in Hc. pose proof (parent_lt c ltac:(lia)).
      unfold val. rewrite !lookup_take_lt by lia. apply Hh. lia.
Qed.

(** The first element of a heap is a least one. *)
Lemma heap_min h k x y : heap_upto (length h) h → h !! O = Some x → h !! k = Some y → key x <= key y.
Proof.
  intros Hh Hx. revert y. induction k as [k IH] using lt_wf_ind. intros y Hy.
  destruct (decide (k = O)) as [->|Hk]; [by simplify_eq|].
  pose proof (lookup_lt_Some _ _ _ Hy). pose proof (parent_lt k ltac:(lia)) as Hp.
  destruct (lookup_lt_is_Some_2 h (parent k)) as [z Hz]; [lia|].
  specialize (IH _ Hp z Hz). specialize (Hh k ltac:(lia)). unfold val in Hh. rewrite Hz, Hy in Hh. simpl in Hh. lia.
Qed.

Lemma heap_almost n h i : (n <= length h)%nat → heap_upto n h → (i < n)%nat → almost n h i.
Proof.
  intros Hn Hh Hi. split; [by intros; apply Hh|]. intros c Hc E Hi0.
  pose proof (Hh c Hc) as H1. rewrite E in H1. specialize (Hh i ltac:(lia)). lia.
Qed.

Lemma almost_insert n h i x : (i < length h)%nat → almost n h i → almost n (<[i := x]> h) i.
Proof.
  intros Hi [Hp Hg]. assert (∀ k, k ≠ i → val (<[i := x]> h) k = val h k) as Hv.
  { intros k Hk. unfold val. by rewrite list_lookup_insert_ne. }
  split; intros c Hc H1 H2; pose proof (parent_lt c ltac:(lia)).
  - rewrite !Hv by done. by apply Hp.
  - pose proof (parent_lt i H2). rewrite !Hv by lia. by apply Hg.
Qed.

(** An element that is not smaller than any other can be put at the end. *)
Lemma heap_snoc h x : heap_upto (length h) h → Forall (λ y, key y <= key x) h → heap_upto (length (h ++ [x])) (h ++ [x]).
Proof.
  intros Hh Hall c Hc. rewrite length_app in Hc. simpl in Hc. pose proof (parent_lt c ltac:(lia)).
  unfold val. rewrite (lookup_app_l h [x] (parent c)) by lia. destruct (decide (c = length h)) as [->|].
  - rewrite lookup_app_r, Nat.sub_diag by lia. simpl.
    destruct (lookup_lt_is_Some_2 h (parent (length h))) as [y Hy]; [lia|]. rewrite Hy. simpl.
    rewrite Forall_lookup in Hall. eauto.
  - rewrite lookup_app_l by lia. apply Hh. lia.
Qed.
End Heap.
