(* ===== verification/Address.v ===== *)
(** * Address: node addresses and subnets (src/address/address.go)

    Addresses and subnets are derived from ed25519 public keys, and a partial
    key is recovered from them for lookups.  Keys, addresses and subnets are
    byte strings; [bit] reads them most significant bit first, as the loops of
    the source do. *)

From S2P Require Import Prelude.

Definition PublicKeySize : nat := 32.

(** A key of the length that [ed25519] requires. *)
Definition key_ok (k : bytes) : Prop := length k = PublicKeySize ∧ bytes_ok k.

(** [GetPrefix]. *)
Definition GetPrefix : bytes := [0x02].

(** [Address.IsValid]. *)
Definition Address_IsValid (a : bytes) : bool :=
  forallb (λ idx, nth idx a 0 =? nth idx GetPrefix 0) (seq 0 (length GetPrefix)).

(** [Subnet.IsValid]. *)
Definition Subnet_IsValid (s : bytes) : bool :=
  let l := length GetPrefix in
  forallb (λ idx, nth idx s 0 =? nth idx GetPrefix 0) (seq 0 (l - 1)) &&
  (nth (l - 1) s 0 =? Z.lor (nth (l - 1) GetPrefix 0) 0x01).

(** The local variables of the loop of [AddrForKey]. *)
Record afk_state := Afk {
  afk_temp : bytes;
  afk_done : bool;
  afk_ones : byte;
  afk_bits : byte;
  afk_nBits : Z;
}.

(** [bit := (buf[idx/8] & (0x80 >> byte(idx%8))) >> byte(7-(idx%8))]. *)
Definition afk_bit (buf : bytes) (idx : nat) : byte :=
  let m := Z.of_nat (idx mod 8) in
  Z.shiftr (Z.land (nth (idx / 8) buf 0) (Z.shiftr 0x80 m)) (7 - m).

(** One iteration of the loop of [AddrForKey]. *)
Definition afk_step (buf : bytes) (st : afk_state) (idx : nat) : afk_state :=
  let bit := afk_bit buf idx in
  if negb (afk_done st) && negb (bit =? 0) then
    Afk (afk_temp st) (afk_done st) (u8 (afk_ones st + 1)) (afk_bits st) (afk_nBits st)
  else if negb (afk_done st) && (bit =? 0) then
    Afk (afk_temp st) true (afk_ones st) (afk_bits st) (afk_nBits st)
  else
    let bits := Z.lor (u8 (Z.shiftl (afk_bits st) 1)) bit in
    let nBits := afk_nBits st + 1 in
    if nBits =? 8 then Afk (afk_temp st ++ [bits]) (afk_done st) (afk_ones st) bits 0
    else Afk (afk_temp st) (afk_done st) (afk_ones st) bits nBits.

Definition afk_loop (buf : bytes) : afk_state :=
  foldl (afk_step buf) (Afk [] false 0 0 0) (seq 0 (8 * length buf)).

(** [AddrForKey]; [None] is the nil pointer. *)
Definition AddrForKey (publicKey : bytes) : option bytes :=
  if negb (Nat.eqb (length publicKey) PublicKeySize) then None
  else
    let buf := (λ b, Z.lxor b 0xff) <$> copy (replicate PublicKeySize 0) publicKey in
    let st := afk_loop buf in
    let prefix := GetPrefix in
    let addr := copy (replicate 16 0) prefix in
    let addr := <[length prefix := afk_ones st]> addr in
    Some (take (length prefix + 1) addr ++ copy (drop (length prefix + 1) addr) (afk_temp st)).

(** [SubnetForKey]. *)
Definition SubnetForKey (publicKey : bytes) : option bytes :=
  match AddrForKey publicKey with
  | None => None
  | Some addr => Some (or_at (copy (replicate 8 0) addr) (length GetPrefix - 1) 0x01)
  end.

(** First loop of [GetKey]: the leading ones. *)
Definition getkey_ones (ones : nat) (key : bytes) : bytes :=
  foldl (λ key idx, or_at key (idx / 8) (Z.shiftr 0x80 (Z.of_nat (idx mod 8)))) key (seq 0 ones).

(** Second loop of [GetKey]: the bits carried by the address; the [break] is
    the early return. *)
Fixpoint getkey_bits (a : bytes) (keyOffset addrOffset : nat) (idxs : list nat) (key : bytes) : bytes :=
  match idxs with
  | [] => key
  | idx :: idxs =>
      let bits := Z.land (nth (idx / 8) a 0) (Z.shiftr 0x80 (Z.of_nat (idx mod 8))) in
      let bits := u8 (Z.shiftl bits (Z.of_nat (idx mod 8))) in
      let keyIdx := (keyOffset + (idx - addrOffset))%nat in
      let bits := Z.shiftr bits (Z.of_nat (keyIdx mod 8)) in
      let idx := (keyIdx / 8)%nat in
      if (length key <=? idx)%nat then key
      else getkey_bits a keyOffset addrOffset idxs (or_at key idx bits)
  end.

(** [Address.GetKey]. *)
Definition Address_GetKey (a : bytes) : bytes :=
  let prefix := GetPrefix in
  let ones := Z.to_nat (nth (length prefix) a 0) in
  let key := getkey_ones ones (replicate PublicKeySize 0) in
  let addrOffset := (8 * length prefix + 8)%nat in
  let key := getkey_bits a (ones + 1) addrOffset
               (seq addrOffset (8 * length a - addrOffset)) key in
  (λ b, Z.lxor b 0xff) <$> key.

(** [Subnet.GetKey]. *)
Definition Subnet_GetKey (s : bytes) : bytes := Address_GetKey (copy (replicate 16 0) s).

(** ** Specification vocabulary *)

(** The bits of the bitwise inverse of a key, and the number of its leading
    ones, counted up to [m]. *)
Definition inv_bit (k : bytes) (i : nat) : bool := negb (bit k i).

Fixpoint lead (f : nat → bool) (i m : nat) : nat :=
  match m with
  | O => O
  | S m => if f i then S (lead f (S i) m) else O
  end.

Definition lead_ones (k : bytes) : nat := lead (inv_bit k) 0 (8 * PublicKeySize).

(** The number of key bits that an address (after the prefix byte and the
    count byte) has room for: whole bytes only, and none for 256 ones. *)
Definition kept_bits (n : nat) : nat := 8 * ((255 - n) / 8).

(** ** The loops of the code in terms of bits *)

Lemma afk_bit_spec buf idx : afk_bit buf idx = Z.b2z (bit buf idx).
Proof.
  unfold afk_bit, bit. pose proof (Nat.mod_upper_bound idx 8).
  rewrite shiftr_128, land_pow2 by lia.
  rewrite Z.shiftr_div_pow2 by lia. rewrite Z.div_mul; [done|].
  apply Z.pow_nonzero; lia.
Qed.

(** The loop invariant of [AddrForKey] after [i] iterations: [n] is the number
    of leading ones, and [f] reads the bits of the inverted key. *)
Definition afk_inv (f : nat → bool) (n i : nat) (st : afk_state) : Prop :=
  if decide (i <= n)%nat then st = Afk [] false (u8 (Z.of_nat i)) 0 0
  else
    let m := (i - n - 1)%nat in
    afk_done st = true ∧ afk_ones st = u8 (Z.of_nat n) ∧
    length (afk_temp st) = (m / 8)%nat ∧ afk_nBits st = Z.of_nat (m mod 8) ∧
    bytes_ok (afk_temp st) ∧ is_byte (afk_bits st) ∧
    (∀ j, (j < 8 * (m / 8))%nat → bit (afk_temp st) j = f (n + 1 + j)%nat) ∧
    (∀ t, (t < 8)%nat → (t < m)%nat → Z.testbit (afk_bits st) (Z.of_nat t) = f (n + m - t)%nat).

Lemma lead_spec f i m :
  (lead f i m <= m)%nat ∧
  (∀ j, (j < lead f i m)%nat → f (i + j)%nat = true) ∧
  ((lead f i m < m)%nat → f (i + lead f i m)%nat = false).
Proof.
  revert i. induction m as [|m IH]; intros i; simpl; [naive_solver lia|].
  destruct (f i) eqn:Hf; simpl.
  - destruct (IH (S i)) as (Hle & Hones & Hzero). split_and!; [lia| |].
    + intros [|j] Hj; [by rewrite Nat.add_0_r|].
      rewrite <- Nat.add_succ_comm. apply Hones. lia.
    + intros. rewrite <- Nat.add_succ_comm. apply Hzero. lia.
  - split_and!; [lia|lia|]. intros. by rewrite Nat.add_0_r.
Qed.

(** [lead] is determined by its specification. *)
Lemma lead_unique f m n :
  (n <= m)%nat → (∀ j, (j < n)%nat → f j = true) → ((n < m)%nat → f n = false) →
  lead f 0 m = n.
Proof.
  intros Hn Hones Hzero. destruct (lead_spec f 0 m) as (Hle & Hones' & Hzero').
  destruct (Nat.lt_trichotomy (lead f 0 m) n) as [Hlt|[Heq|Hgt]]; [|done|].
  - specialize (Hzero' ltac:(lia)). specialize (Hones _ Hlt). simpl in *. congruence.
  - specialize (Hones' _ Hgt). specialize (Hzero ltac:(lia)). simpl in *. congruence.
Qed.

Lemma afk_step_bits (x : Z) (b : bool) t :
  is_byte x → (t < 8)%nat →
  Z.testbit (Z.lor (u8 (Z.shiftl x 1)) (Z.b2z b)) (Z.of_nat t) =
    match t with O => b | S t => Z.testbit x (Z.of_nat t) end.
Proof.
  intros Hx Ht. rewrite Z.lor_spec. unfold wrap. rewrite Z.mod_pow2_bits_low by lia.
  destruct t as [|t].
  - rewrite Z.shiftl_spec_low by lia. destruct b; done.
  - rewrite Z.shiftl_spec by lia.
    rewrite (in_range_testbit 1 (Z.b2z b)) by (destruct b; unfold in_range; simpl; lia).
    rewrite orb_false_r. f_equal. lia.
Qed.

Lemma afk_step_byte (x : Z) (b : bool) : is_byte (Z.lor (u8 (Z.shiftl x 1)) (Z.b2z b)).
Proof.
  apply lor_in_range; [lia|by apply wrap_in_range|].
  apply (in_range_mono 1); [lia|]. destruct b; unfold in_range; simpl; lia.
Qed.

Lemma div_mod_succ m :
  (S m / 8 = if decide (m mod 8 = 7) then S (m / 8) else m / 8)%nat ∧
  (S m mod 8 = if decide (m mod 8 = 7) then 0 else S (m mod 8))%nat.
Proof.
  pose proof (Nat.mod_upper_bound m 8). pose proof (Nat.div_mod_eq m 8) as Hm.
  destruct (decide (m mod 8 = 7)%nat).
  - split.
    + symmetry. apply (Nat.div_unique (S m) 8 (S (m / 8)) 0); lia.
    + symmetry. apply (Nat.mod_unique (S m) 8 (S (m / 8)) 0); lia.
  - split.
    + symmetry. apply (Nat.div_unique (S m) 8 (m / 8) (S (m mod 8))); lia.
    + symmetry. apply (Nat.mod_unique (S m) 8 (m / 8) (S (m mod 8))); lia.
Qed.

Lemma afk_inv_step buf n i st :
  n = lead (bit buf) 0 (8 * length buf) → (i < 8 * length buf)%nat →
  afk_inv (bit buf) n i st → afk_inv (bit buf) n (S i) (afk_step buf st i).
Proof.
  intros Hn Hi. unfold afk_inv, afk_step. rewrite afk_bit_spec.
  destruct (lead_spec (bit buf) 0 (8 * length buf)) as (Hle & Hones & Hzero).
  rewrite <- Hn in *. simpl in Hones, Hzero. clear Hn.
  destruct (decide (i <= n)%nat) as [Hin|Hin].
  - intros ->. cbn [afk_done afk_temp afk_ones afk_bits afk_nBits negb andb].
    destruct (decide (S i <= n)%nat).
    + rewrite Hones by lia. simpl. f_equal. unfold wrap.
      rewrite Zplus_mod_idemp_l. f_equal. lia.
    + assert (i = n) as -> by lia. rewrite Hzero by lia.
      replace (S n - n - 1)%nat with 0%nat by lia.
      change (0 / 8)%nat with 0%nat. split_and!; try done; [by constructor|..]; simpl; intros; lia.
  - intros (Hdone & Hon & Hlen & Hnb & Hok & Hbyte & Htemp & Hbits).
    rewrite Hdone, decide_False by lia. cbn [negb andb].
    remember (i - n - 1)%nat as m eqn:Hm.
    replace (S i - n - 1)%nat with (S m) by lia.
    assert (i = n + 1 + m)%nat as -> by lia.
    destruct (div_mod_succ m) as [Hdiv Hmod]. rewrite Hdiv, Hmod. clear Hdiv Hmod.
    pose proof (Nat.mod_upper_bound m 8). pose proof (Nat.div_mod_eq m 8) as Hm8.
    set (bits' := Z.lor _ _).
    assert (∀ t, (t < 8)%nat → (t < S m)%nat →
      Z.testbit bits' (Z.of_nat t) = bit buf (n + S m - t)%nat) as Hbits'.
    { intros t Ht8 Htm. unfold bits'. rewrite afk_step_bits by done. destruct t as [|t].
      - f_equal. lia.
      - rewrite Hbits by lia. f_equal. lia. }
    assert (is_byte bits') by apply afk_step_byte.
    destruct (decide (m mod 8 = 7)%nat) as [H7|H7]; rewrite Hnb.
    + rewrite H7. simpl. split_and!; try done.
      * rewrite length_app, Hlen. simpl. lia.
      * apply bytes_ok_app. split; [done|]. by constructor.
      * intros j Hj. destruct (decide (j < 8 * (m / 8))%nat).
        -- rewrite bit_app_l by lia. by apply Htemp.
        -- replace j with (8 * (m / 8) + (j - 8 * (m / 8)))%nat at 1 by lia.
           rewrite bit_at by lia. rewrite app_nth2 by lia.
           rewrite Hlen, Nat.sub_diag. simpl.
           replace (7 - Z.of_nat (j - 8 * (m / 8))) with (Z.of_nat (7 - (j - 8 * (m / 8)))) by lia.
           rewrite Hbits' by lia. f_equal. lia.
    + rewrite (proj2 (Z.eqb_neq _ _)) by lia. simpl. split_and!; try done. lia.
Qed.

Lemma afk_loop_spec buf :
  afk_inv (bit buf) (lead (bit buf) 0 (8 * length buf)) (8 * length buf) (afk_loop buf).
Proof.
  unfold afk_loop. set (n := lead _ _ _).
  apply (foldl_seq_ind (afk_inv (bit buf) n)).
  - unfold afk_inv. by rewrite decide_True by lia.
  - intros i st Hi. by apply afk_inv_step.
Qed.

Lemma lxor_ff_byte b : is_byte b → is_byte (Z.lxor b 0xff).
Proof.
  intros Hb. apply testbit_in_range; [lia| |].
  - apply Z.lxor_nonneg. unfold in_range in Hb. lia.
  - intros i Hi. rewrite Z.lxor_spec, (in_range_testbit 8 b) by done.
    rewrite (in_range_testbit 8); [done|by unfold in_range|done].
Qed.

Lemma lxor_ff_testbit b i : 0 <= i < 8 → Z.testbit (Z.lxor b 0xff) i = negb (Z.testbit b i).
Proof.
  intros Hi. rewrite Z.lxor_spec. change 0xff with (Z.ones 8).
  rewrite Z.ones_spec_low by lia. apply xorb_true_r.
Qed.

Lemma bytes_ok_invert k : bytes_ok k → bytes_ok ((λ b, Z.lxor b 0xff) <$> k).
Proof. intros. apply Forall_fmap. eapply Forall_impl; [done|]. intros; by apply lxor_ff_byte. Qed.

Lemma bit_invert k i :
  (i < 8 * length k)%nat → bit ((λ b, Z.lxor b 0xff) <$> k) i = inv_bit k i.
Proof.
  intros Hi. unfold inv_bit, bit. pose proof (Nat.mod_upper_bound i 8).
  assert (i / 8 < length k)%nat as Hq by (apply Nat.Div0.div_lt_upper_bound; lia).
  destruct (lookup_lt_is_Some_2 k _ Hq) as [b Hb].
  rewrite !nth_lookup, list_lookup_fmap, Hb. simpl. apply lxor_ff_testbit. lia.
Qed.

Lemma lead_ext f g i m :
  (∀ j, (i <= j < i + m)%nat → f j = g j) → lead f i m = lead g i m.
Proof.
  revert i. induction m as [|m IH]; intros i Hfg; simpl; [done|].
  rewrite Hfg by lia. destruct (g i); [|done]. f_equal. apply IH. intros. apply Hfg. lia.
Qed.

Lemma lead_ones_spec k :
  let n := lead_ones k in
  (n <= 256)%nat ∧ (∀ j, (j < n)%nat → inv_bit k j = true) ∧
  ((n < 256)%nat → inv_bit k n = false).
Proof. apply (lead_spec (inv_bit k) 0 256). Qed.

(** What [AddrForKey] computes, bit by bit. *)
Lemma AddrForKey_bits k :
  key_ok k →
  ∃ a, AddrForKey k = Some a ∧ length a = 16%nat ∧ bytes_ok a ∧
    nth 0 a 0 = 0x02 ∧ nth 1 a 0 = u8 (Z.of_nat (lead_ones k)) ∧
    ∀ j, (j < 112)%nat →
      bit a (16 + j) = if decide (j < kept_bits (lead_ones k))%nat
                       then inv_bit k (lead_ones k + 1 + j) else false.
Proof.
  intros [Hlen Hok]. unfold AddrForKey. rewrite Hlen. cbn [Nat.eqb negb].
  rewrite (copy_full _ k) by (by rewrite length_replicate).
  set (buf := _ <$> k).
  assert (length buf = 32%nat) as Hbl by (unfold buf; by rewrite length_fmap).
  assert (∀ i, (i < 256)%nat → bit buf i = inv_bit k i) as Hbit.
  { intros i Hi. apply bit_invert. rewrite Hlen. unfold PublicKeySize. lia. }
  pose proof (afk_loop_spec buf) as Hloop. rewrite Hbl in Hloop.
  change (8 * 32)%nat with 256%nat in Hloop.
  replace (lead (bit buf) 0 256) with (lead_ones k) in Hloop
    by (apply lead_ext; unfold PublicKeySize; intros; symmetry; apply Hbit; lia).
  destruct (lead_ones_spec k) as (Hle & _ & _).
  set (n := lead_ones k) in *. unfold afk_inv in Hloop.
  exists (2 :: afk_ones (afk_loop buf) :: copy (replicate 14 0) (afk_temp (afk_loop buf))).
  split; [done|]. simpl length. rewrite length_copy.
  assert (∀ j (l : bytes) x y, bit (x :: y :: l) (16 + j) = bit l j) as Hcons.
  { intros. apply (bit_app_r [x; y] l j). }
  destruct (decide (256 <= n)%nat).
  - rewrite Hloop. assert (n = 256)%nat as -> by lia.
    split_and!; try done.
    + by repeat constructor.
    + intros j Hj. rewrite Hcons. cbn [afk_temp].
      rewrite bit_copy_zeros. by rewrite bit_nil, !if_same.
  - destruct Hloop as (_ & -> & Htl & _ & Htok & _ & Ht & _). split_and!; try done.
    + constructor; [done|]. constructor; [by apply wrap_in_range|].
      apply bytes_ok_copy; [by apply bytes_ok_replicate|done].
    + intros j Hj. rewrite Hcons, bit_copy_zeros, decide_True by done.
      unfold kept_bits. replace (256 - n - 1)%nat with (255 - n)%nat in * by lia.
      destruct (decide _).
      * rewrite Ht by done. apply Hbit.
        pose proof (Nat.Div0.mul_div_le (255 - n) 8). lia.
      * apply bit_overflow. rewrite Htl. lia.
Qed.

(** ** [GetKey] in terms of bits *)

Lemma getkey_ones_spec ones key :
  (ones <= 8 * length key)%nat → bytes_ok key →
  length (getkey_ones ones key) = length key ∧ bytes_ok (getkey_ones ones key) ∧
  ∀ j, bit (getkey_ones ones key) j = bit key j || bool_decide (j < ones)%nat.
Proof.
  intros Hones Hok. unfold getkey_ones.
  pose (P := λ (i : nat) (st : bytes), length st = length key ∧ bytes_ok st ∧
    ∀ j, bit st j = bit key j || bool_decide (j < i)%nat).
  apply (foldl_seq_ind P); unfold P; clear P.
  - split_and!; [done|done|]. intros j. rewrite bool_decide_false by lia. by rewrite orb_false_r.
  - intros i st Hi (Hl & Hst & Hbit). pose proof (Nat.mod_upper_bound i 8).
    rewrite length_or_at. rewrite shiftr_128 by lia.
    replace (2 ^ (7 - Z.of_nat (i mod 8))) with (Z.b2z true * 2 ^ (7 - Z.of_nat (i mod 8)))
      by (simpl Z.b2z; lia).
    split_and!; [done| |].
    + apply bytes_ok_or_at; [done|]. apply (bit_mask_byte true); lia.
    + intros j. rewrite bit_or_at by lia. rewrite Hbit, andb_true_r, <- orb_assoc. f_equal.
      apply eq_true_iff_eq. rewrite orb_true_iff, !bool_decide_eq_true. lia.
Qed.

Lemma getkey_mask a idx keyIdx :
  bytes_ok a →
  Z.shiftr (u8 (Z.shiftl (Z.land (nth (idx / 8) a 0) (Z.shiftr 0x80 (Z.of_nat (idx mod 8))))
                         (Z.of_nat (idx mod 8)))) (Z.of_nat (keyIdx mod 8)) =
  Z.b2z (bit a idx) * 2 ^ (7 - Z.of_nat (keyIdx mod 8)).
Proof.
  intros Ha. pose proof (Nat.mod_upper_bound idx 8). pose proof (Nat.mod_upper_bound keyIdx 8).
  rewrite shiftr_128, land_pow2 by lia. fold (bit a idx).
  rewrite Z.shiftl_mul_pow2, <- Z.mul_assoc, <- Z.pow_add_r by lia.
  replace (7 - Z.of_nat (idx mod 8) + Z.of_nat (idx mod 8)) with 7 by lia.
  unfold wrap. rewrite Z.mod_small by (destruct (bit a idx); simpl; lia).
  rewrite Z.shiftr_div_pow2 by lia.
  replace (2 ^ 7) with (2 ^ (7 - Z.of_nat (keyIdx mod 8)) * 2 ^ Z.of_nat (keyIdx mod 8))
    by (rewrite <- Z.pow_add_r by lia; f_equal; lia).
  rewrite Z.mul_assoc, Z.div_mul; [done|]. apply Z.pow_nonzero; lia.
Qed.

(** The loop writes address bit [s + i] at key position [ko + (s - ao) + i]. *)
Lemma getkey_bits_spec a ko ao s m key :
  bytes_ok a → bytes_ok key → (ao <= s)%nat →
  let key' := getkey_bits a ko ao (seq s m) key in
  let base := (ko + (s - ao))%nat in
  length key' = length key ∧ bytes_ok key' ∧
  ∀ j, (j < 8 * length key)%nat →
    bit key' j = bit key j ||
      (bool_decide (base <= j < base + m)%nat && bit a (s + (j - base))).
Proof.
  intros Ha. revert s key. induction m as [|m IH]; intros s key Hkey Hs; simpl.
  - split_and!; [done|done|]. intros j Hj. rewrite bool_decide_false by lia. by rewrite orb_false_r.
  - rewrite getkey_mask by done.
    set (base := (ko + (s - ao))%nat). pose proof (Nat.mod_upper_bound base 8).
    destruct (Nat.leb_spec (length key) (base / 8)) as [Hge|Hlt].
    + split_and!; [done|done|]. intros j Hj. rewrite bool_decide_false; [by rewrite orb_false_r|].
      pose proof (Nat.div_mod_eq base 8). lia.
    + assert (base < 8 * length key)%nat as Hb by (pose proof (Nat.div_mod_eq base 8); lia).
      destruct (IH (S s) (or_at key (base / 8) (Z.b2z (bit a s) * 2 ^ (7 - Z.of_nat (base mod 8)))))
        as (Hl & Hok & Hbit); [|lia|].
      { apply bytes_ok_or_at; [done|]. apply bit_mask_byte. lia. }
      rewrite length_or_at in Hl, Hbit. split_and!; [done|done|].
      intros j Hj. rewrite Hbit by done. rewrite bit_or_at by done.
      replace (ko + (S s - ao))%nat with (S base) by lia.
      rewrite <- orb_assoc. f_equal.
      destruct (decide (base = j)) as [<-|Hne].
      * rewrite bool_decide_true by done.
        rewrite bool_decide_false by lia. rewrite bool_decide_true by lia.
        simpl. rewrite orb_false_r. f_equal. lia.
      * rewrite bool_decide_false by done. simpl.
        destruct (decide (S base <= j < S base + m)%nat) as [Hin|Hin].
        -- rewrite !bool_decide_true by lia. simpl. f_equal. lia.
        -- rewrite !bool_decide_false by lia. done.
Qed.

(** What [GetKey] returns, bit by bit: the inverse of the result is [ones]
    ones, a zero, the 112 bits of the address, and zeros. *)
Lemma Address_GetKey_bits a :
  length a = 16%nat → bytes_ok a →
  let n := Z.to_nat (nth 1 a 0) in
  key_ok (Address_GetKey a) ∧
  ∀ i, (i < 256)%nat → inv_bit (Address_GetKey a) i =
    bool_decide (i < n)%nat ||
    (bool_decide (n + 1 <= i < n + 113)%nat && bit a (16 + (i - (n + 1)))).
Proof.
  intros Hl Ha n. unfold Address_GetKey. rewrite Hl. simpl length. fold n.
  assert (n <= 255)%nat as Hn.
  { pose proof (bytes_ok_nth a 1 Ha). unfold in_range in *. subst n. lia. }
  destruct (getkey_ones_spec n (replicate PublicKeySize 0)) as (Hl1 & Hok1 & Hb1).
  { rewrite length_replicate. unfold PublicKeySize. lia. }
  { by apply bytes_ok_replicate. }
  set (key1 := getkey_ones n _) in *. rewrite length_replicate in Hl1.
  destruct (getkey_bits_spec a (n + 1) 16 16 112 key1) as (Hl2 & Hok2 & Hb2); [done|done|lia|].
  change (8 * 1 + 8)%nat with 16%nat. change (8 * 16 - 16)%nat with 112%nat.
  set (key2 := getkey_bits _ _ _ _ _) in *. rewrite Hl1 in Hl2.
  split.
  - split; [by rewrite length_fmap|by apply bytes_ok_invert].
  - intros i Hi. unfold inv_bit at 1.
    rewrite bit_invert by (rewrite Hl2; unfold PublicKeySize; lia).
    unfold inv_bit. rewrite negb_involutive.
    rewrite Hb2 by (rewrite Hl1; unfold PublicKeySize; lia).
    rewrite Hb1, bit_replicate_0, orb_false_l.
    replace (n + 1 + (16 - 16))%nat with (n + 1)%nat by lia.
    f_equal. f_equal. apply bool_decide_ext. lia.
Qed.

(** ** Round trips *)

(** The addresses that [AddrForKey] produces: the bits that the count byte
    leaves no room for are zero. *)
Definition addr_canonical (a : bytes) : Prop :=
  length a = 16%nat ∧ bytes_ok a ∧ nth 0 a 0 = 0x02 ∧
  ∀ j, (j < 112)%nat → (kept_bits (Z.to_nat (nth 1 a 0%Z)) <= j)%nat → bit a (16 + j) = false.

Lemma kept_bits_0 : kept_bits 0 = 248%nat.
Proof. done. Qed.

Lemma AddrForKey_canonical k a : key_ok k → AddrForKey k = Some a → addr_canonical a.
Proof.
  intros Hk Ha. destruct (AddrForKey_bits k Hk) as (a' & Ha' & Hl & Hok & H0 & H1 & Hbits).
  simplify_eq. split_and!; try done. intros j Hj Hkept. rewrite Hbits by done.
  destruct (lead_ones_spec k) as (Hle & _ & _). set (n := lead_ones k) in *.
  rewrite H1 in Hkept. destruct (decide (n = 256)%nat) as [->|].
  - change (Z.to_nat _) with 0%nat in Hkept. rewrite kept_bits_0 in Hkept. lia.
  - rewrite wrap_small in Hkept by (unfold in_range; lia). rewrite Nat2Z.id in Hkept.
    by rewrite decide_False by lia.
Qed.

(** Addresses are determined by their count byte and their last 112 bits. *)
Lemma addr_ext a b :
  length a = 16%nat → length b = 16%nat → bytes_ok a → bytes_ok b →
  nth 0 a 0 = nth 0 b 0 → nth 1 a 0 = nth 1 b 0 →
  (∀ j, (j < 112)%nat → bit a (16 + j) = bit b (16 + j)) → a = b.
Proof.
  intros Hla Hlb Hoka Hokb H0 H1 Hbits. apply bytes_bit_ext; [congruence|done|done|].
  intros i Hi. destruct (decide (i < 16)%nat) as [Hlt|Hge].
  - unfold bit. f_equal.
    assert (i / 8 = 0 ∨ i / 8 = 1)%nat as [->| ->]; [|done|done].
    assert (i / 8 < 2)%nat by (apply Nat.Div0.div_lt_upper_bound; lia). lia.
  - replace i with (16 + (i - 16))%nat by lia. apply Hbits. lia.
Qed.

Lemma AddrForKey_GetKey_canonical a :
  addr_canonical a → AddrForKey (Address_GetKey a) = Some a.
Proof.
  intros (Hl & Hok & H0 & Hkept).
  destruct (Address_GetKey_bits a Hl Hok) as [Hk Hinv].
  set (n := Z.to_nat (nth 1 a 0)) in *. set (k := Address_GetKey a) in *.
  assert (in_range 8 (nth 1 a 0)) as Hr by auto with uqda.
  assert (n < 256)%nat as Hn by (unfold in_range in Hr; lia).
  assert (lead_ones k = n) as Hlead.
  { apply lead_unique; [unfold PublicKeySize; lia| |].
    - intros j Hj. rewrite Hinv by lia. by rewrite bool_decide_true.
    - intros _. rewrite Hinv by lia. by rewrite !bool_decide_false by lia. }
  destruct (AddrForKey_bits k Hk) as (b & Hb & Hlb & Hokb & Hb0 & Hb1 & Hbits).
  rewrite Hb. f_equal. apply addr_ext; try done.
  - congruence.
  - rewrite Hb1, Hlead, wrap_small by (unfold in_range; lia).
    unfold in_range in Hr. lia.
  - intros j Hj. rewrite Hbits, Hlead by done. destruct (decide _) as [Hin|Hin].
    + pose proof (Nat.Div0.mul_div_le (255 - n) 8). unfold kept_bits in Hin.
      rewrite Hinv by lia. rewrite bool_decide_false by lia.
      rewrite bool_decide_true by lia. simpl andb. rewrite orb_false_l. f_equal. lia.
    + symmetry. apply Hkept; [done|]. lia.
Qed.

(** C10: AddrForKey_GetKey_roundtrip.  The partial key that a lookup recovers from an address leads back to
    that address: for every node key [k], [AddrForKey (GetKey (AddrForKey k))]
    is [AddrForKey k], whatever the number of leading bits. *)
Theorem AddrForKey_GetKey_roundtrip k a :
  key_ok k → AddrForKey k = Some a →
  key_ok (Address_GetKey a) ∧ AddrForKey (Address_GetKey a) = Some a.
Proof.
  intros Hk Ha. pose proof (AddrForKey_canonical k a Hk Ha) as Hc.
  split; [|by apply AddrForKey_GetKey_canonical].
  destruct Hc as (Hl & Hok & _). by apply Address_GetKey_bits.
Qed.

(** The derivation of the subnet from the address of the same key. *)
Lemma SubnetForKey_addr k a :
  AddrForKey k = Some a → length a = 16%nat → nth 0 a 0 = 0x02 →
  SubnetForKey k = Some (0x03 :: take 7 (drop 1 a)).
Proof.
  intros Ha Hl H0. unfold SubnetForKey. rewrite Ha.
  destruct a as [|x a]; [done|]. simpl in H0. subst x.
  do 7 (destruct a as [|? a]; [done|]). simpl in *. by destruct a.
Qed.

(** Two addresses that differ in their first byte only give the same key. *)
Lemma GetKey_tail x y l : length l = 15%nat → bytes_ok l → is_byte x → is_byte y →
  Address_GetKey (x :: l) = Address_GetKey (y :: l).
Proof.
  intros Hl Hok Hx Hy.
  destruct (Address_GetKey_bits (x :: l)) as [[Hlx Hokx] Hix];
    [simpl; lia|by constructor|].
  destruct (Address_GetKey_bits (y :: l)) as [[Hly Hoky] Hiy];
    [simpl; lia|by constructor|].
  apply bytes_bit_ext; [congruence|done|done|].
  intros i Hi. rewrite Hlx in Hi. unfold PublicKeySize in Hi.
  specialize (Hix i ltac:(lia)). specialize (Hiy i ltac:(lia)).
  enough (inv_bit (Address_GetKey (x :: l)) i = inv_bit (Address_GetKey (y :: l)) i) as Heq.
  { unfold inv_bit in Heq. by destruct (bit (Address_GetKey (x :: l)) i), (bit (Address_GetKey (y :: l)) i). }
  rewrite Hix, Hiy. f_equal. f_equal.
  change (x :: l) with ([x] ++ l). change (y :: l) with ([y] ++ l).
  replace (16 + (i - (Z.to_nat (nth 1 ([x] ++ l) 0%Z) + 1)))%nat
    with (8 * length [x] + (8 + (i - (Z.to_nat (nth 1 ([x] ++ l) 0%Z) + 1))))%nat by (simpl; lia).
  rewrite bit_app_r.
  replace (16 + (i - (Z.to_nat (nth 1 ([y] ++ l) 0%Z) + 1)))%nat
    with (8 * length [y] + (8 + (i - (Z.to_nat (nth 1 ([y] ++ l) 0%Z) + 1))))%nat by (simpl; lia).
  by rewrite bit_app_r.
Qed.

(** The transform that [core.New] hands to the router's bloom filters. *)
Definition keyXform (key : bytes) : bytes :=
  match SubnetForKey key with
  | Some s => Subnet_GetKey s
  | None => [] (* a nil pointer; unreachable for keys of the right length *)
  end.

(** The subnet of a key, and what lookups for it recover. *)
Lemma Subnet_roundtrip k s :
  key_ok k → SubnetForKey k = Some s →
  length s = 8%nat ∧ bytes_ok s ∧ nth 0 s 0 = 0x03 ∧
  key_ok (Subnet_GetKey s) ∧ SubnetForKey (Subnet_GetKey s) = Some s.
Proof.
  intros Hk Hs. destruct (AddrForKey_bits k Hk) as (a & Ha & _).
  pose proof (AddrForKey_canonical k a Hk Ha) as (Hl & Hok & H0 & Hkept).
  rewrite (SubnetForKey_addr k a Ha Hl H0) in Hs. simplify_eq.
  destruct a as [|x [|n l]]; [done|done|]. simpl in Hl, H0, Hkept. subst x.
  apply Forall_cons in Hok as [_ Hok]. pose proof Hok as [Hn Hokl]%Forall_cons.
  do 6 (destruct l as [|? l]; [done|]). simpl in Hl.
  repeat match goal with H : Forall _ (_ :: _) |- _ => apply Forall_cons in H as [? ?] end.
  cbn [drop take length nth]. unfold Subnet_GetKey.
  set (t := [z; z0; z1; z2; z3; z4] ++ replicate 8 0).
  change (copy _ _) with (3 :: n :: t).
  assert (bytes_ok t) as Htok by (unfold t; solve_bytes).
  split_and!; [done|solve_bytes|done|apply Address_GetKey_bits; [done|solve_bytes]|].
  rewrite (GetKey_tail _ 0x02) by (done || solve_bytes).
  assert (addr_canonical (2 :: n :: t)) as Hc.
  { split_and!; [done|solve_bytes|done|].
    cbn [nth]. intros j Hj Hj'. specialize (Hkept j Hj Hj').
    assert (∀ l : bytes, bit (2 :: n :: l) (16 + j) = bit l j) as Hcons
      by (intros; apply (bit_app_r [2; n] _ j)).
    rewrite Hcons in Hkept |- *. unfold t. destruct (decide (j < 48)%nat).
    - rewrite bit_app_l by (simpl; lia).
      rewrite <- Hkept. symmetry. apply (bit_app_l [z; z0; z1; z2; z3; z4] l). simpl; lia.
    - replace j with (8 * length [z; z0; z1; z2; z3; z4] + (j - 48))%nat by (simpl; lia).
      rewrite bit_app_r. apply bit_replicate_0. }
  by rewrite (SubnetForKey_addr _ (2 :: n :: t)) by (done || by apply AddrForKey_GetKey_canonical).
Qed.

(** SubnetForKey_GetKey_roundtrip.  The key that a lookup recovers from a routed /64 leads back to that
    subnet: [SubnetForKey (GetKey (SubnetForKey k)) = SubnetForKey k]. *)
Theorem SubnetForKey_GetKey_roundtrip k s :
  key_ok k → SubnetForKey k = Some s → SubnetForKey (Subnet_GetKey s) = Some s.
Proof. intros Hk Hs. by apply (Subnet_roundtrip k s Hk Hs). Qed.

Lemma SubnetForKey_total k : key_ok k → ∃ s, SubnetForKey k = Some s.
Proof.
  intros Hk. destruct (AddrForKey_bits k Hk) as (a & Ha & _).
  unfold SubnetForKey. rewrite Ha. eauto.
Qed.

Lemma keyXform_eq k s : SubnetForKey k = Some s → keyXform k = Subnet_GetKey s.
Proof. intros Hs. unfold keyXform. by rewrite Hs. Qed.

(** keyXform_same_subnet.  The bloom transform identifies two keys exactly when they own the same
    /64 subnet, so a lookup matches a node ([dx == sx] in the pathfinder) iff
    it asks for that node's subnet; transforming twice changes nothing. *)
Theorem keyXform_same_subnet k1 k2 :
  key_ok k1 → key_ok k2 →
  (keyXform k1 = keyXform k2 ↔ SubnetForKey k1 = SubnetForKey k2) ∧
  keyXform (keyXform k1) = keyXform k1.
Proof.
  intros Hk1 Hk2.
  destruct (SubnetForKey_total k1 Hk1) as [s1 Hs1], (SubnetForKey_total k2 Hk2) as [s2 Hs2].
  destruct (Subnet_roundtrip k1 s1 Hk1 Hs1) as (_ & _ & _ & _ & Hr1).
  destruct (Subnet_roundtrip k2 s2 Hk2 Hs2) as (_ & _ & _ & _ & Hr2).
  rewrite !(keyXform_eq _ _ Hs1), (keyXform_eq _ _ Hs2), Hs1, Hs2, (keyXform_eq _ _ Hr1).
  split; [|done]. split; [|congruence]. intros Heq. congruence.
Qed.

(** address_lookup_matches_node.  A lookup for a node's address reaches that node's bloom filter entry:
    the partial key recovered from the address of [k] has the same bloom
    transform as [k] itself. *)
Theorem address_lookup_matches_node k a :
  key_ok k → AddrForKey k = Some a → keyXform (Address_GetKey a) = keyXform k.
Proof.
  intros Hk Ha. unfold keyXform, SubnetForKey.
  by rewrite AddrForKey_GetKey_canonical, Ha by eauto using AddrForKey_canonical.
Qed.

Lemma derived_ranges k :
  match AddrForKey k, SubnetForKey k with
  | Some a, Some s =>
      length k = PublicKeySize ∧ length a = 16%nat ∧ length s = 8%nat ∧
      Address_IsValid a = true ∧ Subnet_IsValid a = false ∧
      Subnet_IsValid s = true ∧ Address_IsValid s = false
  | None, None => length k ≠ PublicKeySize
  | _, _ => False
  end.
Proof.
  unfold SubnetForKey, AddrForKey.
  destruct (Nat.eqb_spec (length k) PublicKeySize) as [Hl|Hl]; cbn [negb]; [|done].
  set (t := afk_temp _). set (o := afk_ones _).
  split_and!; [done|by rewrite length_app, length_copy|by rewrite length_or_at, length_copy|done..].
Qed.

Lemma AddrForKey_IsValid k a : AddrForKey k = Some a → Address_IsValid a = true ∧ length a = 16%nat.
Proof.
  intros Ha. pose proof (derived_ranges k) as Hr. rewrite Ha in Hr.
  destruct (SubnetForKey k); [|done]. tauto.
Qed.

(** derived_ranges_disjoint.  Node addresses and routed subnets never overlap: the address derived
    from a key is valid as an address and not as a subnet, its subnet is valid
    as a subnet and not as an address; keys of any other length have neither. *)
Theorem derived_ranges_disjoint k :
  match AddrForKey k, SubnetForKey k with
  | Some a, Some s =>
      length k = PublicKeySize ∧ length a = 16%nat ∧ length s = 8%nat ∧
      Address_IsValid a = true ∧ Subnet_IsValid a = false ∧
      Subnet_IsValid s = true ∧ Address_IsValid s = false
  | None, None => length k ≠ PublicKeySize
  | _, _ => False
  end.
Proof. exact (derived_ranges k). Qed.

(** Concrete keys: the test vectors of src/address/address_test.go. *)
Definition sample_key : bytes :=
  [189; 186; 207; 216; 34; 64; 222; 61; 205; 18; 57; 36; 203; 181; 82; 86;
   251; 141; 171; 8; 170; 152; 227; 5; 82; 138; 184; 79; 65; 158; 110; 251].

Definition sample_addr : bytes :=
  [2; 0; 132; 138; 96; 79; 187; 126; 67; 132; 101; 219; 141; 182; 104; 149].

Definition sample_subnet : bytes := [3; 0; 132; 138; 96; 79; 187; 126].

Lemma sample_key_ok : key_ok sample_key.
Proof. split; [done|]. solve_bytes. Qed.

Lemma sample_addr_eq : AddrForKey sample_key = Some sample_addr.
Proof. vm_compute. reflexivity. Qed.

Lemma sample_subnet_eq : SubnetForKey sample_key = Some sample_subnet.
Proof. vm_compute. reflexivity. Qed.

Lemma AddrForKey_GetKey_roundtrip_witness :
  key_ok (Address_GetKey sample_addr) ∧ AddrForKey (Address_GetKey sample_addr) = Some sample_addr.
Proof. exact (AddrForKey_GetKey_roundtrip sample_key sample_addr sample_key_ok sample_addr_eq). Defined.

Lemma SubnetForKey_GetKey_roundtrip_witness :
  SubnetForKey (Subnet_GetKey sample_subnet) = Some sample_subnet.
Proof. exact (SubnetForKey_GetKey_roundtrip sample_key sample_subnet sample_key_ok sample_subnet_eq). Defined.

Lemma keyXform_same_subnet_witness :
  (keyXform sample_key = keyXform sample_key ↔ SubnetForKey sample_key = SubnetForKey sample_key) ∧
  keyXform (keyXform sample_key) = keyXform sample_key.
Proof. exact (keyXform_same_subnet sample_key sample_key sample_key_ok sample_key_ok). Defined.

Lemma address_lookup_matches_node_witness :
  keyXform (Address_GetKey sample_addr) = keyXform sample_key.
Proof. exact (address_lookup_matches_node sample_key sample_addr sample_key_ok sample_addr_eq). Defined.
