(* ===== verification/Crypto.v ===== *)
(** * Crypto: keys and signatures of the routing layer
    (third_party/ironwood/network/crypto.go)

    Ed25519 itself is a parameter: the class [Ed25519] names the three functions
    of [crypto/ed25519] that the sources call, [Ed25519Laws] what its
    documentation promises about them.  Keys are byte strings; [publicKey.equal]
    is equality of byte strings. *)

From S2P Require Import Prelude Address.

Definition PrivateKeySize : nat := 64.
Definition SignatureSize : nat := 64.

Class Ed25519 := {
  ed_Public : bytes → bytes;                    (* PrivateKey.Public *)
  ed_Sign : bytes → bytes → bytes;              (* ed25519.Sign *)
  ed_Verify : bytes → bytes → bytes → bool;     (* ed25519.Verify *)
}.

Class Ed25519Laws `{Ed25519} : Prop := {
  ed_Public_ok : ∀ sk, length sk = PrivateKeySize → bytes_ok sk → key_ok (ed_Public sk);
  ed_Sign_ok : ∀ sk m, length sk = PrivateKeySize → bytes_ok sk →
    length (ed_Sign sk m) = SignatureSize ∧ bytes_ok (ed_Sign sk m);
  ed_Verify_Sign : ∀ sk m, length sk = PrivateKeySize → bytes_ok sk →
    ed_Verify (ed_Public sk) m (ed_Sign sk m) = true;
}.

(** A signature as it is stored in a message. *)
Definition sig_ok (s : bytes) : Prop := length s = SignatureSize ∧ bytes_ok s.

(** A private key of the length that [ed25519] requires. *)
Definition priv_ok (sk : bytes) : Prop := length sk = PrivateKeySize ∧ bytes_ok sk.

(** [privateKey.sign]: the signature is copied into a 64-byte array. *)
Definition privateKey_sign `{Ed25519} (key message : bytes) : bytes :=
  copy (replicate SignatureSize 0) (ed_Sign key message).

(** [publicKey.verify]. *)
Definition publicKey_verify `{Ed25519} (key message sig : bytes) : bool :=
  ed_Verify key message sig.

(** [publicKey.less]: the first index where the keys differ decides. *)
Fixpoint key_less (key comparedKey : bytes) : bool :=
  match key, comparedKey with
  | x :: key, y :: comparedKey =>
      if x <? y then true else if y <? x then false else key_less key comparedKey
  | _, _ => false
  end.

(** ** Properties *)

Lemma key_less_irrefl k : key_less k k = false.
Proof. induction k as [|x k IH]; simpl; [done|]. by rewrite Z.ltb_irrefl. Qed.

Lemma key_less_trans a b c : key_less a b = true → key_less b c = true → key_less a c = true.
Proof.
  revert b c. induction a as [|x a IH]; intros [|y b] [|z c]; simpl; try done.
  destruct (Z.ltb_spec x y), (Z.ltb_spec y z), (Z.ltb_spec x z), (Z.ltb_spec y x),
    (Z.ltb_spec z y), (Z.ltb_spec z x); try done; try lia. apply IH.
Qed.

(** The order is total on keys of the same length. *)
Lemma key_less_total a b :
  length a = length b → key_less a b = false → key_less b a = false → a = b.
Proof.
  revert b. induction a as [|x a IH]; intros [|y b]; simpl; try done.
  intros Hl. destruct (Z.ltb_spec x y), (Z.ltb_spec y x); try done; try lia.
  intros. f_equal; [lia|]. apply IH; [lia|done|done].
Qed.

Lemma key_less_asym a b : key_less a b = true → key_less b a = false.
Proof.
  intros Hab. destruct (key_less b a) eqn:Hba; [|done].
  pose proof (key_less_trans a b a Hab Hba) as H. by rewrite key_less_irrefl in H.
Qed.

Section Laws.
Context `{Ed25519Laws}.

Lemma privateKey_sign_ok sk m : priv_ok sk → sig_ok (privateKey_sign sk m).
Proof.
  intros [Hl Hok]. unfold privateKey_sign.
  destruct (ed_Sign_ok sk m Hl Hok) as [Hs Hb]. split.
  - by rewrite length_copy, length_replicate.
  - auto with uqda.
Qed.

Lemma privateKey_sign_verify sk m :
  priv_ok sk → publicKey_verify (ed_Public sk) m (privateKey_sign sk m) = true.
Proof.
  intros [Hl Hok]. unfold publicKey_verify, privateKey_sign.
  destruct (ed_Sign_ok sk m Hl Hok) as [Hs _].
  rewrite copy_full by (by rewrite length_replicate). by apply ed_Verify_Sign.
Qed.
End Laws.

(** ** An instance

    A private key ends with its public key, as Go's does; the "signature" is the
    public key with a checksum of the message.  It satisfies the laws, and the
    witnesses of the development run on it. *)
Module ToySig.
Definition checksum (m : bytes) : Z := foldl (λ acc b, (31 * acc + b + 1) mod 2 ^ 32) 7 m.

#[export] Instance toy_ed25519 : Ed25519 := {
  ed_Public sk := drop 32 sk;
  ed_Sign sk m := drop 32 sk ++ replicate 28 0 ++
    [u8 (Z.shiftr (checksum m) 24); u8 (Z.shiftr (checksum m) 16);
     u8 (Z.shiftr (checksum m) 8); u8 (checksum m)];
  ed_Verify pk m s := bool_decide (s = pk ++ replicate 28 0 ++
    [u8 (Z.shiftr (checksum m) 24); u8 (Z.shiftr (checksum m) 16);
     u8 (Z.shiftr (checksum m) 8); u8 (checksum m)]);
}.

#[export] Instance toy_ed25519_laws : Ed25519Laws.
Proof.
  split; intros sk; simpl.
  - intros Hl Hok. split; [rewrite length_drop; unfold PublicKeySize; unfold PrivateKeySize in Hl; lia|].
    auto with uqda.
  - intros m Hl Hok. split.
    + rewrite length_app, length_drop. unfold PrivateKeySize in Hl. simpl. rewrite Hl. done.
    + solve_bytes.
  - intros m Hl Hok. by apply bool_decide_eq_true.
Qed.
End ToySig.
