(* ===== verification/Messages.v ===== *)
(** * Messages: the protocol messages of the routing layer
    (message types of third_party/ironwood/network/router.go, pathfinder.go
    and traffic.go)

    One record per Go struct with its [size], [encode], [chop]/[decode] and
    signature methods.  An [encode] whose output does not have the announced
    size panics, as in the code. *)

From S2P Require Import Prelude Binary Wire Address Crypto.

(** ** routerSigReq *)

Record routerSigReq := RouterSigReq { req_seq : Z; req_nonce : Z }.

#[export] Instance routerSigReq_eq_dec : EqDecision routerSigReq.
Proof. solve_decision. Defined.

Definition routerSigReq_size (req : routerSigReq) : Z :=
  wireSizeUint (req_seq req) + wireSizeUint (req_nonce req).

Definition routerSigReq_encode (out : bytes) (req : routerSigReq) : res iw_error bytes :=
  let start := len out in
  let out := wireAppendUint out (req_seq req) in
  let out := wireAppendUint out (req_nonce req) in
  if negb (len out - start =? routerSigReq_size req) then Panic else Ok out.

Definition routerSigReq_bytesForSig (req : routerSigReq) (node parent : bytes) : res iw_error bytes :=
  routerSigReq_encode (node ++ parent) req.

Definition routerSigReq_chop (data : bytes) : res iw_error (routerSigReq * bytes) :=
  '(seq, orig) ← or_err ErrDecode (wireChopUint data);
  '(nonce, orig) ← or_err ErrDecode (wireChopUint orig);
  Ok (RouterSigReq seq nonce, orig).

Definition routerSigReq_decode (data : bytes) : res iw_error routerSigReq :=
  '(tmp, data) ← routerSigReq_chop data;
  if negb (len data =? 0) then Err ErrDecode else Ok tmp.

(** ** routerSigRes *)

Record routerSigRes := RouterSigRes {
  res_req : routerSigReq;
  res_port : Z;
  res_psig : bytes;
}.

#[export] Instance routerSigRes_eq_dec : EqDecision routerSigRes.
Proof. solve_decision. Defined.

Definition routerSigRes_bytesForSig (r : routerSigRes) (node parent : bytes) : res iw_error bytes :=
  bs ← routerSigReq_bytesForSig (res_req r) node parent;
  Ok (wireAppendUint bs (res_port r)).

Definition routerSigRes_check `{Ed25519} (r : routerSigRes) (node parent : bytes) : res iw_error bool :=
  bs ← routerSigRes_bytesForSig r node parent;
  Ok (publicKey_verify parent bs (res_psig r)).

Definition routerSigRes_size (r : routerSigRes) : Z :=
  routerSigReq_size (res_req r) + wireSizeUint (res_port r) + len (res_psig r).

Definition routerSigRes_encode (out : bytes) (r : routerSigRes) : res iw_error bytes :=
  let start := len out in
  out ← routerSigReq_encode out (res_req r);
  let out := wireAppendUint out (res_port r) in
  let out := out ++ res_psig r in
  if negb (len out - start =? routerSigRes_size r) then Panic else Ok out.

Definition routerSigRes_chop (data : bytes) : res iw_error (routerSigRes * bytes) :=
  '(req, orig) ← routerSigReq_chop data;
  '(port, orig) ← or_err ErrDecode (wireChopUint orig);
  '(psig, orig) ← or_err ErrDecode (wireChopSlice SignatureSize orig);
  Ok (RouterSigRes req port psig, orig).

Definition routerSigRes_decode (data : bytes) : res iw_error routerSigRes :=
  '(tmp, data) ← routerSigRes_chop data;
  if negb (len data =? 0) then Err ErrDecode else Ok tmp.

(** ** routerAnnounce and routerInfo *)

Record routerAnnounce := RouterAnnounce {
  ann_key : bytes;
  ann_parent : bytes;
  ann_res : routerSigRes;
  ann_sig : bytes;
}.

#[export] Instance routerAnnounce_eq_dec : EqDecision routerAnnounce.
Proof. solve_decision. Defined.

Definition routerAnnounce_check `{Ed25519} (ann : routerAnnounce) : res iw_error bool :=
  if (res_port (ann_res ann) =? 0) && negb (bool_decide (ann_key ann = ann_parent ann)) then Ok false
  else
    bs ← routerSigRes_bytesForSig (ann_res ann) (ann_key ann) (ann_parent ann);
    Ok (publicKey_verify (ann_key ann) bs (ann_sig ann) &&
        publicKey_verify (ann_parent ann) bs (res_psig (ann_res ann))).

Definition routerAnnounce_size (ann : routerAnnounce) : Z :=
  len (ann_key ann) + len (ann_parent ann) + routerSigRes_size (ann_res ann) + len (ann_sig ann).

Definition routerAnnounce_encode (out : bytes) (ann : routerAnnounce) : res iw_error bytes :=
  let start := len out in
  let out := out ++ ann_key ann in
  let out := out ++ ann_parent ann in
  out ← routerSigRes_encode out (ann_res ann);
  let out := out ++ ann_sig ann in
  if negb (len out - start =? routerAnnounce_size ann) then Panic else Ok out.

Definition routerAnnounce_decode (data : bytes) : res iw_error routerAnnounce :=
  '(key, data) ← or_err ErrDecode (wireChopSlice PublicKeySize data);
  '(parent, data) ← or_err ErrDecode (wireChopSlice PublicKeySize data);
  '(r, data) ← routerSigRes_chop data;
  '(sig, data) ← or_err ErrDecode (wireChopSlice SignatureSize data);
  if negb (len data =? 0) then Err ErrDecode else Ok (RouterAnnounce key parent r sig).

Record routerInfo := RouterInfo {
  info_parent : bytes;
  info_res : routerSigRes;
  info_sig : bytes;
}.

#[export] Instance routerInfo_eq_dec : EqDecision routerInfo.
Proof. solve_decision. Defined.

Definition getAnnounce (info : routerInfo) (key : bytes) : routerAnnounce :=
  RouterAnnounce key (info_parent info) (info_res info) (info_sig info).

(** ** pathLookup *)

Record pathLookup := PathLookup {
  lookup_source : bytes;
  lookup_dest : bytes;
  lookup_from : list Z;
}.

#[export] Instance pathLookup_eq_dec : EqDecision pathLookup.
Proof. solve_decision. Defined.

Definition pathLookup_size (lookup : pathLookup) : Z :=
  len (lookup_source lookup) + len (lookup_dest lookup) + wireSizePath (lookup_from lookup).

Definition pathLookup_encode (out : bytes) (lookup : pathLookup) : res iw_error bytes :=
  let start := len out in
  let out := out ++ lookup_source lookup in
  let out := out ++ lookup_dest lookup in
  let out := wireAppendPath out (lookup_from lookup) in
  if negb (len out - start =? pathLookup_size lookup) then Panic else Ok out.

Definition pathLookup_decode (data : bytes) : res iw_error pathLookup :=
  '(source, orig) ← or_err ErrDecode (wireChopSlice PublicKeySize data);
  '(dest, orig) ← or_err ErrDecode (wireChopSlice PublicKeySize orig);
  '(from, orig) ← or_err ErrDecode (wireChopPath [] orig);
  if negb (len orig =? 0) then Err ErrDecode else Ok (PathLookup source dest from).

(** ** pathNotifyInfo and pathNotify *)

Record pathNotifyInfo := PathNotifyInfo {
  pni_seq : Z;
  pni_path : list Z;
  pni_sig : bytes;
}.

#[export] Instance pathNotifyInfo_eq_dec : EqDecision pathNotifyInfo.
Proof. solve_decision. Defined.

(** [equal] compares the sequence numbers and the paths, not the signatures. *)
Definition pathNotifyInfo_equal (info cmp : pathNotifyInfo) : bool :=
  if negb (pni_seq info =? pni_seq cmp) then false
  else if negb (len (pni_path info) =? len (pni_path cmp)) then false
  else forallb (λ '(x, y), x =? y) (zip (pni_path info) (pni_path cmp)).

Definition pathNotifyInfo_bytesForSig (info : pathNotifyInfo) : bytes :=
  wireAppendPath (wireAppendUint [] (pni_seq info)) (pni_path info).

Definition pathNotifyInfo_sign `{Ed25519} (info : pathNotifyInfo) (key : bytes) : pathNotifyInfo :=
  PathNotifyInfo (pni_seq info) (pni_path info)
    (privateKey_sign key (pathNotifyInfo_bytesForSig info)).

Definition pathNotifyInfo_size (info : pathNotifyInfo) : Z :=
  wireSizeUint (pni_seq info) + wireSizePath (pni_path info) + len (pni_sig info).

Definition pathNotifyInfo_encode (out : bytes) (info : pathNotifyInfo) : res iw_error bytes :=
  let start := len out in
  let out := wireAppendUint out (pni_seq info) in
  let out := wireAppendPath out (pni_path info) in
  let out := out ++ pni_sig info in
  if negb (len out - start =? pathNotifyInfo_size info) then Panic else Ok out.

Definition pathNotifyInfo_decode (data : bytes) : res iw_error pathNotifyInfo :=
  '(seq, orig) ← or_err ErrDecode (wireChopUint data);
  '(path, orig) ← or_err ErrDecode (wireChopPath [] orig);
  '(sig, orig) ← or_err ErrDecode (wireChopSlice SignatureSize orig);
  if negb (len orig =? 0) then Err ErrDecode else Ok (PathNotifyInfo seq path sig).

Record pathNotify := PathNotify {
  notify_path : list Z;
  notify_watermark : Z;
  notify_source : bytes;
  notify_dest : bytes;
  notify_info : pathNotifyInfo;
}.

#[export] Instance pathNotify_eq_dec : EqDecision pathNotify.
Proof. solve_decision. Defined.

Definition pathNotify_check `{Ed25519} (notify : pathNotify) : bool :=
  publicKey_verify (notify_source notify) (pathNotifyInfo_bytesForSig (notify_info notify))
    (pni_sig (notify_info notify)).

Definition pathNotify_size (notify : pathNotify) : Z :=
  wireSizePath (notify_path notify) + wireSizeUint (notify_watermark notify) +
  len (notify_source notify) + len (notify_dest notify) + pathNotifyInfo_size (notify_info notify).

Definition pathNotify_encode (out : bytes) (notify : pathNotify) : res iw_error bytes :=
  let start := len out in
  let out := wireAppendPath out (notify_path notify) in
  let out := wireAppendUint out (notify_watermark notify) in
  let out := out ++ notify_source notify in
  let out := out ++ notify_dest notify in
  out ← pathNotifyInfo_encode out (notify_info notify);
  if negb (len out - start =? pathNotify_size notify) then Panic else Ok out.

Definition pathNotify_decode (data : bytes) : res iw_error pathNotify :=
  '(path, orig) ← or_err ErrDecode (wireChopPath [] data);
  '(watermark, orig) ← or_err ErrDecode (wireChopUint orig);
  '(source, orig) ← or_err ErrDecode (wireChopSlice PublicKeySize orig);
  '(dest, orig) ← or_err ErrDecode (wireChopSlice PublicKeySize orig);
  info ← pathNotifyInfo_decode orig;
  Ok (PathNotify path watermark source dest info).

(** ** pathBroken *)

Record pathBroken := PathBroken {
  broken_path : list Z;
  broken_watermark : Z;
  broken_source : bytes;
  broken_dest : bytes;
}.

#[export] Instance pathBroken_eq_dec : EqDecision pathBroken.
Proof. solve_decision. Defined.

Definition pathBroken_size (broken : pathBroken) : Z :=
  wireSizePath (broken_path broken) + wireSizeUint (broken_watermark broken) +
  len (broken_source broken) + len (broken_dest broken).

Definition pathBroken_encode (out : bytes) (broken : pathBroken) : res iw_error bytes :=
  let start := len out in
  let out := wireAppendPath out (broken_path broken) in
  let out := wireAppendUint out (broken_watermark broken) in
  let out := out ++ broken_source broken in
  let out := out ++ broken_dest broken in
  if negb (len out - start =? pathBroken_size broken) then Panic else Ok out.

Definition pathBroken_decode (data : bytes) : res iw_error pathBroken :=
  '(path, orig) ← or_err ErrDecode (wireChopPath [] data);
  '(watermark, orig) ← or_err ErrDecode (wireChopUint orig);
  '(source, orig) ← or_err ErrDecode (wireChopSlice PublicKeySize orig);
  '(dest, orig) ← or_err ErrDecode (wireChopSlice PublicKeySize orig);
  if negb (len orig =? 0) then Err ErrDecode else Ok (PathBroken path watermark source dest).

(** ** traffic *)

Record traffic := Traffic {
  tr_path : list Z;
  tr_from : list Z;
  tr_source : bytes;
  tr_dest : bytes;
  tr_watermark : Z;
  tr_payload : bytes;
}.

#[export] Instance traffic_eq_dec : EqDecision traffic.
Proof. solve_decision. Defined.

Definition traffic_size (tr : traffic) : Z :=
  wireSizePath (tr_path tr) + wireSizePath (tr_from tr) + len (tr_source tr) +
  len (tr_dest tr) + wireSizeUint (tr_watermark tr) + len (tr_payload tr).

Definition traffic_encode (out : bytes) (tr : traffic) : res iw_error bytes :=
  let start := len out in
  let out := wireAppendPath out (tr_path tr) in
  let out := wireAppendPath out (tr_from tr) in
  let out := out ++ tr_source tr in
  let out := out ++ tr_dest tr in
  let out := wireAppendUint out (tr_watermark tr) in
  let out := out ++ tr_payload tr in
  if negb (len out - start =? traffic_size tr) then Panic else Ok out.

Definition traffic_decode (data : bytes) : res iw_error traffic :=
  '(path, data) ← or_err ErrDecode (wireChopPath [] data);
  '(from, data) ← or_err ErrDecode (wireChopPath [] data);
  '(source, data) ← or_err ErrDecode (wireChopSlice PublicKeySize data);
  '(dest, data) ← or_err ErrDecode (wireChopSlice PublicKeySize data);
  '(watermark, data) ← or_err ErrDecode (wireChopUint data);
  Ok (Traffic path from source dest watermark data).

(** ** Payloads: the bytes that the encoders append *)

Definition routerSigReq_payload (req : routerSigReq) : bytes :=
  uvarint (req_seq req) ++ uvarint (req_nonce req).
Definition routerSigRes_payload (r : routerSigRes) : bytes :=
  routerSigReq_payload (res_req r) ++ uvarint (res_port r) ++ res_psig r.
Definition routerAnnounce_payload (ann : routerAnnounce) : bytes :=
  ann_key ann ++ ann_parent ann ++ routerSigRes_payload (ann_res ann) ++ ann_sig ann.
Definition pathLookup_payload (l : pathLookup) : bytes :=
  lookup_source l ++ lookup_dest l ++ path_bytes (lookup_from l).
Definition pathNotifyInfo_payload (i : pathNotifyInfo) : bytes :=
  uvarint (pni_seq i) ++ path_bytes (pni_path i) ++ pni_sig i.
Definition pathNotify_payload (n : pathNotify) : bytes :=
  path_bytes (notify_path n) ++ uvarint (notify_watermark n) ++ notify_source n ++
  notify_dest n ++ pathNotifyInfo_payload (notify_info n).
Definition pathBroken_payload (b : pathBroken) : bytes :=
  path_bytes (broken_path b) ++ uvarint (broken_watermark b) ++ broken_source b ++ broken_dest b.
Definition traffic_payload (tr : traffic) : bytes :=
  path_bytes (tr_path tr) ++ path_bytes (tr_from tr) ++ tr_source tr ++ tr_dest tr ++
  uvarint (tr_watermark tr) ++ tr_payload tr.

(** ** Well-formed messages *)

Definition routerSigReq_wf (req : routerSigReq) : Prop :=
  is_u64 (req_seq req) ∧ is_u64 (req_nonce req).
Definition routerSigRes_wf (r : routerSigRes) : Prop :=
  routerSigReq_wf (res_req r) ∧ is_u64 (res_port r) ∧ length (res_psig r) = SignatureSize.
Definition routerAnnounce_wf (ann : routerAnnounce) : Prop :=
  length (ann_key ann) = PublicKeySize ∧ length (ann_parent ann) = PublicKeySize ∧
  routerSigRes_wf (ann_res ann) ∧ length (ann_sig ann) = SignatureSize.
Definition pathLookup_wf (l : pathLookup) : Prop :=
  length (lookup_source l) = PublicKeySize ∧ length (lookup_dest l) = PublicKeySize ∧
  path_ok (lookup_from l).
Definition pathNotifyInfo_wf (i : pathNotifyInfo) : Prop :=
  is_u64 (pni_seq i) ∧ path_ok (pni_path i) ∧ length (pni_sig i) = SignatureSize.
Definition pathNotify_wf (n : pathNotify) : Prop :=
  path_ok (notify_path n) ∧ is_u64 (notify_watermark n) ∧
  length (notify_source n) = PublicKeySize ∧ length (notify_dest n) = PublicKeySize ∧
  pathNotifyInfo_wf (notify_info n).
Definition pathBroken_wf (b : pathBroken) : Prop :=
  path_ok (broken_path b) ∧ is_u64 (broken_watermark b) ∧
  length (broken_source b) = PublicKeySize ∧ length (broken_dest b) = PublicKeySize.
Definition traffic_wf (tr : traffic) : Prop :=
  path_ok (tr_path tr) ∧ path_ok (tr_from tr) ∧ length (tr_source tr) = PublicKeySize ∧
  length (tr_dest tr) = PublicKeySize ∧ is_u64 (tr_watermark tr).

(** ** Encoders: the size check never fires *)

Create HintDb wire_sizes.

Lemma wireSizeUint_len u : wireSizeUint u = len (uvarint u).
Proof. done. Qed.
#[export] Hint Rewrite wireSizeUint_len : wire_enc.

(** Discharge the size check of an encoder and normalise the output. *)
Ltac encode_check sz :=
  match goal with
  | |- context [negb (?a =? ?b)] =>
      replace (a =? b) with true
        by (symmetry; apply Z.eqb_eq; unfold sz; autorewrite with wire_enc; lia)
  end; cbn [negb]; rewrite <- ?app_assoc; try reflexivity.

Lemma routerSigReq_encode_eq out req :
  routerSigReq_encode out req = Ok (out ++ routerSigReq_payload req).
Proof.
  unfold routerSigReq_encode. rewrite !wireAppendUint_app. encode_check routerSigReq_size.
Qed.

Lemma routerSigReq_size_eq req : routerSigReq_size req = len (routerSigReq_payload req).
Proof. unfold routerSigReq_size, routerSigReq_payload. by autorewrite with wire_enc. Qed.
#[export] Hint Rewrite routerSigReq_size_eq : wire_enc.

Lemma routerSigRes_size_eq r : routerSigRes_size r = len (routerSigRes_payload r).
Proof.
  unfold routerSigRes_size, routerSigRes_payload. autorewrite with wire_enc. lia.
Qed.
#[export] Hint Rewrite routerSigRes_size_eq : wire_enc.

Lemma routerSigRes_encode_eq out r :
  routerSigRes_encode out r = Ok (out ++ routerSigRes_payload r).
Proof.
  unfold routerSigRes_encode. rewrite routerSigReq_encode_eq. cbn [mbind res_bind].
  rewrite wireAppendUint_app. unfold routerSigRes_payload.
  rewrite routerSigRes_size_eq. encode_check routerSigRes_payload.
Qed.

Lemma routerAnnounce_size_eq ann : routerAnnounce_size ann = len (routerAnnounce_payload ann).
Proof. unfold routerAnnounce_size, routerAnnounce_payload. autorewrite with wire_enc. lia. Qed.

Lemma routerAnnounce_encode_eq out ann :
  routerAnnounce_encode out ann = Ok (out ++ routerAnnounce_payload ann).
Proof.
  unfold routerAnnounce_encode. rewrite routerSigRes_encode_eq. cbn [mbind res_bind].
  unfold routerAnnounce_payload. encode_check routerAnnounce_size.
Qed.

Lemma pathLookup_size_eq l : pathLookup_size l = len (pathLookup_payload l).
Proof. unfold pathLookup_size, pathLookup_payload. autorewrite with wire_enc. lia. Qed.

Lemma pathLookup_encode_eq out l : pathLookup_encode out l = Ok (out ++ pathLookup_payload l).
Proof.
  unfold pathLookup_encode, pathLookup_payload. rewrite wireAppendPath_app.
  encode_check pathLookup_size.
Qed.

Lemma pathNotifyInfo_size_eq i : pathNotifyInfo_size i = len (pathNotifyInfo_payload i).
Proof. unfold pathNotifyInfo_size, pathNotifyInfo_payload. autorewrite with wire_enc. lia. Qed.
#[export] Hint Rewrite pathNotifyInfo_size_eq : wire_enc.

Lemma pathNotifyInfo_encode_eq out i :
  pathNotifyInfo_encode out i = Ok (out ++ pathNotifyInfo_payload i).
Proof.
  unfold pathNotifyInfo_encode. rewrite wireAppendPath_app, wireAppendUint_app, pathNotifyInfo_size_eq.
  unfold pathNotifyInfo_payload. encode_check pathNotifyInfo_size.
Qed.

Lemma pathNotify_size_eq n : pathNotify_size n = len (pathNotify_payload n).
Proof. unfold pathNotify_size, pathNotify_payload. autorewrite with wire_enc. lia. Qed.

Lemma pathNotify_encode_eq out n : pathNotify_encode out n = Ok (out ++ pathNotify_payload n).
Proof.
  unfold pathNotify_encode. rewrite wireAppendPath_app, wireAppendUint_app, pathNotifyInfo_encode_eq.
  cbn [mbind res_bind]. unfold pathNotify_payload. encode_check pathNotify_size.
Qed.

Lemma pathBroken_size_eq b : pathBroken_size b = len (pathBroken_payload b).
Proof. unfold pathBroken_size, pathBroken_payload. autorewrite with wire_enc. lia. Qed.

Lemma pathBroken_encode_eq out b : pathBroken_encode out b = Ok (out ++ pathBroken_payload b).
Proof.
  unfold pathBroken_encode, pathBroken_payload. rewrite wireAppendPath_app, wireAppendUint_app.
  encode_check pathBroken_size.
Qed.

Lemma traffic_size_eq tr : traffic_size tr = len (traffic_payload tr).
Proof. unfold traffic_size, traffic_payload. autorewrite with wire_enc. lia. Qed.

Lemma traffic_encode_eq out tr : traffic_encode out tr = Ok (out ++ traffic_payload tr).
Proof.
  unfold traffic_encode, traffic_payload. rewrite !wireAppendPath_app, wireAppendUint_app.
  encode_check traffic_size.
Qed.

(** ** Decoders invert the encoders *)

Ltac decode_step :=
  autorewrite with wire; cbn [or_err mbind res_bind option_bind len length Z.of_nat negb Z.eqb].

Lemma routerSigReq_chop_app req rest :
  routerSigReq_wf req → routerSigReq_chop (routerSigReq_payload req ++ rest) = Ok (req, rest).
Proof.
  intros [Hs Hn]. unfold routerSigReq_chop, routerSigReq_payload. rewrite <- app_assoc.
  repeat decode_step. by destruct req.
Qed.

Lemma routerSigRes_chop_app r rest :
  routerSigRes_wf r → routerSigRes_chop (routerSigRes_payload r ++ rest) = Ok (r, rest).
Proof.
  intros (Hr & Hp & Hs). unfold routerSigRes_chop, routerSigRes_payload. rewrite <- !app_assoc.
  rewrite routerSigReq_chop_app by done. repeat decode_step. by destruct r.
Qed.

Lemma routerSigReq_decode_payload req :
  routerSigReq_wf req → routerSigReq_decode (routerSigReq_payload req) = Ok req.
Proof.
  intros. unfold routerSigReq_decode.
  rewrite <- (app_nil_r (routerSigReq_payload req)), routerSigReq_chop_app by done. done.
Qed.

Lemma routerSigRes_decode_payload r :
  routerSigRes_wf r → routerSigRes_decode (routerSigRes_payload r) = Ok r.
Proof.
  intros. unfold routerSigRes_decode.
  rewrite <- (app_nil_r (routerSigRes_payload r)), routerSigRes_chop_app by done. done.
Qed.

Lemma routerAnnounce_decode_payload ann :
  routerAnnounce_wf ann → routerAnnounce_decode (routerAnnounce_payload ann) = Ok ann.
Proof.
  intros (Hk & Hp & Hr & Hs). unfold routerAnnounce_decode, routerAnnounce_payload.
  repeat decode_step. rewrite routerSigRes_chop_app by done. repeat decode_step. by destruct ann.
Qed.

Lemma pathLookup_decode_payload l :
  pathLookup_wf l → pathLookup_decode (pathLookup_payload l) = Ok l.
Proof.
  intros (Hs & Hd & Hf). unfold pathLookup_decode, pathLookup_payload.
  repeat decode_step. by destruct l.
Qed.

Lemma pathNotifyInfo_decode_payload i :
  pathNotifyInfo_wf i → pathNotifyInfo_decode (pathNotifyInfo_payload i) = Ok i.
Proof.
  intros (Hs & Hp & Hg). unfold pathNotifyInfo_decode, pathNotifyInfo_payload.
  repeat decode_step. by destruct i.
Qed.

Lemma pathNotify_decode_payload n :
  pathNotify_wf n → pathNotify_decode (pathNotify_payload n) = Ok n.
Proof.
  intros (Hp & Hw & Hs & Hd & Hi). unfold pathNotify_decode, pathNotify_payload.
  repeat decode_step. rewrite pathNotifyInfo_decode_payload by done. by destruct n.
Qed.

Lemma pathBroken_decode_payload b :
  pathBroken_wf b → pathBroken_decode (pathBroken_payload b) = Ok b.
Proof.
  intros (Hp & Hw & Hs & Hd). unfold pathBroken_decode, pathBroken_payload.
  repeat decode_step. by destruct b.
Qed.

Lemma traffic_decode_payload tr :
  traffic_wf tr → traffic_decode (traffic_payload tr) = Ok tr.
Proof.
  intros (Hp & Hf & Hs & Hd & Hw). unfold traffic_decode, traffic_payload.
  repeat decode_step. by destruct tr.
Qed.

(** ** What a decoder accepts is well-formed *)

Lemma or_err_Ok {E A} (e : E) (o : option A) a : or_err e o = Ok a → o = Some a.
Proof. by destruct o; intros; simplify_eq/=. Qed.

Lemma or_err_not_Panic {E A} (e : E) (o : option A) : or_err e o ≠ Panic.
Proof. by destruct o. Qed.

Lemma res_bind_Ok {E A B} (m : res E A) (f : A → res E B) b :
  m ≫= f = Ok b → ∃ a, m = Ok a ∧ f a = Ok b.
Proof. destruct m; simpl; naive_solver. Qed.

(** Split a successful sequence of reads into its steps. *)
Ltac decode_inv :=
  repeat match goal with
  | H : _ ≫= _ = Ok _ |- _ =>
      let x := fresh "x" in let Hx := fresh "Hx" in
      apply res_bind_Ok in H as (x & Hx & H); try (destruct x)
  | H : or_err _ _ = Ok _ |- _ => apply or_err_Ok in H
  | H : (if ?b then Err _ else Ok _) = Ok _ |- _ => destruct b; simplify_eq/=
  | H : Ok _ = Ok _ |- _ => injection H as H; subst
  end.

Ltac decode_wf :=
  repeat match goal with
  | H : wireChopSlice _ _ = Some _ |- _ => apply wireChopSlice_Some in H
  | H : wireChopUint _ = Some _ |- _ => apply wireChopUint_Some in H
  | H : wireChopPath [] _ = Some _ |- _ => apply wireChopPath_Some in H
  end; try (split_and!; done).

Lemma routerSigReq_chop_wf data req rest : routerSigReq_chop data = Ok (req, rest) → routerSigReq_wf req.
Proof. unfold routerSigReq_chop, routerSigReq_wf. intros H. decode_inv. decode_wf. Qed.

Lemma routerSigRes_chop_wf data r rest : routerSigRes_chop data = Ok (r, rest) → routerSigRes_wf r.
Proof.
  unfold routerSigRes_chop, routerSigRes_wf. intros H. decode_inv.
  match goal with H : routerSigReq_chop _ = Ok _ |- _ => apply routerSigReq_chop_wf in H end. decode_wf.
Qed.

Lemma routerSigReq_decode_wf data req : routerSigReq_decode data = Ok req → routerSigReq_wf req.
Proof. unfold routerSigReq_decode. intros H. decode_inv. by eapply routerSigReq_chop_wf. Qed.

Lemma routerSigRes_decode_wf data r : routerSigRes_decode data = Ok r → routerSigRes_wf r.
Proof. unfold routerSigRes_decode. intros H. decode_inv. by eapply routerSigRes_chop_wf. Qed.

Lemma routerAnnounce_decode_wf data ann : routerAnnounce_decode data = Ok ann → routerAnnounce_wf ann.
Proof.
  unfold routerAnnounce_decode, routerAnnounce_wf. intros H. decode_inv.
  match goal with H : routerSigRes_chop _ = Ok _ |- _ => apply routerSigRes_chop_wf in H end. decode_wf.
Qed.

Lemma pathLookup_decode_wf data l : pathLookup_decode data = Ok l → pathLookup_wf l.
Proof. unfold pathLookup_decode, pathLookup_wf. intros H. decode_inv. decode_wf. Qed.

Lemma pathNotifyInfo_decode_wf data i : pathNotifyInfo_decode data = Ok i → pathNotifyInfo_wf i.
Proof. unfold pathNotifyInfo_decode, pathNotifyInfo_wf. intros H. decode_inv. decode_wf. Qed.

Lemma pathNotify_decode_wf data n : pathNotify_decode data = Ok n → pathNotify_wf n.
Proof.
  unfold pathNotify_decode, pathNotify_wf. intros H. decode_inv. simpl.
  match goal with H : pathNotifyInfo_decode _ = Ok _ |- _ => apply pathNotifyInfo_decode_wf in H end. decode_wf.
Qed.

Lemma pathBroken_decode_wf data b : pathBroken_decode data = Ok b → pathBroken_wf b.
Proof. unfold pathBroken_decode, pathBroken_wf. intros H. decode_inv. decode_wf. Qed.

Lemma traffic_decode_wf data tr : traffic_decode data = Ok tr → traffic_wf tr.
Proof. unfold traffic_decode, traffic_wf. intros H. decode_inv. decode_wf. Qed.

(** ** No decoder panics *)

Lemma res_bind_not_Panic {E A B} (m : res E A) (f : A → res E B) :
  m ≠ Panic → (∀ a, m = Ok a → f a ≠ Panic) → m ≫= f ≠ Panic.
Proof. destruct m; simpl; naive_solver. Qed.

Create HintDb no_panic.

Ltac no_panic :=
  repeat first
    [ done
    | apply or_err_not_Panic
    | solve [auto with no_panic nocore]
    | apply res_bind_not_Panic; [|intros ? _]
    | match goal with |- context [let '(_, _) := ?x in _] => destruct x end
    | match goal with |- (if ?b then _ else _) ≠ Panic => destruct b end ].

Lemma routerSigReq_chop_no_panic data : routerSigReq_chop data ≠ Panic.
Proof. unfold routerSigReq_chop. no_panic. Qed.
#[export] Hint Resolve routerSigReq_chop_no_panic : no_panic.

Lemma routerSigRes_chop_no_panic data : routerSigRes_chop data ≠ Panic.
Proof. unfold routerSigRes_chop. no_panic. Qed.
#[export] Hint Resolve routerSigRes_chop_no_panic : no_panic.

Lemma routerSigReq_decode_no_panic data : routerSigReq_decode data ≠ Panic.
Proof. unfold routerSigReq_decode. no_panic. Qed.

Lemma routerSigRes_decode_no_panic data : routerSigRes_decode data ≠ Panic.
Proof. unfold routerSigRes_decode. no_panic. Qed.

Lemma routerAnnounce_decode_no_panic data : routerAnnounce_decode data ≠ Panic.
Proof. unfold routerAnnounce_decode. no_panic. Qed.

Lemma pathLookup_decode_no_panic data : pathLookup_decode data ≠ Panic.
Proof. unfold pathLookup_decode. no_panic. Qed.

Lemma pathNotifyInfo_decode_no_panic data : pathNotifyInfo_decode data ≠ Panic.
Proof. unfold pathNotifyInfo_decode. no_panic. Qed.
#[export] Hint Resolve pathNotifyInfo_decode_no_panic : no_panic.

Lemma pathNotify_decode_no_panic data : pathNotify_decode data ≠ Panic.
Proof. unfold pathNotify_decode. no_panic. Qed.

Lemma pathBroken_decode_no_panic data : pathBroken_decode data ≠ Panic.
Proof. unfold pathBroken_decode. no_panic. Qed.

Lemma traffic_decode_no_panic data : traffic_decode data ≠ Panic.
Proof. unfold traffic_decode. no_panic. Qed.

Lemma routerSigRes_bytesForSig_eq r node parent :
  routerSigRes_bytesForSig r node parent =
    Ok (node ++ parent ++ routerSigReq_payload (res_req r) ++ uvarint (res_port r)).
Proof.
  unfold routerSigRes_bytesForSig, routerSigReq_bytesForSig. rewrite routerSigReq_encode_eq.
  cbn [mbind res_bind]. by rewrite wireAppendUint_app, <- !app_assoc.
Qed.

Lemma routerSigRes_check_no_panic `{Ed25519} r node parent : routerSigRes_check r node parent ≠ Panic.
Proof. unfold routerSigRes_check. by rewrite routerSigRes_bytesForSig_eq. Qed.

Lemma routerAnnounce_check_no_panic `{Ed25519} ann : routerAnnounce_check ann ≠ Panic.
Proof.
  unfold routerAnnounce_check. destruct (_ && _); [done|]. by rewrite routerSigRes_bytesForSig_eq.
Qed.

#[export] Hint Resolve routerSigReq_decode_no_panic routerSigRes_decode_no_panic
  routerAnnounce_decode_no_panic pathLookup_decode_no_panic pathNotify_decode_no_panic
  pathBroken_decode_no_panic traffic_decode_no_panic routerSigRes_check_no_panic
  routerAnnounce_check_no_panic : no_panic.

(** ** What the signatures cover *)

(** Reading back the two integers of a signed response. *)
Lemma uvarint_inj_app u v r s : is_u64 u → is_u64 v → uvarint u ++ r = uvarint v ++ s → u = v ∧ r = s.
Proof.
  intros Hu Hv Heq. pose proof (wireChopUint_app u r Hu) as H1. rewrite Heq in H1.
  rewrite (wireChopUint_app v s Hv) in H1. by simplify_eq.
Qed.

(** sigRes_bytes_injective.  The bytes that a parent signs for a child
    determine the child, the parent, the sequence number, the nonce and the
    port: a signature given for one tree edge cannot be presented for another. *)
Theorem sigRes_bytes_injective r r' node node' parent parent' :
  routerSigRes_wf r → routerSigRes_wf r' →
  length node = PublicKeySize → length node' = PublicKeySize →
  length parent = PublicKeySize → length parent' = PublicKeySize →
  routerSigRes_bytesForSig r node parent = routerSigRes_bytesForSig r' node' parent' →
  node = node' ∧ parent = parent' ∧ res_req r = res_req r' ∧ res_port r = res_port r'.
Proof.
  intros ((Hs & Hn) & Hp & _) ((Hs' & Hn') & Hp' & _) L1 L2 L3 L4.
  rewrite !routerSigRes_bytesForSig_eq. intros [= Heq].
  apply app_inj_1 in Heq as [-> Heq]; [|by rewrite L1, L2].
  apply app_inj_1 in Heq as [-> Heq]; [|by rewrite L3, L4].
  unfold routerSigReq_payload in Heq. rewrite <- !app_assoc in Heq.
  apply uvarint_inj_app in Heq as [E1 Heq]; [|done..].
  apply uvarint_inj_app in Heq as [E2 Heq]; [|done..].
  rewrite <- (app_nil_r (uvarint (res_port r))), <- (app_nil_r (uvarint (res_port r'))) in Heq.
  apply uvarint_inj_app in Heq as [E3 _]; [|done..].
  split_and!; try done. destruct (res_req r), (res_req r'); simpl in *; by subst.
Qed.

Lemma sigRes_bytes_injective_witness :
  let r := RouterSigRes (RouterSigReq 3 300) 2 (replicate 64 0) in
  let k := replicate 32 1 in
  k = k ∧ k = k ∧ res_req r = res_req r ∧ res_port r = 2.
Proof.
  intros r k. pose (r' := RouterSigRes (RouterSigReq 3 300) 2 (replicate 64 7)).
  apply (sigRes_bytes_injective r r' k k k k); try reflexivity; repeat split; vm_compute; done.
Defined.
