(* ===== verification/PacketQueue.v ===== *)
(** * Packet queues (third_party/ironwood/network/packetqueue.go)

    The queue of the packets that wait to be sent on a connection, or to be read:
    packets are grouped by destination and, below that, by source; the groups of
    each level form a heap ordered by the time of their oldest packet.  The
    specification is the list of the waiting packets in the order of their
    arrival. *)

From S2P Require Import Prelude Binary Wire GoHeap Address Crypto Messages.

(** The types that implement the interface [pqPacket]. *)
Inductive pqPacket :=
| PqTraffic (tr : traffic)
| PqLookup (l : pathLookup)
| PqNotify (n : pathNotify)
| PqBroken (b : pathBroken).

#[export] Instance pqPacket_eq_dec : EqDecision pqPacket.
Proof. solve_decision. Defined.

Definition pq_sourceKey (p : pqPacket) : bytes :=
  match p with
  | PqTraffic tr => tr_source tr
  | PqLookup l => lookup_source l
  | PqNotify n => notify_source n
  | PqBroken b => broken_source b
  end.

Definition pq_destKey (p : pqPacket) : bytes :=
  match p with
  | PqTraffic tr => tr_dest tr
  | PqLookup l => lookup_dest l
  | PqNotify n => notify_dest n
  | PqBroken b => broken_dest b
  end.

Definition pq_packet_size (p : pqPacket) : Z :=
  match p with
  | PqTraffic tr => traffic_size tr
  | PqLookup l => pathLookup_size l
  | PqNotify n => pathNotify_size n
  | PqBroken b => pathBroken_size b
  end.

Record pqPacketInfo := PqPacketInfo { pi_packet : pqPacket; pi_size : Z; pi_time : Z }.

#[export] Instance pqPacketInfo_eq_dec : EqDecision pqPacketInfo.
Proof. solve_decision. Defined.

Record pqSource := PqSource { ps_key : bytes; ps_infos : list pqPacketInfo; ps_size : Z }.
Record pqDest := PqDest { pd_key : bytes; pd_sources : list pqSource; pd_size : Z }.
Record packetQueue := PacketQueue { pq_dests : list pqDest; pq_size : Z }.

Definition empty_queue : packetQueue := PacketQueue [] 0.

(** An index out of range panics. *)
Definition at_index {A} (l : list A) (i : nat) : res iw_error A :=
  match l !! i with Some x => Ok x | None => Panic end.

(** ** The interfaces of the two heaps *)

Definition source_time (s : pqSource) : res iw_error Z :=
  info ← at_index (ps_infos s) 0; Ok (pi_time info).

Definition dest_time (d : pqDest) : res iw_error Z :=
  s ← at_index (pd_sources d) 0; source_time s.

Definition pqDest_Less (x y : pqSource) : res iw_error bool :=
  a ← source_time x; b ← source_time y; Ok (a <? b).

Definition packetQueue_Less (x y : pqDest) : res iw_error bool :=
  a ← dest_time x; b ← dest_time y; Ok (a <? b).

Definition pqDest_Pop (d : pqDest) : res iw_error pqDest :=
  let idx := (length (pd_sources d) - 1)%nat in
  source ← at_index (pd_sources d) idx;
  Ok (PqDest (pd_key d) (take idx (pd_sources d)) (u64 (pd_size d - ps_size source))).

Definition packetQueue_Pop (q : packetQueue) : res iw_error packetQueue :=
  let idx := (length (pq_dests q) - 1)%nat in
  dest ← at_index (pq_dests q) idx;
  Ok (PacketQueue (take idx (pq_dests q)) (u64 (pq_size q - pd_size dest))).

(** [heap.Fix] and [heap.Remove] on either level. *)
Definition dest_Fix (d : pqDest) (i : nat) : res iw_error pqDest :=
  h ← heap_Fix pqDest_Less (pd_sources d) i; Ok (PqDest (pd_key d) h (pd_size d)).

Definition dest_Remove (d : pqDest) (i : nat) : res iw_error pqDest :=
  h ← heap_Remove pqDest_Less (pd_sources d) i; pqDest_Pop (PqDest (pd_key d) h (pd_size d)).

Definition queue_Fix (q : packetQueue) (i : nat) : res iw_error packetQueue :=
  h ← heap_Fix packetQueue_Less (pq_dests q) i; Ok (PacketQueue h (pq_size q)).

Definition queue_Remove (q : packetQueue) (i : nat) : res iw_error packetQueue :=
  h ← heap_Remove packetQueue_Less (pq_dests q) i; packetQueue_Pop (PacketQueue h (pq_size q)).

(** ** The operations *)

(** The index of the first largest entry, as the loops of [drop] find it. *)
Definition largest (sizes : list Z) : nat :=
  foldl (λ best idx, if nth best sizes 0 <? nth idx sizes 0 then idx else best) 0%nat (seq 0 (length sizes)).

Definition pq_drop (q : packetQueue) : res iw_error (bool * packetQueue) :=
  if pq_size q =? 0 then Ok (false, q)
  else
    let dIdx := largest (pd_size <$> pq_dests q) in
    dest ← at_index (pq_dests q) dIdx;
    let sIdx := largest (ps_size <$> pd_sources dest) in
    source ← at_index (pd_sources dest) sIdx;
    info ← at_index (ps_infos source) 0;
    let source := PqSource (ps_key source) (tail (ps_infos source)) (u64 (ps_size source - pi_size info)) in
    let dest := PqDest (pd_key dest) (<[sIdx := source]> (pd_sources dest)) (pd_size dest) in
    dest ← (if 0 <? ps_size source then dest_Fix dest sIdx else dest_Remove dest sIdx);
    let dest := PqDest (pd_key dest) (pd_sources dest) (u64 (pd_size dest - pi_size info)) in
    let q := PacketQueue (<[dIdx := dest]> (pq_dests q)) (pq_size q) in
    q ← (if 0 <? pd_size dest then queue_Fix q dIdx else queue_Remove q dIdx);
    Ok (true, PacketQueue (pq_dests q) (u64 (pq_size q - pi_size info))).

(** [now] is the time of the call. *)
Definition pq_push (now : Z) (packet : pqPacket) (q : packetQueue) : packetQueue :=
  let sKey := pq_sourceKey packet in
  let dKey := pq_destKey packet in
  let info := PqPacketInfo packet (u64 (pq_packet_size packet)) now in
  let found := list_find (λ d, pd_key d = dKey) (pq_dests q) in
  let dest := match found with Some (_, d) => d | None => PqDest dKey [] 0 end in
  let foundS := list_find (λ s, ps_key s = sKey) (pd_sources dest) in
  let source := match foundS with Some (_, s) => s | None => PqSource sKey [] 0 end in
  let source := PqSource (ps_key source) (ps_infos source ++ [info]) (u64 (ps_size source + pi_size info)) in
  let sources := match foundS with
    | None => pd_sources dest ++ [source]
    | Some (sIdx, _) => <[sIdx := source]> (pd_sources dest)
    end in
  let dest := PqDest (pd_key dest) sources (u64 (pd_size dest + pi_size info)) in
  let dests := match found with
    | None => pq_dests q ++ [dest]
    | Some (dIdx, _) => <[dIdx := dest]> (pq_dests q)
    end in
  PacketQueue dests (u64 (pq_size q + pi_size info)).

Definition pq_pop (q : packetQueue) : res iw_error (option pqPacketInfo * packetQueue) :=
  if 0 <? pq_size q then
    dest ← at_index (pq_dests q) 0;
    source ← at_index (pd_sources dest) 0;
    info ← at_index (ps_infos source) 0;
    let source := PqSource (ps_key source) (ps_infos source) (u64 (ps_size source - pi_size info)) in
    let dest := PqDest (pd_key dest) (pd_sources dest) (u64 (pd_size dest - pi_size info)) in
    let qsize := u64 (pq_size q - pi_size info) in
    dest ← (if decide (1 < length (ps_infos source))%nat then
              let source := PqSource (ps_key source) (tail (ps_infos source)) (ps_size source) in
              dest_Fix (PqDest (pd_key dest) (<[0%nat := source]> (pd_sources dest)) (pd_size dest)) 0
            else dest_Remove (PqDest (pd_key dest) (<[0%nat := source]> (pd_sources dest)) (pd_size dest)) 0);
    let q := PacketQueue (<[0%nat := dest]> (pq_dests q)) qsize in
    q ← (if decide (0 < length (pd_sources dest))%nat then queue_Fix q 0 else queue_Remove q 0);
    Ok (Some info, q)
  else Ok (None, q).

Definition pq_peek (q : packetQueue) : res iw_error (option pqPacketInfo) :=
  match pq_dests q with
  | [] => Ok None
  | dest :: _ =>
      source ← at_index (pd_sources dest) 0;
      info ← at_index (ps_infos source) 0;
      Ok (Some info)
  end.

(** ** The waiting packets in the order of their arrival *)

Definition info_dest (i : pqPacketInfo) : bytes := pq_destKey (pi_packet i).
Definition info_source (i : pqPacketInfo) : bytes := pq_sourceKey (pi_packet i).

Definition total (l : list pqPacketInfo) : Z := foldr (λ i n, pi_size i + n) 0 l.

Definition in_time (l : list pqPacketInfo) : Prop := StronglySorted (λ i j, pi_time i <= pi_time j) l.

Definition head_time (l : list pqPacketInfo) : Z := match l with i :: _ => pi_time i | [] => 0 end.

Definition sized (l : list pqPacketInfo) : Prop := Forall (λ i, 0 < pi_size i) l.

Lemma total_app l1 l2 : total (l1 ++ l2) = total l1 + total l2.
Proof. induction l1 as [|i l1 IH]; simpl; [done|]. unfold total in *. lia. Qed.

Lemma total_pos l : sized l → l ≠ [] → 0 < total l.
Proof.
  intros Hs Hl. induction Hs as [|i l Hi Hs IH]; [done|]. simpl. destruct l as [|j l]; [simpl; lia|].
  specialize (IH ltac:(done)). unfold total in *. lia.
Qed.

Lemma total_nonneg l : sized l → 0 <= total l.
Proof. intros Hs. destruct l; [done|]. pose proof (total_pos _ Hs ltac:(done)). lia. Qed.

Lemma sized_filter (P : pqPacketInfo → Prop) `{∀ i, Decision (P i)} l : sized l → sized (filter P l).
Proof. unfold sized. rewrite !Forall_forall. intros Hs i [_ Hi]%list_elem_of_filter. by apply Hs. Qed.

Lemma total_filter (P : pqPacketInfo → Prop) `{∀ i, Decision (P i)} l : sized l → total (filter P l) <= total l.
Proof.
  induction 1 as [|i l Hi Hs IH]; [done|]. rewrite filter_cons. case_decide; simpl; lia.
Qed.

Lemma in_time_filter (P : pqPacketInfo → Prop) `{∀ i, Decision (P i)} l : in_time l → in_time (filter P l).
Proof.
  induction 1 as [|i l Hs IH Hall]; [constructor|]. rewrite filter_cons. case_decide; [|done].
  constructor; [done|]. rewrite Forall_forall in *. intros j [_ Hj]%list_elem_of_filter. by apply Hall.
Qed.

Lemma in_time_head l i : in_time l → i ∈ l → head_time l <= pi_time i.
Proof.
  intros Hs Hi. destruct Hs as [|j l Hs Hall]; [by apply not_elem_of_nil in Hi|]. simpl.
  apply elem_of_cons in Hi as [->|Hi]; [lia|]. rewrite Forall_forall in Hall. by apply Hall.
Qed.

Lemma in_time_app l1 l2 : in_time (l1 ++ l2) ↔
  in_time l1 ∧ in_time l2 ∧ ∀ i j, i ∈ l1 → j ∈ l2 → pi_time i <= pi_time j.
Proof. unfold in_time. rewrite StronglySorted_app. tauto. Qed.

Lemma filter_cons_split (P : pqPacketInfo → Prop) `{∀ i, Decision (P i)} l i r :
  filter P l = i :: r → ∃ l1 l2, l = l1 ++ i :: l2 ∧ filter P l1 = [] ∧ filter P l2 = r ∧ P i.
Proof.
  induction l as [|j l IH]; [done|]. rewrite filter_cons. case_decide as Hj.
  - intros [= -> <-]. by exists [], l.
  - intros (l1 & l2 & -> & H1 & H2 & Hi)%IH. exists (j :: l1), l2. rewrite filter_cons, decide_False by done. done.
Qed.

(** ** A level of the queue

    The elements [xs] are the groups of the packets [l]; [rep x l] says that [x]
    holds the packets [l]. *)
Section Level.
Context {A : Type} (akey : A → bytes) (group : pqPacketInfo → bytes) (rep : A → list pqPacketInfo → Prop).
Context (Less : A → A → res iw_error bool) (P : A → Prop) (time : A → Z).
Hypothesis Less_ok : ∀ x y, P x → P y → Less x y = Ok (time x <? time y).
Hypothesis rep_ok : ∀ x l, rep x l → l ≠ [] ∧ P x ∧ time x = head_time l.

Abbreviation packets_of k l := (filter (λ i, group i = k) l).

Record grouped (xs : list A) (l : list pqPacketInfo) : Prop := {
  gr_nodup : NoDup (akey <$> xs);
  gr_rep : ∀ x, x ∈ xs → rep x (packets_of (akey x) l);
  gr_cover : ∀ i, i ∈ l → group i ∈ akey <$> xs;
  gr_heap : heap_upto time (length xs) xs;
}.

Lemma grouped_nil : grouped [] [].
Proof.
  split; [constructor|by intros x ?%not_elem_of_nil|by intros i ?%not_elem_of_nil|].
  intros c Hc. simpl in Hc. lia.
Qed.

Lemma grouped_Forall xs l : grouped xs l → Forall P xs.
Proof. intros Hg. apply Forall_forall. intros x Hx. by apply (rep_ok _ _ (gr_rep _ _ Hg x Hx)). Qed.

Lemma of_nonempty k l i : i ∈ l → group i = k → packets_of k l ≠ [].
Proof. intros Hi Hk E. apply (not_elem_of_nil i). rewrite <- E. by apply list_elem_of_filter. Qed.

(** The oldest packet of the first group is an oldest packet. *)
Lemma grouped_first xs l i l' : grouped xs l → in_time l → l = i :: l' →
  ∃ x xs', xs = x :: xs' ∧ time x = pi_time i.
Proof.
  intros Hg Hs E. assert (i ∈ l) as Hi by (subst; by left).
  pose proof (gr_cover _ _ Hg i Hi) as (x & Hk & Hx)%list_elem_of_fmap.
  apply list_elem_of_lookup in Hx as [k Hx]. destruct xs as [|y xs]; [done|]. exists y, xs. split; [done|].
  pose proof (heap_min time _ k y x (gr_heap _ _ Hg) eq_refl Hx) as Hmin.
  destruct (rep_ok _ _ (gr_rep _ _ Hg x ltac:(by eapply list_elem_of_lookup_2))) as (_ & _ & Htx).
  destruct (rep_ok _ _ (gr_rep _ _ Hg y ltac:(by left))) as (Hne & _ & Hty).
  rewrite E, filter_cons, decide_True in Htx by done. simpl in Htx.
  destruct (packets_of (akey y) l) as [|j r] eqn:Hj; [done|]. simpl in Hty.
  assert (j ∈ l) as Hjl by (apply (list_elem_of_filter (λ i, group i = akey y)); rewrite Hj; by left).
  pose proof (in_time_head l j Hs Hjl) as Hh. rewrite E in Hh. simpl in Hh. lia.
Qed.

(** The packets of one group changed, those of the others did not. *)
Definition changed (k : bytes) (l l' : list pqPacketInfo) : Prop :=
  (∀ k', k' ≠ k → packets_of k' l' = packets_of k' l) ∧ (∀ i, i ∈ l' → group i = k ∨ i ∈ l).

Lemma grouped_elems xs l xs' l' k n x x' :
  grouped xs l → xs !! n = Some x → akey x = k → akey x' = k → changed k l l' → rep x' (packets_of k l') →
  xs' ≡ₚ <[n := x']> xs → heap_upto time (length xs') xs' → grouped xs' l'.
Proof.
  intros Hg Hx Hk Hk' [Hch Hin] Hr Hp Hh.
  assert (akey <$> xs' ≡ₚ akey <$> xs) as Hkeys.
  { rewrite Hp, list_fmap_insert. rewrite list_insert_id; [done|]. rewrite list_lookup_fmap, Hx. simpl. congruence. }
  pose proof (gr_nodup _ _ Hg) as Hnd. split; [by rewrite Hkeys| | |done].
  - intros y Hy. rewrite Hp in Hy. apply list_elem_of_lookup in Hy as [m Hy].
    destruct (decide (n = m)) as [<-|Hm].
    + rewrite list_lookup_insert_eq in Hy by (by eapply lookup_lt_Some). simplify_eq. by rewrite Hk'.
    + rewrite list_lookup_insert_ne in Hy by done. rewrite Hch.
      * apply (gr_rep _ _ Hg). by eapply list_elem_of_lookup_2.
      * intros E. apply Hm. apply (NoDup_lookup _ _ _ k Hnd); rewrite list_lookup_fmap; [rewrite Hx|rewrite Hy]; simpl; congruence.
  - intros i Hi. rewrite Hkeys. destruct (Hin i Hi) as [->|Hl]; [|by apply (gr_cover _ _ Hg)].
    rewrite <- Hk. apply list_elem_of_fmap_2. by eapply list_elem_of_lookup_2.
Qed.

(** [heap.Fix] after the packets of a group changed. *)
Lemma grouped_Fix xs l l' n x x' :
  grouped xs l → xs !! n = Some x → akey x' = akey x → changed (akey x) l l' → rep x' (packets_of (akey x) l') →
  ∃ xs', heap_Fix Less (<[n := x']> xs) n = Ok xs' ∧ grouped xs' l'.
Proof.
  intros Hg Hx Hk Hch Hr. pose proof (lookup_lt_Some _ _ _ Hx) as Hn.
  destruct (heap_Fix_spec Less P time Less_ok (<[n := x']> xs) n) as (xs' & Hf & Hp & Hh).
  - apply Forall_insert; [by eapply grouped_Forall|]. by apply (rep_ok _ _ Hr).
  - by rewrite length_insert.
  - rewrite length_insert. apply almost_insert; [done|]. apply heap_almost; [done|apply (gr_heap _ _ Hg)|done].
  - exists xs'. split; [done|]. by apply (grouped_elems xs l xs' l' (akey x) n x x').
Qed.

(** [heap.Remove] after the last packet of a group was taken. *)
Lemma grouped_Remove xs l l' n x x' :
  grouped xs l → xs !! n = Some x → changed (akey x) l l' → packets_of (akey x) l' = [] →
  ∃ xs', heap_Remove Less (<[n := x']> xs) n = Ok (xs' ++ [x']) ∧ grouped xs' l' ∧ x :: xs' ≡ₚ xs.
Proof.
  intros Hg Hx [Hch Hin] Hnone. pose proof (lookup_lt_Some _ _ _ Hx) as Hn.
  destruct (heap_Remove_spec Less P time Less_ok (<[n := x']> xs) n x') as (xs' & Hf & Hp & Hh).
  - by apply list_lookup_insert_eq.
  - intros k y Hk Hy. rewrite list_lookup_insert_ne in Hy by done.
    pose proof (grouped_Forall _ _ Hg) as HP. rewrite Forall_lookup in HP. eauto.
  - rewrite length_insert. apply almost_insert; [done|]. apply heap_almost; [done|apply (gr_heap _ _ Hg)|done].
  - assert (x :: xs' ≡ₚ xs) as Hperm.
    { rewrite <- (take_drop_middle _ _ _ Hx). rewrite (insert_take_drop xs n x') in Hp by done.
      rewrite <- Permutation_middle in Hp |- *. by apply Permutation_cons_inv in Hp as ->. }
    exists xs'. split; [done|]. split; [|done].
    pose proof (gr_nodup _ _ Hg) as Hnd. rewrite <- Hperm in Hnd. simpl in Hnd. apply NoDup_cons in Hnd as [Hx' Hnd].
    split; [done| | |done].
    + intros y Hy. rewrite Hch; [apply (gr_rep _ _ Hg); rewrite <- Hperm; by right|].
      intros E. apply Hx'. rewrite <- E. by apply list_elem_of_fmap_2.
    + intros i Hi. assert (group i ≠ akey x) as Hne by (intros E; by apply (of_nonempty (akey x) l' i) in Hi).
      destruct (Hin i Hi) as [E|Hl]; [done|]. apply (gr_cover _ _ Hg) in Hl. rewrite <- Hperm in Hl.
      simpl in Hl. apply elem_of_cons in Hl as [?|?]; done.
Qed.

Lemma changed_snoc i l : changed (group i) l (l ++ [i]).
Proof.
  split.
  - intros k Hk. rewrite filter_app, filter_cons, decide_False, filter_nil, app_nil_r by done. done.
  - intros j [Hj| ->%list_elem_of_singleton]%elem_of_app; auto.
Qed.

Lemma of_snoc i l : packets_of (group i) (l ++ [i]) = packets_of (group i) l ++ [i].
Proof. by rewrite filter_app, filter_cons, decide_True, filter_nil. Qed.

(** A packet is put behind those of its group: the order is not touched. *)
Lemma grouped_push_old xs l n x x' i :
  grouped xs l → xs !! n = Some x → akey x = group i → akey x' = group i → rep x' (packets_of (group i) l ++ [i]) →
  grouped (<[n := x']> xs) (l ++ [i]).
Proof.
  intros Hg Hx Hk Hk' Hr.
  eapply (grouped_elems xs l _ _ (group i)); [done..|apply changed_snoc|by rewrite of_snoc|done|].
  rewrite length_insert. intros c Hc. pose proof (gr_heap _ _ Hg c Hc) as Hh.
  assert (∀ k, val time (<[n := x']> xs) k = val time xs k) as Hv; [|by rewrite !Hv].
  intros k. unfold val. destruct (decide (n = k)) as [<-|]; [|by rewrite list_lookup_insert_ne].
  rewrite list_lookup_insert_eq by (by eapply lookup_lt_Some). rewrite Hx. simpl.
  destruct (rep_ok _ _ Hr) as (_ & _ & ->).
  destruct (rep_ok _ _ (gr_rep _ _ Hg x ltac:(by eapply list_elem_of_lookup_2))) as (Hne & _ & ->).
  rewrite Hk in Hne |- *. by destruct (packets_of (group i) l).
Qed.

Lemma grouped_push_new xs l x' i :
  grouped xs l → group i ∉ akey <$> xs → akey x' = group i → rep x' [i] → in_time (l ++ [i]) →
  grouped (xs ++ [x']) (l ++ [i]).
Proof.
  intros Hg Hnew Hk Hr Hs. assert (packets_of (group i) l = []) as Hnil.
  { destruct (packets_of (group i) l) as [|j r] eqn:E; [done|]. destruct Hnew.
    assert (j ∈ packets_of (group i) l) as [<- Hj]%list_elem_of_filter by (rewrite E; by left). by apply (gr_cover _ _ Hg). }
  split.
  - rewrite fmap_app. apply NoDup_app. split; [apply Hg|]. split; [|apply NoDup_singleton].
    intros k Hin ->%list_elem_of_singleton. congruence.
  - intros x [Hx| ->%list_elem_of_singleton]%elem_of_app.
    + rewrite (proj1 (changed_snoc i l)); [by apply Hg|]. intros E. apply Hnew. rewrite <- E. by apply list_elem_of_fmap_2.
    + by rewrite Hk, of_snoc, Hnil.
  - intros j [Hj| ->%list_elem_of_singleton]%elem_of_app; rewrite fmap_app; apply elem_of_app.
    + left. by apply Hg.
    + right. simpl. rewrite Hk. by left.
  - apply heap_snoc; [apply Hg|]. apply Forall_forall. intros x Hx.
    destruct (rep_ok _ _ Hr) as (_ & _ & ->). simpl.
    destruct (rep_ok _ _ (gr_rep _ _ Hg x Hx)) as (Hne & _ & ->).
    destruct (packets_of (akey x) l) as [|j r] eqn:E; [done|]. simpl.
    assert (j ∈ packets_of (akey x) l) as [_ Hj]%list_elem_of_filter by (rewrite E; by left).
    apply in_time_app in Hs as (_ & _ & Hs). apply Hs; [done|by left].
Qed.
End Level.

Lemma changed_take (group : pqPacketInfo → bytes) l1 i l2 : changed group (group i) (l1 ++ i :: l2) (l1 ++ l2).
Proof.
  split.
  - intros k Hk. by rewrite !filter_app, filter_cons, decide_False by done.
  - intros j. rewrite !elem_of_app, elem_of_cons. tauto.
Qed.

(** ** What the two levels hold *)

Definition stime (s : pqSource) : Z := head_time (ps_infos s).
Definition dtime (d : pqDest) : Z := match pd_sources d with s :: _ => stime s | [] => 0 end.

Definition source_rep (s : pqSource) (l : list pqPacketInfo) : Prop :=
  l ≠ [] ∧ ps_infos s = l ∧ ps_size s = total l.

Abbreviation by_source := (grouped ps_key info_source source_rep stime).

Definition dest_rep (d : pqDest) (l : list pqPacketInfo) : Prop :=
  l ≠ [] ∧ in_time l ∧ by_source (pd_sources d) l ∧ pd_size d = total l.

Abbreviation by_dest := (grouped pd_key info_dest dest_rep dtime).

(** [queue_rep q l]: the packets [l], in the order of their arrival, wait in [q]. *)
Record queue_rep (q : packetQueue) (l : list pqPacketInfo) : Prop := {
  qr_time : in_time l;
  qr_sized : sized l;
  qr_total : total l < 2 ^ 64;
  qr_dests : by_dest (pq_dests q) l;
  qr_size : pq_size q = total l;
}.

Definition source_P (s : pqSource) : Prop := ps_infos s ≠ [].
Definition dest_P (d : pqDest) : Prop := ∃ s r, pd_sources d = s :: r ∧ source_P s.

Lemma source_time_ok s : source_P s → source_time s = Ok (stime s).
Proof. unfold source_P, source_time, stime, at_index. by destruct (ps_infos s). Qed.

Lemma pqDest_Less_ok x y : source_P x → source_P y → pqDest_Less x y = Ok (stime x <? stime y).
Proof. intros Hx Hy. unfold pqDest_Less. by rewrite !source_time_ok. Qed.

Lemma packetQueue_Less_ok x y : dest_P x → dest_P y → packetQueue_Less x y = Ok (dtime x <? dtime y).
Proof.
  intros (s & r & Ex & Hs) (s' & r' & Ey & Hs'). unfold packetQueue_Less, dest_time, dtime, at_index.
  rewrite Ex, Ey. simpl. by rewrite !source_time_ok.
Qed.

Lemma source_rep_ok s l : source_rep s l → l ≠ [] ∧ source_P s ∧ stime s = head_time l.
Proof. unfold source_P, stime. by intros (Hl & -> & _). Qed.

Lemma dest_rep_ok d l : dest_rep d l → l ≠ [] ∧ dest_P d ∧ dtime d = head_time l.
Proof.
  intros (Hl & Ht & Hg & _). split; [done|]. destruct l as [|i l]; [done|].
  destruct (grouped_first _ _ _ source_P _ source_rep_ok _ _ i l Hg Ht eq_refl) as (s & r & E & Hs).
  split; [|unfold dtime; by rewrite E]. exists s, r. split; [done|].
  pose proof (grouped_Forall _ _ _ source_P _ source_rep_ok _ _ Hg) as HP. rewrite E in HP. by inversion HP.
Qed.

Lemma u64_id z : 0 <= z < 2 ^ 64 → u64 z = z.
Proof. intros Hz. by apply wrap_small. Qed.

(** ** Taking a packet *)

Section Take.
Context (l1 : list pqPacketInfo) (i : pqPacketInfo) (l2 : list pqPacketInfo).
Abbreviation l := (l1 ++ i :: l2).
Abbreviation l' := (l1 ++ l2).

Hypothesis Hsized : sized l.
Hypothesis Htotal : total l < 2 ^ 64.

Lemma total_take : total l = pi_size i + total l'.
Proof. rewrite !total_app. simpl. unfold total. lia. Qed.

Lemma sized_take : sized l'.
Proof. unfold sized in *. rewrite !Forall_app, Forall_cons in *. tauto. Qed.

Lemma in_time_take : in_time l → in_time l'.
Proof.
  rewrite !in_time_app. intros (H1 & H2 & H3). inversion H2; subst. split_and!; [done..|].
  intros j k Hj Hk. apply H3; [done|by right].
Qed.

(** The packets of a group after the first of them was taken. *)
Lemma group_take (P : pqPacketInfo → Prop) `{∀ j, Decision (P j)} : P i → filter P l1 = [] →
  filter P l = i :: filter P l'.
Proof. intros Hi H1. by rewrite !filter_app, H1, filter_cons, decide_True. Qed.

Lemma of_source_size s r n xs : by_source xs l → xs !! n = Some s → ps_infos s = i :: r →
  ps_key s = info_source i ∧ filter (λ j, info_source j = ps_key s) l = i :: r ∧ ps_size s = pi_size i + total r ∧
  0 < pi_size i ∧ sized r ∧ total (i :: r) < 2 ^ 64.
Proof.
  intros Hg Hs Hr. destruct (gr_rep _ _ _ _ _ _ Hg s) as (_ & E & Hsz); [by eapply list_elem_of_lookup_2|].
  rewrite Hr in E. rewrite <- E in Hsz. simpl in Hsz.
  assert (i ∈ filter (λ j, info_source j = ps_key s) l) as [Hk _]%list_elem_of_filter by (rewrite <- E; by left).
  pose proof (sized_filter (λ j, info_source j = ps_key s) _ Hsized) as Hsf. rewrite <- E in Hsf.
  pose proof (total_filter (λ j, info_source j = ps_key s) _ Hsized) as Htf. rewrite <- E in Htf.
  inversion Hsf; subst. split_and!; try done. lia.
Qed.

(** The source that the first packet was taken of. *)
Lemma sources_take xs n s r s' :
  by_source xs l → filter (λ j, info_source j = info_source i) l1 = [] →
  xs !! n = Some s → ps_infos s = i :: r →
  (r ≠ [] → ∃ h, heap_Fix pqDest_Less (<[n := PqSource (ps_key s) r (u64 (ps_size s - pi_size i))]> xs) n = Ok h ∧
                 by_source h l') ∧
  (r = [] → ∃ h, heap_Remove pqDest_Less (<[n := s']> xs) n = Ok (h ++ [s']) ∧ by_source h l').
Proof.
  intros Hg H1 Hs Hr. destruct (of_source_size s r n xs Hg Hs Hr) as (Hk & E & Hsz & Hpos & Hsr & Ht).
  rewrite Hk in E. rewrite (group_take (λ j, info_source j = info_source i)) in E by done. injection E as E.
  pose proof (changed_take info_source l1 i l2) as Hch. rewrite <- Hk in Hch. split.
  - intros Hne. apply (grouped_Fix ps_key info_source source_rep _ source_P stime pqDest_Less_ok source_rep_ok xs l l' n s);
      [done..|]. rewrite Hk, E. split; [done|]. split; [done|]. simpl.
    pose proof (total_nonneg _ Hsr). simpl in Ht. rewrite u64_id by lia. lia.
  - intros ->. destruct (grouped_Remove ps_key info_source source_rep _ source_P stime pqDest_Less_ok source_rep_ok xs l l' n s s')
      as (h & Hh & Hg' & _); [done..|by rewrite Hk, E|]. by exists h.
Qed.

Lemma pqDest_Pop_snoc k h s sz :
  pqDest_Pop (PqDest k (h ++ [s]) sz) = Ok (PqDest k h (u64 (sz - ps_size s))).
Proof.
  unfold pqDest_Pop, at_index. simpl. rewrite length_app. simpl.
  replace (length h + 1 - 1)%nat with (length h) by lia.
  by rewrite lookup_app_r, Nat.sub_diag, take_app_length by lia.
Qed.

(** Either level decides between [Fix] and [Remove] by what is left. *)
Lemma dest_step xs n s r (more : bool) s' :
  by_source xs l → filter (λ j, info_source j = info_source i) l1 = [] →
  xs !! n = Some s → ps_infos s = i :: r → (more = true ↔ r ≠ []) → (r = [] → ps_size s' = 0) →
  let s'' := PqSource (ps_key s) r (u64 (ps_size s - pi_size i)) in
  ∃ h, by_source h l' ∧ ∀ k sz, 0 <= sz < 2 ^ 64 →
    (if more then dest_Fix (PqDest k (<[n := s'']> xs) sz) n
     else dest_Remove (PqDest k (<[n := s']> xs) sz) n) = Ok (PqDest k h sz).
Proof.
  intros Hg H1 Hs Hr Hmore Hz s''.
  destruct (sources_take xs n s r s' Hg H1 Hs Hr) as [HF HR]. unfold dest_Fix, dest_Remove. simpl. destruct more.
  - destruct HF as (h & Hh & Hg'); [by apply Hmore|]. exists h. split; [done|]. intros k sz _. unfold s''. by rewrite Hh.
  - assert (r = []) as Hnil by (destruct r; [done|by pose proof (proj2 Hmore ltac:(done))]).
    destruct (HR Hnil) as (h & Hh & Hg'). exists h. split; [done|]. intros k sz Hsz. rewrite Hh. cbn [mbind res_bind].
    by rewrite pqDest_Pop_snoc, Hz, Z.sub_0_r, u64_id.
Qed.
End Take.

Lemma packetQueue_Pop_snoc h d sz :
  packetQueue_Pop (PacketQueue (h ++ [d]) sz) = Ok (PacketQueue h (u64 (sz - pd_size d))).
Proof.
  unfold packetQueue_Pop, at_index. simpl. rewrite length_app. simpl.
  replace (length h + 1 - 1)%nat with (length h) by lia.
  by rewrite lookup_app_r, Nat.sub_diag, take_app_length by lia.
Qed.

Lemma queue_step l1 i l2 xs n d d' (more : bool) :
  by_dest xs (l1 ++ i :: l2) → in_time (l1 ++ l2) → xs !! n = Some d → pd_key d = info_dest i → pd_key d' = pd_key d →
  let left := filter (λ j, info_dest j = pd_key d) (l1 ++ l2) in
  by_source (pd_sources d') left → pd_size d' = total left → (more = true ↔ left ≠ []) →
  ∃ h, by_dest h (l1 ++ l2) ∧ ∀ sz, 0 <= sz < 2 ^ 64 →
    (if more then queue_Fix (PacketQueue (<[n := d']> xs) sz) n
     else queue_Remove (PacketQueue (<[n := d']> xs) sz) n) = Ok (PacketQueue h sz).
Proof.
  intros Hg Ht Hd Hk Hk' left Hs Htot Hmore. unfold queue_Fix, queue_Remove. simpl.
  pose proof (changed_take info_dest l1 i l2) as Hch. rewrite <- Hk in Hch. destruct more.
  - destruct (grouped_Fix pd_key info_dest dest_rep _ dest_P dtime packetQueue_Less_ok dest_rep_ok
      xs (l1 ++ i :: l2) (l1 ++ l2) n d d') as (h & Hh & Hg'); [done..| |].
    + split_and!; [by apply Hmore|by apply in_time_filter|done|done].
    + exists h. split; [done|]. intros sz _. by rewrite Hh.
  - assert (left = []) as Hnil by (destruct left; [done|by pose proof (proj2 Hmore ltac:(done))]).
    destruct (grouped_Remove pd_key info_dest dest_rep _ dest_P dtime packetQueue_Less_ok dest_rep_ok
      xs (l1 ++ i :: l2) (l1 ++ l2) n d d') as (h & Hh & Hg' & _); [done..|].
    exists h. split; [done|]. intros sz Hsz. rewrite Hh. cbn [mbind res_bind].
    rewrite packetQueue_Pop_snoc, Htot, Hnil. simpl. by rewrite Z.sub_0_r, u64_id.
Qed.

(** ** The specification

    [takes l i l']: [i] is the oldest packet of its flow, from one source to one
    destination, in [l], and [l'] is [l] without it. *)
Definition same_flow (i j : pqPacketInfo) : Prop := info_source j = info_source i ∧ info_dest j = info_dest i.

#[export] Instance same_flow_dec i j : Decision (same_flow i j).
Proof. unfold same_flow. apply _. Defined.

Definition takes (l : list pqPacketInfo) (i : pqPacketInfo) (l' : list pqPacketInfo) : Prop :=
  ∃ l1 l2, l = l1 ++ i :: l2 ∧ l' = l1 ++ l2 ∧ filter (same_flow i) l1 = [].

Definition to_dest (d : bytes) (l : list pqPacketInfo) : list pqPacketInfo := filter (λ i, info_dest i = d) l.

Definition flow (s d : bytes) (l : list pqPacketInfo) : list pqPacketInfo :=
  filter (λ i, info_source i = s) (to_dest d l).

Definition pop_spec (l : list pqPacketInfo) (r : option pqPacketInfo) (l' : list pqPacketInfo) : Prop :=
  match r with
  | None => l = [] ∧ l' = []
  | Some i => takes l i l' ∧ ∀ j, j ∈ l → pi_time i <= pi_time j
  end.

(** The packet that is dropped is the oldest one of the largest flow to the
    destination with the most waiting bytes. *)
Definition drop_spec (l : list pqPacketInfo) (dropped : bool) (l' : list pqPacketInfo) : Prop :=
  if dropped then
    ∃ i, takes l i l' ∧ (∀ d, total (to_dest d l) <= total (to_dest (info_dest i) l)) ∧
         (∀ s, total (flow s (info_dest i) l) <= total (flow (info_source i) (info_dest i) l))
  else l = [] ∧ l' = [].

(** A packet at the head of source [sIdx] of destination [dIdx], seen from the
    list of all packets. *)
Lemma queue_find q l dIdx d sIdx s :
  queue_rep q l → pq_dests q !! dIdx = Some d → pd_sources d !! sIdx = Some s →
  ∃ i r l1 l2, ps_infos s = i :: r ∧ l = l1 ++ i :: l2 ∧ takes l i (l1 ++ l2) ∧
    pd_key d = info_dest i ∧ ps_key s = info_source i ∧
    dest_rep d (to_dest (pd_key d) l) ∧ source_rep s (flow (ps_key s) (pd_key d) l) ∧
    filter (λ j, info_source j = info_source i) (to_dest (pd_key d) l1) = [].
Proof.
  intros Hq Hd Hs.
  pose proof (gr_rep _ _ _ _ _ _ (qr_dests _ _ Hq) d ltac:(by eapply list_elem_of_lookup_2)) as Hdr.
  pose proof Hdr as (_ & _ & Hg & _).
  pose proof (gr_rep _ _ _ _ _ _ Hg s ltac:(by eapply list_elem_of_lookup_2)) as Hsr.
  pose proof Hsr as (Hne & E & _). destruct (ps_infos s) as [|i r] eqn:Hinfos; [by destruct Hne|].
  symmetry in E. unfold flow, to_dest in *. rewrite list_filter_filter in E.
  destruct (filter_cons_split _ _ _ _ E) as (l1 & l2 & -> & H1 & H2 & Hks & Hkd).
  exists i, r, l1, l2. split_and!; try done.
  - exists l1, l2. split_and!; [done..|]. rewrite <- H1. apply list_filter_iff. intros j. unfold same_flow. by rewrite Hks, Hkd.
  - rewrite list_filter_filter, Hks. exact H1.
Qed.

Lemma largest_spec sizes : sizes ≠ [] →
  (largest sizes < length sizes)%nat ∧ ∀ k, (k < length sizes)%nat → nth k sizes 0 <= nth (largest sizes) sizes 0.
Proof.
  intros Hne. assert (0 < length sizes)%nat as Hl by (destruct sizes; [done|simpl; lia]). unfold largest.
  assert (∀ n best, (best < length sizes)%nat → (n <= length sizes)%nat →
    let r := foldl (λ best idx, if nth best sizes 0 <? nth idx sizes 0 then idx else best) best (seq 0 n) in
    (r < length sizes)%nat ∧ nth best sizes 0 <= nth r sizes 0 ∧ ∀ k, (k < n)%nat → nth k sizes 0 <= nth r sizes 0) as Hgen.
  { induction n as [|n IH]; intros best Hb Hn r.
    - split_and!; [done|subst r; simpl; lia|lia].
    - subst r. rewrite seq_S, foldl_app. simpl. destruct (IH best Hb ltac:(lia)) as (H1 & H2 & H3).
      set (m := foldl _ best (seq 0 n)) in *. destruct (Z.ltb_spec (nth m sizes 0) (nth n sizes 0)).
      + split_and!; [lia|lia|]. intros k Hk. destruct (decide (k = n)) as [->|]; [lia|]. specialize (H3 k ltac:(lia)). lia.
      + split_and!; [lia|lia|]. intros k Hk. destruct (decide (k = n)) as [->|]; [lia|]. apply H3. lia. }
  destruct (Hgen (length sizes) 0%nat Hl ltac:(lia)) as (H1 & _ & H3). done.
Qed.

Lemma nth_fmap_lookup {A} (f : A → Z) l n x : l !! n = Some x → nth n (f <$> l) 0 = f x.
Proof. intros Hx. apply nth_lookup_Some. by rewrite list_lookup_fmap, Hx. Qed.

(** The largest element of a level, over all keys. *)
Lemma largest_level {A} (akey : A → bytes) group rep time (asize : A → Z) xs l :
  grouped akey group rep time xs l → l ≠ [] → sized l →
  (∀ x, x ∈ xs → asize x = total (filter (λ i, group i = akey x) l)) →
  ∃ x, xs !! largest (asize <$> xs) = Some x ∧
    ∀ k, total (filter (λ i, group i = k) l) <= total (filter (λ i, group i = akey x) l).
Proof.
  intros Hg Hl Hs Hsz. assert (xs ≠ []) as Hne.
  { intros ->. destruct l as [|i l]; [done|]. pose proof (gr_cover _ _ _ _ _ _ Hg i ltac:(by left)) as Hi.
    by apply not_elem_of_nil in Hi. }
  destruct (largest_spec (asize <$> xs)) as [Hlt Hmax]; [by intros ?%fmap_nil_inv|]. rewrite length_fmap in Hlt, Hmax.
  destruct (lookup_lt_is_Some_2 xs _ Hlt) as [x Hx]. exists x. split; [done|]. intros k.
  rewrite (nth_fmap_lookup asize xs _ _ Hx), (Hsz x) in Hmax by by eapply list_elem_of_lookup_2.
  destruct (filter (λ i, group i = k) l) as [|j r] eqn:E.
  { apply total_nonneg. by apply sized_filter. }
  assert (j ∈ filter (λ i, group i = k) l) as [<- Hj]%list_elem_of_filter by (rewrite E; by left).
  pose proof (gr_cover _ _ _ _ _ _ Hg j Hj) as (y & Hy & Hin)%list_elem_of_fmap. rewrite Hy in E.
  rewrite <- E, <- (Hsz y Hin). apply list_elem_of_lookup in Hin as [n Hn].
  rewrite <- (nth_fmap_lookup asize xs _ _ Hn). apply Hmax. by eapply lookup_lt_Some.
Qed.

Lemma rep_take q l1 i l2 h sz :
  queue_rep q (l1 ++ i :: l2) → by_dest h (l1 ++ l2) → sz = total (l1 ++ l2) →
  queue_rep (PacketQueue h sz) (l1 ++ l2).
Proof.
  intros Hq Hh ->. destruct Hq as [Ht Hs Htot _ _]. pose proof (total_take l1 i l2).
  assert (0 < pi_size i) by (unfold sized in Hs; rewrite Forall_app, Forall_cons in Hs; lia).
  split; simpl; [by eapply in_time_take|by eapply sized_take|lia|done..].
Qed.

Lemma queue_total_take q l1 i l2 : queue_rep q (l1 ++ i :: l2) →
  0 < pi_size i ∧ 0 <= total (l1 ++ l2) ∧ total (l1 ++ i :: l2) = pi_size i + total (l1 ++ l2) ∧ total (l1 ++ i :: l2) < 2 ^ 64.
Proof.
  intros [_ Hs Htot _ _]. pose proof (total_take l1 i l2). pose proof (total_nonneg _ (sized_take l1 i l2 Hs)).
  unfold sized in Hs. rewrite Forall_app, Forall_cons in Hs. lia.
Qed.

Lemma tail_more (r : list pqPacketInfo) z n : sized r → z = n + total r → total r < 2 ^ 64 →
  (0 <? u64 (z - n)) = true ↔ r ≠ [].
Proof.
  intros Hs -> Ht. replace (n + total r - n) with (total r) by lia. pose proof (total_nonneg r Hs).
  rewrite u64_id by lia. destruct r as [|j r]; [done|]. pose proof (total_pos (j :: r) Hs ltac:(done)).
  split; [done|]. intros _. by apply Z.ltb_lt.
Qed.

Lemma at_index_Some {A} (l : list A) n x : l !! n = Some x → at_index l n = Ok x.
Proof. intros Hx. unfold at_index. by rewrite Hx. Qed.

Lemma to_dest_app d l1 l2 : to_dest d (l1 ++ l2) = to_dest d l1 ++ to_dest d l2.
Proof. apply filter_app. Qed.

Lemma to_dest_cons d i l : info_dest i = d → to_dest d (i :: l) = i :: to_dest d l.
Proof. intros Hi. unfold to_dest. by rewrite filter_cons, decide_True. Qed.

(** Taking the oldest packet [i] of source [sIdx] of destination [dIdx]: both
    levels and all sizes are as they should be afterwards, for [drop], which
    updates the size of the destination after the step, and for [pop], which does
    so before. *)
Lemma queue_take q l1 i l2 dIdx d sIdx s r s' (more : bool) :
  queue_rep q (l1 ++ i :: l2) → pq_dests q !! dIdx = Some d → pd_sources d !! sIdx = Some s →
  ps_infos s = i :: r → pd_key d = info_dest i →
  filter (λ j, info_source j = info_source i) (to_dest (pd_key d) l1) = [] →
  (more = true ↔ r ≠ []) → (r = [] → ps_size s' = 0) →
  let s'' := PqSource (ps_key s) r (u64 (ps_size s - pi_size i)) in
  let sz := u64 (pd_size d - pi_size i) in
  sz = total (to_dest (pd_key d) (l1 ++ l2)) ∧
  ∃ h, by_source h (to_dest (pd_key d) (l1 ++ l2)) ∧ ∀ k z, 0 <= z < 2 ^ 64 →
    (if more then dest_Fix (PqDest k (<[sIdx := s'']> (pd_sources d)) z) sIdx
     else dest_Remove (PqDest k (<[sIdx := s']> (pd_sources d)) z) sIdx) = Ok (PqDest k h z).
Proof.
  intros Hq Hd Hs Hr Hk Hfirst Hmore Hz s'' sz.
  destruct (queue_total_take q l1 i l2 Hq) as (Hi & Hrest & Htot & Hlt).
  pose proof (gr_rep _ _ _ _ _ _ (qr_dests _ _ Hq) d ltac:(by eapply list_elem_of_lookup_2)) as (_ & _ & Hg & Hds).
  fold (to_dest (pd_key d) (l1 ++ i :: l2)) in Hg, Hds.
  pose proof (sized_filter (λ j, info_dest j = pd_key d) _ (qr_sized _ _ Hq)) as Hsd.
  fold (to_dest (pd_key d) (l1 ++ i :: l2)) in Hsd.
  pose proof (total_filter (λ j, info_dest j = pd_key d) _ (qr_sized _ _ Hq)) as Htd.
  fold (to_dest (pd_key d) (l1 ++ i :: l2)) in Htd.
  rewrite to_dest_app, to_dest_cons in Hg, Hds, Hsd, Htd by done. rewrite to_dest_app.
  set (m1 := to_dest (pd_key d) l1) in *. set (m2 := to_dest (pd_key d) l2) in *.
  pose proof (total_take m1 i m2) as Hm. pose proof (total_nonneg _ (sized_take m1 i m2 Hsd)). split.
  { subst sz. rewrite Hds, Hm, u64_id; lia. }
  by apply (dest_step m1 i m2 Hsd ltac:(lia)).
Qed.

Lemma source_facts s i r l : source_rep s l → sized l → ps_infos s = i :: r →
  ps_size s = pi_size i + total r ∧ sized r ∧ 0 <= total r <= total l.
Proof.
  intros (_ & E & ->) Hs Hr. rewrite Hr in E. subst l. inversion Hs as [|? ? Hi Hs']; subst. simpl.
  pose proof (total_nonneg _ Hs'). split; [done|]. split; [done|]. lia.
Qed.

Lemma total_flow s d l : sized l → sized (flow s d l) ∧ total (flow s d l) <= total l.
Proof.
  intros Hs. unfold flow, to_dest. pose proof (sized_filter (λ i, info_dest i = d) l Hs) as Hd. split.
  - by apply sized_filter.
  - pose proof (total_filter (λ i, info_dest i = d) l Hs). pose proof (total_filter (λ i, info_source i = s) _ Hd). lia.
Qed.

(** The destination is put back. *)
Lemma queue_put q l1 i l2 dIdx d h (more : bool) :
  queue_rep q (l1 ++ i :: l2) → pq_dests q !! dIdx = Some d → pd_key d = info_dest i →
  let left := to_dest (pd_key d) (l1 ++ l2) in
  by_source h left → (more = true ↔ left ≠ []) →
  let d' := PqDest (pd_key d) h (total left) in
  ∃ xs, queue_rep (PacketQueue xs (total (l1 ++ l2))) (l1 ++ l2) ∧ ∀ z, 0 <= z < 2 ^ 64 →
    (if more then queue_Fix (PacketQueue (<[dIdx := d']> (pq_dests q)) z) dIdx
     else queue_Remove (PacketQueue (<[dIdx := d']> (pq_dests q)) z) dIdx) = Ok (PacketQueue xs z).
Proof.
  intros Hq Hd Hk left Hh Hmore d'.
  pose proof (in_time_take _ _ _ (qr_time _ _ Hq)) as Ht.
  destruct (queue_step l1 i l2 (pq_dests q) dIdx d d' more) as (xs & Hg & Hrun);
    [apply Hq|done..|]. exists xs. split; [|done]. by apply (rep_take q l1 i l2).
Qed.

Lemma dest_size_range q l d : queue_rep q l → d ∈ pq_dests q → 0 <= pd_size d < 2 ^ 64.
Proof.
  intros Hq Hd. destruct (gr_rep _ _ _ _ _ _ (qr_dests _ _ Hq) d Hd) as (_ & _ & _ & ->).
  pose proof (total_filter (λ j, info_dest j = pd_key d) _ (qr_sized _ _ Hq)).
  pose proof (total_nonneg _ (sized_filter (λ j, info_dest j = pd_key d) _ (qr_sized _ _ Hq))).
  pose proof (qr_total _ _ Hq). lia.
Qed.

(** What [drop] and [pop] have in common. *)
Lemma taking q l dIdx d sIdx s :
  queue_rep q l → pq_dests q !! dIdx = Some d → pd_sources d !! sIdx = Some s →
  ∃ i r l1 l2, ps_infos s = i :: r ∧ l = l1 ++ i :: l2 ∧ takes l i (l1 ++ l2) ∧
    pd_key d = info_dest i ∧ ps_key s = info_source i ∧
    u64 (ps_size s - pi_size i) = total r ∧ sized r ∧
    u64 (pd_size d - pi_size i) = total (to_dest (pd_key d) (l1 ++ l2)) ∧
    u64 (pq_size q - pi_size i) = total (l1 ++ l2) ∧ 0 <= total (l1 ++ l2) < 2 ^ 64 ∧
    sized (to_dest (pd_key d) (l1 ++ l2)) ∧
    ∀ (more : bool) s', (more = true ↔ r ≠ []) → (r = [] → ps_size s' = 0) →
      ∃ h, by_source h (to_dest (pd_key d) (l1 ++ l2)) ∧ ∀ k z, 0 <= z < 2 ^ 64 →
        (if more then dest_Fix (PqDest k (<[sIdx := PqSource (ps_key s) r (total r)]> (pd_sources d)) z) sIdx
         else dest_Remove (PqDest k (<[sIdx := s']> (pd_sources d)) z) sIdx) = Ok (PqDest k h z).
Proof.
  intros Hq Hd Hs.
  destruct (queue_find q l dIdx d sIdx s Hq Hd Hs) as (i & r & l1 & l2 & Hi & -> & Htk & Hkd & Hks & Hdr & Hsr & Hfirst).
  destruct (queue_total_take q l1 i l2 Hq) as (Hip & Hrest & Htot & Hlt).
  destruct (total_flow (ps_key s) (pd_key d) _ (qr_sized _ _ Hq)) as [Hfs Hft].
  destruct (source_facts s i r _ Hsr Hfs Hi) as (Hsz & Hrs & Hrt).
  assert (u64 (ps_size s - pi_size i) = total r) as Hr.
  { rewrite Hsz. replace (pi_size i + total r - pi_size i) with (total r) by lia. apply u64_id. lia. }
  exists i, r, l1, l2. split_and!; try done; try lia.
  - by apply (queue_take q l1 i l2 dIdx d sIdx s r (PqSource [] [] 0) (bool_decide (r ≠ [])) Hq Hd Hs Hi Hkd Hfirst
      (bool_decide_eq_true _)).
  - rewrite (qr_size _ _ Hq), Htot. replace (pi_size i + total (l1 ++ l2) - pi_size i) with (total (l1 ++ l2)) by lia.
    apply u64_id. lia.
  - apply sized_filter. eapply sized_take, Hq.
  - intros more s' Hm Hz.
    destruct (queue_take q l1 i l2 dIdx d sIdx s r s' more Hq Hd Hs Hi Hkd Hfirst Hm Hz) as (_ & h & Hh & Hrun).
    rewrite Hr in Hrun. by exists h.
Qed.

Lemma total_more l : sized l → (0 <? total l) = true ↔ l ≠ [].
Proof.
  intros Hs. destruct l as [|i l]; [done|]. split; [done|]. intros _. apply Z.ltb_lt. by apply total_pos.
Qed.

Lemma pq_drop_spec q l : queue_rep q l →
  ∃ b q' l', pq_drop q = Ok (b, q') ∧ queue_rep q' l' ∧ drop_spec l b l'.
Proof.
  intros Hq. unfold pq_drop. rewrite (qr_size _ _ Hq). destruct (decide (l = [])) as [->|Hl].
  { exists false, q, []. done. }
  pose proof (total_pos l (qr_sized _ _ Hq) Hl) as Hpos. rewrite (proj2 (Z.eqb_neq _ _)) by lia.
  rewrite <- (qr_size _ _ Hq).
  destruct (largest_level _ _ _ _ pd_size _ _ (qr_dests _ _ Hq) Hl (qr_sized _ _ Hq)) as (d & Hd & Hdmax).
  { intros x Hx. apply (gr_rep _ _ _ _ _ _ (qr_dests _ _ Hq) x Hx). }
  set (dIdx := largest (pd_size <$> pq_dests q)) in *. rewrite (at_index_Some _ _ _ Hd). cbn [mbind res_bind].
  assert (d ∈ pq_dests q) as Hdin by by eapply list_elem_of_lookup_2.
  pose proof (gr_rep _ _ _ _ _ _ (qr_dests _ _ Hq) d Hdin) as (Hne & _ & Hg & _).
  destruct (largest_level _ _ _ _ ps_size _ _ Hg Hne (sized_filter _ _ (qr_sized _ _ Hq))) as (s & Hs & Hsmax).
  { intros x Hx. apply (gr_rep _ _ _ _ _ _ Hg x Hx). }
  set (sIdx := largest (ps_size <$> pd_sources d)) in *. rewrite (at_index_Some _ _ _ Hs). cbn [mbind res_bind].
  destruct (taking q l dIdx d sIdx s Hq Hd Hs)
    as (i & r & l1 & l2 & Hi & -> & Htk & Hkd & Hks & Hr & Hrs & Hdsz & Hqsz & Hrest & Hleft & Hrun).
  rewrite (at_index_Some (ps_infos s) 0 i) by by rewrite Hi. cbn [mbind res_bind]. rewrite Hi, Hr. cbn [tail].
  destruct (Hrun (0 <? total r) (PqSource (ps_key s) r (total r))) as (h & Hh & Hstep);
    [by apply total_more|by intros ->|].
  cbn [ps_size pd_sources pd_key pd_size]. rewrite Hstep by by eapply dest_size_range.
  cbn [mbind res_bind pd_key pd_sources pd_size]. rewrite Hdsz.
  destruct (queue_put q l1 i l2 dIdx d h (0 <? total (to_dest (pd_key d) (l1 ++ l2))) Hq Hd Hkd Hh) as (xs & Hrep & Hput);
    [by apply total_more|].
  rewrite Hput by (rewrite (qr_size _ _ Hq); pose proof (qr_total _ _ Hq); lia). cbn [mbind res_bind pq_dests pq_size].
  rewrite Hqsz. eexists true, _, (l1 ++ l2). split; [reflexivity|]. split; [done|].
  exists i. split; [done|]. rewrite <- Hkd, <- Hks. done.
Qed.

Lemma pq_pop_spec q l : queue_rep q l →
  ∃ r q' l', pq_pop q = Ok (r, q') ∧ queue_rep q' l' ∧ pop_spec l r l'.
Proof.
  intros Hq. unfold pq_pop. destruct (decide (l = [])) as [->|Hl].
  { exists None, q, []. by rewrite (qr_size _ _ Hq). }
  rewrite (qr_size _ _ Hq), (proj2 (total_more l (qr_sized _ _ Hq)) Hl), <- (qr_size _ _ Hq).
  destruct l as [|j l0] eqn:El; [done|]. rewrite <- El in *.
  destruct (grouped_first _ _ _ dest_P _ dest_rep_ok _ _ j l0 (qr_dests _ _ Hq) (qr_time _ _ Hq) El) as (d & ds & Eds & Htd).
  assert (pq_dests q !! 0%nat = Some d) as Hd by by rewrite Eds.
  assert (d ∈ pq_dests q) as Hdin by by eapply list_elem_of_lookup_2.
  destruct (dest_rep_ok _ _ (gr_rep _ _ _ _ _ _ (qr_dests _ _ Hq) d Hdin)) as (_ & (s & ss & Ess & _) & _).
  assert (pd_sources d !! 0%nat = Some s) as Hs by by rewrite Ess.
  rewrite (at_index_Some _ _ _ Hd). cbn [mbind res_bind]. rewrite (at_index_Some _ _ _ Hs). cbn [mbind res_bind].
  destruct (taking q l 0 d 0 s Hq Hd Hs)
    as (i & r & l1 & l2 & Hi & -> & Htk & Hkd & Hks & Hr & Hrs & Hdsz & Hqsz & Hrest & Hleft & Hrun).
  rewrite (at_index_Some (ps_infos s) 0 i) by by rewrite Hi. cbn [mbind res_bind ps_infos ps_key ps_size pd_key pd_sources pd_size].
  rewrite Hr, Hdsz, Hqsz.
  destruct (Hrun (bool_decide (1 < length (ps_infos s))%nat) (PqSource (ps_key s) (ps_infos s) (total r))) as (h & Hh & Hstep).
  { rewrite bool_decide_eq_true, Hi. destruct r; simpl; split; try done; lia. }
  { by intros ->. }
  replace (tail (ps_infos s)) with r by (by rewrite Hi). rewrite decide_bool_decide. rewrite Hstep by (rewrite <- Hdsz; by apply wrap_in_range).
  cbn [mbind res_bind pd_sources]. rewrite decide_bool_decide.
  destruct (queue_put q l1 i l2 0 d h (bool_decide (0 < length h)%nat) Hq Hd Hkd Hh) as (xs & Hrep & Hput).
  { rewrite bool_decide_eq_true. destruct h as [|x h].
    - split; [simpl; lia|]. intros Hne. destruct (to_dest _ (l1 ++ l2)) as [|k m]; [done|].
      pose proof (gr_cover _ _ _ _ _ _ Hh k ltac:(by left)) as Hk. by apply not_elem_of_nil in Hk.
    - split; [|simpl; lia]. intros _ E. rewrite E in Hh.
      by destruct (gr_rep _ _ _ _ _ _ Hh x ltac:(by left)) as [? _]. }
  rewrite Hput by done. cbn [mbind res_bind]. eexists (Some i), _, (l1 ++ l2). split; [reflexivity|]. split; [done|].
  split; [done|]. intros k Hk. pose proof (in_time_head _ k (qr_time _ _ Hq) Hk) as Hh0. rewrite El in Hh0. simpl in Hh0.
  unfold dtime, stime in Htd. rewrite Ess, Hi in Htd. simpl in Htd. lia.
Qed.

Lemma pq_peek_spec q l : queue_rep q l →
  ∃ r, pq_peek q = Ok r ∧ ∃ q', pq_pop q = Ok (r, q').
Proof.
  intros Hq. destruct (pq_pop_spec q l Hq) as (r & q' & l' & Hp & _ & Hs). exists r. split; [|by exists q'].
  unfold pq_pop, pq_peek in *. destruct (decide (l = [])) as [->|Hl].
  - rewrite (qr_size _ _ Hq) in Hp. simpl in Hp. injection Hp as <- _.
    destruct (pq_dests q) as [|d ds] eqn:E; [done|]. exfalso.
    destruct (gr_rep _ _ _ _ _ _ (qr_dests _ _ Hq) d) as [? _]; [rewrite E; by left|done].
  - rewrite (qr_size _ _ Hq), (proj2 (total_more l (qr_sized _ _ Hq)) Hl) in Hp.
    destruct (pq_dests q) as [|d ds]; [done|]. simpl in Hp.
    destruct (at_index (pd_sources d) 0) as [s|e|]; [|done..]. simpl in Hp |- *.
    destruct (at_index (ps_infos s) 0) as [i|e|]; [|done..]. simpl in Hp |- *.
    apply res_bind_Ok in Hp as (? & _ & Hp). apply res_bind_Ok in Hp as (? & _ & Hp). by simplify_eq.
Qed.

(** ** Adding a packet *)

Lemma total_snoc l i : total (l ++ [i]) = total l + pi_size i.
Proof. rewrite total_app. simpl. lia. Qed.

(** The sources of a destination after a packet was added. *)
Definition pushed (i : pqPacketInfo) (xs : list pqSource) : list pqSource :=
  let foundS := list_find (λ s, ps_key s = info_source i) xs in
  let source := match foundS with Some (_, s) => s | None => PqSource (info_source i) [] 0 end in
  let source := PqSource (ps_key source) (ps_infos source ++ [i]) (u64 (ps_size source + pi_size i)) in
  match foundS with None => xs ++ [source] | Some (n, _) => <[n := source]> xs end.

Lemma pushed_ok xs l i :
  by_source xs l → in_time (l ++ [i]) → sized (l ++ [i]) → total (l ++ [i]) < 2 ^ 64 →
  by_source (pushed i xs) (l ++ [i]).
Proof.
  intros Hg Ht Hs Htot. unfold pushed.
  unfold sized in Hs. rewrite Forall_app, Forall_singleton in Hs. destruct Hs as [Hs Hi].
  pose proof (total_nonneg l Hs). rewrite total_snoc in Htot.
  destruct (list_find _ xs) as [[n s]|] eqn:Hf.
  - apply list_find_Some in Hf as (Hn & Hk & _).
    apply (grouped_push_old _ _ _ source_P _ source_rep_ok xs l n s); [done..|].
    destruct (gr_rep _ _ _ _ _ _ Hg s ltac:(by eapply list_elem_of_lookup_2)) as (Hne & E & Hsz).
    rewrite Hk in *. split; [by intros [? ?]%app_nil|]. simpl. rewrite E, Hsz. split; [done|].
    rewrite total_snoc. apply u64_id.
    pose proof (total_filter (λ j, info_source j = info_source i) l Hs).
    pose proof (total_nonneg _ (sized_filter (λ j, info_source j = info_source i) l Hs)). lia.
  - apply list_find_None in Hf. apply (grouped_push_new _ _ _ source_P _ source_rep_ok); try done.
    + intros (s & Hk & Hin)%list_elem_of_fmap. rewrite Forall_forall in Hf. by apply (Hf s Hin).
    + split; [done|]. split; [done|]. simpl. rewrite Z.add_0_r. apply u64_id. lia.
Qed.

Lemma pushed_dest d l i :
  by_source (pd_sources d) l → in_time (l ++ [i]) → sized (l ++ [i]) → total (l ++ [i]) < 2 ^ 64 → pd_size d = total l →
  dest_rep (PqDest (pd_key d) (pushed i (pd_sources d)) (u64 (pd_size d + pi_size i))) (l ++ [i]).
Proof.
  intros Hg Ht Hs Htot Hsz. split; [by intros [? ?]%app_nil|]. split; [done|]. split; [by apply pushed_ok|].
  simpl. rewrite Hsz, <- total_snoc. apply u64_id. split; [by apply total_nonneg|done].
Qed.

Lemma pq_push_spec now p q l :
  let i := PqPacketInfo p (u64 (pq_packet_size p)) now in
  queue_rep q l → (∀ j, j ∈ l → pi_time j <= now) → 0 < pi_size i → total l + pi_size i < 2 ^ 64 →
  queue_rep (pq_push now p q) (l ++ [i]).
Proof.
  intros i Hq Hnow Hi Htot.
  assert (in_time (l ++ [i])) as Ht.
  { apply in_time_app. split_and!; [apply Hq|repeat constructor|]. intros j k Hj ->%list_elem_of_singleton. by apply Hnow. }
  assert (sized (l ++ [i])) as Hs by (apply Forall_app; split; [apply Hq|by apply Forall_singleton]).
  pose proof (total_nonneg l (qr_sized _ _ Hq)) as H0.
  unfold pq_push. fold i. change (pq_destKey p) with (info_dest i). change (pq_sourceKey p) with (info_source i).
  split; cbn [pq_dests pq_size]; [done|done|rewrite total_snoc; lia| |rewrite (qr_size _ _ Hq), total_snoc; apply u64_id; lia].
  set (kd := info_dest i) in *.
  pose proof (in_time_filter (λ j, info_dest j = kd) _ Ht) as Ht'. pose proof (sized_filter (λ j, info_dest j = kd) _ Hs) as Hs'.
  pose proof (total_filter (λ j, info_dest j = kd) _ Hs) as Htf.
  fold (to_dest kd (l ++ [i])) in Ht', Hs', Htf. rewrite to_dest_app, to_dest_cons in Ht', Hs', Htf by done.
  change (to_dest kd []) with (@nil pqPacketInfo) in *. rewrite (total_snoc l i) in Htf.
  destruct (list_find (λ d, pd_key d = kd) (pq_dests q)) as [[n d]|] eqn:Hf.
  - apply list_find_Some in Hf as (Hn & Hk & _).
    apply (grouped_push_old _ _ _ dest_P _ dest_rep_ok _ l n d); [apply Hq|done..|].
    destruct (gr_rep _ _ _ _ _ _ (qr_dests _ _ Hq) d ltac:(by eapply list_elem_of_lookup_2)) as (_ & _ & Hg & Hsz).
    rewrite Hk in Hg, Hsz. apply (pushed_dest d (to_dest kd l) i); [done..|lia|done].
  - apply list_find_None in Hf.
    assert (kd ∉ pd_key <$> pq_dests q) as Hnew.
    { intros (d & Hk & Hin)%list_elem_of_fmap. rewrite Forall_forall in Hf. by apply (Hf d Hin). }
    apply (grouped_push_new _ _ _ dest_P _ dest_rep_ok); [apply Hq|done|done| |done].
    assert (to_dest kd l = []) as Hnil.
    { destruct (to_dest kd l) as [|j m] eqn:E; [done|]. destruct Hnew.
      assert (j ∈ to_dest kd l) as [<- Hj]%list_elem_of_filter by (rewrite E; by left). by apply (qr_dests _ _ Hq). }
    rewrite Hnil in *. apply (pushed_dest (PqDest kd [] 0) [] i); [apply grouped_nil|done|done|lia|done].
Qed.

(** ** Histories of a queue *)

Inductive queue_op := QPush (now : Z) (p : pqPacket) | QPop | QDrop.
Inductive queue_result := RPushed | RPopped (r : option pqPacketInfo) | RDropped (b : bool).

Definition queue_do (op : queue_op) (q : packetQueue) : res iw_error (queue_result * packetQueue) :=
  match op with
  | QPush now p => Ok (RPushed, pq_push now p q)
  | QPop => '(r, q) ← pq_pop q; Ok (RPopped r, q)
  | QDrop => '(b, q) ← pq_drop q; Ok (RDropped b, q)
  end.

Fixpoint queue_history (ops : list queue_op) (q : packetQueue) : res iw_error (list queue_result * packetQueue) :=
  match ops with
  | [] => Ok ([], q)
  | op :: ops =>
      '(r, q) ← queue_do op q;
      '(rs, q) ← queue_history ops q;
      Ok (r :: rs, q)
  end.

Definition info_of (now : Z) (p : pqPacket) : pqPacketInfo := PqPacketInfo p (u64 (pq_packet_size p)) now.

Inductive spec_step : list pqPacketInfo → queue_op → queue_result → list pqPacketInfo → Prop :=
| spec_push l now p : spec_step l (QPush now p) RPushed (l ++ [info_of now p])
| spec_pop l r l' : pop_spec l r l' → spec_step l QPop (RPopped r) l'
| spec_drop l b l' : drop_spec l b l' → spec_step l QDrop (RDropped b) l'.

Inductive spec_history : list pqPacketInfo → list queue_op → list queue_result → list pqPacketInfo → Prop :=
| spec_nil l : spec_history l [] [] l
| spec_cons l op r l1 ops rs l2 :
    spec_step l op r l1 → spec_history l1 ops rs l2 → spec_history l (op :: ops) (r :: rs) l2.

(** The packets that a history adds. *)
Definition arrivals (ops : list queue_op) : list pqPacketInfo :=
  omap (λ op, match op with QPush now p => Some (info_of now p) | _ => None end) ops.

Lemma queue_rep_empty : queue_rep empty_queue [].
Proof. split; [constructor|constructor|done|apply grouped_nil|done]. Qed.

Lemma takes_elem l i l' j : takes l i l' → j ∈ l' → j ∈ l.
Proof. intros (l1 & l2 & -> & -> & _). rewrite !elem_of_app, elem_of_cons. tauto. Qed.

Lemma takes_total l i l' : takes l i l' → total l = pi_size i + total l'.
Proof. intros (l1 & l2 & -> & -> & _). apply total_take. Qed.

(** The queue after an operation other than [push] holds no new packets. *)
Lemma takes_fewer q l i l' : queue_rep q l → takes l i l' →
  (∀ j, j ∈ l' → j ∈ l) ∧ total l' <= total l.
Proof.
  intros Hq Htk. split; [by intros j; apply (takes_elem l i)|].
  rewrite (takes_total _ _ _ Htk). destruct Htk as (l1 & l2 & -> & _ & _).
  destruct (queue_total_take _ _ _ _ Hq). lia.
Qed.

Lemma queue_history_sim ops q l :
  queue_rep q l → in_time (l ++ arrivals ops) → sized (arrivals ops) → total l + total (arrivals ops) < 2 ^ 64 →
  ∃ rs q' l', queue_history ops q = Ok (rs, q') ∧ queue_rep q' l' ∧ spec_history l ops rs l'.
Proof.
  revert q l. induction ops as [|op ops IH]; intros q l Hq Ht Hs Htot.
  { exists [], q, l. split; [done|]. split; [done|constructor]. }
  assert (∃ r q1 l1, queue_do op q = Ok (r, q1) ∧ queue_rep q1 l1 ∧ spec_step l op r l1 ∧
    in_time (l1 ++ arrivals ops) ∧ sized (arrivals ops) ∧ total l1 + total (arrivals ops) < 2 ^ 64)
    as (r & q1 & l1 & Hdo & Hq1 & Hsp & Ht1 & Hs1 & Htot1).
  { assert (∀ l1, queue_rep q l → (∀ j, j ∈ l1 → j ∈ l) → in_time l1 → in_time (l ++ arrivals ops) → in_time (l1 ++ arrivals ops))
      as Hmono by (intros l1 _ Hin H1 (_ & H2 & H3)%in_time_app; apply in_time_app; split_and!; auto).
    destruct op as [now p| |]; simpl in *.
    - inversion Hs; subst. change (u64 (pq_packet_size p)) with (pi_size (info_of now p)) in *.
      exists RPushed, (pq_push now p q), (l ++ [info_of now p]). split_and!; try done.
      + apply pq_push_spec; [done| |done|].
        * intros j Hj. apply in_time_app in Ht as (_ & _ & Ht). apply (Ht j (info_of now p)); [done|by left].
        * change (u64 (pq_packet_size p)) with (pi_size (info_of now p)).
          pose proof (total_nonneg (arrivals ops) ltac:(done)). unfold arrivals in *. cbn [pi_size info_of] in *. lia.
      + constructor.
      + by rewrite <- app_assoc.
      + rewrite total_snoc. unfold arrivals in *. lia.
    - destruct (pq_pop_spec q l Hq) as (r & q1 & l1 & Hp & Hq1 & Hsp). exists (RPopped r), q1, l1. rewrite Hp.
      destruct r as [i|]; [|destruct Hsp as [-> ->]]; split_and!; try done; try (by constructor).
      + destruct (takes_fewer _ _ _ _ Hq (proj1 Hsp)). apply Hmono; [done|done|apply Hq1|done].
      + destruct (takes_fewer _ _ _ _ Hq (proj1 Hsp)). unfold arrivals in *. lia.
    - destruct (pq_drop_spec q l Hq) as (b & q1 & l1 & Hp & Hq1 & Hsp). exists (RDropped b), q1, l1. rewrite Hp.
      destruct b; [|destruct Hsp as [-> ->]]; split_and!; try done; try (by constructor).
      + destruct Hsp as (i & Htk & _). destruct (takes_fewer _ _ _ _ Hq Htk). apply Hmono; [done|done|apply Hq1|done].
      + destruct Hsp as (i & Htk & _). destruct (takes_fewer _ _ _ _ Hq Htk). unfold arrivals in *. lia. }
  destruct (IH q1 l1 Hq1 Ht1 Hs1 Htot1) as (rs & q' & l' & Hrun & Hq' & Hsp').
  exists (r :: rs), q', l'. simpl. rewrite Hdo. cbn [mbind res_bind]. rewrite Hrun. split; [done|]. split; [done|].
  by econstructor.
Qed.

(** C35: packet_queue_refines.  Over any history of packets added in the order of
    time, taken and dropped, the two-level heap behaves as the list of the waiting
    packets in the order of their arrival: taking gives the oldest packet, never
    overtaking one of the same source and destination; dropping takes the oldest
    packet of the largest flow to the destination with the most bytes; both fail
    exactly when nothing waits; no index is out of range and the sizes are exact,
    as long as the bytes of all packets can be counted. *)
Theorem packet_queue_refines ops :
  in_time (arrivals ops) → sized (arrivals ops) → total (arrivals ops) < 2 ^ 64 →
  ∃ rs q l, queue_history ops empty_queue = Ok (rs, q) ∧ spec_history [] ops rs l ∧
    queue_rep q l ∧ pq_size q = total l.
Proof.
  intros Ht Hs Htot. destruct (queue_history_sim ops empty_queue [] queue_rep_empty Ht Hs Htot) as (rs & q & l & Hr & Hq & Hsp).
  exists rs, q, l. split_and!; try done. apply Hq.
Qed.

(** With different times the queue is first in, first out. *)
Lemma pop_fifo l i l' : StronglySorted (λ i j, pi_time i < pi_time j) l → pop_spec l (Some i) l' → l = i :: l'.
Proof.
  intros Hs [(l1 & l2 & -> & -> & _) Hmin]. destruct l1 as [|j l1]; [done|]. exfalso.
  inversion Hs as [|? ? _ Hall]; subst. rewrite Forall_forall in Hall.
  specialize (Hall i ltac:(apply elem_of_app; right; by left)). specialize (Hmin j ltac:(by left)). lia.
Qed.

(** ** The number of waiting packets *)

Definition pq_count (q : packetQueue) : nat :=
  sum_list_with (λ d, sum_list_with (λ s, length (ps_infos s)) (pd_sources d)) (pq_dests q).

Lemma sum_with_ext {A} (f g : A → nat) l : (∀ x, x ∈ l → f x = g x) → sum_list_with f l = sum_list_with g l.
Proof.
  induction l as [|x l IH]; [done|]. intros Hfg. simpl. rewrite (Hfg x) by by left.
  rewrite IH; [done|]. intros y Hy. apply Hfg. by right.
Qed.

Lemma sum_with_add {A} (f g : A → nat) l :
  sum_list_with (λ x, f x + g x)%nat l = (sum_list_with f l + sum_list_with g l)%nat.
Proof. induction l as [|x l IH]; simpl; lia. Qed.

Lemma sum_with_zero {A} (l : list A) : sum_list_with (λ _, 0%nat) l = 0%nat.
Proof. by induction l. Qed.

Lemma sum_with_one {A} (akey : A → bytes) k l : NoDup (akey <$> l) → k ∈ akey <$> l →
  sum_list_with (λ x, if decide (k = akey x) then 1 else 0)%nat l = 1%nat.
Proof.
  induction l as [|x l IH]; [by intros _ ?%not_elem_of_nil|]. simpl. intros [Hx Hnd]%NoDup_cons Hk.
  destruct (decide (k = akey x)) as [->|Hne].
  - rewrite (sum_with_ext _ (λ _, 0%nat)); [by rewrite sum_with_zero|]. intros y Hy. rewrite decide_False; [done|].
    intros E. apply Hx. rewrite E. by apply list_elem_of_fmap_2.
  - apply elem_of_cons in Hk as [?|Hk]; [done|]. by rewrite IH.
Qed.

Lemma group_count {A} (akey : A → bytes) (group : pqPacketInfo → bytes) xs l :
  NoDup (akey <$> xs) → (∀ i, i ∈ l → group i ∈ akey <$> xs) →
  sum_list_with (λ x, length (filter (λ i, group i = akey x) l)) xs = length l.
Proof.
  intros Hnd. induction l as [|i l IH]; intros Hin; simpl.
  - apply sum_with_zero.
  - rewrite (sum_with_ext _ (λ x, (if decide (group i = akey x) then 1 else 0) + length (filter (λ i, group i = akey x) l))%nat).
    + rewrite sum_with_add, sum_with_one by (done || apply Hin; by left). rewrite IH; [done|].
      intros j Hj. apply Hin. by right.
    + intros x _. rewrite filter_cons. by case_decide.
Qed.

Lemma queue_count q l : queue_rep q l → pq_count q = length l.
Proof.
  intros Hq. unfold pq_count. rewrite <- (group_count pd_key info_dest (pq_dests q) l);
    [|apply (qr_dests _ _ Hq)|apply (qr_dests _ _ Hq)].
  apply sum_with_ext. intros d Hd. destruct (gr_rep _ _ _ _ _ _ (qr_dests _ _ Hq) d Hd) as (_ & _ & Hg & _).
  rewrite <- (group_count ps_key info_source (pd_sources d) (filter (λ i, info_dest i = pd_key d) l)); [|apply Hg|apply Hg].
  apply sum_with_ext. intros s Hs. by destruct (gr_rep _ _ _ _ _ _ Hg s Hs) as (_ & -> & _).
Qed.

(** ** An instance *)
Module QueueWitness.
Definition kA : bytes := replicate 32 1.
Definition kB : bytes := replicate 32 2.
Definition kC : bytes := replicate 32 3.
Definition packet (s d : bytes) (n : nat) : pqPacket := PqTraffic (Traffic [] [] s d 0 (replicate n 7)).

(** Two flows to [kC] and one to [kA]; the largest flow to [kC] loses a packet.
    Packets of the same time can overtake each other between flows. *)
Definition ops1 : list queue_op :=
  [QPush 1 (packet kA kC 10); QPush 2 (packet kB kC 500); QPush 3 (packet kB kA 50); QPush 3 (packet kA kC 20);
   QPush 4 (packet kB kC 30); QDrop; QPop; QPop; QPop; QPop; QPop; QDrop].

Definition results1 : list queue_result :=
  [RPushed; RPushed; RPushed; RPushed; RPushed; RDropped true;
   RPopped (Some (info_of 1 (packet kA kC 10))); RPopped (Some (info_of 3 (packet kA kC 20)));
   RPopped (Some (info_of 3 (packet kB kA 50))); RPopped (Some (info_of 4 (packet kB kC 30)));
   RPopped None; RDropped false].

Lemma ops1_results : queue_history ops1 empty_queue = Ok (results1, empty_queue).
Proof. vm_compute. reflexivity. Qed.

Lemma packet_queue_refines_witness :
  ∃ q l, queue_history ops1 empty_queue = Ok (results1, q) ∧ spec_history [] ops1 results1 l ∧ pq_size q = total l.
Proof.
  destruct (packet_queue_refines ops1) as (rs & q & l & Hr & Hs & _ & Hz).
  - unfold in_time, arrivals, ops1. simpl. repeat constructor; simpl; lia.
  - unfold sized. vm_compute. repeat constructor.
  - vm_compute. reflexivity.
  - exists q, l. rewrite ops1_results in Hr. injection Hr as <- <-.
    split; [exact ops1_results|]. split; [exact Hs|exact Hz].
Defined.
End QueueWitness.
