(* ===== verification/Bloom.v ===== *)
(** * Bloom: the bloom filters of the lookup layer, on the wire
    (third_party/ironwood/network/bloomfilter.go)

    The filter itself comes from a library; the class [BloomFilter] names the
    functions the sources call and [BloomFilterLaws] what they promise.  The
    codec works on the 128 words of the backing bit set: words that are all
    zeros or all ones are sent as one flag bit. *)

From S2P Require Import Prelude Binary Wire Address Crypto Messages.

Definition bloomFilterF : nat := 16.
Definition bloomFilterU : nat := bloomFilterF * 8.
Definition bloomFilterB : nat := bloomFilterU * 8.
Definition bloomFilterM : nat := bloomFilterB * 8.
Definition bloomFilterK : nat := 8.

(** The functions of the bloom filter library on filters of [bloomFilterM] bits. *)
Class BloomFilter (F : Type) := {
  bf_New : F;
  bf_Add : F → bytes → F;
  bf_Test : F → bytes → bool;
  bf_Merge : F → F → F;
  bf_Equal : F → F → bool;
  bf_Bytes : F → list Z;        (* filter.BitSet().Bytes() *)
  bf_From : list Z → F;         (* bfilter.From(us, bloomFilterK) *)
}.

(** A filter of [bloomFilterM] bits is backed by [bloomFilterU] words. *)
Definition words_ok (us : list Z) : Prop := length us = bloomFilterU ∧ Forall is_u64 us.

Class BloomFilterLaws (F : Type) `{BloomFilter F} : Prop := {
  bf_Bytes_ok : ∀ f, words_ok (bf_Bytes f);
  bf_Bytes_From : ∀ us, words_ok us → bf_Bytes (bf_From us) = us;
  bf_From_Bytes : ∀ f, bf_From (bf_Bytes f) = f;
  bf_Test_Add : ∀ f k, bf_Test (bf_Add f k) k = true;
  bf_Test_Add_mono : ∀ f k k', bf_Test f k = true → bf_Test (bf_Add f k') k = true;
  bf_Test_Merge : ∀ f g k, bf_Test f k = true ∨ bf_Test g k = true → bf_Test (bf_Merge f g) k = true;
  bf_Equal_spec : ∀ f g, bf_Equal f g = true ↔ f = g;
}.

Definition ones64 : Z := 2 ^ 64 - 1.

(** ** The codec *)

Definition bloom_size `{BloomFilter F} (b : F) : Z :=
  foldl (λ size u, if negb (u =? 0) && negb (u =? ones64) then size + 8 else size)
    (Z.of_nat bloomFilterF + Z.of_nat bloomFilterF) (bf_Bytes b).

(** One iteration of the loop of [encode]: the flags and the words kept. *)
Definition bloom_encode_step (us : list Z) (st : bytes * bytes * list Z) (idx : nat) :
    bytes * bytes * list Z :=
  let '(flags0, flags1, keep) := st in
  let u := nth idx us 0 in
  if u =? 0 then (or_at flags0 (idx / 8) (Z.shiftr 0x80 (Z.of_nat (idx mod 8))), flags1, keep)
  else if u =? ones64 then (flags0, or_at flags1 (idx / 8) (Z.shiftr 0x80 (Z.of_nat (idx mod 8))), keep)
  else (flags0, flags1, keep ++ [u]).

Definition bloom_encode `{BloomFilter F} (out : bytes) (b : F) : res iw_error bytes :=
  let start := len out in
  let us := bf_Bytes b in
  let '(flags0, flags1, keep) :=
    foldl (bloom_encode_step us)
      (replicate bloomFilterF 0, replicate bloomFilterF 0, []) (seq 0 (length us)) in
  let out := out ++ flags0 in
  let out := out ++ flags1 in
  let out := foldl (λ out u, out ++ be_bytes 8 u) out keep in
  if negb (len out - start =? bloom_size b) then Panic else Ok out.

(** The loop of [decode] over the word indices. *)
Fixpoint bloom_decode_loop (idxs : list nat) (flags0 flags1 : bytes) (us : list Z) (data : bytes) :
    res iw_error (list Z * bytes) :=
  match idxs with
  | [] => Ok (us, data)
  | idx :: idxs =>
      let flag0 := Z.land (nth (idx / 8) flags0 0) (Z.shiftr 0x80 (Z.of_nat (idx mod 8))) in
      let flag1 := Z.land (nth (idx / 8) flags1 0) (Z.shiftr 0x80 (Z.of_nat (idx mod 8))) in
      if negb (flag0 =? 0) && negb (flag1 =? 0) then Err ErrDecode
      else if negb (flag0 =? 0) then bloom_decode_loop idxs flags0 flags1 (us ++ [0]) data
      else if negb (flag1 =? 0) then bloom_decode_loop idxs flags0 flags1 (us ++ [ones64]) data
      else if 8 <=? len data then
        bloom_decode_loop idxs flags0 flags1 (us ++ [be_val (take 8 data)]) (drop 8 data)
      else Err ErrDecode
  end.

Definition bloom_decode `{BloomFilter F} (data : bytes) : res iw_error F :=
  '(flags0, data) ← or_err ErrDecode (wireChopSlice bloomFilterF data);
  '(flags1, data) ← or_err ErrDecode (wireChopSlice bloomFilterF data);
  '(us, data) ← bloom_decode_loop (seq 0 bloomFilterU) flags0 flags1 [] data;
  if negb (len data =? 0) then Err ErrDecode else Ok (bf_From us).

(** ** The words kept, and the flags *)

Definition word_kept (u : Z) : bool := negb (u =? 0) && negb (u =? ones64).
Definition kept (us : list Z) : list Z := List.filter word_kept us.
Definition kept_bytes (us : list Z) : bytes := concat (be_bytes 8 <$> kept us).

Lemma land_flag flags idx :
  Z.land (nth (idx / 8) flags 0) (Z.shiftr 0x80 (Z.of_nat (idx mod 8))) =? 0 = negb (bit flags idx).
Proof.
  pose proof (Nat.mod_upper_bound idx 8). rewrite shiftr_128 by lia.
  rewrite land_pow2 by lia. unfold bit. destruct (Z.testbit _ _); simpl Z.b2z; [|done].
  rewrite Z.mul_1_l. simpl. apply Z.eqb_neq.
  pose proof (Z.pow_pos_nonneg 2 (7 - Z.of_nat (idx mod 8))). lia.
Qed.

(** What the encoder's loop has computed after [i] words. *)
Definition encode_inv (us : list Z) (i : nat) (st : bytes * bytes * list Z) : Prop :=
  let '(flags0, flags1, keep) := st in
  length flags0 = bloomFilterF ∧ length flags1 = bloomFilterF ∧ keep = kept (take i us) ∧
  (∀ j, bit flags0 j = bool_decide (j < i)%nat && (nth j us 0 =? 0)) ∧
  (∀ j, bit flags1 j = bool_decide (j < i)%nat && (nth j us 0 =? ones64)).

Lemma bool_decide_lt_S j i : bool_decide (j < S i)%nat = bool_decide (j < i)%nat || bool_decide (i = j).
Proof. repeat case_bool_decide; try done; lia. Qed.

Lemma bit_set_flag l i j :
  (i < 8 * length l)%nat →
  bit (or_at l (i / 8) (Z.shiftr 0x80 (Z.of_nat (i mod 8)))) j = bit l j || bool_decide (i = j).
Proof.
  intros Hi. pose proof (Nat.mod_upper_bound i 8). rewrite shiftr_128 by lia.
  replace (2 ^ _) with (Z.b2z true * 2 ^ (7 - Z.of_nat (i mod 8))) by (simpl Z.b2z; lia).
  rewrite bit_or_at by done. by rewrite andb_true_r.
Qed.

Lemma flag_step (us : list Z) (i j : nat) (v : Z) :
  bool_decide (j < S i)%nat && (nth j us 0 =? v) =
  bool_decide (j < i)%nat && (nth j us 0 =? v) || bool_decide (i = j) && (nth i us 0 =? v).
Proof.
  rewrite bool_decide_lt_S. case_bool_decide; case_bool_decide; subst; simpl; try done;
    by rewrite ?orb_false_r, ?orb_diag.
Qed.

Lemma encode_step_inv us i st :
  length us = bloomFilterU → (i < length us)%nat → encode_inv us i st →
  encode_inv us (S i) (bloom_encode_step us st i).
Proof.
  intros Hl Hi. destruct st as [[f0 f1] keep]. intros (L0 & L1 & -> & H0 & H1).
  assert (kept (take (S i) us) = kept (take i us) ++ kept [nth i us 0]) as Hk.
  { destruct (lookup_lt_is_Some_2 us i Hi) as [u Hu].
    rewrite (take_S_r us i u Hu). unfold kept. rewrite List.filter_app.
    by rewrite (nth_lookup_Some us i 0 u Hu). }
  assert (i < 8 * bloomFilterF)%nat by (rewrite Hl in Hi; unfold bloomFilterU in Hi; lia).
  unfold bloom_encode_step, encode_inv. rewrite Hk.
  assert (kept [nth i us 0] = if word_kept (nth i us 0) then [nth i us 0] else []) as -> by done.
  unfold word_kept.
  destruct (Z.eqb_spec (nth i us 0) 0) as [Hz|Hz];
    [|destruct (Z.eqb_spec (nth i us 0) ones64) as [Ho|Ho]]; simpl negb; cbn [andb];
    rewrite ?app_nil_r, ?length_or_at; split_and!; try done; intros j;
    rewrite ?bit_set_flag by lia; rewrite flag_step, ?H0, ?H1.
  - by rewrite (proj2 (Z.eqb_eq _ _) Hz), andb_true_r.
  - assert (nth i us 0 =? ones64 = false) as -> by (apply Z.eqb_neq; rewrite Hz; done).
    by rewrite andb_false_r, orb_false_r.
  - rewrite (proj2 (Z.eqb_neq _ _) Hz). by rewrite andb_false_r, orb_false_r.
  - by rewrite (proj2 (Z.eqb_eq _ _) Ho), andb_true_r.
  - rewrite (proj2 (Z.eqb_neq _ _) Hz). by rewrite andb_false_r, orb_false_r.
  - rewrite (proj2 (Z.eqb_neq _ _) Ho). by rewrite andb_false_r, orb_false_r.
Qed.

Lemma encode_loop_inv us :
  length us = bloomFilterU →
  encode_inv us (length us) (foldl (bloom_encode_step us)
    (replicate bloomFilterF 0, replicate bloomFilterF 0, []) (seq 0 (length us))).
Proof.
  intros Hl. apply (foldl_seq_ind (encode_inv us)).
  - split_and!; try done; intros j; rewrite bool_decide_false by lia; apply bit_replicate_0.
  - intros i st Hi. by apply encode_step_inv.
Qed.

Lemma foldl_be_bytes out keep :
  foldl (λ out u, out ++ be_bytes 8 u) out keep = out ++ concat (be_bytes 8 <$> keep).
Proof.
  revert out. induction keep as [|u keep IH]; intros out; csimpl; [by rewrite app_nil_r|].
  rewrite IH. by rewrite <- app_assoc.
Qed.

Lemma kept_bytes_cons u us :
  kept_bytes (u :: us) = if word_kept u then be_bytes 8 u ++ kept_bytes us else kept_bytes us.
Proof. unfold kept_bytes, kept. cbn [List.filter]. by destruct (word_kept u). Qed.

Lemma bloom_size_kept us z :
  foldl (λ size u, if negb (u =? 0) && negb (u =? ones64) then size + 8 else size) z us =
  z + len (kept_bytes us).
Proof.
  revert z. induction us as [|u us IH]; intros z; simpl foldl; [unfold len; simpl; lia|].
  rewrite IH, kept_bytes_cons. unfold word_kept.
  destruct (negb (u =? 0) && negb (u =? ones64)); [|done].
  rewrite len_app. unfold len at 2. rewrite length_be_bytes. lia.
Qed.

(** The decoder reads back the words from the flags and the kept words. *)
Lemma decode_loop_kept flags0 flags1 us acc n :
  (∀ j, (j < length us)%nat → bit flags0 (n + j) = (nth j us 0 =? 0)) →
  (∀ j, (j < length us)%nat → bit flags1 (n + j) = (nth j us 0 =? ones64)) →
  Forall is_u64 us →
  bloom_decode_loop (seq n (length us)) flags0 flags1 acc (kept_bytes us) = Ok (acc ++ us, []).
Proof.
  revert acc n. induction us as [|u us IH]; intros acc n H0 H1 Hus; [by rewrite app_nil_r|].
  apply Forall_cons in Hus as [Hu Hus].
  assert (IH' : ∀ acc, bloom_decode_loop (seq (S n) (length us)) flags0 flags1 acc (kept_bytes us) =
    Ok (acc ++ us, [])).
  { intros acc'. apply IH; [| |done]; intros j Hj; rewrite Nat.add_succ_comm;
      [apply (H0 (S j)) | apply (H1 (S j))]; simpl; lia. }
  simpl length. cbn [seq bloom_decode_loop]. rewrite !land_flag, !negb_involutive.
  specialize (H0 0%nat ltac:(simpl; lia)). specialize (H1 0%nat ltac:(simpl; lia)).
  rewrite Nat.add_0_r in H0, H1. simpl nth in H0, H1. rewrite H0, H1.
  rewrite kept_bytes_cons. unfold word_kept.
  destruct (Z.eqb_spec u 0) as [->|Hz]; [|destruct (Z.eqb_spec u ones64) as [->|Ho]]; simpl negb; cbn [andb].
  - rewrite IH'. by rewrite <- app_assoc.
  - rewrite IH'. by rewrite <- app_assoc.
  - rewrite len_app. unfold len at 1. rewrite length_be_bytes. pose proof (len_nonneg (kept_bytes us)).
    rewrite (proj2 (Z.leb_le _ _)) by lia.
    rewrite take_app_length', drop_app_length' by (by rewrite length_be_bytes).
    rewrite IH', be_val_bytes_small by done. by rewrite <- app_assoc.
Qed.

Section Codec.
Context `{BloomFilterLaws F}.

Definition bloom_flags (us : list Z) : bytes :=
  let '(flags0, flags1, _) :=
    foldl (bloom_encode_step us)
      (replicate bloomFilterF 0, replicate bloomFilterF 0, []) (seq 0 (length us)) in
  flags0 ++ flags1.

Definition bloom_payload (b : F) : bytes := bloom_flags (bf_Bytes b) ++ kept_bytes (bf_Bytes b).

Lemma bloom_size_eq (b : F) : bloom_size b = len (bloom_payload b).
Proof.
  unfold bloom_size, bloom_payload. rewrite bloom_size_kept, len_app. f_equal.
  unfold bloom_flags. pose proof (encode_loop_inv _ (proj1 (bf_Bytes_ok b))) as Hinv.
  destruct (foldl _ _ _) as [[f0 f1] keep]. destruct Hinv as (L0 & L1 & _).
  rewrite len_app. unfold len. by rewrite L0, L1.
Qed.

Lemma bloom_encode_eq out (b : F) : bloom_encode out b = Ok (out ++ bloom_payload b).
Proof.
  unfold bloom_encode. rewrite bloom_size_eq. unfold bloom_payload, bloom_flags, kept_bytes.
  pose proof (encode_loop_inv _ (proj1 (bf_Bytes_ok b))) as Hinv.
  destruct (foldl (bloom_encode_step _) _ _) as [[f0 f1] keep].
  destruct Hinv as (_ & _ & -> & _). rewrite take_ge by lia.
  rewrite foldl_be_bytes, !len_app.
  match goal with |- context [negb (?a =? ?b)] => replace (a =? b) with true by (symmetry; apply Z.eqb_eq; lia) end.
  simpl negb. by rewrite <- !app_assoc.
Qed.

Lemma bloom_decode_payload (b : F) : bloom_decode (bloom_payload b) = Ok b.
Proof.
  unfold bloom_decode, bloom_payload, bloom_flags. destruct (bf_Bytes_ok b) as [Hl Hus].
  pose proof (encode_loop_inv _ Hl) as Hinv.
  destruct (foldl (bloom_encode_step _) _ _) as [[f0 f1] keep].
  destruct Hinv as (L0 & L1 & -> & B0 & B1). rewrite <- app_assoc.
  rewrite wireChopSlice_app by done. cbn [or_err mbind res_bind].
  rewrite wireChopSlice_app by done. cbn [or_err mbind res_bind].
  rewrite <- Hl, decode_loop_kept; [|..|done].
  - cbn [mbind res_bind]. simpl. by rewrite bf_From_Bytes.
  - intros j Hj. by rewrite Nat.add_0_l, B0, bool_decide_true.
  - intros j Hj. by rewrite Nat.add_0_l, B1, bool_decide_true.
Qed.
End Codec.

(** ** The filters kept per peer node *)

Record bloomInfo (F : Type) := BloomInfo {
  bi_send : F;
  bi_recv : F;
  bi_seq : Z;
  bi_onTree : bool;
  bi_zDirty : bool;
}.
Arguments BloomInfo {F} _ _ _ _ _.
Arguments bi_send {F} _.
Arguments bi_recv {F} _.
Arguments bi_seq {F} _.
Arguments bi_onTree {F} _.
Arguments bi_zDirty {F} _.

(** A connection to a peer node, as the router knows it: an identity for the
    Go pointer, the node's key, the port, the link priority and the connection
    order. *)
Record peer := Peer {
  peer_id : nat;
  peer_key : bytes;
  peer_port : Z;
  peer_prio : Z;
  peer_order : Z;
}.

#[export] Instance peer_eq_dec : EqDecision peer.
Proof. solve_decision. Defined.

(** The parts of the router that the filters read: our key, the tree
    information, the peers, and the configured key transform. *)
Record bloom_env := BloomEnv {
  be_self : bytes;
  be_infos : gmap bytes routerInfo;
  be_peers : gmap bytes (list peer);
  be_transform : bytes → bytes;
}.

Section Blooms.
Context {F : Type} `{BloomFilter F}.
Implicit Types (bs : gmap bytes (bloomInfo F)) (pbi : bloomInfo F).

Definition isOnTree bs (key : bytes) : bool :=
  match bs !! key with
  | Some pbi => bi_onTree pbi
  | None => false
  end.

Definition xKey (env : bloom_env) (key : bytes) : bytes :=
  copy (replicate PublicKeySize 0) (be_transform env key).

(** The body of the loop of [_fixOnTree] on one entry: the new entry and the
    filters to send. *)
Definition fixOnTree_entry (env : bloom_env) (selfInfo : routerInfo) (pk : bytes) pbi :
    bloomInfo F * list (peer * F) :=
  let wasOn := bi_onTree pbi in
  let onTree :=
    if bool_decide (info_parent selfInfo = pk) then true
    else match be_infos env !! pk with
         | Some info => bool_decide (info_parent info = be_self env)
         | None => false
         end in
  if wasOn && negb onTree then
    (BloomInfo bf_New (bi_recv pbi) (bi_seq pbi) onTree (bi_zDirty pbi),
     (λ p, (p, bf_New)) <$> default [] (be_peers env !! pk))
  else (BloomInfo (bi_send pbi) (bi_recv pbi) (bi_seq pbi) onTree (bi_zDirty pbi), []).

Definition fixOnTree (env : bloom_env) bs :
    res iw_error (gmap bytes (bloomInfo F) * list (peer * F)) :=
  match be_infos env !! be_self env with
  | Some selfInfo =>
      Ok (map_imap (λ pk pbi, Some (fst (fixOnTree_entry env selfInfo pk pbi))) bs,
          '(pk, pbi) ← map_to_list bs; snd (fixOnTree_entry env selfInfo pk pbi))
  | None => Panic
  end.

Definition addInfo bs (key : bytes) : gmap bytes (bloomInfo F) :=
  <[key := BloomInfo bf_New bf_New 0 false false]> bs.

Definition removeInfo bs (key : bytes) : gmap bytes (bloomInfo F) := delete key bs.

Definition handleBloom bs (from : bytes) (b : F) : gmap bytes (bloomInfo F) :=
  match bs !! from with
  | None => bs
  | Some pbi => <[from := BloomInfo (bi_send pbi) b (bi_seq pbi) (bi_onTree pbi) (bi_zDirty pbi)]> bs
  end.

(** The filter of everything reachable without going through [key]. *)
Definition freshBloom (env : bloom_env) bs (key : bytes) : F :=
  foldl (λ b '(k, pbi),
      if negb (bi_onTree pbi) then b
      else if bool_decide (k = key) then b
      else bf_Merge b (bi_recv pbi))
    (bf_Add bf_New (xKey env (be_self env))) (map_to_list bs).

Definition getBloomFor (env : bloom_env) bs (key : bytes) (keepOnes : bool) :
    res iw_error (gmap bytes (bloomInfo F) * F * bool) :=
  match bs !! key with
  | None => Panic
  | Some pbi =>
      let b := freshBloom env bs key in
      let '(b, zDirty) :=
        if keepOnes then
          if negb (bi_zDirty pbi) then
            let c := b in
            let b := bf_Merge b (bi_send pbi) in
            (b, if negb (bf_Equal b c) then true else bi_zDirty pbi)
          else (bf_Merge b (bi_send pbi), bi_zDirty pbi)
        else (b, false) in
      if bf_Equal b (bi_send pbi) then Ok (bs, bi_send pbi, false)
      else Ok (<[key := BloomInfo b (bi_recv pbi) (bi_seq pbi) (bi_onTree pbi) zDirty]> bs, b, true)
  end.

Definition sendBloom bs (p : peer) : option (peer * F) :=
  pbi ← bs !! peer_key p; Some (p, bi_send pbi).

(** The body of the loop of [_sendAllBlooms]. *)
Definition sendAllBlooms_step (env : bloom_env)
    (st : gmap bytes (bloomInfo F) * list (peer * F)) (k : bytes) :
    res iw_error (gmap bytes (bloomInfo F) * list (peer * F)) :=
  let '(bs, out) := st in
  match bs !! k with
  | None => Ok st
  | Some pbi =>
      if negb (bi_onTree pbi) then Ok st
      else
        '(bs, b, isNew) ← getBloomFor env bs k (negb (bi_zDirty pbi));
        match bs !! k with
        | None => Panic
        | Some pbi =>
            let seq := u16 (bi_seq pbi + 1) in
            let upd s := <[k := BloomInfo (bi_send pbi) (bi_recv pbi) s (bi_onTree pbi) (bi_zDirty pbi)]> bs in
            if isNew || (3600 <=? seq) then
              match be_peers env !! k with
              | Some ps => Ok (upd 0, out ++ ((λ p, (p, b)) <$> ps))
              | None => Panic
              end
            else Ok (upd seq, out)
        end
  end.

Fixpoint sendAllBlooms_loop (env : bloom_env) (ks : list bytes)
    (st : gmap bytes (bloomInfo F) * list (peer * F)) :
    res iw_error (gmap bytes (bloomInfo F) * list (peer * F)) :=
  match ks with
  | [] => Ok st
  | k :: ks => st ← sendAllBlooms_step env st k; sendAllBlooms_loop env ks st
  end.

Definition sendAllBlooms (env : bloom_env) bs :=
  sendAllBlooms_loop env (map_to_list bs).*1 (bs, []).

Definition blooms_doMaintenance (env : bloom_env) bs :
    res iw_error (gmap bytes (bloomInfo F) * list (peer * F)) :=
  '(bs, out) ← fixOnTree env bs;
  '(bs, out') ← sendAllBlooms env bs;
  Ok (bs, out ++ out').

(** The lowest-priority-value connection to a node. *)
Definition best_prio (ps : list peer) : option peer :=
  foldl (λ best p, match best with
                   | None => Some p
                   | Some q => if peer_prio p <? peer_prio q then Some p else Some q
                   end) None ps.

(** [_sendMulticast]: the connections that the packet is queued on. *)
Definition sendMulticast_loop (env : bloom_env) (fromKey xform : bytes)
    : list (bytes * bloomInfo F) → list peer → res iw_error (list peer) :=
  fix go l out :=
    match l with
    | [] => Ok out
    | (k, pbi) :: l =>
        if negb (bi_onTree pbi) then go l out
        else if bool_decide (k = fromKey) then go l out
        else if negb (bf_Test (bi_recv pbi) xform) then go l out
        else match best_prio (default [] (be_peers env !! k)) with
             | None => Panic
             | Some p => go l (out ++ [p])
             end
    end.

Definition sendMulticast (env : bloom_env) bs (fromKey toKey : bytes) : res iw_error (list peer) :=
  sendMulticast_loop env fromKey (xKey env toKey) (map_to_list bs) [].
End Blooms.

(** ** Properties of the per-peer filters *)

Section BloomsLaws.
Context {F : Type} `{BloomFilterLaws F}.
Implicit Types (bs : gmap bytes (bloomInfo F)) (pbi : bloomInfo F).

Lemma fresh_fold_mono (key : bytes) (l : list (bytes * bloomInfo F)) b x :
  bf_Test b x = true →
  bf_Test (foldl (λ b '(k, pbi),
      if negb (bi_onTree pbi) then b
      else if bool_decide (k = key) then b
      else bf_Merge b (bi_recv pbi)) b l) x = true.
Proof.
  revert b. induction l as [|[k pbi] l IH]; intros b Hb; [done|]. simpl. apply IH.
  destruct (bi_onTree pbi); simpl; [|done]. case_bool_decide; [done|].
  apply bf_Test_Merge. by left.
Qed.

Lemma fresh_fold_elem (key : bytes) (l : list (bytes * bloomInfo F)) b k pbi x :
  (k, pbi) ∈ l → bi_onTree pbi = true → k ≠ key → bf_Test (bi_recv pbi) x = true →
  bf_Test (foldl (λ b '(k, pbi),
      if negb (bi_onTree pbi) then b
      else if bool_decide (k = key) then b
      else bf_Merge b (bi_recv pbi)) b l) x = true.
Proof.
  intros Hin Ht Hk Hx. revert b. induction l as [|[k' pbi'] l IH]; intros b; simpl.
  { by apply elem_of_nil in Hin. }
  apply elem_of_cons in Hin as [[= <- <-]|Hin]; [|by apply IH].
  rewrite Ht. simpl. rewrite bool_decide_false by done.
  apply fresh_fold_mono, bf_Test_Merge. by right.
Qed.

Lemma freshBloom_complete env bs key x :
  (x = xKey env (be_self env) ∨
   ∃ k pbi, bs !! k = Some pbi ∧ bi_onTree pbi = true ∧ k ≠ key ∧ bf_Test (bi_recv pbi) x = true) →
  bf_Test (freshBloom env bs key) x = true.
Proof.
  unfold freshBloom. intros [->|(k & pbi & Hk & Ht & Hne & Hx)].
  - apply fresh_fold_mono, bf_Test_Add.
  - eapply fresh_fold_elem; [|done..]. by apply elem_of_map_to_list.
Qed.

Lemma getBloomFor_test env bs key ko bs' b n x :
  getBloomFor env bs key ko = Ok (bs', b, n) →
  bf_Test (freshBloom env bs key) x = true → bf_Test b x = true.
Proof.
  unfold getBloomFor. destruct (bs !! key) as [pbi|]; [|done]. intros Hg Hx.
  assert (∀ b0 z, bf_Test b0 x = true →
    (if bf_Equal b0 (bi_send pbi) then Ok (bs, bi_send pbi, false)
     else Ok (<[key := BloomInfo b0 (bi_recv pbi) (bi_seq pbi) (bi_onTree pbi) z]> bs, b0, true))
    = (Ok (bs', b, n) : res iw_error _) → bf_Test b x = true) as Hend.
  { intros b0 z Hb. destruct (bf_Equal b0 (bi_send pbi)) eqn:He; intros; simplify_eq; [|done].
    apply bf_Equal_spec in He. by subst. }
  assert (bf_Test (bf_Merge (freshBloom env bs key) (bi_send pbi)) x = true)
    by (apply bf_Test_Merge; by left).
  destruct ko; [destruct (bi_zDirty pbi)|]; simpl in Hg; (eapply Hend; [|exact Hg]); done.
Qed.

Lemma best_prio_fold ps q :
  ∃ p, foldl (λ best p, match best with
                   | None => Some p
                   | Some q => if peer_prio p <? peer_prio q then Some p else Some q
                   end) (Some q) ps = Some p ∧ (p = q ∨ p ∈ ps) ∧
       peer_prio p <= peer_prio q ∧ ∀ p', p' ∈ ps → peer_prio p <= peer_prio p'.
Proof.
  revert q. induction ps as [|p ps IH]; intros q; simpl.
  - exists q. split_and!; [done|by left|lia|]. intros p' Hp'. by apply elem_of_nil in Hp'.
  - destruct (Z.ltb_spec (peer_prio p) (peer_prio q));
      [destruct (IH p) as (r & -> & Hr & Hle & Hall) | destruct (IH q) as (r & -> & Hr & Hle & Hall)];
      exists r; (split_and!; [done|set_solver|lia|]);
      intros p' [->|Hp']%elem_of_cons; (lia || by apply Hall).
Qed.

Lemma best_prio_spec ps :
  ps ≠ [] → ∃ p, best_prio ps = Some p ∧ p ∈ ps ∧ ∀ p', p' ∈ ps → peer_prio p <= peer_prio p'.
Proof.
  destruct ps as [|q ps]; [done|]. intros _. unfold best_prio. simpl.
  destruct (best_prio_fold ps q) as (p & -> & Hp & Hle & Hall). exists p. split_and!; [done|set_solver|].
  intros p' [->|Hp']%elem_of_cons; [lia|by apply Hall].
Qed.

Definition wants (env : bloom_env) (fromKey xform : bytes) (kp : bytes * bloomInfo F) : Prop :=
  bi_onTree (snd kp) = true ∧ fst kp ≠ fromKey ∧ bf_Test (bi_recv (snd kp)) xform = true.

#[export] Instance wants_dec env fromKey xform kp : Decision (wants env fromKey xform kp).
Proof. unfold wants. apply _. Defined.

(** Every node whose connections the router lost track of is absent: the
    filters and the router's peers agree. *)
Definition peers_cover (env : bloom_env) bs : Prop :=
  ∀ k, is_Some (bs !! k) → ∃ ps, be_peers env !! k = Some ps ∧ ps ≠ [].

Lemma sendMulticast_loop_spec env fromKey xform l out :
  (∀ k pbi, (k, pbi) ∈ l → ∃ ps, be_peers env !! k = Some ps ∧ ps ≠ []) →
  ∃ sent, sendMulticast_loop env fromKey xform l out = Ok (out ++ sent) ∧
    Forall2 (λ kp p, ∃ ps, be_peers env !! fst kp = Some ps ∧ p ∈ ps ∧
                       ∀ p', p' ∈ ps → peer_prio p <= peer_prio p')
      (filter (wants env fromKey xform) l) sent.
Proof.
  revert out. induction l as [|[k pbi] l IH]; intros out Hcov.
  { exists []. rewrite app_nil_r. split; [done|constructor]. }
  assert (Hcov' : ∀ k pbi, (k, pbi) ∈ l → ∃ ps, be_peers env !! k = Some ps ∧ ps ≠ [])
    by (intros; eapply Hcov; by right).
  rewrite filter_cons. cbn [sendMulticast_loop].
  destruct (decide (wants env fromKey xform (k, pbi))) as [(Ht & Hk & Hx)|Hn].
  - simpl in Ht, Hk, Hx. rewrite Ht, Hx. simpl negb. rewrite bool_decide_false by done.
    destruct (Hcov k pbi) as (ps & Hps & Hne); [by left|]. rewrite Hps. simpl default.
    destruct (best_prio_spec ps Hne) as (p & -> & Hp & Hmin).
    destruct (IH (out ++ [p]) Hcov') as (sent & -> & Hall). exists (p :: sent).
    rewrite <- app_assoc. split; [done|]. constructor; [|done]. by exists ps.
  - destruct (IH out Hcov') as (sent & Hs & Hall). exists sent. split; [|done].
    rewrite <- Hs. destruct (bi_onTree pbi) eqn:Ht; simpl negb; [|done].
    case_bool_decide; [done|]. destruct (bf_Test (bi_recv pbi) xform) eqn:Hx; [|done].
    exfalso. by apply Hn.
Qed.

Lemma fixOnTree_entry_onTree env selfInfo pk pbi :
  bi_onTree (fst (fixOnTree_entry env selfInfo pk pbi)) = true ↔
  info_parent selfInfo = pk ∨ (∃ info, be_infos env !! pk = Some info ∧ info_parent info = be_self env).
Proof.
  unfold fixOnTree_entry. set (t := if bool_decide (info_parent selfInfo = pk) then true else _).
  assert (bi_onTree (fst (if bi_onTree pbi && negb t
    then (BloomInfo bf_New (bi_recv pbi) (bi_seq pbi) t (bi_zDirty pbi),
          (λ p, (p, bf_New)) <$> default [] (be_peers env !! pk))
    else (BloomInfo (bi_send pbi) (bi_recv pbi) (bi_seq pbi) t (bi_zDirty pbi), []))) = t) as Ht
    by (by destruct (bi_onTree pbi && negb t)).
  rewrite Ht. subst t. case_bool_decide; [naive_solver|].
  destruct (be_infos env !! pk) as [info|]; [rewrite bool_decide_eq_true|]; naive_solver.
Qed.

Lemma getBloomFor_ok env bs key ko :
  is_Some (bs !! key) →
  ∃ bs' b n, getBloomFor env bs key ko = Ok (bs', b, n) ∧ dom bs' = dom bs.
Proof.
  intros [pbi Hk]. unfold getBloomFor. rewrite Hk.
  destruct (if ko then _ else _) as [b z]. destruct (bf_Equal b (bi_send pbi)).
  - by eexists _, _, _.
  - eexists _, _, _. split; [done|]. apply dom_insert_lookup_L. by eexists.
Qed.

Lemma sendAllBlooms_loop_ok env ks bs out :
  peers_cover env bs →
  ∃ bs' out', sendAllBlooms_loop env ks (bs, out) = Ok (bs', out') ∧ dom bs' = dom bs.
Proof.
  revert bs out. induction ks as [|k ks IH]; intros bs out Hcov; [by eexists _, _|].
  cbn [sendAllBlooms_loop].
  assert (∃ bs1 out1, sendAllBlooms_step env (bs, out) k = Ok (bs1, out1) ∧ dom bs1 = dom bs)
    as (bs1 & out1 & -> & Hd).
  { unfold sendAllBlooms_step. destruct (bs !! k) as [pbi|] eqn:Hk; [|by eexists _, _].
    destruct (bi_onTree pbi); simpl; [|by eexists _, _].
    destruct (getBloomFor_ok env bs k (negb (bi_zDirty pbi))) as (bs1 & b & n & -> & Hd); [by eexists|].
    cbn [mbind res_bind].
    assert (is_Some (bs1 !! k)) as [pbi1 Hk1]
      by (apply elem_of_dom; rewrite Hd; apply elem_of_dom; by eexists).
    rewrite Hk1. destruct (Hcov k) as (ps & -> & _); [by eexists|].
    destruct (n || _); eexists _, _; (split; [done|]); rewrite <- Hd; apply dom_insert_lookup_L; by eexists. }
  cbn [mbind res_bind]. destruct (IH bs1 out1) as (bs2 & out2 & -> & Hd2).
  - intros k'. rewrite <- elem_of_dom, Hd, elem_of_dom. apply Hcov.
  - eexists _, _. split; [done|]. by rewrite Hd2.
Qed.

(** C25: bloom_no_false_negatives.  The filter that a node sends to a tree
    neighbour matches the node's own (transformed) key and every key that
    matches the filter received from any other neighbour on the tree,
    whether or not old bits are kept and whether or not the filter is new:
    a lookup is never dropped on the way to a node that announced itself. *)
Theorem bloom_no_false_negatives env bs key keepOnes bs' b isNew x :
  getBloomFor env bs key keepOnes = Ok (bs', b, isNew) →
  (x = xKey env (be_self env) ∨
   ∃ k pbi, bs !! k = Some pbi ∧ bi_onTree pbi = true ∧ k ≠ key ∧ bf_Test (bi_recv pbi) x = true) →
  bf_Test b x = true.
Proof. intros Hg Hx. eapply getBloomFor_test; [done|]. by apply freshBloom_complete. Qed.

(** multicast_recipients.  As long as every node with a filter has a
    connection, a multicast packet is queued on exactly one connection, one
    with the lowest priority value, of each node that is on the tree, is not
    the node the packet came from and whose received filter matches the
    transformed destination, and on no other; the panic of the code is not
    reached. *)
Theorem multicast_recipients env bs fromKey toKey :
  peers_cover env bs →
  ∃ sent, sendMulticast env bs fromKey toKey = Ok sent ∧
    Forall2 (λ kp p, ∃ ps, be_peers env !! fst kp = Some ps ∧ p ∈ ps ∧
                       ∀ p', p' ∈ ps → peer_prio p <= peer_prio p')
      (filter (wants env fromKey (xKey env toKey)) (map_to_list bs)) sent.
Proof.
  intros Hcov. destruct (sendMulticast_loop_spec env fromKey (xKey env toKey) (map_to_list bs) [])
    as (sent & Hs & Hall); [|by exists sent].
  intros k pbi Hk%elem_of_map_to_list. apply Hcov. by eexists.
Qed.

(** blooms_maintenance_safe.  A maintenance round of the filters does
    not panic when our own tree information is known and every node with a
    filter has a connection; it keeps the set of nodes. *)
Theorem blooms_maintenance_safe env bs :
  is_Some (be_infos env !! be_self env) → peers_cover env bs →
  ∃ bs' out, blooms_doMaintenance env bs = Ok (bs', out) ∧ dom bs' = dom bs.
Proof.
  intros [selfInfo Hself] Hcov. unfold blooms_doMaintenance, fixOnTree. rewrite Hself.
  cbn [mbind res_bind]. set (bs1 := map_imap _ bs).
  assert (dom bs1 = dom bs) as Hd1.
  { apply dom_imap_L. intros k. rewrite elem_of_dom. unfold is_Some. naive_solver. }
  unfold sendAllBlooms.
  destruct (sendAllBlooms_loop_ok env (map_to_list bs1).*1 bs1 []) as (bs2 & out & -> & Hd).
  - intros k. rewrite <- elem_of_dom, Hd1, elem_of_dom. apply Hcov.
  - cbn [mbind res_bind]. eexists _, _. split; [done|]. by rewrite Hd.
Qed.

(** bloom_stale_bits_survive.  Bits that are kept although nothing needs
    them any more are to be cleared by the next round.  When the fresh filter
    adds nothing to the filter sent last but lacks some of its bits, the round
    that keeps the old bits stores nothing, not even the mark that makes the
    next round drop them: the state is unchanged, so no later round of the
    same kind clears them. *)
Theorem bloom_stale_bits_survive env bs key pbi :
  bs !! key = Some pbi → bi_zDirty pbi = false →
  bf_Merge (freshBloom env bs key) (bi_send pbi) = bi_send pbi →
  freshBloom env bs key ≠ bi_send pbi →
  getBloomFor env bs key (negb (bi_zDirty pbi)) = Ok (bs, bi_send pbi, false).
Proof.
  intros Hk Hz Hm Hne. unfold getBloomFor. rewrite Hk, Hz. simpl. rewrite Hm.
  by rewrite (proj2 (bf_Equal_spec _ _) eq_refl).
Qed.
End BloomsLaws.

(** ** An instance of the filter library: 128 words, one bit per key *)
Module ToyBloom.
#[export] Instance words_ok_dec us : Decision (words_ok us).
Proof. unfold words_ok. apply _. Defined.

Definition tfilter := dsig words_ok.

Definition mk (us : list Z) : tfilter :=
  match decide (words_ok us) with
  | left H => dexist us H
  | right _ => dexist (replicate bloomFilterU 0)
      (conj (length_replicate _ _) (Forall_replicate _ _ _ (conj (Z.le_refl 0) eq_refl)))
  end.

Definition key_bit (k : bytes) : Z := foldl Z.add 0 k mod 64.
Definition key_word (k : bytes) : nat := Z.to_nat (foldl Z.add 0 k mod 128).

Lemma mk_ok us : words_ok us → proj1_sig (mk us) = us.
Proof. intros Hok. unfold mk. by destruct (decide _). Qed.

Lemma key_bit_bound k : 0 <= key_bit k < 64.
Proof. by apply Z.mod_pos_bound. Qed.

Lemma key_word_bound k : (key_word k < bloomFilterU)%nat.
Proof.
  pose proof (Z.mod_pos_bound (foldl Z.add 0 k) 128). unfold key_word.
  change bloomFilterU with 128%nat. lia.
Qed.

#[export] Instance toy_bloom : BloomFilter tfilter := {
  bf_New := mk (replicate bloomFilterU 0);
  bf_Add f k := mk (or_at (proj1_sig f) (key_word k) (2 ^ key_bit k));
  bf_Test f k := Z.testbit (nth (key_word k) (proj1_sig f) 0) (key_bit k);
  bf_Merge f g := mk (zip_with Z.lor (proj1_sig f) (proj1_sig g));
  bf_Equal f g := bool_decide (proj1_sig f = proj1_sig g);
  bf_Bytes f := proj1_sig f;
  bf_From us := mk us;
}.

Lemma add_ok (f : tfilter) k : words_ok (or_at (proj1_sig f) (key_word k) (2 ^ key_bit k)).
Proof.
  destruct (proj2_dsig f) as [Hl Hok]. split; [by rewrite length_or_at|].
  apply Forall_alter; [done|]. intros x Hx Hr. apply lor_in_range; [done..|].
  pose proof (key_bit_bound k). split; [apply Z.pow_nonneg; lia|].
  apply Z.pow_lt_mono_r; lia.
Qed.

Lemma merge_ok (f g : tfilter) : words_ok (zip_with Z.lor (proj1_sig f) (proj1_sig g)).
Proof.
  destruct (proj2_dsig f) as [Hl Hok], (proj2_dsig g) as [Hl' Hok'].
  split; [rewrite length_zip_with; lia|].
  apply Forall_lookup. intros i x Hx. apply lookup_zip_with_Some in Hx as (a & b & -> & Ha & Hb).
  apply lor_in_range; [done|by apply (Forall_lookup_1 _ _ _ _ Hok Ha)|by apply (Forall_lookup_1 _ _ _ _ Hok' Hb)].
Qed.

Lemma nth_zip_lor l l' i :
  length l = length l' → nth i (zip_with Z.lor l l') 0 = Z.lor (nth i l 0) (nth i l' 0).
Proof. revert l' i. induction l as [|x l IH]; intros [|y l'] [|i] Hl; simpl in *; try done; auto with lia. Qed.

#[export] Instance toy_bloom_laws : BloomFilterLaws tfilter.
Proof.
  split; simpl.
  - intros f. apply (proj2_dsig f).
  - intros us. apply mk_ok.
  - intros f. apply dsig_eq, mk_ok, (proj2_dsig f).
  - intros f k. rewrite mk_ok by apply add_ok. destruct (proj2_dsig f) as [Hl _].
    pose proof (key_word_bound k). rewrite nth_or_at by lia. rewrite decide_True by done.
    rewrite Z.lor_spec, Z.pow2_bits_true by apply key_bit_bound. apply orb_true_r.
  - intros f k k' Hk. rewrite mk_ok by apply add_ok. destruct (proj2_dsig f) as [Hl _].
    pose proof (key_word_bound k'). rewrite nth_or_at by lia.
    destruct (decide _) as [_|]; [|done]. by rewrite Z.lor_spec, Hk.
  - intros f g k Hk. rewrite mk_ok by apply merge_ok.
    destruct (proj2_dsig f) as [Hl _], (proj2_dsig g) as [Hl' _].
    rewrite nth_zip_lor by lia. rewrite Z.lor_spec. apply orb_true_iff. naive_solver.
  - intros f g. rewrite bool_decide_eq_true. symmetry. apply dsig_eq.
Qed.

(** A node with a parent, a second neighbour that is its child, and filters
    received from both. *)
Definition self : bytes := replicate 32 7.
Definition pk1 : bytes := replicate 32 1.
Definition pk2 : bytes := replicate 32 9.
Definition info (parent : bytes) : routerInfo :=
  RouterInfo parent (RouterSigRes (RouterSigReq 1 1) 1 (replicate 64 0)) (replicate 64 0).
Definition env : bloom_env := BloomEnv self
  (<[self := info pk1]> (<[pk2 := info self]> ∅))
  (<[pk1 := [Peer 0 pk1 1 0 0]]> (<[pk2 := [Peer 1 pk2 2 5 1; Peer 2 pk2 2 3 2]]> ∅)) keyXform.
Definition bi (recv send : tfilter) : bloomInfo tfilter := BloomInfo send recv 0 true false.
Definition recv2 : tfilter := bf_Add bf_New (xKey env pk2).
Definition blooms0 : gmap bytes (bloomInfo tfilter) :=
  <[pk1 := bi bf_New (bf_Add (freshBloom env (<[pk2 := bi recv2 bf_New]> ∅) pk1) [9])]>
    (<[pk2 := bi recv2 bf_New]> ∅).

Lemma blooms0_cover : peers_cover env blooms0.
Proof.
  intros k. rewrite <- elem_of_dom. unfold blooms0. rewrite !dom_insert_L, dom_empty_L.
  rewrite !elem_of_union, !elem_of_singleton, elem_of_empty. intros [->|[->|[]]].
  - exists [Peer 0 pk1 1 0 0]. by split.
  - exists [Peer 1 pk2 2 5 1; Peer 2 pk2 2 3 2]. by split.
Qed.

Lemma bloom_no_false_negatives_witness :
  ∃ bs' b n, getBloomFor env blooms0 pk1 true = Ok (bs', b, n) ∧ bf_Test b (xKey env pk2) = true.
Proof.
  destruct (getBloomFor_ok env blooms0 pk1 true) as (bs' & b & n & Hg & _).
  { eexists. reflexivity. }
  exists bs', b, n. split; [exact Hg|].
  apply (bloom_no_false_negatives env blooms0 pk1 true bs' b n (xKey env pk2) Hg).
  right. exists pk2, (bi recv2 bf_New). split_and!; [reflexivity|reflexivity|done|vm_compute; reflexivity].
Defined.

Lemma multicast_recipients_witness :
  ∃ sent, sendMulticast env blooms0 pk1 pk2 = Ok sent ∧ sent = [Peer 2 pk2 2 3 2].
Proof.
  destruct (multicast_recipients env blooms0 pk1 pk2 blooms0_cover) as (sent & Hs & _).
  exists sent. split; [exact Hs|].
  assert (sendMulticast env blooms0 pk1 pk2 = Ok [Peer 2 pk2 2 3 2]) as He by (vm_compute; reflexivity).
  rewrite He in Hs. injection Hs as <-. reflexivity.
Defined.

Lemma blooms_maintenance_safe_witness :
  ∃ bs' out, blooms_doMaintenance env blooms0 = Ok (bs', out) ∧ dom bs' = dom blooms0.
Proof.
  apply (blooms_maintenance_safe env blooms0); [|exact blooms0_cover].
  by eexists.
Defined.

Lemma bloom_stale_bits_survive_witness :
  ∃ pbi, blooms0 !! pk1 = Some pbi ∧ getBloomFor env blooms0 pk1 true = Ok (blooms0, bi_send pbi, false).
Proof.
  eexists. split; [reflexivity|].
  apply (bloom_stale_bits_survive env blooms0 pk1
    (bi bf_New (bf_Add (freshBloom env (<[pk2 := bi recv2 bf_New]> ∅) pk1) [9]))).
  - reflexivity.
  - reflexivity.
  - apply dsig_eq. vm_compute. reflexivity.
  - intros He. apply (f_equal proj1_sig) in He. vm_compute in He. discriminate.
Defined.
End ToyBloom.
