(* ===== verification/Tree.v ===== *)
(** * Tree: walks and distances in the spanning tree
    (third_party/ironwood/network/router.go)

    Every node announces its parent; the announcements a router knows are its
    [infos].  This file has the functions of the router that read them: the walk
    from a node towards its root in its three forms ([_getRootAndDists],
    [_getRootAndPath], [_backwardsAncestry]), the distance between a node and a
    path of ports, and the choice of the next hop for a packet.  The walks are
    related to one relation, [walk], which is a function of the announcements;
    the bound on the iterations, one more than the number of announcements, is
    proved to be enough. *)

From S2P Require Import Prelude Binary Wire Address Crypto Messages Bloom.

(** The zero value of a key. *)
Definition zeroKey : bytes := replicate PublicKeySize 0.

(** ** Reversal in place

    [for left, right := 0, len(l)-1; left < right; ...] swapping the ends. *)
Fixpoint reverse_loop {A} (fuel : nat) (l : list A) (left right : nat) : list A :=
  match fuel with
  | O => l
  | S fuel =>
      if decide (left < right)%nat then
        match l !! left, l !! right with
        | Some x, Some y => reverse_loop fuel (<[left := y]> (<[right := x]> l)) (S left) (right - 1)
        | _, _ => l
        end
      else l
  end.

Definition reverse_in_place {A} (l : list A) : list A :=
  reverse_loop (length l) l 0 (length l - 1).

Section Walks.
Implicit Types (infos : gmap bytes routerInfo).

(** ** [_getRootAndDists] *)

Fixpoint rootDists_loop (fuel : nat) infos (root next : bytes) (dist : Z) (dists : gmap bytes Z) :
    option (bytes * gmap bytes Z) :=
  match fuel with
  | O => None
  | S fuel =>
      if decide (is_Some (dists !! next)) then Some (root, dists)
      else match infos !! next with
           | Some info =>
               rootDists_loop fuel infos next (info_parent info) (u64 (dist + 1)) (<[next := dist]> dists)
           | None => Some (root, dists)
           end
  end.

Definition getRootAndDists infos (dest : bytes) : bytes * gmap bytes Z :=
  default (zeroKey, ∅) (rootDists_loop (S (size infos)) infos zeroKey dest 0 ∅).

(** ** [_getRootAndPath] *)

Fixpoint rootPath_loop (fuel : nat) infos (dest : bytes) (visited : gset bytes) (ports : list Z)
    (next : bytes) : option (bytes * list Z) :=
  match fuel with
  | O => None
  | S fuel =>
      if decide (next ∈ visited) then Some (dest, [])
      else match infos !! next with
           | Some info =>
               if decide (next = info_parent info) then Some (next, reverse_in_place ports)
               else rootPath_loop fuel infos dest ({[next]} ∪ visited)
                      (ports ++ [res_port (info_res info)]) (info_parent info)
           | None => Some (dest, [])
           end
  end.

Definition getRootAndPath infos (dest : bytes) : bytes * list Z :=
  default (dest, []) (rootPath_loop (S (size infos)) infos dest ∅ [] dest).

(** ** [_backwardsAncestry] and [_getAncestry] *)

Fixpoint backwards_loop (fuel : nat) infos (anc : list bytes) (here : bytes) : option (list bytes) :=
  match fuel with
  | O => None
  | S fuel =>
      if decide (here ∈ anc) then Some anc
      else match infos !! here with
           | Some info => backwards_loop fuel infos (anc ++ [here]) (info_parent info)
           | None => Some anc
           end
  end.

Definition backwardsAncestry infos (key : bytes) : list bytes :=
  default [] (backwards_loop (S (size infos)) infos [] key).

Definition getAncestry infos (key : bytes) : list bytes :=
  reverse_in_place (backwardsAncestry infos key).

(** ** [_getDist]

    The lengths are those of slices, at most [2^63 - 1] each, so the sum does not
    wrap, and the loop subtracts at most twice the shorter length. *)

Fixpoint dist_loop (keyPath destPath : list Z) (dist : Z) : Z :=
  match keyPath, destPath with
  | x :: keyPath, y :: destPath => if x =? y then dist_loop keyPath destPath (dist - 2) else dist
  | _, _ => dist
  end.

Definition treeDist (keyPath destPath : list Z) : Z :=
  dist_loop keyPath destPath (len keyPath + len destPath).

(** The path of [key] comes from the cache, or is computed and cached. *)
Definition getDist infos (cache : gmap bytes (list Z)) (destPath : list Z) (key : bytes) :
    Z * gmap bytes (list Z) :=
  match cache !! key with
  | Some keyPath => (treeDist keyPath destPath, cache)
  | None =>
      let keyPath := snd (getRootAndPath infos key) in
      (treeDist keyPath destPath, <[key := keyPath]> cache)
  end.

(** ** [_getCost]: the latency in milliseconds, at least one *)

Definition getCost (lags : gmap nat Z) (p : peer) : Z :=
  let c := u64 (Z.quot (default 0 (lags !! peer_id p)) 1000000) in
  if c =? 0 then 1 else c.

(** ** [_lookup] *)

(** The first loop: the connections of the neighbours closer than [bestDist]. *)
Definition lookup_candidate infos (path : list Z) (bestDist : Z)
    (st : list peer * gmap bytes (list Z)) (kps : bytes * list peer) : list peer * gmap bytes (list Z) :=
  let '(cands, cache) := st in
  let '(k, ps) := kps in
  let '(dist, cache) := getDist infos cache path k in
  (if dist <? bestDist then cands ++ ps else cands, cache).

(** The switch of the second loop: whether [p] replaces the best candidate. *)
Definition lookup_accepts (p : peer) (cost dist : Z) (best : option (peer * Z * Z)) : bool :=
  match best with
  | None => true
  | Some (bestPeer, bestCost, bestDist) =>
      if bool_decide (peer_key p = peer_key bestPeer) && (peer_prio p <? peer_prio bestPeer) then true
      else if bool_decide (peer_key p = peer_key bestPeer) && (peer_prio bestPeer <? peer_prio p) then false
      else if u64 (cost * dist) <? u64 (bestCost * bestDist) then true
      else if u64 (bestCost * bestDist) <? u64 (cost * dist) then false
      else if dist <? bestDist then true
      else if bestDist <? dist then false
      else if cost <? bestCost then true
      else if bestCost <? cost then false
      else peer_order p <? peer_order bestPeer
  end.

Definition lookup_best infos (lags : gmap nat Z) (path : list Z)
    (st : option (peer * Z * Z) * gmap bytes (list Z)) (p : peer) :
    option (peer * Z * Z) * gmap bytes (list Z) :=
  let '(best, cache) := st in
  let '(dist, cache) := getDist infos cache path (peer_key p) in
  let cost := getCost lags p in
  (if lookup_accepts p cost dist best then Some (p, cost, dist) else best, cache).

(** The body after the check of the watermark.  The candidates are visited in an
    order that the language does not determine: [order] permutes them. *)
Definition lookup_from infos (peers : gmap bytes (list peer)) (lags : gmap nat Z)
    (order : list peer → list peer) (path : list Z) (bestDist : Z) (cache : gmap bytes (list Z)) :
    option peer * gmap bytes (list Z) :=
  let '(cands, cache) := foldl (lookup_candidate infos path bestDist) ([], cache) (map_to_list peers) in
  let '(best, cache) := foldl (lookup_best infos lags path) (None, cache) (order cands) in
  ((λ b, fst (fst b)) <$> best, cache).

(** The result: the next hop, the watermark as the call leaves it, the cache. *)
Definition router_lookup (self : bytes) infos (peers : gmap bytes (list peer)) (lags : gmap nat Z)
    (order : list peer → list peer) (cache : gmap bytes (list Z)) (path : list Z) (watermark : option Z) :
    option peer * option Z * gmap bytes (list Z) :=
  match watermark with
  | Some w =>
      let '(dist, cache) := getDist infos cache path self in
      if dist <? w then
        let '(p, cache) := lookup_from infos peers lags order path dist cache in (p, Some dist, cache)
      else (None, Some w, cache)
  | None =>
      let '(p, cache) := lookup_from infos peers lags order path max_u64 cache in (p, None, cache)
  end.
End Walks.

(** ** The reversal in place is a reversal *)

Lemma reverse_loop_lookup {A} fuel (l : list A) left right i :
  (right < length l)%nat → (right <= left + fuel)%nat →
  reverse_loop fuel l left right !! i =
    if decide (left <= i <= right)%nat then l !! (left + right - i)%nat else l !! i.
Proof.
  revert l left right. induction fuel as [|fuel IH]; intros l left right Hr Hf; simpl.
  - destruct (decide _); [|done]. f_equal. lia.
  - destruct (decide (left < right)%nat) as [Hlr|Hlr].
    2:{ destruct (decide _); [|done]. f_equal. lia. }
    destruct (lookup_lt_is_Some_2 l left) as [x Hx]; [lia|].
    destruct (lookup_lt_is_Some_2 l right) as [y Hy]; [lia|].
    rewrite Hx, Hy, IH by (rewrite ?length_insert; lia).
    assert (∀ j, <[left:=y]> (<[right:=x]> l) !! j =
      if decide (j = left) then Some y else if decide (j = right) then Some x else l !! j) as Hj.
    { intros j. destruct (decide (j = left)) as [->|].
      - by rewrite list_lookup_insert_eq by (rewrite length_insert; lia).
      - rewrite list_lookup_insert_ne by done. destruct (decide (j = right)) as [->|].
        + by rewrite list_lookup_insert_eq by lia.
        + by rewrite list_lookup_insert_ne. }
    rewrite !Hj.
    destruct (decide (S left <= i <= right - 1)%nat), (decide (left <= i <= right)%nat); try lia;
      repeat case_decide; subst; try lia; try f_equal; try lia.
    + rewrite <- Hy. f_equal. lia.
    + rewrite <- Hx. f_equal. lia.
Qed.

Lemma reverse_in_place_eq {A} (l : list A) : reverse_in_place l = reverse l.
Proof.
  unfold reverse_in_place. apply list_eq. intros i.
  destruct (decide (i < length l)%nat) as [Hi|Hi].
  - rewrite reverse_loop_lookup, reverse_lookup by lia. rewrite decide_True by lia. f_equal. lia.
  - rewrite (lookup_ge_None_2 (reverse l)) by (rewrite length_reverse; lia).
    destruct l as [|x l]; [done|]. simpl length in *.
    rewrite reverse_loop_lookup by (simpl; lia).
    rewrite decide_False by lia. apply lookup_ge_None_2. simpl. lia.
Qed.

(** ** The walk towards the root

    [walk infos anc here l stop]: from [here], with the nodes [anc] already
    visited, the walk visits [l] and stops at [stop], which was visited before
    (a loop, or a root, which is its own parent) or is unknown (a dead end). *)
Inductive walk (infos : gmap bytes routerInfo) : list bytes → bytes → list bytes → bytes → Prop :=
| walk_seen anc here : here ∈ anc → walk infos anc here [] here
| walk_dead anc here : here ∉ anc → infos !! here = None → walk infos anc here [] here
| walk_next anc here info l stop :
    here ∉ anc → infos !! here = Some info →
    walk infos (anc ++ [here]) (info_parent info) l stop →
    walk infos anc here (here :: l) stop.

Section WalkFacts.
Context (infos : gmap bytes routerInfo).

Definition known (l : list bytes) : Prop := NoDup l ∧ ∀ k, k ∈ l → is_Some (infos !! k).

Lemma known_length l : known l → (length l <= size infos)%nat.
Proof.
  intros [Hnd Hin]. rewrite <- size_dom, <- (size_list_to_set (C := gset bytes) l Hnd).
  apply subseteq_size. intros k Hk%elem_of_list_to_set. by apply elem_of_dom, Hin.
Qed.

Lemma known_snoc l k info : known l → k ∉ l → infos !! k = Some info → known (l ++ [k]).
Proof.
  intros [Hnd Hin] Hk Hi. split.
  - apply NoDup_app. split; [done|]. split; [|apply NoDup_singleton].
    intros x Hx ->%list_elem_of_singleton. done.
  - intros x [Hx| ->%list_elem_of_singleton]%elem_of_app; [by apply Hin|by eexists].
Qed.

Lemma walk_known anc here l stop : walk infos anc here l stop → known anc → known (anc ++ l).
Proof.
  induction 1 as [| |anc here info l stop Hn Hi Hw IH]; intros Hk; rewrite ?app_nil_r; [done..|].
  specialize (IH (known_snoc _ _ _ Hk Hn Hi)). by rewrite <- app_assoc in IH.
Qed.

Lemma walk_ends anc here l stop : walk infos anc here l stop → stop ∈ anc ++ l ∨ infos !! stop = None.
Proof.
  induction 1 as [| |anc here info l stop Hn Hi Hw IH]; rewrite ?app_nil_r; [by left|by right|].
  by rewrite <- app_assoc in IH.
Qed.

(** The walk is a function of where it starts. *)
Lemma walk_unique anc here l1 s1 l2 s2 :
  walk infos anc here l1 s1 → walk infos anc here l2 s2 → l1 = l2 ∧ s1 = s2.
Proof.
  intros H1. revert l2 s2. induction H1 as [| |anc here info l stop Hn Hi Hw IH]; intros l2 s2 H2;
    inversion H2; simplify_eq; try done.
  destruct (IH l0 s2) as [-> ->]; [congruence|done].
Qed.

Lemma walk_exists_from n anc here :
  known anc → (size infos < n + length anc)%nat → ∃ l stop, walk infos anc here l stop.
Proof.
  revert anc here. induction n as [|n IH]; intros anc here Hk Hn.
  { pose proof (known_length anc Hk). lia. }
  destruct (decide (here ∈ anc)); [exists [], here; by constructor|].
  destruct (infos !! here) as [info|] eqn:Hi.
  - destruct (IH (anc ++ [here]) (info_parent info)) as (l & stop & Hw);
      [by eapply known_snoc|rewrite length_app; simpl; lia|].
    exists (here :: l), stop. by econstructor.
  - exists [], here. by apply walk_dead.
Qed.

Lemma walk_exists here : ∃ l stop, walk infos [] here l stop.
Proof.
  apply (walk_exists_from (S (size infos))); [|simpl; lia]. split; [constructor|].
  intros k Hk. by apply not_elem_of_nil in Hk.
Qed.

Lemma walk_length here l stop : walk infos [] here l stop → (length l <= size infos)%nat.
Proof.
  intros Hw. apply known_length. apply (walk_known [] here l stop Hw). split; [constructor|].
  intros k Hk. by apply not_elem_of_nil in Hk.
Qed.

(** *** The three walks of the code follow it *)

Lemma backwards_loop_walk anc here l stop fuel :
  walk infos anc here l stop → (length l < fuel)%nat → backwards_loop fuel infos anc here = Some (anc ++ l).
Proof.
  intros Hw. revert fuel. induction Hw as [| |anc here info l stop Hn Hi Hw IH];
    intros fuel Hf; (destruct fuel as [|fuel]; [simpl in Hf; lia|]); simpl.
  - by rewrite decide_True, app_nil_r.
  - rewrite decide_False, H0, app_nil_r by done. done.
  - rewrite decide_False, Hi, IH, <- app_assoc by (done || simpl in Hf; lia). done.
Qed.

Lemma backwardsAncestry_walk key l stop : walk infos [] key l stop → backwardsAncestry infos key = l.
Proof.
  intros Hw. unfold backwardsAncestry. erewrite backwards_loop_walk; [done|done|].
  apply walk_length in Hw. lia.
Qed.

(** The nodes of [l] numbered from [dist] on. *)
Fixpoint numbered (l : list bytes) (dist : Z) (dists : gmap bytes Z) : gmap bytes Z :=
  match l with
  | [] => dists
  | k :: l => numbered l (u64 (dist + 1)) (<[k := dist]> dists)
  end.

Lemma rootDists_loop_walk anc here l stop fuel root dist dists :
  walk infos anc here l stop → (length l < fuel)%nat → (∀ k, is_Some (dists !! k) ↔ k ∈ anc) →
  rootDists_loop fuel infos root here dist dists = Some (default root (last l), numbered l dist dists).
Proof.
  intros Hw. revert fuel root dist dists. induction Hw as [| |anc here info l stop Hn Hi Hw IH];
    intros fuel root dist dists Hf Hd; (destruct fuel as [|fuel]; [simpl in Hf; lia|]); simpl.
  - by rewrite decide_True by (by apply Hd).
  - rewrite decide_False, H0 by (by rewrite Hd). done.
  - rewrite decide_False, Hi by (by rewrite Hd). rewrite IH; [|simpl in Hf; lia|].
    + f_equal. f_equal. destruct l as [|x l]; [done|].
      by rewrite !last_cons; destruct (last l).
    + intros k. rewrite elem_of_app, list_elem_of_singleton, <- Hd.
      destruct (decide (k = here)) as [->|Hne].
      * rewrite lookup_insert_eq. naive_solver.
      * rewrite lookup_insert_ne by done. naive_solver.
Qed.

Lemma getRootAndDists_walk dest l stop :
  walk infos [] dest l stop →
  getRootAndDists infos dest = (default zeroKey (last l), numbered l 0 ∅).
Proof.
  intros Hw. unfold getRootAndDists. erewrite rootDists_loop_walk; [done|done| |].
  - apply walk_length in Hw. lia.
  - intros k. rewrite lookup_empty. split; [intros [? [=]]|]. by intros ?%not_elem_of_nil.
Qed.

(** The ports from a node of a walk on. *)
Definition ports_of (l : list bytes) : list Z :=
  (λ k, from_option (λ i, res_port (info_res i)) 0 (infos !! k)) <$> l.

Lemma ports_of_snoc l k info :
  infos !! k = Some info → ports_of (l ++ [k]) = ports_of l ++ [res_port (info_res info)].
Proof. intros Hk. unfold ports_of. rewrite fmap_app. simpl. by rewrite Hk. Qed.

Lemma ports_of_cons l k info :
  infos !! k = Some info → ports_of (k :: l) = res_port (info_res info) :: ports_of l.
Proof. intros Hk. unfold ports_of. simpl. by rewrite Hk. Qed.

(** A node that is its own parent. *)
Definition is_root (k : bytes) : Prop := ∃ info, infos !! k = Some info ∧ info_parent info = k.

Lemma rootPath_loop_walk anc here l stop fuel dest visited :
  walk infos anc here l stop → (length l < fuel)%nat → (∀ k, k ∈ visited ↔ k ∈ anc) →
  (∀ k, k ∈ anc → ¬ is_root k) →
  rootPath_loop fuel infos dest visited (ports_of anc) here =
    Some (match last l with
          | Some k => if decide (stop = k) then (k, reverse (ports_of (removelast (anc ++ l)))) else (dest, [])
          | None => (dest, [])
          end).
Proof.
  intros Hw. revert fuel visited. induction Hw as [| |anc here info l stop Hn Hi Hw IH];
    intros fuel visited Hf Hv Hr; (destruct fuel as [|fuel]; [simpl in Hf; lia|]); simpl.
  - by rewrite decide_True by (by apply Hv).
  - rewrite decide_False, H0 by (by rewrite Hv). done.
  - rewrite decide_False, Hi by (by rewrite Hv).
    destruct (decide (here = info_parent info)) as [Hroot|Hroot].
    + inversion Hw; subst; [|congruence..|destruct H; set_solver].
      simpl. rewrite decide_True by done. rewrite reverse_in_place_eq. by rewrite removelast_last.
    + rewrite <- (ports_of_snoc anc here info Hi), IH; [|simpl in Hf; lia|set_solver|].
      * rewrite <- app_assoc. simpl. f_equal. destruct l as [|x l].
        { simpl. destruct (decide (stop = here)) as [->|]; [|done].
          inversion Hw; subst; [congruence|by destruct H]. }
        rewrite !last_cons. by destruct (last l).
      * intros k [Hk| ->%list_elem_of_singleton]%elem_of_app; [by apply Hr|].
        intros (i & Hi' & Hp). congruence.
Qed.

Lemma rootPath_loop_start dest l stop fuel :
  walk infos [] dest l stop → (length l < fuel)%nat →
  rootPath_loop fuel infos dest ∅ [] dest =
    Some (match last l with
          | Some k => if decide (stop = k) then (k, reverse (ports_of (removelast l))) else (dest, [])
          | None => (dest, [])
          end).
Proof.
  intros Hw Hf. apply (rootPath_loop_walk [] dest l stop fuel dest ∅ Hw Hf); [set_solver|].
  by intros k ?%not_elem_of_nil.
Qed.

Lemma getRootAndPath_walk dest l stop :
  walk infos [] dest l stop →
  getRootAndPath infos dest =
    match last l with
    | Some k => if decide (stop = k) then (k, reverse (ports_of (removelast l))) else (dest, [])
    | None => (dest, [])
    end.
Proof.
  intros Hw. unfold getRootAndPath. erewrite rootPath_loop_start; [done|done|].
  apply walk_length in Hw. lia.
Qed.

Lemma numbered_other l dist dists k : k ∉ l → numbered l dist dists !! k = dists !! k.
Proof.
  revert dist dists. induction l as [|x l IH]; intros dist dists Hk; simpl; [done|].
  apply not_elem_of_cons in Hk as [? ?]. by rewrite IH, lookup_insert_ne.
Qed.

Lemma numbered_lookup l dist dists i k :
  NoDup l → is_u64 dist → l !! i = Some k → numbered l dist dists !! k = Some (u64 (dist + Z.of_nat i)).
Proof.
  revert i dist dists. induction l as [|x l IH]; intros i dist dists Hnd Hd Hi; [done|].
  inversion Hnd; subst. destruct i as [|i]; simpl in Hi.
  - simplify_eq. cbn [numbered]. rewrite numbered_other, lookup_insert_eq by done.
    by rewrite Z.add_0_r, (wrap_small 64).
  - cbn [numbered]. rewrite (IH i); [|done|by apply wrap_in_range|done].
    f_equal. unfold wrap. rewrite Zplus_mod_idemp_l. f_equal. lia.
Qed.

(** The parent of every node but the last is the next one; the parent of the
    last one is where the walk stops. *)
Lemma walk_parents anc here l stop i k :
  walk infos anc here l stop → l !! i = Some k →
  ∃ info, infos !! k = Some info ∧ info_parent info = default stop (l !! S i).
Proof.
  intros Hw. revert i. induction Hw as [| |anc here info l stop Hn Hi Hw IH]; intros i Hl; [done..|].
  destruct i as [|i]; simpl in Hl; [|by apply IH].
  simplify_eq. exists info. split; [done|]. simpl. destruct Hw; done.
Qed.

Lemma walk_head here l stop :
  walk infos [] here l stop → infos !! here = None ∧ l = [] ∨ is_Some (infos !! here) ∧ head l = Some here.
Proof.
  inversion 1 as [? ? Hin|? ? _ Hn|? ? info l' ? _ Hi]; subst.
  - by apply not_elem_of_nil in Hin.
  - by left.
  - right. split; [by eexists|done].
Qed.

Lemma last_root l stop anc here k :
  walk infos anc here l stop → last l = Some k → stop = k ↔ is_root k.
Proof.
  intros Hw Hl. rewrite last_lookup in Hl.
  destruct (walk_parents _ _ _ _ _ _ Hw Hl) as (info & Hi & Hp).
  rewrite (lookup_ge_None_2 l) in Hp by (destruct l; simpl in *; lia). simpl in Hp.
  split; [intros ->; by exists info|]. intros (i' & Hi' & Hp'). congruence.
Qed.
End WalkFacts.

#[export] Instance is_root_dec infos k : Decision (is_root infos k).
Proof.
  refine (match infos !! k as o return infos !! k = o → Decision (is_root infos k) with
          | Some info => λ E, cast_if (decide (info_parent info = k))
          | None => λ E, right _
          end eq_refl).
  - by exists info.
  - intros (i & Hi & Hp). congruence.
  - intros (i & Hi & Hp). congruence.
Defined.

(** tree_walks_agree.  The three walks of the router towards the root visit
    the same nodes.  The ancestry of a node has no repetition, starts at the
    node, consists of known nodes, each followed by its parent, and ends at a
    node whose parent was visited or is unknown.  [_getRootAndDists] returns its
    last node and the position of every node; [_getRootAndPath] returns the ports
    on the way down from the root when the last node is its own parent, and no
    path when the walk loops or ends early.  Each loop ends within one iteration
    more than there are announcements. *)
Theorem tree_walks_agree infos key :
  let l := backwardsAncestry infos key in
  NoDup l ∧
  head l = (if decide (is_Some (infos !! key)) then Some key else None) ∧
  (∀ i k, l !! i = Some k → ∃ info, infos !! k = Some info ∧
     match l !! S i with
     | Some parent => info_parent info = parent
     | None => info_parent info ∈ l ∨ infos !! info_parent info = None
     end) ∧
  fst (getRootAndDists infos key) = default zeroKey (last l) ∧
  dom (snd (getRootAndDists infos key)) = list_to_set l ∧
  (∀ i k, l !! i = Some k → snd (getRootAndDists infos key) !! k = Some (u64 (Z.of_nat i))) ∧
  getRootAndPath infos key =
    match last l with
    | Some k => if decide (is_root infos k) then (k, reverse (ports_of infos (removelast l))) else (key, [])
    | None => (key, [])
    end ∧
  (∀ fuel, (size infos < fuel)%nat →
     rootDists_loop fuel infos zeroKey key 0 ∅ = Some (getRootAndDists infos key) ∧
     rootPath_loop fuel infos key ∅ [] key = Some (getRootAndPath infos key) ∧
     backwards_loop fuel infos [] key = Some l).
Proof.
  destruct (walk_exists infos key) as (l & stop & Hw).
  pose proof (walk_length infos key l stop Hw) as Hlen.
  destruct (walk_known infos [] key l stop Hw) as [Hnd Hknown]; [split; [constructor|set_solver]|].
  simpl in Hnd, Hknown. rewrite (backwardsAncestry_walk infos key l stop Hw).
  pose proof (getRootAndDists_walk infos key l stop Hw) as Hd.
  pose proof (getRootAndPath_walk infos key l stop Hw) as Hp. simpl. rewrite Hd. simpl.
  split_and!; [done| | |done| | | |].
  - destruct (walk_head infos key l stop Hw) as [[-> ->]|[Hs ->]].
    + rewrite decide_False; [done|]. by intros [? [=]].
    + by rewrite decide_True.
  - intros i k Hk. destruct (walk_parents infos [] key l stop i k Hw Hk) as (info & Hi & Hpar).
    exists info. split; [done|]. destruct (l !! S i) as [k'|]; simpl in Hpar; [done|].
    rewrite Hpar. by apply walk_ends in Hw.
  - apply set_eq. intros k. rewrite elem_of_dom, elem_of_list_to_set. split.
    + intros [z Hz]. destruct (decide (k ∈ l)); [done|]. by rewrite numbered_other, lookup_empty in Hz.
    + intros [i Hi]%list_elem_of_lookup_1. eexists. by eapply numbered_lookup.
  - intros i k Hk. by erewrite numbered_lookup.
  - rewrite Hp. destruct (last l) as [k|] eqn:Hk; [|done].
    pose proof (last_root infos l stop [] key k Hw Hk). repeat case_decide; tauto || done.
  - intros fuel Hf. split_and!.
    + erewrite rootDists_loop_walk; [done|done|lia|]. intros k.
      rewrite lookup_empty. split; [by intros [? [=]]|by intros ?%not_elem_of_nil].
    + rewrite Hp. apply rootPath_loop_start; [done|lia].
    + erewrite backwards_loop_walk; [done|done|lia].
Qed.

(** ** Distances *)

(** The length of the common prefix of two paths. *)
Fixpoint common (a b : list Z) : nat :=
  match a, b with
  | x :: a, y :: b => if x =? y then S (common a b) else O
  | _, _ => O
  end.

Lemma dist_loop_common a b d : dist_loop a b d = d - 2 * Z.of_nat (common a b).
Proof.
  revert b d. induction a as [|x a IH]; intros [|y b] d; simpl; try lia.
  destruct (x =? y); [|lia]. rewrite IH. lia.
Qed.

Lemma treeDist_common a b : treeDist a b = len a + len b - 2 * Z.of_nat (common a b).
Proof. apply dist_loop_common. Qed.

Lemma common_le a b : (common a b <= length a)%nat ∧ (common a b <= length b)%nat.
Proof.
  revert b. induction a as [|x a IH]; intros [|y b]; simpl; try lia.
  destruct (x =? y); [|lia]. destruct (IH b). lia.
Qed.

Lemma common_take a b : take (common a b) a = take (common a b) b.
Proof.
  revert b. induction a as [|x a IH]; intros [|y b]; simpl; try done.
  destruct (Z.eqb_spec x y) as [->|]; [|done]. simpl. by rewrite IH.
Qed.

Lemma common_prefix a b : common a (a ++ b) = length a.
Proof. induction a as [|x a IH]; simpl; [by destruct b|]. by rewrite Z.eqb_refl, IH. Qed.

Lemma common_snoc_diff a b x : (common a b < length a)%nat → common (a ++ [x]) b = common a b.
Proof.
  revert b. induction a as [|y a IH]; intros b; [simpl; lia|].
  destruct b as [|z b]; simpl; [done|]. destruct (y =? z); [|done]. intros. rewrite IH by lia. done.
Qed.

Lemma treeDist_nonneg a b : 0 <= treeDist a b.
Proof. rewrite treeDist_common. unfold len. destruct (common_le a b). lia. Qed.

Lemma treeDist_0 a b : treeDist a b = 0 ↔ a = b.
Proof.
  rewrite treeDist_common. unfold len. split.
  - intros H. destruct (common_le a b). assert (common a b = length a ∧ common a b = length b) as [Ha Hb] by lia.
    pose proof (common_take a b) as Ht. rewrite !take_ge in Ht by lia. done.
  - intros ->. pose proof (common_prefix b []) as Hc. rewrite app_nil_r in Hc. lia.
Qed.

Section Lookup.
Context (infos : gmap bytes routerInfo).

(** The path of ports from the root to a node, and the distance of a node from
    the end of a path. *)
Definition coords (k : bytes) : list Z := snd (getRootAndPath infos k).
Definition distTo (path : list Z) (k : bytes) : Z := treeDist (coords k) path.

(** The cached paths are the ones that would be computed. *)
Definition cache_ok (cache : gmap bytes (list Z)) : Prop :=
  ∀ k path, cache !! k = Some path → path = coords k.

Lemma getDist_ok cache path k d cache' :
  cache_ok cache → getDist infos cache path k = (d, cache') → d = distTo path k ∧ cache_ok cache'.
Proof.
  intros Hc. unfold getDist. destruct (cache !! k) as [kp|] eqn:Hk; intros [= <- <-].
  - apply Hc in Hk as ->. done.
  - split; [done|]. intros k' path'. destruct (decide (k' = k)) as [->|].
    + rewrite lookup_insert_eq. by intros [= <-].
    + rewrite lookup_insert_ne by done. apply Hc.
Qed.

(** The connections filed under a node's key are connections to that node. *)
Definition filed (peers : gmap bytes (list peer)) : Prop :=
  ∀ k ps p, peers !! k = Some ps → p ∈ ps → peer_key p = k.

Lemma candidates_ok path bestDist kps cands cache cands' cache' :
  cache_ok cache →
  foldl (lookup_candidate infos path bestDist) (cands, cache) kps = (cands', cache') →
  cache_ok cache' ∧
  ∀ p, p ∈ cands' ↔ p ∈ cands ∨ ∃ k ps, (k, ps) ∈ kps ∧ p ∈ ps ∧ distTo path k < bestDist.
Proof.
  revert cands cache. induction kps as [|[k ps] kps IH]; intros cands cache Hc; simpl.
  - intros [= <- <-]. split; [done|]. intros p. set_solver.
  - destruct (getDist infos cache path k) as [d cache1] eqn:Hd.
    apply (getDist_ok _ _ _ _ _ Hc) in Hd as [-> Hc1]. intros Hf.
    destruct (IH _ _ Hc1 Hf) as [Hc' Hp]. split; [done|]. intros p. rewrite Hp.
    destruct (Z.ltb_spec (distTo path k) bestDist); set_solver by lia.
Qed.

(** The best of a list of candidates is one of them, with its own cost and
    distance; there is none only when the list is empty. *)
Lemma best_ok lags path l best cache best' cache' :
  cache_ok cache →
  foldl (lookup_best infos lags path) (best, cache) l = (best', cache') →
  cache_ok cache' ∧
  match best' with
  | Some (p, c, d) => best = Some (p, c, d) ∨ p ∈ l ∧ c = getCost lags p ∧ d = distTo path (peer_key p)
  | None => best = None ∧ l = []
  end.
Proof.
  revert best cache. induction l as [|p l IH]; intros best cache Hc; simpl.
  - intros [= <- <-]. split; [done|]. destruct best as [[[? ?] ?]|]; auto.
  - destruct (getDist infos cache path (peer_key p)) as [d cache1] eqn:Hd.
    apply (getDist_ok _ _ _ _ _ Hc) in Hd as [-> Hc1]. intros Hf.
    destruct (IH _ _ Hc1 Hf) as [Hc' Hb]. split; [done|].
    destruct best' as [[[q c] e]|].
    2:{ destruct Hb as [Hb _], best as [b|]; [|done]. by destruct (lookup_accepts _ _ _ (Some b)). }
    destruct Hb as [Hb|(? & ? & ?)]; [|right; set_solver].
    destruct (lookup_accepts _ _ _ best); simplify_eq; [right; set_solver|by left].
Qed.

Lemma lookup_from_ok peers lags order path bestDist cache next cache' :
  cache_ok cache → (∀ l, order l ≡ₚ l) →
  lookup_from infos peers lags order path bestDist cache = (next, cache') →
  cache_ok cache' ∧
  match next with
  | Some p => ∃ k ps, peers !! k = Some ps ∧ p ∈ ps ∧ distTo path k < bestDist
  | None => ∀ k ps p, peers !! k = Some ps → p ∈ ps → bestDist <= distTo path k
  end.
Proof.
  intros Hc Ho. unfold lookup_from.
  destruct (foldl (lookup_candidate _ _ _) _ _) as [cands c1] eqn:Hcand.
  destruct (candidates_ok _ _ _ _ _ _ _ Hc Hcand) as [Hc1 Hin].
  destruct (foldl (lookup_best _ _ _) _ _) as [best c2] eqn:Hbest.
  destruct (best_ok _ _ _ _ _ _ _ Hc1 Hbest) as [Hc2 Hb]. intros [= <- <-]. split; [done|].
  destruct best as [[[p c] d]|]; simpl.
  - destruct Hb as [Hb|(Hp & _)]; [done|]. rewrite Ho, Hin in Hp.
    destruct Hp as [?%not_elem_of_nil|(k & ps & Hk%elem_of_map_to_list & Hp)]; [done|]. eauto.
  - destruct Hb as [_ Hnil]. intros k ps p Hk Hp. apply Z.le_ngt. intros Hlt.
    apply (not_elem_of_nil p). rewrite <- Hnil, Ho, Hin. right. exists k, ps.
    split; [by apply elem_of_map_to_list|done].
Qed.
End Lookup.

(** ** Next hops *)

(** What a router that handles a packet reads: its key, the announcements, the
    connections and latencies, the cached paths and the order in which the
    candidates are visited. *)
Record view := View {
  v_self : bytes;
  v_infos : gmap bytes routerInfo;
  v_peers : gmap bytes (list peer);
  v_lags : gmap nat Z;
  v_cache : gmap bytes (list Z);
  v_order : list peer → list peer;
}.

Record view_ok (v : view) : Prop := {
  vo_cache : cache_ok (v_infos v) (v_cache v);
  vo_order : ∀ l, v_order v l ≡ₚ l;
  vo_filed : filed (v_peers v);
}.

Definition view_lookup (v : view) (path : list Z) (w : Z) : option peer * option Z * gmap bytes (list Z) :=
  router_lookup (v_self v) (v_infos v) (v_peers v) (v_lags v) (v_order v) (v_cache v) path (Some w).

Definition selfDist (v : view) (path : list Z) : Z := distTo (v_infos v) path (v_self v).

Lemma view_lookup_spec v path w next w' cache' :
  view_ok v → view_lookup v path w = (next, w', cache') →
  cache_ok (v_infos v) cache' ∧
  if decide (selfDist v path < w) then
    w' = Some (selfDist v path) ∧
    match next with
    | Some p => (∃ ps, v_peers v !! peer_key p = Some ps ∧ p ∈ ps) ∧
                distTo (v_infos v) path (peer_key p) < selfDist v path
    | None => ∀ k ps, v_peers v !! k = Some ps → ps ≠ [] → selfDist v path <= distTo (v_infos v) path k
    end
  else next = None ∧ w' = Some w.
Proof.
  intros [Hc Ho Hf]. unfold view_lookup, router_lookup.
  destruct (getDist _ _ _ _) as [d c1] eqn:Hd.
  apply (getDist_ok _ _ _ _ _ _ Hc) in Hd as [-> Hc1]. fold (selfDist v path).
  destruct (Z.ltb_spec (selfDist v path) w) as [Hlt|Hge].
  - rewrite decide_True by done. destruct (lookup_from _ _ _ _ _ _ _) as [q c2] eqn:Hl.
    destruct (lookup_from_ok _ _ _ _ _ _ _ _ _ Hc1 Ho Hl) as [Hc2 Hq]. intros [= <- <- <-].
    split_and!; [done|done|]. destruct q as [p|].
    + destruct Hq as (k & ps & Hk & Hp & Hlt'). pose proof (Hf k ps p Hk Hp) as <-. eauto.
    + intros k ps Hk Hne. destruct ps as [|p ps]; [done|]. apply (Hq k (p :: ps) p Hk). set_solver.
  - rewrite decide_False by lia. intros [= <- <- <-]. done.
Qed.

(** C20: lookup_next_hop.  The next hop for a packet is a connection of a neighbour
    that is strictly closer to the end of the packet's path than the router
    itself, which is strictly closer than the watermark; the watermark is lowered
    to the router's own distance.  When the router is not closer than the
    watermark the packet is not forwarded and the watermark is kept; when it is,
    the packet is not forwarded only if no connected neighbour is strictly closer.
    Cached paths stay equal to the ones that would be computed. *)
Theorem lookup_next_hop v path w next w' cache' :
  view_ok v → view_lookup v path w = (next, w', cache') →
  cache_ok (v_infos v) cache' ∧
  (selfDist v path < w →
     w' = Some (selfDist v path) ∧
     (next = None ↔ ∀ k ps, v_peers v !! k = Some ps → ps ≠ [] →
                      selfDist v path <= distTo (v_infos v) path k) ∧
     ∀ p, next = Some p → (∃ ps, v_peers v !! peer_key p = Some ps ∧ p ∈ ps) ∧
                          distTo (v_infos v) path (peer_key p) < selfDist v path) ∧
  (w <= selfDist v path → next = None ∧ w' = Some w).
Proof.
  intros Hv Hl. destruct (view_lookup_spec _ _ _ _ _ _ Hv Hl) as [Hc Hs]. split; [done|].
  split; intros Hw; [rewrite decide_True in Hs by done|rewrite decide_False in Hs by lia; done].
  destruct Hs as [-> Hs]. split; [done|]. destruct next as [p|]; [|by split].
  destruct Hs as [(ps & Hps & Hp) Hlt]. split; [|by intros ? [= <-]; eauto].
  split; [done|]. intros Hall. exfalso. specialize (Hall _ ps Hps). destruct ps; [set_solver|].
  specialize (Hall ltac:(done)). lia.
Qed.

(** The routers of [vs], one after the other, each in whatever state it is in
    when the packet arrives, forward the packet. *)
Fixpoint forwarded (vs : list view) (path : list Z) (w : Z) : Prop :=
  match vs with
  | [] => True
  | v :: vs => ∃ p w' cache', view_lookup v path w = (Some p, Some w', cache') ∧ forwarded vs path w'
  end.

Lemma forwarded_cons v vs path w p w' :
  fst (view_lookup v path w) = (Some p, Some w') → forwarded vs path w' → forwarded (v :: vs) path w.
Proof.
  intros Hl Hf. destruct (view_lookup v path w) as [pw c] eqn:E. simpl in Hl. subst pw.
  simpl. eauto 6.
Qed.

Lemma forwarded_decreasing vs path w :
  Forall view_ok vs → forwarded vs path w →
  StronglySorted Z.gt (w :: ((λ v, selfDist v path) <$> vs)) ∧
  Forall (λ v, 1 <= selfDist v path) vs.
Proof.
  revert w. induction vs as [|v vs IH]; intros w Hall Hf; simpl.
  - split; [by repeat constructor|constructor].
  - inversion Hall as [|? ? Hv Hvs]; subst. destruct Hf as (p & w' & c & Hl & Hf).
    destruct (view_lookup_spec _ _ _ _ _ _ Hv Hl) as [_ Hs].
    destruct (decide (selfDist v path < w)) as [Hlt|]; [|by destruct Hs].
    destruct Hs as ([= ->] & _ & Hcl).
    pose proof (treeDist_nonneg (coords (v_infos v) (peer_key p)) path) as Hnn.
    unfold distTo in Hcl. destruct (IH _ Hvs Hf) as [Hs Hf1]. split; [|constructor; [lia|done]].
    constructor; [done|]. inversion Hs as [|? ? Hs' Hgt]; subst. constructor; [lia|].
    eapply Forall_impl; [done|]. intros x Hx. cbn in Hx. lia.
Qed.

Lemma decreasing_length (l : list Z) x :
  StronglySorted Z.gt (x :: l) → Forall (λ y, 1 <= y) l → (Z.of_nat (length l) < x ∨ l = []).
Proof.
  revert x. induction l as [|y l IH]; intros x Hs Hf; [by right|left].
  inversion Hs as [|? ? Hs' Hgt]; inversion Hgt; inversion Hf; subst.
  destruct (IH y Hs' ltac:(done)) as [?| ->]; simpl; lia.
Qed.

Lemma sorted_gt_NoDup (l : list Z) : StronglySorted Z.gt l → NoDup l.
Proof.
  induction 1 as [|x l Hs IH Hf]; constructor; [|done].
  intros Hx. rewrite Forall_forall in Hf. specialize (Hf _ Hx). lia.
Qed.

(** C19: forwarding_is_loop_free.  However the views of the routers differ and
    change while a packet travels, the distances of the routers that forward it
    strictly decrease: no router forwards it twice in the same state, and after
    the first router the packet is forwarded fewer times than that router's
    distance. *)
Theorem forwarding_is_loop_free v vs path w :
  Forall view_ok (v :: vs) → forwarded (v :: vs) path w →
  NoDup (v :: vs) ∧
  NoDup ((λ v, selfDist v path) <$> (v :: vs)) ∧
  Z.of_nat (length vs) < selfDist v path < w.
Proof.
  intros Hall Hf. destruct (forwarded_decreasing _ _ _ Hall Hf) as [Hs Hge].
  inversion Hs as [|? ? Hs' Hw]; subst.
  assert (NoDup ((λ v, selfDist v path) <$> (v :: vs))) as Hnd by by apply sorted_gt_NoDup.
  split_and!; [by eapply NoDup_fmap_1|done| |].
  - inversion Hge as [|? ? H1 Hge']; subst. simpl in Hs'.
    apply decreasing_length in Hs'.
    + rewrite length_fmap in Hs'. destruct Hs' as [?|Hnil]; [done|].
      apply fmap_nil_inv in Hnil as ->. simpl. lia.
    + by apply Forall_fmap.
  - inversion Hw; subst. lia.
Qed.

(** *** The cost of the chosen hop *)

(** The candidates are ordered by cost times distance, distance, cost and age;
    [key_less] is the lexicographic order. *)
Definition hop_rank (infos : gmap bytes routerInfo) (lags : gmap nat Z) (path : list Z) (p : peer) : list Z :=
  let '(cost, dist) := (getCost lags p, distTo infos path (peer_key p)) in
  [u64 (cost * dist); dist; cost; peer_order p].

Section Optimal.
Context (infos : gmap bytes routerInfo) (lags : gmap nat Z) (path : list Z).
Let less p q := key_less (hop_rank infos lags path p) (hop_rank infos lags path q).

Lemma hop_less_negtrans p q r : less p q = false → less q r = false → less p r = false.
Proof.
  unfold less. intros Hpq Hqr. destruct (key_less (hop_rank _ _ _ p) (hop_rank _ _ _ r)) eqn:Hpr; [|done].
  destruct (key_less (hop_rank infos lags path q) (hop_rank infos lags path p)) eqn:Hqp.
  - by rewrite (key_less_trans _ _ _ Hqp Hpr) in Hqr.
  - assert (hop_rank infos lags path p = hop_rank infos lags path q) as Heq by by apply key_less_total.
    congruence.
Qed.

Lemma lookup_accepts_less p q :
  peer_key p ≠ peer_key q →
  lookup_accepts p (getCost lags p) (distTo infos path (peer_key p))
    (Some (q, getCost lags q, distTo infos path (peer_key q))) = less p q.
Proof.
  intros Hne. unfold lookup_accepts, less, hop_rank. rewrite bool_decide_false by done. simpl.
  repeat case_match; done.
Qed.

(** With one connection per node the best candidate is a minimum. *)
Lemma best_minimal l best cache best' cache' :
  cache_ok infos cache → NoDup (peer_key <$> l) →
  match best with
  | Some (q, c, d) => c = getCost lags q ∧ d = distTo infos path (peer_key q) ∧ peer_key q ∉ peer_key <$> l
  | None => True
  end →
  foldl (lookup_best infos lags path) (best, cache) l = (best', cache') →
  match best' with
  | Some (p, _, _) => (∀ q, q ∈ l → less q p = false) ∧
      match best with Some (q, _, _) => less q p = false | None => True end
  | None => True
  end.
Proof.
  revert best cache. induction l as [|p l IH]; intros best cache Hc Hnd Hb; simpl.
  { intros [= <- <-]. destruct best as [[[q c] d]|]; [|done]. split; [set_solver|apply key_less_irrefl]. }
  inversion Hnd as [|? ? Hp Hnd']; subst.
  destruct (getDist infos cache path (peer_key p)) as [d cache1] eqn:Hd.
  apply (getDist_ok _ _ _ _ _ _ Hc) in Hd as [-> Hc1].
  destruct best as [[[q c] d]|].
  2:{ simpl. intros Hf. unshelve epose proof (IH _ _ Hc1 Hnd' _ Hf) as IH'; [by split_and!|].
      destruct best' as [[[r c] d]|]; [|done]. destruct IH' as [Hl Hr]. split; [|done].
      intros x [-> |Hx]%elem_of_cons; [done|by apply Hl]. }
  destruct Hb as (-> & -> & Hq). rewrite fmap_cons, not_elem_of_cons in Hq. destruct Hq as [Hqp Hql].
  rewrite lookup_accepts_less by congruence. destruct (less p q) eqn:Hless; intros Hf.
  - unshelve epose proof (IH _ _ Hc1 Hnd' _ Hf) as IH'; [by split_and!|]. destruct best' as [[[r c] d]|]; [|done].
    destruct IH' as [Hl Hr]. split.
    + intros x [-> |Hx]%elem_of_cons; [done|by apply Hl].
    + eapply hop_less_negtrans; [|done]. by apply key_less_asym.
  - unshelve epose proof (IH _ _ Hc1 Hnd' _ Hf) as IH'; [by split_and!|]. destruct best' as [[[r c] d]|]; [|done].
    destruct IH' as [Hl Hr]. split; [|done].
    intros x [-> |Hx]%elem_of_cons; [|by apply Hl]. by eapply hop_less_negtrans.
Qed.
End Optimal.

(** The candidates have different keys when every node has one connection. *)
Lemma candidates_NoDup infos path bestDist kps cands cache :
  NoDup (kps.*1) → (∀ k ps, (k, ps) ∈ kps → (length ps <= 1)%nat ∧ ∀ p, p ∈ ps → peer_key p = k) →
  NoDup (peer_key <$> cands) → (∀ p, p ∈ cands → peer_key p ∉ kps.*1) →
  NoDup (peer_key <$> fst (foldl (lookup_candidate infos path bestDist) (cands, cache) kps)).
Proof.
  revert cands cache. induction kps as [|[k ps] kps IH]; intros cands cache Hnd Hps Hc Hk; simpl; [done|].
  destruct (getDist _ _ _ _) as [d c1]. inversion Hnd as [|? ? Hk' Hnd']; subst.
  destruct (Hps k ps) as [Hlen Hkey]; [set_solver|].
  assert (∀ p, p ∈ cands → peer_key p ≠ k ∧ peer_key p ∉ kps.*1) as Hsep.
  { intros p Hp. specialize (Hk p Hp). simpl in Hk. set_solver. }
  destruct (d <? bestDist); apply IH; try done; try (intros; apply Hps; set_solver).
  - destruct ps as [|p [|? ?]]; simpl in Hlen; [by rewrite app_nil_r| |lia].
    rewrite fmap_app. apply NoDup_app. split_and!; [done| |apply NoDup_singleton].
    intros x [q [-> Hq]]%list_elem_of_fmap Hx. simpl in Hx. apply list_elem_of_singleton in Hx.
    destruct (Hsep q Hq) as [Hne _]. apply Hne. rewrite Hx. apply Hkey. set_solver.
  - intros p [Hp|Hp]%elem_of_app; [by apply Hsep|]. rewrite (Hkey p Hp). done.
  - intros p Hp. by apply Hsep.
Qed.

(** With one connection per neighbour, the next hop minimises cost times
    distance; ties go to the smaller distance, the smaller cost and the older
    connection. *)
Lemma lookup_minimises v path w p w' cache' :
  view_ok v → (∀ k ps, v_peers v !! k = Some ps → (length ps <= 1)%nat) →
  view_lookup v path w = (Some p, w', cache') →
  ∀ k ps q, v_peers v !! k = Some ps → q ∈ ps → distTo (v_infos v) path k < selfDist v path →
  key_less (hop_rank (v_infos v) (v_lags v) path q) (hop_rank (v_infos v) (v_lags v) path p) = false.
Proof.
  intros [Hc Ho Hf] Hone. unfold view_lookup, router_lookup.
  destruct (getDist _ _ _ _) as [d c1] eqn:Hd.
  apply (getDist_ok _ _ _ _ _ _ Hc) in Hd as [-> Hc1]. fold (selfDist v path).
  destruct (selfDist v path <? w); [|done]. unfold lookup_from.
  destruct (foldl (lookup_candidate _ _ _) _ _) as [cands c2] eqn:Hcand.
  destruct (candidates_ok _ _ _ _ _ _ _ _ Hc1 Hcand) as [Hc2 Hin].
  destruct (foldl (lookup_best _ _ _) _ _) as [best c3] eqn:Hbest.
  destruct best as [[[p' c] e]|]; simpl; intros [= -> _ _] k ps q Hk Hq Hlt.
  assert (NoDup (peer_key <$> v_order v cands)) as Hnd'.
  { rewrite Ho. pose proof (candidates_NoDup (v_infos v) path (selfDist v path) (map_to_list (v_peers v)) [] c1)
      as Hnd. rewrite Hcand in Hnd. apply Hnd.
    - apply NoDup_fst_map_to_list.
    - intros k' ps' Hk'%elem_of_map_to_list. split; [by eapply Hone|]. intros x. by apply Hf.
    - constructor.
    - by intros x ?%not_elem_of_nil. }
  destruct (best_minimal _ _ _ _ None _ _ _ Hc2 Hnd' I Hbest) as [Hmin _]. apply Hmin.
  rewrite Ho, Hin. right. exists k, ps. split; [by apply elem_of_map_to_list|done].
Qed.

(** ** Trees on which every node agrees *)

Section Converged.
Context (infos : gmap bytes routerInfo) (root : bytes).

(** The walk from [k] ends at [root], which is its own parent. *)
Definition rooted (k : bytes) : Prop := ∃ l, walk infos [] k l root ∧ last l = Some root.

(** All known nodes hang below one root, and no node gave two of its children
    the same port. *)
Record converged : Prop := {
  cv_root : is_root infos root;
  cv_rooted : ∀ k, is_Some (infos !! k) → rooted k;
  cv_ports : ∀ k1 k2 i1 i2, infos !! k1 = Some i1 → infos !! k2 = Some i2 →
    k1 ≠ root → k2 ≠ root → info_parent i1 = info_parent i2 →
    res_port (info_res i1) = res_port (info_res i2) → k1 = k2;
}.

Lemma walk_fewer anc anc' here l stop :
  walk infos anc here l stop → last l = Some stop → (∀ k, k ∈ anc' → k ∈ anc) →
  walk infos anc' here l stop.
Proof.
  intros Hw. revert anc'. induction Hw as [| |anc here info l stop Hn Hi Hw IH]; intros anc' Hl Hsub; [done..|].
  destruct l as [|x l].
  - simpl in Hl. simplify_eq. econstructor; [by intros ?%Hsub|done|].
    inversion Hw; subst; [apply walk_seen; set_solver|set_solver].
  - econstructor; [by intros ?%Hsub|done|]. apply IH; [done|]. set_solver.
Qed.

Lemma rooted_known k : rooted k → is_Some (infos !! k).
Proof. intros (l & Hw & Hl). destruct (walk_head _ _ _ _ Hw) as [[_ ->]|[Hs _]]; done. Qed.

Lemma coords_root : is_root infos root → coords infos root = [].
Proof.
  intros (info & Hi & Hp). unfold coords. erewrite (getRootAndPath_walk _ _ [root] root).
  - simpl. by rewrite decide_True.
  - econstructor; [apply not_elem_of_nil|done|]. rewrite Hp. apply walk_seen. set_solver.
Qed.

(** One step towards the root takes the last port off the path. *)
Lemma rooted_parent k :
  rooted k → k ≠ root →
  ∃ info, infos !! k = Some info ∧ rooted (info_parent info) ∧
    coords infos k = coords infos (info_parent info) ++ [res_port (info_res info)].
Proof.
  intros (l & Hw & Hl) Hne. inversion Hw as [| |? ? info l' ? Hn Hi Hw']; subst; [done..|].
  assert (last l' = Some root) as Hl'.
  { destruct l' as [|x l']; [simpl in Hl; congruence|]. by rewrite last_cons_cons in Hl. }
  pose proof (walk_fewer _ [] _ _ _ Hw' Hl') as Hwp.
  exists info. split; [done|]. split; [exists l'; split; [apply Hwp; set_solver|done]|].
  unfold coords. erewrite getRootAndPath_walk by exact Hw.
  erewrite getRootAndPath_walk by (apply Hwp; set_solver).
  rewrite Hl, Hl', !decide_True by done. simpl snd.
  destruct l' as [|x l']; [done|]. cbn [removelast].
  by rewrite (ports_of_cons _ _ _ info Hi), reverse_cons.
Qed.

Lemma coords_root_inv k : rooted k → coords infos k = [] → k = root.
Proof.
  intros Hk Hc. destruct (decide (k = root)) as [|Hne]; [done|].
  destruct (rooted_parent k Hk Hne) as (info & _ & _ & Heq). rewrite Hc in Heq.
  symmetry in Heq. by apply app_nil in Heq as [_ ?].
Qed.

Context (Hcv : converged).

(** Different nodes have different paths. *)
Lemma coords_inj k1 k2 : rooted k1 → rooted k2 → coords infos k1 = coords infos k2 → k1 = k2.
Proof.
  remember (length (coords infos k1)) as n eqn:Hn. revert k1 k2 Hn.
  induction n as [|n IH]; intros k1 k2 Hn H1 H2 Heq.
  - symmetry in Hn. apply nil_length_inv in Hn as Hnil.
    rewrite (coords_root_inv k1) by done. rewrite (coords_root_inv k2) by congruence. done.
  - destruct (decide (k1 = root)) as [->|N1].
    { by rewrite coords_root in Hn by apply Hcv. }
    destruct (decide (k2 = root)) as [->|N2].
    { by rewrite Heq, coords_root in Hn by apply Hcv. }
    destruct (rooted_parent k1 H1 N1) as (i1 & E1 & R1 & C1).
    destruct (rooted_parent k2 H2 N2) as (i2 & E2 & R2 & C2).
    rewrite C1, C2 in Heq. apply app_inj_tail in Heq as [Heq Hport].
    rewrite C1, length_app in Hn. simpl in Hn.
    eapply (cv_ports Hcv); [done..| |done]. apply IH; [lia|done..].
Qed.

(** Every prefix of a node's path is the path of one of its ancestors. *)
Lemma ancestor_at k n : rooted k → (n <= length (coords infos k))%nat →
  ∃ a, rooted a ∧ coords infos a = take n (coords infos k).
Proof.
  remember (length (coords infos k) - n)%nat as m eqn:Hm. revert k Hm.
  induction m as [|m IH]; intros k Hm Hk Hn.
  - exists k. by rewrite take_ge by lia.
  - destruct (decide (k = root)) as [->|Hne]; [by rewrite coords_root in Hm by apply Hcv|].
    destruct (rooted_parent k Hk Hne) as (info & Hi & Hp & Hc).
    rewrite Hc, length_app in Hm. simpl in Hm.
    destruct (IH (info_parent info)) as (a & Ha & Hca); [lia|done|lia|].
    exists a. split; [done|]. rewrite Hc, take_app_le by lia. done.
Qed.

Definition tree_neighbour (k nb : bytes) : Prop :=
  (∃ info, infos !! k = Some info ∧ info_parent info = nb) ∨
  (∃ info, infos !! nb = Some info ∧ info_parent info = k).

(** An ancestor of the destination has a child that is closer. *)
Lemma closer_child k d :
  rooted k → rooted d → k ≠ d →
  common (coords infos k) (coords infos d) = length (coords infos k) →
  ∃ nb info, infos !! nb = Some info ∧ info_parent info = k ∧ rooted nb ∧
    distTo infos (coords infos d) nb < distTo infos (coords infos d) k.
Proof.
  intros Hk Hd Hne Hpre. pose proof (common_take (coords infos k) (coords infos d)) as Ht.
  rewrite Hpre, take_ge in Ht by done.
  destruct (common_le (coords infos k) (coords infos d)) as [_ Hl].
  assert (length (coords infos k) < length (coords infos d))%nat as Hlt.
  { destruct (decide (length (coords infos k) = length (coords infos d))) as [E|]; [|lia].
    destruct Hne. apply coords_inj; [done..|]. by rewrite take_ge in Ht by lia. }
  destruct (lookup_lt_is_Some_2 _ _ Hlt) as [x Hx].
  destruct (ancestor_at d (S (length (coords infos k)))) as (a & Ha & Hca); [done|lia|].
  rewrite (take_S_r _ _ x Hx), <- Ht in Hca.
  assert (a ≠ root) as Hr.
  { intros ->. rewrite coords_root in Hca by apply Hcv. symmetry in Hca. by apply app_nil in Hca as [_ ?]. }
  destruct (rooted_parent a Ha Hr) as (info & Hi & Hp & Hc). exists a, info. split; [done|].
  rewrite Hca in Hc. apply app_inj_tail in Hc as [Hc _]. split; [by apply coords_inj|]. split; [done|].
  unfold distTo. rewrite !treeDist_common, Hca, Hpre.
  rewrite <- (take_drop (S (length (coords infos k))) (coords infos d)) at 2.
  rewrite (take_S_r _ _ x Hx), <- Ht, common_prefix. unfold len. rewrite length_app. simpl. lia.
Qed.

(** A node that is not an ancestor of the destination has a closer parent. *)
Lemma closer_parent k d :
  rooted k → common (coords infos k) (coords infos d) ≠ length (coords infos k) →
  ∃ info, infos !! k = Some info ∧ rooted (info_parent info) ∧
    distTo infos (coords infos d) (info_parent info) < distTo infos (coords infos d) k.
Proof.
  intros Hk Hpre. destruct (common_le (coords infos k) (coords infos d)) as [Hl _].
  assert (k ≠ root) as Hr by (intros ->; rewrite coords_root in * by apply Hcv; simpl in *; lia).
  destruct (rooted_parent k Hk Hr) as (info & Hi & Hp & Hc). exists info. split; [done|]. split; [done|].
  unfold distTo. rewrite !treeDist_common. rewrite Hc in Hl, Hpre |- *.
  unfold len. rewrite length_app in *. simpl in *.
  destruct (common_le (coords infos (info_parent info)) (coords infos d)) as [Hl' _].
  destruct (decide (common (coords infos (info_parent info)) (coords infos d) =
    length (coords infos (info_parent info)))) as [E|Hlt]; [lia|].
  rewrite common_snoc_diff in * by lia. lia.
Qed.

(** A node other than the destination has a neighbour in the tree that is closer
    to the destination. *)
Lemma closer_neighbour k d :
  rooted k → rooted d → k ≠ d →
  ∃ nb, tree_neighbour k nb ∧ rooted nb ∧
    distTo infos (coords infos d) nb < distTo infos (coords infos d) k.
Proof.
  intros Hk Hd Hne.
  destruct (decide (common (coords infos k) (coords infos d) = length (coords infos k))) as [Hpre|Hpre].
  - destruct (closer_child k d) as (nb & info & Hi & Hp & Hrest); [done..|].
    exists nb. split; [right; eauto|done].
  - destruct (closer_parent k d) as (info & Hi & Hrest); [done..|].
    exists (info_parent info). split; [left; eauto|done].
Qed.
End Converged.

(** ** A network of four nodes

    [nR] is the root; [nA] (port 1) and [nS] (port 3) are its children and [nB]
    (port 1) is a child of [nA].  [nS] has two connections to [nR] and one to
    [nA]. *)
Module TreeWitness.
Definition nR : bytes := replicate 32 1.
Definition nA : bytes := replicate 32 2.
Definition nB : bytes := replicate 32 3.
Definition nS : bytes := replicate 32 4.
Definition mk_info (parent : bytes) (port : Z) : routerInfo :=
  RouterInfo parent (RouterSigRes (RouterSigReq 1 1) port (replicate 64 0)) (replicate 64 0).
Definition infos4 : gmap bytes routerInfo :=
  <[nR := mk_info nR 0]> (<[nA := mk_info nR 1]> (<[nB := mk_info nA 1]> (<[nS := mk_info nR 3]> ∅))).

(** Two links to [nR] of priorities 1 and 2 and a link to [nA]. *)
Definition linkR1 : peer := Peer 0 nR 1 1 0.
Definition linkR2 : peer := Peer 1 nR 1 2 1.
Definition linkA : peer := Peer 2 nA 2 0 2.
Definition view_S : view := View nS infos4 (<[nR := [linkR2; linkR1]]> (<[nA := [linkA]]> ∅))
  (<[0%nat := 50000000]> (<[1%nat := 10000000]> (<[2%nat := 30000000]> ∅))) ∅
  (λ l, reverse l).
Definition view_A : view := View nA infos4 (<[nB := [Peer 0 nB 1 0 0]]> ∅) ∅ ∅ id.

Lemma filed_two k1 k2 ps1 ps2 :
  (∀ p, p ∈ ps1 → peer_key p = k1) → (∀ p, p ∈ ps2 → peer_key p = k2) →
  filed (<[k1 := ps1]> (<[k2 := ps2]> ∅)).
Proof.
  intros H1 H2 k ps p. destruct (decide (k = k1)) as [->|N1].
  { rewrite lookup_insert_eq. intros [= <-]. apply H1. }
  rewrite lookup_insert_ne by done. destruct (decide (k = k2)) as [->|N2].
  { rewrite lookup_insert_eq. intros [= <-]. apply H2. }
  by rewrite lookup_insert_ne, lookup_empty by done.
Qed.

Lemma view_S_ok : view_ok view_S.
Proof.
  split.
  - by intros k path Hk.
  - intros l. apply reverse_Permutation.
  - apply filed_two; intros p Hp; repeat (apply elem_of_cons in Hp as [->|Hp]; [done|]);
      by apply not_elem_of_nil in Hp.
Qed.

Lemma view_A_ok : view_ok view_A.
Proof.
  split; [by intros k path Hk|done|].
  intros k ps p. unfold view_A. simpl. destruct (decide (k = nB)) as [->|N1].
  - rewrite lookup_insert_eq. intros [= <-] ->%list_elem_of_singleton. done.
  - by rewrite lookup_insert_ne, lookup_empty by done.
Qed.

Lemma lookup_next_hop_witness :
  ∃ next w' cache', view_lookup view_S [1; 1] max_u64 = (next, w', cache') ∧
    w' = Some 3 ∧ is_Some next ∧ cache_ok infos4 cache'.
Proof.
  destruct (view_lookup view_S [1; 1] max_u64) as [[next w'] cache'] eqn:Hl.
  exists next, w', cache'. split; [done|].
  destruct (lookup_next_hop view_S [1; 1] max_u64 next w' cache' view_S_ok Hl) as (Hc & Hlt & _).
  assert (selfDist view_S [1; 1] = 3) as Hd by (vm_compute; reflexivity).
  rewrite Hd in Hlt. destruct Hlt as (Hw & Hnone & _); [done|].
  split; [done|]. split; [|done]. destruct next as [p|]; [by eexists|].
  exfalso. assert (3 <= distTo (v_infos view_S) [1; 1] nA) as Hge.
  { apply (proj1 Hnone eq_refl nA [linkA]); [reflexivity|done]. }
  vm_compute in Hge. by apply Hge.
Defined.

Lemma forwarding_is_loop_free_witness :
  forwarded [view_S; view_A] [1; 1] max_u64 ∧ NoDup [view_S; view_A].
Proof.
  assert (forwarded [view_S; view_A] [1; 1] max_u64) as Hf.
  { apply (forwarded_cons _ _ _ _ linkR2 3); [vm_compute; reflexivity|].
    apply (forwarded_cons _ _ _ _ (Peer 0 nB 1 0 0) 1); [vm_compute; reflexivity|done]. }
  split; [done|].
  apply (forwarding_is_loop_free view_S [view_A] [1; 1] max_u64); [|done].
  repeat constructor; apply view_S_ok || apply view_A_ok.
Defined.

(** The code means to use the link with the lowest priority value among the
    links to one node.  With a third candidate visited in between, it does not:
    here the packet goes out on the link of priority 2 to [nR] although the link
    of priority 1 is up, because the link to [nA] displaced or outranked the
    latter first. *)
Lemma lookup_priority_lost :
  view_ok view_S ∧
  fst (fst (view_lookup view_S [1; 1] max_u64)) = Some linkR2 ∧
  v_peers view_S !! nR = Some [linkR2; linkR1] ∧ peer_prio linkR1 < peer_prio linkR2.
Proof. split; [apply view_S_ok|]. split; [vm_compute; reflexivity|done]. Qed.
End TreeWitness.
