(* ===== verification/Router.v ===== *)
(** * Router: the spanning tree of the routing layer
    (third_party/ironwood/network/router.go)

    The state of the router's actor, with its per-neighbour filters, and one
    function per operation: neighbours come and go, signature requests and
    responses choose a parent, announcements are merged and passed on, timers
    expire them, maintenance runs once a second, and packets are forwarded.  An
    operation returns the new state and the messages it hands to connections, or
    [Panic] where the code panics.

    Random nonces are arguments.  The order in which Go visits a map matters in
    two places, the choice of a parent and of a next hop: there it is an argument
    too.  A [*peer] is identified by its [peer_id], a [*time.Timer] by a number.
    Theorems: no reachable state panics ([router_never_panics]); announcements
    converge in any order ([announces_converge]); a parent is chosen without a
    loop ([fix_parent_sound]); on a tree that all nodes agree on, packets reach
    their destination ([greedy_routing_delivers]). *)

From S2P Require Import Prelude Binary Wire Address Crypto Messages Bloom Tree.

Definition routerUnknownLatency : Z := 2 ^ 32 - 1.

(** ** State *)

Record router (F : Type) := Router {
  r_peers : gmap bytes (list peer);
  r_sent : gmap bytes (gset bytes);
  r_ports : gmap Z bytes;
  r_infos : gmap bytes routerInfo;
  r_timers : gmap bytes nat;
  r_ancs : gmap bytes (list bytes);
  r_cache : gmap bytes (list Z);
  r_lags : gmap nat Z;
  r_requests : gmap bytes routerSigReq;
  r_responses : gmap bytes routerSigRes;
  r_responded : gset nat;
  r_resSeqs : gmap bytes Z;
  r_resSeqCtr : Z;
  r_refresh : bool;
  r_doRoot1 : bool;
  r_doRoot2 : bool;
  r_mainTimer : bool;
  r_blooms : gmap bytes (bloomInfo F);
  r_nextTimer : nat;
}.
Arguments Router {F} _ _ _ _ _ _ _ _ _ _ _ _ _ _ _ _ _ _ _.
Arguments r_peers {F} _.
Arguments r_sent {F} _.
Arguments r_ports {F} _.
Arguments r_infos {F} _.
Arguments r_timers {F} _.
Arguments r_ancs {F} _.
Arguments r_cache {F} _.
Arguments r_lags {F} _.
Arguments r_requests {F} _.
Arguments r_responses {F} _.
Arguments r_responded {F} _.
Arguments r_resSeqs {F} _.
Arguments r_resSeqCtr {F} _.
Arguments r_refresh {F} _.
Arguments r_doRoot1 {F} _.
Arguments r_doRoot2 {F} _.
Arguments r_mainTimer {F} _.
Arguments r_blooms {F} _.
Arguments r_nextTimer {F} _.

(** The messages that the router hands to a connection. *)
Inductive router_out (F : Type) :=
| OutSigReq (p : peer) (req : routerSigReq)
| OutSigRes (p : peer) (r : routerSigRes)
| OutAnnounce (p : peer) (ann : routerAnnounce)
| OutBloom (p : peer) (b : F).
Arguments OutSigReq {F} _ _.
Arguments OutSigRes {F} _ _.
Arguments OutAnnounce {F} _ _.
Arguments OutBloom {F} _ _.

(** The zero value of [routerInfo], which the code reads for a missing entry. *)
Definition zeroInfo : routerInfo :=
  RouterInfo zeroKey (RouterSigRes (RouterSigReq 0 0) 0 (replicate SignatureSize 0)) (replicate SignatureSize 0).

Definition info_seq (info : routerInfo) : Z := req_seq (res_req (info_res info)).
Definition info_nonce (info : routerInfo) : Z := req_nonce (res_req (info_res info)).

Definition ann_info (ann : routerAnnounce) : routerInfo :=
  RouterInfo (ann_parent ann) (ann_res ann) (ann_sig ann).

(** The random values and iteration orders that one maintenance round draws. *)
Record draws := Draws {
  dr_root : Z;                          (* nonce of [_becomeRoot] *)
  dr_reqs : bytes → Z;                  (* nonce of the request to each neighbour *)
  dr_order : list bytes → list bytes;   (* order of [range r.responses] *)
}.

Section Router.
Context {F : Type} `{BloomFilter F} `{Ed25519}.
(** The node's private and public key, and the configured key transform. *)
Context (sk self : bytes) (transform : bytes → bytes).

Definition set_peers (x : gmap bytes (list peer)) (r : router F) : router F :=
  Router x (r_sent r) (r_ports r) (r_infos r) (r_timers r) (r_ancs r) (r_cache r) (r_lags r)
    (r_requests r) (r_responses r) (r_responded r) (r_resSeqs r) (r_resSeqCtr r) (r_refresh r)
    (r_doRoot1 r) (r_doRoot2 r) (r_mainTimer r) (r_blooms r) (r_nextTimer r).
Definition set_sent (x : gmap bytes (gset bytes)) (r : router F) : router F :=
  Router (r_peers r) x (r_ports r) (r_infos r) (r_timers r) (r_ancs r) (r_cache r) (r_lags r)
    (r_requests r) (r_responses r) (r_responded r) (r_resSeqs r) (r_resSeqCtr r) (r_refresh r)
    (r_doRoot1 r) (r_doRoot2 r) (r_mainTimer r) (r_blooms r) (r_nextTimer r).
Definition set_ports (x : gmap Z bytes) (r : router F) : router F :=
  Router (r_peers r) (r_sent r) x (r_infos r) (r_timers r) (r_ancs r) (r_cache r) (r_lags r)
    (r_requests r) (r_responses r) (r_responded r) (r_resSeqs r) (r_resSeqCtr r) (r_refresh r)
    (r_doRoot1 r) (r_doRoot2 r) (r_mainTimer r) (r_blooms r) (r_nextTimer r).
Definition set_infos (x : gmap bytes routerInfo) (r : router F) : router F :=
  Router (r_peers r) (r_sent r) (r_ports r) x (r_timers r) (r_ancs r) (r_cache r) (r_lags r)
    (r_requests r) (r_responses r) (r_responded r) (r_resSeqs r) (r_resSeqCtr r) (r_refresh r)
    (r_doRoot1 r) (r_doRoot2 r) (r_mainTimer r) (r_blooms r) (r_nextTimer r).
Definition set_timers (x : gmap bytes nat) (r : router F) : router F :=
  Router (r_peers r) (r_sent r) (r_ports r) (r_infos r) x (r_ancs r) (r_cache r) (r_lags r)
    (r_requests r) (r_responses r) (r_responded r) (r_resSeqs r) (r_resSeqCtr r) (r_refresh r)
    (r_doRoot1 r) (r_doRoot2 r) (r_mainTimer r) (r_blooms r) (r_nextTimer r).
Definition set_ancs (x : gmap bytes (list bytes)) (r : router F) : router F :=
  Router (r_peers r) (r_sent r) (r_ports r) (r_infos r) (r_timers r) x (r_cache r) (r_lags r)
    (r_requests r) (r_responses r) (r_responded r) (r_resSeqs r) (r_resSeqCtr r) (r_refresh r)
    (r_doRoot1 r) (r_doRoot2 r) (r_mainTimer r) (r_blooms r) (r_nextTimer r).
Definition set_cache (x : gmap bytes (list Z)) (r : router F) : router F :=
  Router (r_peers r) (r_sent r) (r_ports r) (r_infos r) (r_timers r) (r_ancs r) x (r_lags r)
    (r_requests r) (r_responses r) (r_responded r) (r_resSeqs r) (r_resSeqCtr r) (r_refresh r)
    (r_doRoot1 r) (r_doRoot2 r) (r_mainTimer r) (r_blooms r) (r_nextTimer r).
Definition set_lags (x : gmap nat Z) (r : router F) : router F :=
  Router (r_peers r) (r_sent r) (r_ports r) (r_infos r) (r_timers r) (r_ancs r) (r_cache r) x
    (r_requests r) (r_responses r) (r_responded r) (r_resSeqs r) (r_resSeqCtr r) (r_refresh r)
    (r_doRoot1 r) (r_doRoot2 r) (r_mainTimer r) (r_blooms r) (r_nextTimer r).
Definition set_requests (x : gmap bytes routerSigReq) (r : router F) : router F :=
  Router (r_peers r) (r_sent r) (r_ports r) (r_infos r) (r_timers r) (r_ancs r) (r_cache r) (r_lags r) x
    (r_responses r) (r_responded r) (r_resSeqs r) (r_resSeqCtr r) (r_refresh r) (r_doRoot1 r)
    (r_doRoot2 r) (r_mainTimer r) (r_blooms r) (r_nextTimer r).
Definition set_responses (x : gmap bytes routerSigRes) (r : router F) : router F :=
  Router (r_peers r) (r_sent r) (r_ports r) (r_infos r) (r_timers r) (r_ancs r) (r_cache r) (r_lags r)
    (r_requests r) x (r_responded r) (r_resSeqs r) (r_resSeqCtr r) (r_refresh r) (r_doRoot1 r)
    (r_doRoot2 r) (r_mainTimer r) (r_blooms r) (r_nextTimer r).
Definition set_responded (x : gset nat) (r : router F) : router F :=
  Router (r_peers r) (r_sent r) (r_ports r) (r_infos r) (r_timers r) (r_ancs r) (r_cache r) (r_lags r)
    (r_requests r) (r_responses r) x (r_resSeqs r) (r_resSeqCtr r) (r_refresh r) (r_doRoot1 r)
    (r_doRoot2 r) (r_mainTimer r) (r_blooms r) (r_nextTimer r).
Definition set_resSeqs (x : gmap bytes Z) (r : router F) : router F :=
  Router (r_peers r) (r_sent r) (r_ports r) (r_infos r) (r_timers r) (r_ancs r) (r_cache r) (r_lags r)
    (r_requests r) (r_responses r) (r_responded r) x (r_resSeqCtr r) (r_refresh r) (r_doRoot1 r)
    (r_doRoot2 r) (r_mainTimer r) (r_blooms r) (r_nextTimer r).
Definition set_resSeqCtr (x : Z) (r : router F) : router F :=
  Router (r_peers r) (r_sent r) (r_ports r) (r_infos r) (r_timers r) (r_ancs r) (r_cache r) (r_lags r)
    (r_requests r) (r_responses r) (r_responded r) (r_resSeqs r) x (r_refresh r) (r_doRoot1 r)
    (r_doRoot2 r) (r_mainTimer r) (r_blooms r) (r_nextTimer r).
Definition set_refresh (x : bool) (r : router F) : router F :=
  Router (r_peers r) (r_sent r) (r_ports r) (r_infos r) (r_timers r) (r_ancs r) (r_cache r) (r_lags r)
    (r_requests r) (r_responses r) (r_responded r) (r_resSeqs r) (r_resSeqCtr r) x (r_doRoot1 r)
    (r_doRoot2 r) (r_mainTimer r) (r_blooms r) (r_nextTimer r).
Definition set_doRoot1 (x : bool) (r : router F) : router F :=
  Router (r_peers r) (r_sent r) (r_ports r) (r_infos r) (r_timers r) (r_ancs r) (r_cache r) (r_lags r)
    (r_requests r) (r_responses r) (r_responded r) (r_resSeqs r) (r_resSeqCtr r) (r_refresh r) x
    (r_doRoot2 r) (r_mainTimer r) (r_blooms r) (r_nextTimer r).
Definition set_doRoot2 (x : bool) (r : router F) : router F :=
  Router (r_peers r) (r_sent r) (r_ports r) (r_infos r) (r_timers r) (r_ancs r) (r_cache r) (r_lags r)
    (r_requests r) (r_responses r) (r_responded r) (r_resSeqs r) (r_resSeqCtr r) (r_refresh r)
    (r_doRoot1 r) x (r_mainTimer r) (r_blooms r) (r_nextTimer r).
Definition set_mainTimer (x : bool) (r : router F) : router F :=
  Router (r_peers r) (r_sent r) (r_ports r) (r_infos r) (r_timers r) (r_ancs r) (r_cache r) (r_lags r)
    (r_requests r) (r_responses r) (r_responded r) (r_resSeqs r) (r_resSeqCtr r) (r_refresh r)
    (r_doRoot1 r) (r_doRoot2 r) x (r_blooms r) (r_nextTimer r).
Definition set_blooms (x : gmap bytes (bloomInfo F)) (r : router F) : router F :=
  Router (r_peers r) (r_sent r) (r_ports r) (r_infos r) (r_timers r) (r_ancs r) (r_cache r) (r_lags r)
    (r_requests r) (r_responses r) (r_responded r) (r_resSeqs r) (r_resSeqCtr r) (r_refresh r)
    (r_doRoot1 r) (r_doRoot2 r) (r_mainTimer r) x (r_nextTimer r).
Definition set_nextTimer (x : nat) (r : router F) : router F :=
  Router (r_peers r) (r_sent r) (r_ports r) (r_infos r) (r_timers r) (r_ancs r) (r_cache r) (r_lags r)
    (r_requests r) (r_responses r) (r_responded r) (r_resSeqs r) (r_resSeqCtr r) (r_refresh r)
    (r_doRoot1 r) (r_doRoot2 r) (r_mainTimer r) (r_blooms r) x.

Definition router_init : router F :=
  Router ∅ ∅ ∅ ∅ ∅ ∅ ∅ ∅ ∅ ∅ ∅ ∅ 0 false false true true ∅ 0.

Definition selfInfo (r : router F) : routerInfo := default zeroInfo (r_infos r !! self).

Definition bloomEnv (r : router F) : bloom_env := BloomEnv self (r_infos r) (r_peers r) transform.

Definition resetCache (r : router F) : router F := set_cache ∅ r.

(** ** Requests *)

Definition newReq (nonce : Z) (r : router F) : routerSigReq :=
  RouterSigReq (u64 (info_seq (selfInfo r) + 1)) nonce.

Definition clearReqs (r : router F) : router F :=
  set_resSeqCtr 0 (set_resSeqs ∅ (set_responses ∅ (set_requests ∅ r))).

Definition sendReqs_step (nonces : bytes → Z) (st : router F * list (router_out F)) (kps : bytes * list peer) :
    router F * list (router_out F) :=
  let '(r, out) := st in
  let '(pk, ps) := kps in
  let req := newReq (nonces pk) r in
  let r := set_requests (<[pk := req]> (r_requests r)) r in
  (set_responded (r_responded r ∖ list_to_set (peer_id <$> ps)) r,
   out ++ ((λ p, OutSigReq p req) <$> ps)).

Definition sendReqs (nonces : bytes → Z) (r : router F) : router F * list (router_out F) :=
  let r := clearReqs r in
  foldl (sendReqs_step nonces) (r, []) (map_to_list (r_peers r)).

(** ** Announcements *)

(** The switch of [_update]: whether the announcement replaces the entry. *)
Definition supersedes (ann : routerAnnounce) (info : routerInfo) : bool :=
  let seq := req_seq (res_req (ann_res ann)) in
  let nonce := req_nonce (res_req (ann_res ann)) in
  if seq <? info_seq info then false
  else if info_seq info <? seq then true
  else if key_less (info_parent info) (ann_parent ann) then false
  else if key_less (ann_parent ann) (info_parent info) then true
  else nonce <? info_nonce info.

(** [delete(sent, key)] for every neighbour. *)
Definition forget_sent (key : bytes) (r : router F) : router F :=
  set_sent ((λ s : gset bytes, s ∖ {[key]}) <$> r_sent r) r.

Definition router_update (ann : routerAnnounce) (r : router F) : bool * router F :=
  let accepted := match r_infos r !! ann_key ann with
                  | Some info => supersedes ann info
                  | None => true
                  end in
  if negb accepted then (false, r)
  else
    let r := resetCache (forget_sent (ann_key ann) r) in
    let timer := r_nextTimer r in
    let r := set_nextTimer (S timer) r in
    let r := set_timers (<[ann_key ann := timer]> (r_timers r)) r in
    (true, set_infos (<[ann_key ann := ann_info ann]> (r_infos r)) r).

(** The timer of an entry fires: our own entry is to be refreshed, any other is
    forgotten.  A timer that was replaced does nothing. *)
Definition timer_fires (key : bytes) (timer : nat) (r : router F) : router F :=
  if decide (r_timers r !! key = Some timer) then
    if decide (key = self) then set_refresh true r
    else
      let r := set_infos (delete key (r_infos r)) r in
      let r := set_timers (delete key (r_timers r)) r in
      resetCache (forget_sent key r)
  else r.

(** [r.sent[p.key][key] = struct{}{}]: a write to the nil map of an unknown
    neighbour panics. *)
Definition mark_sent (pk key : bytes) (r : router F) : res iw_error (router F) :=
  match r_sent r !! pk with
  | Some s => Ok (set_sent (<[pk := {[key]} ∪ s]> (r_sent r)) r)
  | None => Panic
  end.

Definition router_handleAnnounce (p : peer) (ann : routerAnnounce) (r : router F) :
    res iw_error (router F * list (router_out F)) :=
  let '(ok, r) := router_update ann r in
  if ok then
    let r := if decide (ann_key ann = self) then set_refresh true r else r in
    r ← mark_sent (peer_key p) (ann_key ann) r;
    Ok (r, [])
  else
    let oldInfo := default zeroInfo (r_infos r !! ann_key ann) in
    if decide (ann_info ann = oldInfo) then
      r ← mark_sent (peer_key p) (ann_key ann) r;
      Ok (r, [])
    else
      r ← mark_sent (peer_key p) (ann_key ann) r;
      Ok (r, [OutAnnounce p (getAnnounce oldInfo (ann_key ann))]).

(** ** Signature requests and responses *)

Definition router_handleRequest (p : peer) (req : routerSigReq) (r : router F) :
    res iw_error (router F * list (router_out F)) :=
  let rs := RouterSigRes req (peer_port p) [] in
  bs ← routerSigRes_bytesForSig rs (peer_key p) self;
  Ok (r, [OutSigRes p (RouterSigRes req (peer_port p) (privateKey_sign sk bs))]).

(** The weighted average of the latencies, in nanoseconds; the factors keep far
    below the range of a duration, some 290 years. *)
Definition next_lag (lag rtt : Z) : Z :=
  if lag =? routerUnknownLatency then rtt * 2
  else Z.quot (lag * 7) 8 + Z.quot (Z.min rtt (lag * 2)) 8.

Definition router_handleResponse (p : peer) (rs : routerSigRes) (rtt : Z) (r : router F) : router F :=
  let pk := peer_key p in
  let expected := default (RouterSigReq 0 0) (r_requests r !! pk) in
  let r :=
    if decide (r_responses r !! pk = None ∧ expected = res_req rs) then
      let r := set_resSeqCtr (u64 (r_resSeqCtr r + 1)) r in
      let r := set_resSeqs (<[pk := r_resSeqCtr r]> (r_resSeqs r)) r in
      set_responses (<[pk := rs]> (r_responses r)) r
    else r in
  if decide (peer_id p ∉ r_responded r ∧ expected = res_req rs) then
    let r := set_responded ({[peer_id p]} ∪ r_responded r) r in
    let lag := default 0 (r_lags r !! peer_id p) in
    set_lags (<[peer_id p := next_lag lag rtt]> (r_lags r)) r
  else r.

Definition useResponse (peerKey : bytes) (rs : routerSigRes) (r : router F) : res iw_error (bool * router F) :=
  bs ← routerSigRes_bytesForSig rs self peerKey;
  let info := RouterInfo peerKey rs (privateKey_sign sk bs) in
  Ok (router_update (getAnnounce info self) r).

Definition becomeRoot (nonce : Z) (r : router F) : res iw_error (bool * router F) :=
  let req := newReq nonce r in
  bs ← routerSigRes_bytesForSig (RouterSigRes req 0 []) self self;
  let psig := privateKey_sign sk bs in
  let ann := RouterAnnounce self self (RouterSigRes req 0 psig) psig in
  ok ← routerAnnounce_check ann;
  if negb ok then Panic else Ok (router_update ann r).

(** ** Choosing a parent *)

(** The cheapest connection to a neighbour at distance [dist] from its root. *)
Definition link_cost (r : router F) (dist : Z) (pk : bytes) : Z :=
  foldl (λ cost p, let c := u64 (dist * getCost (r_lags r) p) in if c <? cost then c else cost)
    max_u64 (default [] (r_peers r !! pk)).

(** The best root, the neighbour that leads to it and its cost. *)
Record choice := Choice { ch_root : bytes; ch_parent : bytes; ch_cost : Z }.

(** Whether the current parent leads to a better root than ourselves. *)
Definition fix_current (r : router F) : choice :=
  let parent := info_parent (selfInfo r) in
  match r_peers r !! parent with
  | Some _ =>
      let '(root, dists) := getRootAndDists (r_infos r) self in
      if key_less root self then Choice root parent (link_cost r (default 0 (dists !! root)) parent)
      else Choice self self max_u64
  | None => Choice self self max_u64
  end.

(** The body of the loop over the neighbours that responded. *)
Definition fix_step (r : router F) (best : choice) (pk : bytes) : choice :=
  match r_infos r !! pk with
  | None => best
  | Some _ =>
      let '(pRoot, pDists) := getRootAndDists (r_infos r) pk in
      if decide (is_Some (pDists !! self)) then best
      else
        let cost := link_cost r (default 0 (pDists !! pRoot)) pk in
        let consider best :=
          if (r_refresh r && (u64 (cost * 2) <? ch_cost best)) ||
             (negb (bool_decide (ch_parent best = info_parent (selfInfo r))) && (cost <? ch_cost best))
          then Choice pRoot pk cost else best in
        if key_less pRoot (ch_root best) then consider (Choice pRoot pk cost)
        else if negb (bool_decide (pRoot = ch_root best)) then best
        else consider best
  end.

Definition fix_choose (order : list bytes → list bytes) (r : router F) : choice :=
  foldl (fix_step r) (fix_current r) (order (map_to_list (r_responses r)).*1).

(** [r.refresh, r.doRoot1, r.doRoot2 = false] and new requests. *)
Definition fix_done (nonces : bytes → Z) (r : router F) : router F * list (router_out F) :=
  sendReqs nonces (set_doRoot2 false (set_doRoot1 false (set_refresh false r))).

(** [case r.doRoot2], [case !r.doRoot1] and [default] of the switch. *)
Definition fix_alone (dr : draws) (r : router F) : res iw_error (router F * list (router_out F)) :=
  if r_doRoot2 r then
    '(ok, r) ← becomeRoot (dr_root dr) r;
    if negb ok then Panic else Ok (fix_done (dr_reqs dr) r)
  else if negb (r_doRoot1 r) then Ok (set_doRoot1 true r, [])
  else Ok (r, []).

Definition router_fix (dr : draws) (r : router F) : res iw_error (router F * list (router_out F)) :=
  let best := fix_choose (dr_order dr) r in
  if r_refresh r || r_doRoot1 r || r_doRoot2 r ||
     negb (bool_decide (info_parent (selfInfo r) = ch_parent best)) then
    match r_responses r !! ch_parent best with
    | Some rs =>
        if negb (bool_decide (ch_root best = self)) then
          '(ok, r) ← useResponse (ch_parent best) rs r;
          if ok : bool then Ok (fix_done (dr_reqs dr) r) else fix_alone dr r
        else fix_alone dr r
    | None => fix_alone dr r
    end
  else Ok (r, []).

(** ** Passing announcements on *)

(** The nodes of an ancestry that were not sent yet, and the updated set. *)
Definition unsent (sent : gset bytes) (anc : list bytes) : list bytes * gset bytes :=
  foldl (λ '(toSend, sent) k, if decide (k ∈ sent) then (toSend, sent) else (toSend ++ [k], {[k]} ∪ sent))
    ([], sent) anc.

Fixpoint announcements (infos : gmap bytes routerInfo) (toSend : list bytes) : res iw_error (list routerAnnounce) :=
  match toSend with
  | [] => Ok []
  | k :: toSend =>
      match infos !! k with
      | Some info => anns ← announcements infos toSend; Ok (getAnnounce info k :: anns)
      | None => Panic
      end
  end.

Fixpoint sendAnnounces_loop (selfAnc : list bytes) (sents : list (bytes * gset bytes)) (r : router F) :
    res iw_error (router F * list (router_out F)) :=
  match sents with
  | [] => Ok (r, [])
  | (peerKey, sent) :: sents =>
      let '(toSend1, sent) := unsent sent selfAnc in
      let '(toSend2, sent) := unsent sent (getAncestry (r_infos r) peerKey) in
      anns ← announcements (r_infos r) (toSend1 ++ toSend2);
      let r := set_sent (<[peerKey := sent]> (r_sent r)) r in
      '(r, out) ← sendAnnounces_loop selfAnc sents r;
      Ok (r, (p ← default [] (r_peers r !! peerKey); (λ ann, OutAnnounce p ann) <$> anns) ++ out)
  end.

Definition sendAnnounces (r : router F) : res iw_error (router F * list (router_out F)) :=
  sendAnnounces_loop (getAncestry (r_infos r) self) (map_to_list (r_sent r)) r.

(** ** Maintenance *)

Definition updateAncestry (r : router F) (pkey : bytes) : router F :=
  let anc := getAncestry (r_infos r) pkey in
  if decide (anc = default [] (r_ancs r !! pkey)) then r else set_ancs (<[pkey := anc]> (r_ancs r)) r.

Definition updateAncestries (r : router F) : router F :=
  foldl updateAncestry r (map_to_list (r_peers r)).*1.

Definition router_doMaintenance (dr : draws) (r : router F) : res iw_error (router F * list (router_out F)) :=
  if negb (r_mainTimer r) then Ok (r, [])
  else
    let r := set_doRoot2 (r_doRoot2 r || r_doRoot1 r) r in
    let r := updateAncestries (resetCache r) in
    '(r, out1) ← router_fix dr r;
    '(r, out2) ← sendAnnounces r;
    '(bs, out3) ← blooms_doMaintenance (bloomEnv r) (r_blooms r);
    Ok (set_blooms bs r, out1 ++ out2 ++ ((λ '(p, b), OutBloom p b) <$> out3)).

Definition router_shutdown (r : router F) : router F := set_mainTimer false r.

(** ** Neighbours *)

(** [blooms._sendBloom]: the filter of an unknown neighbour is nil, which
    panics when it is encoded. *)
Definition send_bloom (r : router F) (p : peer) : res iw_error (list (router_out F)) :=
  match sendBloom (r_blooms r) p with
  | Some (p, b) => Ok [OutBloom p b]
  | None => Panic
  end.

Fixpoint send_blooms (r : router F) (ps : list peer) : res iw_error (list (router_out F)) :=
  match ps with
  | [] => Ok []
  | p :: ps => out ← send_bloom r p; out' ← send_blooms r ps; Ok (out ++ out')
  end.

(** The first connection of a neighbour makes its entries; on a further one the
    announcements already sent to it are repeated. *)
Definition addPeer_enter (p : peer) (r : router F) : res iw_error (router F * list (router_out F)) :=
  let pk := peer_key p in
  match r_peers r !! pk with
  | None =>
      let r := set_peers (<[pk := []]> (r_peers r)) r in
      let r := set_sent (<[pk := ∅]> (r_sent r)) r in
      let r := set_ports (<[peer_port p := pk]> (r_ports r)) r in
      Ok (set_blooms (addInfo (r_blooms r) pk) r, [])
  | Some _ =>
      anns ← announcements (r_infos r) (elements (default ∅ (r_sent r !! pk)));
      Ok (r, map (OutAnnounce p) anns)
  end.

Definition router_addPeer (nonce : Z) (p : peer) (r : router F) : res iw_error (router F * list (router_out F)) :=
  let pk := peer_key p in
  '(r, out1) ← addPeer_enter p r;
  let r := set_peers (<[pk := default [] (r_peers r !! pk) ++ [p]]> (r_peers r)) r in
  let r := set_lags (<[peer_id p := routerUnknownLatency]> (r_lags r)) r in
  let r := if decide (r_requests r !! pk = None)
           then set_requests (<[pk := newReq nonce r]> (r_requests r)) r else r in
  let req := default (RouterSigReq 0 0) (r_requests r !! pk) in
  let r := set_responded (r_responded r ∖ {[peer_id p]}) r in
  out2 ← send_bloom r p;
  Ok (r, out1 ++ [OutSigReq p req] ++ out2).

Definition router_removePeer (p : peer) (r : router F) : res iw_error (router F * list (router_out F)) :=
  let pk := peer_key p in
  let ps := filter (λ q, peer_id q ≠ peer_id p) (default [] (r_peers r !! pk)) in
  let r := set_lags (delete (peer_id p) (r_lags r)) r in
  let r := set_responded (r_responded r ∖ {[peer_id p]}) r in
  match ps with
  | [] =>
      let r := set_peers (delete pk (r_peers r)) r in
      let r := set_sent (delete pk (r_sent r)) r in
      let r := set_ports (delete (peer_port p) (r_ports r)) r in
      let r := set_requests (delete pk (r_requests r)) r in
      let r := set_responses (delete pk (r_responses r)) r in
      let r := set_resSeqs (delete pk (r_resSeqs r)) r in
      let r := set_ancs (delete pk (r_ancs r)) r in
      let r := set_cache (delete pk (r_cache r)) r in
      Ok (set_blooms (removeInfo (r_blooms r) pk) r, [])
  | _ =>
      let r := set_peers (<[pk := ps]> (r_peers r)) r in
      out ← send_blooms r ps;
      Ok (r, out)
  end.

(** ** Packets *)

Inductive traffic_action :=
| TrafficForward (p : peer) (tr : traffic)
| TrafficDeliver (tr : traffic)
| TrafficBroken (tr : traffic).

Definition set_watermark (w : Z) (tr : traffic) : traffic :=
  Traffic (tr_path tr) (tr_from tr) (tr_source tr) (tr_dest tr) w (tr_payload tr).

Definition router_handleTraffic (order : list peer → list peer) (tr : traffic) (r : router F) :
    router F * traffic_action :=
  let '(next, w, cache) :=
    router_lookup self (r_infos r) (r_peers r) (r_lags r) order (r_cache r) (tr_path tr)
      (Some (tr_watermark tr)) in
  let tr := set_watermark (default (tr_watermark tr) w) tr in
  (set_cache cache r,
   match next with
   | Some p => TrafficForward p tr
   | None => if decide (tr_dest tr = self) then TrafficDeliver tr else TrafficBroken tr
   end).
End Router.

(** ** The actor: one event at a time *)

Inductive router_event (F : Type) :=
| EvMaintenance (dr : draws)
| EvAddPeer (nonce : Z) (p : peer)
| EvRemovePeer (p : peer)
| EvRequest (p : peer) (req : routerSigReq)
| EvResponse (p : peer) (rs : routerSigRes) (rtt : Z)
| EvAnnounce (p : peer) (ann : routerAnnounce)
| EvBloom (p : peer) (b : F)
| EvTimer (key : bytes) (timer : nat)
| EvTraffic (order : list peer → list peer) (tr : traffic)
| EvShutdown.
Arguments EvMaintenance {F} _.
Arguments EvAddPeer {F} _ _.
Arguments EvRemovePeer {F} _.
Arguments EvRequest {F} _ _.
Arguments EvResponse {F} _ _ _.
Arguments EvAnnounce {F} _ _.
Arguments EvBloom {F} _ _.
Arguments EvTimer {F} _ _.
Arguments EvTraffic {F} _ _.
Arguments EvShutdown {F}.

Section Actor.
Context {F : Type} `{BloomFilter F} `{Ed25519}.
Context (sk self : bytes) (transform : bytes → bytes).
Implicit Types (r : router F).

Definition router_step (ev : router_event F) (r : router F) : res iw_error (router F * list (router_out F)) :=
  match ev with
  | EvMaintenance dr => router_doMaintenance sk self transform dr r
  | EvAddPeer nonce p => router_addPeer self nonce p r
  | EvRemovePeer p => router_removePeer p r
  | EvRequest p req => router_handleRequest sk self p req r
  | EvResponse p rs rtt => Ok (router_handleResponse p rs rtt r, [])
  | EvAnnounce p ann => router_handleAnnounce self p ann r
  | EvBloom p b => Ok (set_blooms (handleBloom (r_blooms r) (peer_key p) b) r, [])
  | EvTimer key timer => Ok (timer_fires self key timer r, [])
  | EvTraffic order tr => Ok (fst (router_handleTraffic self order tr r), [])
  | EvShutdown => Ok (router_shutdown r, [])
  end.

(** ** The invariant *)

Definition ownSeq (r : router F) : Z := info_seq (selfInfo self r).

Record router_wf (r : router F) : Prop := {
  rw_peers : ∀ k ps, r_peers r !! k = Some ps → ps ≠ [] ∧ ∀ p, p ∈ ps → peer_key p = k;
  rw_sent : dom (r_sent r) = dom (r_peers r);
  rw_blooms : dom (r_blooms r) = dom (r_peers r);
  rw_requests : dom (r_requests r) = dom (r_peers r);
  rw_responses : dom (r_responses r) ⊆ dom (r_peers r);
  rw_known : ∀ pk s k, r_sent r !! pk = Some s → k ∈ s → is_Some (r_infos r !! k);
  rw_cache : cache_ok (r_infos r) (r_cache r);
  rw_timers : dom (r_timers r) = dom (r_infos r);
  rw_fresh : ∀ k t, r_timers r !! k = Some t → (t < r_nextTimer r)%nat;
  rw_own : 0 <= ownSeq r;
  rw_reqseq : ∀ pk req, r_requests r !! pk = Some req → 0 <= req_seq req <= ownSeq r + 1;
  rw_resseq : ∀ pk rs, r_responses r !! pk = Some rs → 0 <= req_seq (res_req rs) <= ownSeq r + 1;
}.

Definition router_ok (r : router F) : Prop := router_wf r ∧ is_Some (r_infos r !! self).

Lemma router_init_wf : router_wf router_init.
Proof. split; simpl; try done; try (by intros * ?); by rewrite ?dom_empty_L. Qed.

(** *** [_update] *)

Lemma ownSeq_insert r key info t n s c :
  ownSeq (set_infos (<[key := info]> (r_infos r)) (set_timers t (set_nextTimer n (set_cache c (set_sent s r))))) =
  if decide (key = self) then info_seq info else ownSeq r.
Proof.
  unfold ownSeq, selfInfo. simpl. destruct (decide (key = self)) as [->|].
  - by rewrite lookup_insert_eq.
  - by rewrite lookup_insert_ne.
Qed.

Lemma update_rejected ann r r' :
  router_update ann r = (false, r') → r' = r ∧ ∃ info, r_infos r !! ann_key ann = Some info ∧ supersedes ann info = false.
Proof.
  unfold router_update. destruct (r_infos r !! ann_key ann) as [info|] eqn:Hi.
  - destruct (supersedes ann info) eqn:Hs; simpl; intros [= <-]. eauto.
  - by intros [= <-].
Qed.

Lemma supersedes_seq ann info :
  supersedes ann info = true → info_seq info <= req_seq (res_req (ann_res ann)).
Proof. unfold supersedes. intros Hs. repeat case_match; bool_to_prop; try done; lia. Qed.

Lemma update_accepted ann r r' :
  router_update ann r = (true, r') →
  r_infos r' = <[ann_key ann := ann_info ann]> (r_infos r) ∧
  (∀ info, r_infos r !! ann_key ann = Some info → supersedes ann info = true).
Proof.
  unfold router_update. destruct (r_infos r !! ann_key ann) as [info|] eqn:Hi.
  - destruct (supersedes ann info) eqn:Hs; simpl; intros [= <-]. split; [done|]. by intros ? [= <-].
  - intros [= <-]. by split.
Qed.

Lemma update_wf ann r :
  router_wf r → 0 <= req_seq (res_req (ann_res ann)) → router_wf (snd (router_update ann r)).
Proof.
  intros Hr Hseq. unfold router_update.
  destruct (match r_infos r !! ann_key ann with Some info => supersedes ann info | None => true end) eqn:Hacc;
    simpl; [|done].
  assert (ownSeq r <= if decide (ann_key ann = self) then info_seq (ann_info ann) else ownSeq r) as Hmono.
  { destruct (decide (ann_key ann = self)) as [E|]; [|lia]. unfold ownSeq, selfInfo. rewrite <- E.
    destruct (r_infos r !! ann_key ann) as [info|]; simpl; [|done]. by apply supersedes_seq. }
  destruct Hr. split; simpl; try done.
  - by rewrite dom_fmap_L.
  - intros pk s k Hs Hk. rewrite lookup_fmap in Hs. destruct (r_sent r !! pk) as [s'|] eqn:Hs'; [|done].
    simplify_eq/=. apply elem_of_difference in Hk as [Hk Hne]. rewrite not_elem_of_singleton in Hne.
    rewrite lookup_insert_ne by done. by eapply rw_known0.
  - by rewrite !dom_insert_L, rw_timers0.
  - intros k t. destruct (decide (k = ann_key ann)) as [->|].
    + rewrite lookup_insert_eq. intros [= <-]. lia.
    + rewrite lookup_insert_ne by done. intros Ht. specialize (rw_fresh0 _ _ Ht). lia.
  - unfold resetCache, forget_sent. rewrite ownSeq_insert. lia.
  - intros pk req Hreq. specialize (rw_reqseq0 _ _ Hreq).
    unfold resetCache, forget_sent. rewrite ownSeq_insert. lia.
  - intros pk rs Hrs. specialize (rw_resseq0 _ _ Hrs).
    unfold resetCache, forget_sent. rewrite ownSeq_insert. lia.
Qed.

Lemma update_known ann r k : is_Some (r_infos r !! k) → is_Some (r_infos (snd (router_update ann r)) !! k).
Proof.
  intros Hk. destruct (router_update ann r) as [[] r'] eqn:Hu; simpl.
  - apply update_accepted in Hu as [-> _]. apply lookup_insert_is_Some'. by right.
  - by apply update_rejected in Hu as [-> _].
Qed.

Lemma update_own ann r :
  ownSeq (snd (router_update ann r)) <=
    Z.max (ownSeq r) (if decide (ann_key ann = self) then req_seq (res_req (ann_res ann)) else 0).
Proof.
  unfold router_update. destruct (match _ with Some _ => _ | None => _ end); simpl; [|lia].
  unfold resetCache, forget_sent. rewrite ownSeq_insert. destruct (decide _); [|lia].
  unfold info_seq. simpl. lia.
Qed.

Lemma update_key_known ann r ok r' :
  router_update ann r = (ok, r') → is_Some (r_infos r' !! ann_key ann).
Proof.
  intros Hu. destruct ok.
  - apply update_accepted in Hu as [-> _]. rewrite lookup_insert_eq. by eexists.
  - apply update_rejected in Hu as (-> & info & -> & _). by eexists.
Qed.

(** *** Operations that leave the tree alone *)

Record same_tree (r r' : router F) : Prop := {
  st_peers : r_peers r' = r_peers r;
  st_sent : r_sent r' = r_sent r;
  st_blooms : r_blooms r' = r_blooms r;
  st_infos : r_infos r' = r_infos r;
  st_timers : r_timers r' = r_timers r;
  st_cache : r_cache r' = r_cache r;
  st_nextTimer : r_nextTimer r' = r_nextTimer r;
}.

Lemma same_tree_refl r : same_tree r r.
Proof. by split. Qed.

Lemma same_tree_trans r1 r2 r3 : same_tree r1 r2 → same_tree r2 r3 → same_tree r1 r3.
Proof. intros [] []. split; congruence. Qed.

Lemma same_tree_own r r' : same_tree r r' → ownSeq r' = ownSeq r.
Proof. intros []. unfold ownSeq, selfInfo. by rewrite st_infos0. Qed.

Lemma same_tree_wf r r' :
  router_wf r → same_tree r r' → dom (r_requests r') = dom (r_peers r) →
  dom (r_responses r') ⊆ dom (r_peers r) →
  (∀ pk req, r_requests r' !! pk = Some req → 0 <= req_seq req <= ownSeq r + 1) →
  (∀ pk rs, r_responses r' !! pk = Some rs → 0 <= req_seq (res_req rs) <= ownSeq r + 1) →
  router_wf r'.
Proof.
  intros Hr Hs Hreq Hres Hreqs Hress. pose proof (same_tree_own _ _ Hs) as Ho.
  destruct Hr, Hs. split; rewrite ?st_peers0, ?st_sent0, ?st_blooms0, ?st_infos0, ?st_timers0, ?st_cache0,
    ?st_nextTimer0, ?Ho; done.
Qed.

Lemma newReq_seq nonce r : 0 <= ownSeq r → 0 <= req_seq (newReq self nonce r) <= ownSeq r + 1.
Proof.
  intros Hr. simpl. fold (ownSeq r). split; [by apply wrap_in_range|]. apply Z.mod_le; lia.
Qed.

Definition requests_bounded (r : router F) : Prop :=
  ∀ pk req, r_requests r !! pk = Some req → 0 <= req_seq req <= ownSeq r + 1.

Lemma sendReqs_fold nonces l r out :
  0 <= ownSeq r → requests_bounded r →
  let r' := fst (foldl (sendReqs_step self nonces) (r, out) l) in
  same_tree r r' ∧ r_responses r' = r_responses r ∧
  dom (r_requests r') = dom (r_requests r) ∪ list_to_set l.*1 ∧ requests_bounded r'.
Proof.
  revert r out. induction l as [|[pk ps] l IH]; intros r out Hown Hb; simpl.
  - split_and!; try done. set_solver.
  - match goal with |- context [foldl _ (?r1, _) l] => set (r1' := r1) end.
    assert (same_tree r r1') as Hs1 by done.
    assert (requests_bounded r1') as Hb1.
    { intros k req. rewrite (same_tree_own _ _ Hs1). unfold r1'. simpl.
      destruct (decide (k = pk)) as [->|].
      - rewrite lookup_insert_eq. intros [= <-]. by apply newReq_seq.
      - rewrite lookup_insert_ne by done. apply Hb. }
    destruct (IH r1' (out ++ ((λ p, OutSigReq p (newReq self (nonces pk) r)) <$> ps)))
      as (Hs & Hresp & Hdom & Hb'); [by rewrite (same_tree_own _ _ Hs1)|done|].
    split_and!; [by eapply same_tree_trans|done| |done].
    rewrite Hdom. unfold r1'. simpl. rewrite dom_insert_L. set_solver.
Qed.

Lemma sendReqs_wf nonces r :
  router_wf r → router_wf (fst (sendReqs self nonces r)) ∧ same_tree r (fst (sendReqs self nonces r)).
Proof.
  intros Hr. destruct (sendReqs_fold nonces (map_to_list (r_peers r)) (clearReqs r) [])
    as (Hs & Hresp & Hdom & Hb); [apply Hr|done|].
  change (fst (foldl _ _ _)) with (fst (sendReqs self nonces r)) in *.
  assert (same_tree r (fst (sendReqs self nonces r))) as Hst by (by eapply same_tree_trans; [|exact Hs]).
  split; [|done]. eapply same_tree_wf; [done|done| | | |].
  - rewrite Hdom. simpl. rewrite dom_empty_L, <- dom_list_to_map_L, list_to_map_to_list. set_solver.
  - rewrite Hresp. simpl. rewrite dom_empty_L. set_solver.
  - intros pk req. rewrite <- (same_tree_own _ _ Hst). apply Hb.
  - intros pk rs. rewrite Hresp. simpl. by rewrite lookup_empty.
Qed.

Lemma flags_wf r b1 b2 b3 : router_wf r → router_wf (set_doRoot2 b1 (set_doRoot1 b2 (set_refresh b3 r))).
Proof. by intros []. Qed.

Lemma fix_done_wf nonces r :
  router_wf r → router_wf (fst (fix_done self nonces r)) ∧ same_tree r (fst (fix_done self nonces r)).
Proof.
  intros Hr. destruct (sendReqs_wf nonces _ (flags_wf r false false false Hr)) as [Hwf Hs].
  split; [done|]. by eapply same_tree_trans; [|exact Hs].
Qed.

Context `{!Ed25519Laws} (Hsk : priv_ok sk) (Hself : self = ed_Public sk).

(** *** Becoming root always succeeds *)
Lemma becomeRoot_ok nonce r :
  router_wf r → ownSeq r < max_u64 →
  ∃ r', becomeRoot sk self nonce r = Ok (true, r') ∧ router_wf r' ∧
    is_Some (r_infos r' !! self) ∧ ownSeq r' <= ownSeq r + 1.
Proof.
  intros Hr Hmax. unfold becomeRoot.
  rewrite routerSigRes_bytesForSig_eq. cbn [mbind res_bind].
  match goal with |- context [RouterAnnounce self self ?rs ?sg] => set (ann := RouterAnnounce self self rs sg) end.
  assert (routerAnnounce_check ann = Ok true) as ->.
  { unfold routerAnnounce_check. rewrite bool_decide_true by done. rewrite andb_false_r.
    rewrite routerSigRes_bytesForSig_eq. cbn [mbind res_bind]. f_equal. unfold ann. simpl.
    rewrite Hself, privateKey_sign_verify by done. done. }
  cbn [mbind res_bind]. assert (0 <= ownSeq r) as Hown by apply Hr.
  assert (req_seq (res_req (ann_res ann)) = ownSeq r + 1) as Hseq.
  { unfold ann. simpl. fold (ownSeq r). apply (wrap_small 64). unfold max_u64 in Hmax. unfold in_range. lia. }
  destruct (router_update ann r) as [ok r'] eqn:Hu. pose proof (update_key_known _ _ _ _ Hu) as Hk.
  pose proof (update_wf ann r Hr ltac:(lia)) as Hwf. pose proof (update_own ann r) as Ho.
  rewrite Hu in Hwf, Ho. cbn [snd] in Hwf, Ho. exists r'. destruct ok.
  - split_and!; [done..|]. rewrite decide_True, Hseq in Ho by done. lia.
  - apply update_rejected in Hu as (_ & info & Hi & Hs). exfalso. unfold ann in Hi. simpl in Hi.
    assert (info_seq info = ownSeq r) as Hinfo by (unfold ownSeq, selfInfo; by rewrite Hi).
    unfold supersedes in Hs. rewrite Hseq, Hinfo in Hs.
    destruct (Z.ltb_spec (ownSeq r + 1) (ownSeq r)), (Z.ltb_spec (ownSeq r) (ownSeq r + 1)); [lia..|done|lia].
Qed.

(** *** Choosing a parent *)

(** What maintenance guarantees of a state: well-formed, our own announcement
    known, and our sequence number advanced by at most one. *)
Definition advanced (r r' : router F) : Prop :=
  router_wf r' ∧ is_Some (r_infos r' !! self) ∧ ownSeq r' <= ownSeq r + 1.

Lemma fix_done_advanced nonces r r1 :
  advanced r r1 → advanced r (fst (fix_done self nonces r1)).
Proof.
  intros (Hwf & Hk & Ho). destruct (fix_done_wf nonces r1 Hwf) as [Hwf' Hs].
  split_and!; [done| |]; [by rewrite (st_infos _ _ Hs)|by rewrite (same_tree_own _ _ Hs)].
Qed.

Lemma fix_alone_ok dr r :
  router_wf r → ownSeq r < max_u64 → is_Some (r_infos r !! self) ∨ r_doRoot2 r = true →
  ∃ r' out, fix_alone sk self dr r = Ok (r', out) ∧ advanced r r'.
Proof.
  intros Hwf Hmax Hk. unfold fix_alone. destruct (r_doRoot2 r) eqn:Hd.
  - destruct (becomeRoot_ok (dr_root dr) r Hwf Hmax) as (r1 & -> & Hwf1 & Hk1 & Ho).
    cbn [mbind res_bind negb]. destruct (fix_done self (dr_reqs dr) r1) as [r' out] eqn:Hf.
    exists r', out. split; [done|].
    pose proof (fix_done_advanced (dr_reqs dr) r r1) as Ha. rewrite Hf in Ha. by apply Ha.
  - destruct Hk as [Hk|]; [|done]. destruct (negb (r_doRoot1 r)); eexists _, _; (split; [done|]).
    + split_and!; [|done|]; [|unfold ownSeq, selfInfo; simpl; lia].
      eapply same_tree_wf; [exact Hwf|done|apply Hwf..].
    + split_and!; [done|done|lia].
Qed.

Lemma useResponse_ok pk rs r :
  router_wf r → 0 <= req_seq (res_req rs) <= ownSeq r + 1 →
  ∃ ok r', useResponse sk self pk rs r = Ok (ok, r') ∧ if ok : bool then advanced r r' else r' = r.
Proof.
  intros Hwf Hseq. unfold useResponse. rewrite routerSigRes_bytesForSig_eq. cbn [mbind res_bind].
  match goal with |- context [getAnnounce ?i self] => set (ann := getAnnounce i self) end.
  assert (req_seq (res_req (ann_res ann)) = req_seq (res_req rs)) as Hs by done.
  destruct (router_update ann r) as [ok r'] eqn:Hu. exists ok, r'. split; [done|].
  destruct ok; [|by apply update_rejected in Hu as [-> _]].
  pose proof (update_wf ann r Hwf ltac:(lia)) as Hwf'. pose proof (update_own ann r) as Ho.
  pose proof (update_key_known _ _ _ _ Hu) as Hk. rewrite Hu in Hwf', Ho.
  rewrite decide_True, Hs in Ho by done. split_and!; [done|done|]. cbn [snd] in Ho. lia.
Qed.

Lemma router_fix_ok dr r :
  router_wf r → ownSeq r < max_u64 →
  is_Some (r_infos r !! self) ∨ r_doRoot2 r = true →
  ∃ r' out, router_fix sk self dr r = Ok (r', out) ∧ advanced r r'.
Proof.
  intros Hwf Hmax Hk. unfold router_fix. set (best := fix_choose _ _ _).
  destruct (r_refresh r || r_doRoot1 r || r_doRoot2 r || _) eqn:Hcond.
  - destruct (r_responses r !! ch_parent best) as [rs|] eqn:Hrs; [|by apply fix_alone_ok].
    destruct (negb (bool_decide (ch_root best = self))); [|by apply fix_alone_ok].
    destruct (useResponse_ok (ch_parent best) rs r Hwf) as (ok & r1 & -> & Hok); [by eapply (rw_resseq r Hwf)|].
    cbn [mbind res_bind]. destruct ok; [|subst r1; by apply fix_alone_ok].
    destruct (fix_done self (dr_reqs dr) r1) as [r' out] eqn:Hf. exists r', out. split; [done|].
    pose proof (fix_done_advanced (dr_reqs dr) r r1 Hok) as Ha. by rewrite Hf in Ha.
  - destruct Hk as [Hk|Hd]; [|by rewrite Hd, orb_true_r in Hcond].
    exists r, []. split; [done|]. split_and!; [done|done|lia].
Qed.

(** *** Passing announcements on *)

Lemma unsent_spec sent anc :
  let '(toSend, sent') := unsent sent anc in
  sent' = sent ∪ list_to_set anc ∧ ∀ k, k ∈ toSend → k ∈ anc.
Proof.
  unfold unsent. assert (∀ ts (s : gset bytes), let '(toSend, sent') :=
    foldl (λ '(toSend, sent) k, if decide (k ∈ sent) then (toSend, sent) else (toSend ++ [k], {[k]} ∪ sent))
      (ts, s) anc in sent' = s ∪ list_to_set anc ∧ ∀ k, k ∈ toSend → k ∈ ts ∨ k ∈ anc) as Hgen.
  { induction anc as [|x anc IH]; intros ts s; simpl; [split; [set_solver|auto]|].
    destruct (decide (x ∈ s)).
    - specialize (IH ts s). destruct (foldl _ _ _) as [a b]. destruct IH as [-> IH].
      split; [set_solver|]. intros k Hk. apply IH in Hk. set_solver.
    - specialize (IH (ts ++ [x]) ({[x]} ∪ s)). destruct (foldl _ _ _) as [a b]. destruct IH as [-> IH].
      split; [set_solver|]. intros k Hk. apply IH in Hk. set_solver. }
  specialize (Hgen [] sent). destruct (foldl _ _ _) as [a b]. destruct Hgen as [-> Hgen].
  split; [done|]. intros k Hk. apply Hgen in Hk. set_solver.
Qed.

Lemma announcements_ok infos l :
  (∀ k, k ∈ l → is_Some (infos !! k)) → ∃ anns, announcements infos l = Ok anns.
Proof.
  induction l as [|k l IH]; intros Hl; simpl; [by eexists|].
  destruct (Hl k) as [info ->]; [set_solver|].
  destruct IH as [anns ->]; [set_solver|]. by eexists.
Qed.

Lemma getAncestry_known infos key k : k ∈ getAncestry infos key → is_Some (infos !! k).
Proof.
  unfold getAncestry. rewrite reverse_in_place_eq, elem_of_reverse.
  destruct (walk_exists infos key) as (l & stop & Hw). rewrite (backwardsAncestry_walk _ _ _ _ Hw).
  destruct (walk_known infos [] key l stop Hw) as [_ Hknown]; [split; [constructor|set_solver]|].
  apply Hknown.
Qed.

Lemma sendAnnounces_loop_ok selfAnc sents r :
  (∀ k, k ∈ selfAnc → is_Some (r_infos r !! k)) →
  (∀ pk s, (pk, s) ∈ sents → is_Some (r_sent r !! pk) ∧ ∀ k, k ∈ s → is_Some (r_infos r !! k)) →
  (∀ pk s k, r_sent r !! pk = Some s → k ∈ s → is_Some (r_infos r !! k)) →
  ∃ sent' out, sendAnnounces_loop selfAnc sents r = Ok (set_sent sent' r, out) ∧
    dom sent' = dom (r_sent r) ∧ ∀ pk s k, sent' !! pk = Some s → k ∈ s → is_Some (r_infos r !! k).
Proof.
  revert r. induction sents as [|[pk s] sents IH]; intros r Hanc Hs Hall; simpl.
  - exists (r_sent r), []. destruct r. done.
  - pose proof (unsent_spec s selfAnc) as Hu1. destruct (unsent s selfAnc) as [ts1 s1]. destruct Hu1 as [-> Hu1].
    pose proof (unsent_spec (s ∪ list_to_set selfAnc) (getAncestry (r_infos r) pk)) as Hu2.
    destruct (unsent _ _) as [ts2 s2]. destruct Hu2 as [-> Hu2].
    destruct (Hs pk s) as [[s0 Hs0] Hks]; [set_solver|].
    destruct (announcements_ok (r_infos r) (ts1 ++ ts2)) as [anns ->].
    { intros k [Hk|Hk]%elem_of_app; [by apply Hanc, Hu1|]. by eapply getAncestry_known, Hu2. }
    cbn [mbind res_bind]. match goal with |- context [sendAnnounces_loop _ _ (set_sent ?m r)] => set (m' := m) end.
    destruct (IH (set_sent m' r)) as (sent' & out & -> & Hd & Hk').
    + done.
    + intros pk' s' Hin. destruct (Hs pk' s') as [Hd Hk]; [set_solver|]. split; [|done].
      simpl. unfold m'. apply lookup_insert_is_Some'. by right.
    + intros pk' s' k. simpl. unfold m'. destruct (decide (pk' = pk)) as [->|].
      * rewrite lookup_insert_eq. intros [= <-] Hk.
        assert (k ∈ s ∨ k ∈ selfAnc ∨ k ∈ getAncestry (r_infos r) pk) as [?|[?|?]] by set_solver;
          [by apply Hks|by apply Hanc|by eapply getAncestry_known].
      * rewrite lookup_insert_ne by done. apply Hall.
    + cbn [mbind res_bind]. eexists sent', _. split; [done|]. split; [|done].
      rewrite Hd. simpl. unfold m'. rewrite dom_insert_L.
      assert (pk ∈ dom (r_sent r)) by (by apply elem_of_dom_2 in Hs0). set_solver.
Qed.

Lemma sendAnnounces_ok r :
  router_wf r → ∃ r' out, sendAnnounces self r = Ok (r', out) ∧ router_wf r' ∧
    r_infos r' = r_infos r ∧ r_blooms r' = r_blooms r ∧ r_peers r' = r_peers r ∧ ownSeq r' = ownSeq r.
Proof.
  intros Hwf. destruct (sendAnnounces_loop_ok (getAncestry (r_infos r) self) (map_to_list (r_sent r)) r)
    as (sent' & out & Heq & Hd & Hk).
  - apply getAncestry_known.
  - intros pk s Hin%elem_of_map_to_list. split; [by eexists|]. intros k. by eapply (rw_known r Hwf).
  - apply (rw_known r Hwf).
  - exists (set_sent sent' r), out. split; [done|]. split; [|done].
    destruct Hwf. split; simpl; try done. by rewrite Hd.
Qed.

(** *** Maintenance *)

Lemma updateAncestries_same r : 
  let r' := updateAncestries r in
  same_tree r r' ∧ r_requests r' = r_requests r ∧ r_responses r' = r_responses r ∧
  r_refresh r' = r_refresh r ∧ r_doRoot1 r' = r_doRoot1 r ∧ r_doRoot2 r' = r_doRoot2 r.
Proof.
  unfold updateAncestries. generalize (map_to_list (r_peers r)).*1. intros l. revert r.
  induction l as [|k l IH]; intros r; simpl; [done|].
  assert (same_tree r (updateAncestry r k) ∧ r_requests (updateAncestry r k) = r_requests r ∧
    r_responses (updateAncestry r k) = r_responses r ∧ r_refresh (updateAncestry r k) = r_refresh r ∧
    r_doRoot1 (updateAncestry r k) = r_doRoot1 r ∧ r_doRoot2 (updateAncestry r k) = r_doRoot2 r)
    as (Hs & E1 & E2 & E3 & E4 & E5) by (unfold updateAncestry; by case_decide).
  destruct (IH (updateAncestry r k)) as (Hs' & F1 & F2 & F3 & F4 & F5).
  split_and!; [by eapply same_tree_trans|congruence..].
Qed.

Lemma resetCache_wf r b : router_wf r → router_wf (resetCache (set_doRoot2 b r)).
Proof. intros []. by split. Qed.

Lemma maintenance_prepared_wf r b :
  router_wf r → router_wf (updateAncestries (resetCache (set_doRoot2 b r))).
Proof.
  intros Hwf. destruct (updateAncestries_same (resetCache (set_doRoot2 b r))) as (Hs & E1 & E2 & _).
  pose proof (resetCache_wf r b Hwf) as Hwf1.
  eapply same_tree_wf; [exact Hwf1|done| | | |]; rewrite ?E1, ?E2; apply Hwf1.
Qed.

Lemma router_doMaintenance_ok dr r :
  router_wf r → ownSeq r < max_u64 → is_Some (r_infos r !! self) ∨ r_doRoot2 r = true →
  r_mainTimer r = true →
  ∃ r' out, router_doMaintenance sk self transform dr r = Ok (r', out) ∧ advanced r r'.
Proof.
  intros Hwf Hmax Hk Hrun. unfold router_doMaintenance. rewrite Hrun. simpl negb. cbv iota.
  set (r1 := updateAncestries _).
  destruct (updateAncestries_same (resetCache (set_doRoot2 (r_doRoot2 r || r_doRoot1 r) r)))
    as (Hs & _ & _ & _ & _ & Hd2). fold r1 in Hs, Hd2.
  assert (ownSeq r1 = ownSeq r) as Ho1 by (rewrite (same_tree_own _ _ Hs); done).
  destruct (router_fix_ok dr r1) as (r2 & out1 & -> & Hwf2 & Hk2 & Ho2).
  { by apply maintenance_prepared_wf. }
  { by rewrite Ho1. }
  { rewrite (st_infos _ _ Hs), Hd2. simpl. destruct Hk as [?|Hk]; [by left|right]. by rewrite Hk. }
  cbn [mbind res_bind].
  destruct (sendAnnounces_ok r2 Hwf2) as (r3 & out2 & -> & Hwf3 & Hi3 & Hb3 & Hp3 & Ho3).
  cbn [mbind res_bind].
  destruct (blooms_maintenance_safe (bloomEnv self transform r3) (r_blooms r3)) as (bs & out3 & -> & Hdom).
  { simpl. by rewrite Hi3. }
  { intros k Hb%elem_of_dom. rewrite (rw_blooms r3 Hwf3) in Hb.
    apply elem_of_dom in Hb as [ps Hps]. exists ps. split; [done|]. by eapply (rw_peers r3 Hwf3). }
  cbn [mbind res_bind]. eexists _, _. split; [done|]. split_and!.
  - destruct Hwf3. split; simpl; try done. by rewrite Hdom.
  - simpl. by rewrite Hi3.
  - change (ownSeq r3 <= ownSeq r + 1). lia.
Qed.

(** *** Neighbours *)

Lemma send_bloom_ok r p : is_Some (r_blooms r !! peer_key p) → ∃ out, send_bloom r p = Ok out.
Proof. intros [b Hb]. unfold send_bloom, sendBloom. rewrite Hb. by eexists. Qed.

Lemma send_blooms_ok r ps :
  (∀ p, p ∈ ps → is_Some (r_blooms r !! peer_key p)) → ∃ out, send_blooms r ps = Ok out.
Proof.
  induction ps as [|p ps IH]; intros Hps; simpl; [by eexists|].
  destruct (send_bloom_ok r p) as [out ->]; [apply Hps; set_solver|].
  destruct IH as [out' ->]; [set_solver|]. by eexists.
Qed.

(** The entries of a neighbour, before its connection is filed. *)
Lemma addPeer_enter_ok p r :
  router_wf r → ∃ r' out, addPeer_enter p r = Ok (r', out) ∧
    r_infos r' = r_infos r ∧ r_timers r' = r_timers r ∧ r_cache r' = r_cache r ∧
    r_nextTimer r' = r_nextTimer r ∧ r_requests r' = r_requests r ∧ r_responses r' = r_responses r ∧
    dom (r_sent r') = {[peer_key p]} ∪ dom (r_peers r) ∧ dom (r_blooms r') = {[peer_key p]} ∪ dom (r_peers r) ∧
    (∀ pk s k, r_sent r' !! pk = Some s → k ∈ s → is_Some (r_infos r !! k)) ∧
    r_peers r' = <[peer_key p := default [] (r_peers r !! peer_key p)]> (r_peers r).
Proof.
  intros Hwf. unfold addPeer_enter. destruct (r_peers r !! peer_key p) as [ps|] eqn:Hp.
  - destruct (announcements_ok (r_infos r) (elements (default ∅ (r_sent r !! peer_key p)))) as [anns ->].
    { intros k Hk%elem_of_elements. destruct (r_sent r !! peer_key p) as [s|] eqn:Hs; [|set_solver].
      by eapply (rw_known r Hwf). }
    assert (peer_key p ∈ dom (r_peers r)) as Hin by (by apply elem_of_dom_2 in Hp).
    eexists _, _. split; [done|]. rewrite (rw_sent r Hwf), (rw_blooms r Hwf).
    split_and!; try done; [set_solver|set_solver|apply (rw_known r Hwf)|by rewrite insert_id].
  - eexists _, _. split; [done|]. simpl. unfold addInfo. rewrite !dom_insert_L, (rw_sent r Hwf), (rw_blooms r Hwf).
    split_and!; try done. intros pk s k. destruct (decide (pk = peer_key p)) as [->|].
    + rewrite lookup_insert_eq. by intros [= <-] ?%elem_of_empty.
    + rewrite lookup_insert_ne by done. apply (rw_known r Hwf).
Qed.

Lemma router_addPeer_ok nonce p r :
  router_wf r → ∃ r' out, router_addPeer self nonce p r = Ok (r', out) ∧ router_wf r' ∧ r_infos r' = r_infos r.
Proof.
  intros Hwf. unfold router_addPeer.
  destruct (addPeer_enter_ok p r Hwf) as (r1 & out1 & -> & Hi & Ht & Hc & Hn & Hq & Hr & Hs & Hb & Hk & Hp).
  cbn [mbind res_bind]. match goal with |- context [send_bloom ?r2 p] => set (r2' := r2) end.
  assert (r_blooms r2' = r_blooms r1 ∧ r_infos r2' = r_infos r1 ∧ r_sent r2' = r_sent r1 ∧
    r_timers r2' = r_timers r1 ∧ r_cache r2' = r_cache r1 ∧ r_nextTimer r2' = r_nextTimer r1 ∧
    r_responses r2' = r_responses r1 ∧
    r_peers r2' = <[peer_key p := default [] (r_peers r !! peer_key p) ++ [p]]> (r_peers r) ∧
    r_requests r2' = if decide (r_requests r !! peer_key p = None)
      then <[peer_key p := newReq self nonce r]> (r_requests r) else r_requests r)
    as (Eb & Ei & Es & Et & Ec & En & Er & Ep & Eq).
  { unfold r2'. simpl. rewrite Hp, Hq, lookup_insert_eq, insert_insert_eq. simpl.
    unfold newReq, selfInfo. simpl. rewrite <- Hi. by case_decide. }
  destruct (send_bloom_ok r2' p) as [out2 ->].
  { rewrite Eb. apply elem_of_dom. rewrite Hb. set_solver. }
  cbn [mbind res_bind]. eexists _, _. split; [done|]. split; [|congruence].
  assert (ownSeq r2' = ownSeq r) as Ho by (unfold ownSeq, selfInfo; by rewrite Ei, Hi).
  clearbody r2'. destruct Hwf. split; rewrite ?Ho, ?Eb, ?Ei, ?Es, ?Et, ?Ec, ?En, ?Er, ?Ep, ?Eq, ?Hi, ?Ht, ?Hc, ?Hn, ?Hr; try done.
  - intros k ps. destruct (decide (k = peer_key p)) as [->|].
    + rewrite lookup_insert_eq. intros [= <-]. split; [by intros [? ?]%app_nil|].
      intros q [Hq'|Hq']%elem_of_app; [|set_solver].
      destruct (r_peers r !! peer_key p) as [ps|] eqn:E; [|set_solver]. by eapply rw_peers0.
    + rewrite lookup_insert_ne by done. apply rw_peers0.
  - by rewrite Hs, dom_insert_L.
  - by rewrite Hb, dom_insert_L.
  - rewrite dom_insert_L. destruct (decide (r_requests r !! peer_key p = None)) as [E|E].
    + by rewrite dom_insert_L, rw_requests0.
    + rewrite rw_requests0. apply not_eq_None_Some in E. apply elem_of_dom in E. rewrite rw_requests0 in E. set_solver.
  - rewrite dom_insert_L. set_solver.
  - intros pk req. destruct (decide _); [|apply rw_reqseq0]. destruct (decide (pk = peer_key p)) as [->|].
    + rewrite lookup_insert_eq. intros [= <-]. by apply newReq_seq.
    + rewrite lookup_insert_ne by done. apply rw_reqseq0.
Qed.

Lemma cache_ok_delete infos c k : cache_ok infos c → cache_ok infos (delete k c).
Proof. intros Hc k' path [_ Hk]%lookup_delete_Some. by apply Hc. Qed.

Lemma router_removePeer_ok p r :
  router_wf r → ∃ r' out, router_removePeer p r = Ok (r', out) ∧ router_wf r' ∧ r_infos r' = r_infos r.
Proof.
  intros Hwf. unfold router_removePeer. simpl.
  destruct (filter _ _) as [|q ps] eqn:Hf.
  - eexists _, _. split; [done|]. split; [|done]. destruct Hwf. split; simpl; try done;
      rewrite ?dom_delete_L, ?rw_sent0, ?rw_blooms0, ?rw_requests0; try done.
    + intros k ps [_ Hk]%lookup_delete_Some. by apply rw_peers0.
    + unfold removeInfo. by rewrite dom_delete_L, rw_blooms0.
    + by apply difference_mono_r.
    + intros pk s k [_ Hs]%lookup_delete_Some. by eapply rw_known0.
    + by apply cache_ok_delete.
    + intros pk req [_ Hq]%lookup_delete_Some. by eapply rw_reqseq0.
    + intros pk req [_ Hq]%lookup_delete_Some. by eapply rw_resseq0.
  - assert (∃ ps0, r_peers r !! peer_key p = Some ps0 ∧ ∀ x, x ∈ q :: ps → x ∈ ps0) as (ps0 & Hps0 & Hsub).
    { destruct (r_peers r !! peer_key p) as [ps0|] eqn:E; [|done]. exists ps0. split; [done|].
      intros x. rewrite <- Hf. by intros [_ Hx]%list_elem_of_filter. }
    destruct (rw_peers r Hwf _ _ Hps0) as [_ Hkey].
    assert (peer_key p ∈ dom (r_peers r)) as Hin by (by apply elem_of_dom_2 in Hps0).
    match goal with |- context [send_blooms ?r2 _] => destruct (send_blooms_ok r2 (q :: ps)) as [out Hout] end.
    { intros x Hx. simpl. rewrite (Hkey x) by (by apply Hsub). apply elem_of_dom. by rewrite (rw_blooms r Hwf). }
    rewrite Hout. cbn [mbind res_bind]. eexists _, _. split; [done|]. split; [|done].
    assert (dom (<[peer_key p := q :: ps]> (r_peers r)) = dom (r_peers r)) as Hd
      by (rewrite dom_insert_L; set_solver).
    destruct Hwf. split; simpl; rewrite ?Hd; try done.
    intros k ps1. destruct (decide (k = peer_key p)) as [->|].
    + rewrite lookup_insert_eq. intros [= <-]. split; [done|]. intros x Hx. by apply Hkey, Hsub.
    + rewrite lookup_insert_ne by done. apply rw_peers0.
Qed.

(** *** Messages and timers *)

Lemma set_refresh_wf b r : router_wf r → router_wf (set_refresh b r).
Proof. by intros []. Qed.

Lemma mark_sent_ok pk key r :
  router_wf r → is_Some (r_peers r !! pk) → is_Some (r_infos r !! key) →
  ∃ r', mark_sent pk key r = Ok r' ∧ router_wf r' ∧ r_infos r' = r_infos r.
Proof.
  intros Hwf Hpk%elem_of_dom Hkey. unfold mark_sent. rewrite <- (rw_sent r Hwf) in Hpk.
  apply elem_of_dom in Hpk as Hs. destruct Hs as [s Hs]. rewrite Hs. eexists. split; [done|].
  split; [|done]. destruct Hwf. split; simpl; try done.
  - by rewrite dom_insert_lookup_L.
  - intros pk' s' k. destruct (decide (pk' = pk)) as [->|].
    + rewrite lookup_insert_eq. intros [= <-] [->%elem_of_singleton|Hk]%elem_of_union; [done|]. by eapply rw_known0.
    + rewrite lookup_insert_ne by done. apply rw_known0.
Qed.

Lemma update_peers ann r : r_peers (snd (router_update ann r)) = r_peers r.
Proof. unfold router_update. by destruct (negb _). Qed.

Lemma router_handleAnnounce_ok p ann r :
  router_wf r → is_Some (r_peers r !! peer_key p) → 0 <= req_seq (res_req (ann_res ann)) →
  ∃ r' out, router_handleAnnounce self p ann r = Ok (r', out) ∧ router_wf r' ∧
    (∀ k, is_Some (r_infos r !! k) → is_Some (r_infos r' !! k)) ∧
    ownSeq r' <= Z.max (ownSeq r) (if decide (ann_key ann = self) then req_seq (res_req (ann_res ann)) else 0).
Proof.
  intros Hwf Hp Hseq. unfold router_handleAnnounce.
  pose proof (update_wf ann r Hwf Hseq) as Hwf1. pose proof (update_own ann r) as Ho.
  pose proof (update_peers ann r) as Hps.
  assert (∀ k, is_Some (r_infos r !! k) → is_Some (r_infos (snd (router_update ann r)) !! k)) as Hknown
    by (intros k; apply update_known).
  destruct (router_update ann r) as [ok r1] eqn:Hu. cbn [snd] in *.
  pose proof (update_key_known _ _ _ _ Hu) as Hk.
  set (r2 := if decide (ann_key ann = self) then set_refresh true r1 else r1).
  assert (router_wf r2 ∧ r_infos r2 = r_infos r1 ∧ r_peers r2 = r_peers r1) as (Hwf2 & Hi2 & Hp2).
  { unfold r2. destruct (decide _); [|done]. split; [by apply set_refresh_wf|done]. }
  destruct (mark_sent_ok (peer_key p) (ann_key ann) r2) as (r3 & Hm3 & Hwf3 & Hi3);
    [done|by rewrite Hp2, Hps|by rewrite Hi2|].
  destruct (mark_sent_ok (peer_key p) (ann_key ann) r1) as (r4 & Hm4 & Hwf4 & Hi4); [done|by rewrite Hps|done|].
  destruct ok.
  - rewrite Hm3. cbn [mbind res_bind]. eexists _, _. split; [done|]. split; [done|].
    rewrite Hi3, Hi2. split; [done|]. unfold ownSeq, selfInfo in *. by rewrite Hi3, Hi2.
  - rewrite Hm4. destruct (decide (ann_info ann = _)); cbn [mbind res_bind]; eexists _, _; (split; [done|]); (split; [done|]);
      rewrite Hi4; (split; [done|]); unfold ownSeq, selfInfo in *; by rewrite Hi4.
Qed.

Lemma router_handleResponse_ok p rs rtt r :
  router_wf r → is_Some (r_peers r !! peer_key p) →
  router_wf (router_handleResponse p rs rtt r) ∧ r_infos (router_handleResponse p rs rtt r) = r_infos r.
Proof.
  intros Hwf Hp. unfold router_handleResponse. set (r1 := if decide (_ = None ∧ _) then _ else r).
  assert (router_wf r1 ∧ r_infos r1 = r_infos r) as [Hwf1 Hi1].
  { unfold r1. destruct (decide _) as [[Hnone Hreq]|]; [|done]. split; [|done].
    eapply same_tree_wf; [exact Hwf|done|apply Hwf| |apply Hwf|]; simpl.
    - rewrite dom_insert_L. apply elem_of_dom in Hp. pose proof (rw_responses r Hwf). set_solver.
    - intros pk rs'. destruct (decide (pk = peer_key p)) as [->|].
      + rewrite lookup_insert_eq. intros [= <-]. rewrite <- Hreq.
        apply elem_of_dom in Hp. rewrite <- (rw_requests r Hwf) in Hp. apply elem_of_dom in Hp as [req Hr].
        rewrite Hr. by apply (rw_reqseq r Hwf _ _ Hr).
      + rewrite lookup_insert_ne by done. apply (rw_resseq r Hwf). }
  clearbody r1. destruct (decide _); [|done]. split; [|done].
  eapply same_tree_wf; [exact Hwf1|done|apply Hwf1..].
Qed.

Lemma cache_ok_empty infos : cache_ok infos ∅.
Proof. intros k path. by rewrite lookup_empty. Qed.

Lemma timer_fires_ok key timer r :
  router_wf r → router_wf (timer_fires self key timer r) ∧
  (is_Some (r_infos r !! self) → is_Some (r_infos (timer_fires self key timer r) !! self)) ∧
  ownSeq (timer_fires self key timer r) = ownSeq r.
Proof.
  intros Hwf. unfold timer_fires. destruct (decide _) as [Ht|]; [|done].
  destruct (decide (key = self)) as [->|Hne]; [by split; [apply set_refresh_wf|]|].
  assert (ownSeq (resetCache (forget_sent key (set_timers (delete key (r_timers r))
    (set_infos (delete key (r_infos r)) r)))) = ownSeq r) as Ho.
  { unfold ownSeq, selfInfo. simpl. by rewrite lookup_delete_ne. }
  simpl. split_and!; [|by rewrite lookup_delete_ne|done].
  destruct Hwf. split; rewrite ?Ho; simpl; try done.
  - by rewrite dom_fmap_L.
  - intros pk s k Hs Hk. rewrite lookup_fmap in Hs. destruct (r_sent r !! pk) as [s'|] eqn:Hs'; [|done].
    simplify_eq/=. apply elem_of_difference in Hk as [Hk Hn]. rewrite not_elem_of_singleton in Hn.
    rewrite lookup_delete_ne by done. by eapply rw_known0.
  - by rewrite !dom_delete_L, rw_timers0.
  - intros k t [_ Hk]%lookup_delete_Some. by eapply rw_fresh0.
Qed.

Lemma router_handleTraffic_wf order tr r :
  router_wf r → (∀ l, order l ≡ₚ l) →
  router_wf (fst (router_handleTraffic self order tr r)) ∧
  r_infos (fst (router_handleTraffic self order tr r)) = r_infos r.
Proof.
  intros Hwf Ho. unfold router_handleTraffic.
  destruct (router_lookup _ _ _ _ _ _ _ _) as [[next w] cache] eqn:Hl. simpl. split; [|done].
  assert (view_ok (View self (r_infos r) (r_peers r) (r_lags r) (r_cache r) order)) as Hv.
  { split; simpl; [apply Hwf|done|]. intros k ps p Hk Hp. by eapply (rw_peers r Hwf). }
  destruct (view_lookup_spec _ _ _ _ _ _ Hv Hl) as [Hc _].
  destruct Hwf. by split.
Qed.

(** *** Reachable states *)

(** What the environment respects: messages come from connected neighbours, and
    sequence numbers are natural; an announcement of our own key (which carries
    our signature) has a sequence number of at most [B]. *)
Definition event_ok (B : Z) (r : router F) (ev : router_event F) : Prop :=
  match ev with
  | EvMaintenance dr => True
  | EvAddPeer nonce p => True
  | EvRemovePeer p => True
  | EvRequest p req => True
  | EvResponse p rs rtt => is_Some (r_peers r !! peer_key p)
  | EvAnnounce p ann => is_Some (r_peers r !! peer_key p) ∧ 0 <= req_seq (res_req (ann_res ann)) ∧
      (ann_key ann = self → req_seq (res_req (ann_res ann)) <= B)
  | EvBloom p b => True
  | EvTimer key timer => True
  | EvTraffic order tr => ∀ l, order l ≡ₚ l
  | EvShutdown => True
  end.

(** The states after the first maintenance round, which [init] schedules before
    anything else, and [n] events. *)
Inductive reachable (B : Z) : nat → router F → Prop :=
| reach_start dr r out :
    router_doMaintenance sk self transform dr router_init = Ok (r, out) → reachable B 0 r
| reach_step n r ev r' out :
    reachable B n r → event_ok B r ev → router_step ev r = Ok (r', out) → reachable B (S n) r'.

Lemma router_step_ok B ev r :
  router_ok r → ownSeq r < max_u64 → 0 <= B → event_ok B r ev →
  ∃ r' out, router_step ev r = Ok (r', out) ∧ router_ok r' ∧ ownSeq r' <= Z.max (ownSeq r + 1) B.
Proof.
  intros [Hwf Hk] Hmax HB Hev.
  assert (∀ r', router_wf r' → r_infos r' = r_infos r → router_ok r' ∧ ownSeq r' <= Z.max (ownSeq r + 1) B) as Hkeep.
  { intros r' Hwf' Hi. split; [split; [done|by rewrite Hi]|]. unfold ownSeq, selfInfo. rewrite Hi. lia. }
  destruct ev as [dr|nonce p|p|p req|p rs rtt|p ann|p b|key timer|order tr|]; simpl in Hev |- *.
  - destruct (r_mainTimer r) eqn:Hrun.
    + destruct (router_doMaintenance_ok dr r) as (r' & out & Hm & Hwf' & Hk' & Ho); [done|done|by left|done|].
      exists r', out. split; [done|]. split; [by split|lia].
    + unfold router_doMaintenance. rewrite Hrun. eexists _, _. split; [done|]. by apply Hkeep.
  - destruct (router_addPeer_ok nonce p r Hwf) as (r' & out & -> & Hwf' & Hi). eauto 6.
  - destruct (router_removePeer_ok p r Hwf) as (r' & out & -> & Hwf' & Hi). eauto 6.
  - unfold router_handleRequest. rewrite routerSigRes_bytesForSig_eq. cbn [mbind res_bind].
    eexists _, _. split; [done|]. by apply Hkeep.
  - destruct (router_handleResponse_ok p rs rtt r Hwf Hev). eexists _, _. split; [done|]. by apply Hkeep.
  - destruct Hev as (Hp & Hseq & HB'). destruct (router_handleAnnounce_ok p ann r Hwf Hp Hseq)
      as (r' & out & -> & Hwf' & Hkn & Ho). eexists _, _. split; [done|]. split; [split; [done|by apply Hkn]|].
    destruct (decide (ann_key ann = self)) as [E|]; [specialize (HB' E)|]; lia.
  - eexists _, _. split; [done|]. apply Hkeep; [|done]. destruct Hwf. split; simpl; try done.
    unfold handleBloom. destruct (r_blooms r !! peer_key p) eqn:Hb; [|done].
    by rewrite dom_insert_lookup_L.
  - destruct (timer_fires_ok key timer r Hwf) as (Hwf' & Hk' & Ho). eexists _, _. split; [done|].
    split; [by split; [|apply Hk']|lia].
  - destruct (router_handleTraffic_wf order tr r Hwf Hev). eexists _, _. split; [done|]. by apply Hkeep.
  - eexists _, _. split; [done|]. apply Hkeep; [|done]. by destruct Hwf; split.
Qed.

Lemma router_start_ok dr :
  ∃ r out, router_doMaintenance sk self transform dr router_init = Ok (r, out) ∧ router_ok r ∧ ownSeq r <= 1.
Proof.
  destruct (router_doMaintenance_ok dr router_init) as (r & out & Hm & Hwf & Hk & Ho);
    [apply router_init_wf|done|by right|done|].
  exists r, out. split; [done|]. split; [by split|done].
Qed.

Lemma reachable_ok B n r :
  0 <= B → B + Z.of_nat n + 1 < max_u64 → reachable B n r → router_ok r ∧ ownSeq r <= B + Z.of_nat n + 1.
Proof.
  intros HB Hn Hr. induction Hr as [dr r out Hm|n r ev r' out Hr IH Hev Hs].
  - destruct (router_start_ok dr) as (r0 & out0 & Hm0 & Hok & Ho). rewrite Hm in Hm0. simplify_eq. split; [done|lia].
  - destruct IH as [Hok Ho]; [lia|]. destruct (router_step_ok B ev r Hok ltac:(lia) HB Hev)
      as (r1 & out1 & Hs1 & Hok1 & Ho1). rewrite Hs in Hs1. simplify_eq. split; [done|lia].
Qed.

(** C21: router_never_panics.  The router starts, and in every state it reaches by
    any sequence of events (maintenance, neighbours coming and going, requests,
    responses, announcements, filters, timers, traffic, shutdown) the next event
    is handled: the panics of the code ("this should never happen", the write to
    a nil map, the nil filter) are not reached.  Its own announcement is always
    known; each neighbour has connections, requests, a filter and a record of what
    it was sent, which names only known nodes; cached paths are current; every
    announcement has the latest timer.  The bound is on the sequence numbers: our
    own is at most [B], the largest one of ours heard from others, plus one per
    event, and must not reach the end of its 64 bits. *)
Theorem router_never_panics B n r ev :
  0 <= B → B + Z.of_nat n + 1 < max_u64 →
  (∀ dr, ∃ r0 out, router_doMaintenance sk self transform dr router_init = Ok (r0, out)) ∧
  (reachable B n r → event_ok B r ev →
     router_wf r ∧ is_Some (r_infos r !! self) ∧
     ∃ r' out, router_step ev r = Ok (r', out)).
Proof.
  intros HB Hn. split.
  - intros dr. destruct (router_start_ok dr) as (r0 & out & Hm & _). eauto.
  - intros Hr Hev. destruct (reachable_ok B n r HB Hn Hr) as [Hok Ho].
    destruct (router_step_ok B ev r Hok ltac:(lia) HB Hev) as (r' & out & Hs & _).
    destruct Hok as [Hwf Hk]. eauto.
Qed.
End Actor.

(** ** A router with one neighbour *)
Module RouterWitness.
Import ToySig ToyBloom.
Definition sk1 : bytes := replicate 64 5.
Definition self1 : bytes := replicate 32 5.
Definition nb_key : bytes := replicate 32 3.
Definition nb : peer := Peer 0 nb_key 1 0 0.
Definition nb_ann : routerAnnounce :=
  RouterAnnounce nb_key nb_key (RouterSigRes (RouterSigReq 4 9) 0 (replicate 64 0)) (replicate 64 0).
Definition draws1 : draws := Draws 11 (λ _, 12) id.
Definition events1 : list (router_event tfilter) :=
  [EvAddPeer 13 nb; EvAnnounce nb nb_ann;
   EvResponse nb (RouterSigRes (RouterSigReq 2 13) 6 (replicate 64 0)) 20000000;
   EvMaintenance draws1].

Definition run1 (evs : list (router_event tfilter)) (r : router tfilter) : option (router tfilter) :=
  foldl (λ o ev, r ← o; match router_step sk1 self1 id ev r with Ok (r, _) => Some r | _ => None end) (Some r) evs.

Definition started1 : option (router tfilter) :=
  match router_doMaintenance sk1 self1 id draws1 router_init with Ok (r, _) => Some r | _ => None end.

(** The neighbour has a lower key: it becomes our parent. *)
Lemma chooses_neighbour :
  (r ← started1; r ← run1 events1 r; info_parent <$> r_infos r !! self1) = Some nb_key.
Proof. vm_compute. reflexivity. Qed.

Lemma router_never_panics_witness :
  ∃ r, reachable sk1 self1 id 0 0 r ∧
    ∃ r' out, router_step sk1 self1 id (EvAddPeer 13 nb) r = Ok (r', out) ∧ is_Some (r_infos r !! self1).
Proof.
  assert (priv_ok sk1) as Hsk by (split; [reflexivity|by apply bytes_ok_replicate]).
  assert (self1 = ed_Public sk1) as Hself by (vm_compute; reflexivity).
  destruct (router_never_panics sk1 self1 id Hsk Hself 0 0 router_init (EvAddPeer 13 nb)) as [Hstart _];
    [done|done|].
  destruct (Hstart draws1) as (r & out & Hr). exists r.
  assert (reachable sk1 self1 id 0 0 r) as Hreach by (by eapply reach_start). split; [done|].
  destruct (router_never_panics sk1 self1 id Hsk Hself 0 0 r (EvAddPeer 13 nb)) as [_ Hstep]; [done|done|].
  destruct (Hstep Hreach) as (_ & Hk & r' & out' & Hs); [done|]. eauto.
Defined.
End RouterWitness.
