(* ===== verification/Routing.v ===== *)
(** * Routing: what the routers of a network achieve
    (third_party/ironwood/network/router.go)

    Theorems about the operations of [Router]: announcements are merged by a
    total preorder, so their order of arrival does not matter; two neighbours
    that disagree about a node settle with one reply, except on announcements of
    equal rank; the choice of a parent; and the delivery of packets on a tree on
    which all routers agree. *)

From S2P Require Import Prelude Binary Wire Address Crypto Messages Bloom Tree Router.

(** ** The rank of an announcement

    Higher sequence numbers come first, then lower parents, then lower nonces. *)

Definition info_rank (info : routerInfo) : list Z :=
  - info_seq info :: info_parent info ++ [info_nonce info].

(** [a] is preferred to [b]. *)
Definition outranks (a b : routerInfo) : bool := key_less (info_rank a) (info_rank b).

(** The parents of announcements are keys. *)
Definition parent_ok (info : routerInfo) : Prop := length (info_parent info) = PublicKeySize.

Lemma key_less_snoc p q x y :
  length p = length q →
  key_less (p ++ [x]) (q ++ [y]) =
    if key_less p q then true else if key_less q p then false else x <? y.
Proof.
  revert q. induction p as [|a p IH]; intros [|b q] Hl; simpl in *; try done.
  - by destruct (x <? y), (y <? x).
  - destruct (Z.ltb_spec a b), (Z.ltb_spec b a); try lia; try done. apply IH. lia.
Qed.

Lemma supersedes_outranks ann info :
  parent_ok (ann_info ann) → parent_ok info → supersedes ann info = outranks (ann_info ann) info.
Proof.
  intros Ha Hi. unfold supersedes, outranks, info_rank. cbn [key_less].
  change (info_seq (ann_info ann)) with (req_seq (res_req (ann_res ann))).
  change (info_nonce (ann_info ann)) with (req_nonce (res_req (ann_res ann))).
  change (info_parent (ann_info ann)) with (ann_parent ann) in *.
  rewrite key_less_snoc by (unfold parent_ok in *; simpl in Ha; congruence).
  set (s := req_seq _). set (t := info_seq info).
  destruct (Z.ltb_spec s t), (Z.ltb_spec t s), (Z.ltb_spec (- s) (- t)), (Z.ltb_spec (- t) (- s)); try lia; try done.
  destruct (key_less (info_parent info) (ann_parent ann)) eqn:E1; [|done].
  by rewrite (key_less_asym _ _ E1).
Qed.

Lemma info_rank_length a b : parent_ok a → parent_ok b → length (info_rank a) = length (info_rank b).
Proof. unfold parent_ok, info_rank. intros Ha Hb. simpl. rewrite !length_app. simpl. lia. Qed.

Lemma outranks_irrefl a : outranks a a = false.
Proof. apply key_less_irrefl. Qed.

Lemma outranks_trans a b c : outranks a b = true → outranks b c = true → outranks a c = true.
Proof. apply key_less_trans. Qed.

Lemma better_negtrans a b c :
  parent_ok a → parent_ok b → outranks a b = false → outranks b c = false → outranks a c = false.
Proof.
  intros Ha Hb Hab Hbc. destruct (outranks a c) eqn:Hac; [|done].
  destruct (outranks b a) eqn:Hba; [by rewrite (outranks_trans _ _ _ Hba Hac) in Hbc|].
  unfold outranks in *. rewrite (key_less_total (info_rank a) (info_rank b)) in Hac;
    [congruence|by apply info_rank_length|done|done].
Qed.

Lemma rank_eq a b :
  parent_ok a → parent_ok b → outranks a b = false → outranks b a = false → info_rank a = info_rank b.
Proof. intros Ha Hb. unfold outranks. intros. apply key_less_total; [by apply info_rank_length|done..]. Qed.

Section Merge.
Context {F : Type}.
Implicit Types (r : router F).

(** The effect of [_update] on the announcements. *)
Definition merge (ann : routerAnnounce) (infos : gmap bytes routerInfo) : gmap bytes routerInfo :=
  match infos !! ann_key ann with
  | Some info => if outranks (ann_info ann) info then <[ann_key ann := ann_info ann]> infos else infos
  | None => <[ann_key ann := ann_info ann]> infos
  end.

(** The announcements handled one after the other. *)
Definition updates (anns : list routerAnnounce) (r : router F) : router F :=
  foldl (λ r ann, snd (router_update ann r)) r anns.

Definition parents_ok (infos : gmap bytes routerInfo) : Prop := map_Forall (λ _, parent_ok) infos.

Lemma update_merge ann r :
  parent_ok (ann_info ann) → parents_ok (r_infos r) →
  r_infos (snd (router_update ann r)) = merge ann (r_infos r).
Proof.
  intros Ha Hr. unfold router_update, merge. destruct (r_infos r !! ann_key ann) as [info|] eqn:Hi; [|done].
  rewrite (supersedes_outranks ann info Ha (Hr _ _ Hi)). by destruct (outranks _ _).
Qed.

Lemma merge_parents ann infos : parent_ok (ann_info ann) → parents_ok infos → parents_ok (merge ann infos).
Proof.
  intros Ha Hi. unfold merge. destruct (infos !! _); [destruct (outranks _ _)|];
    try apply map_Forall_insert_2; done.
Qed.

Lemma updates_merge anns r :
  Forall (λ a, parent_ok (ann_info a)) anns → parents_ok (r_infos r) →
  r_infos (updates anns r) = foldl (λ m a, merge a m) (r_infos r) anns.
Proof.
  intros Ha. revert r. induction Ha as [|a anns Ha Hall IH]; intros r Hr; [done|]. simpl.
  rewrite IH, update_merge by (rewrite ?update_merge by done; by try apply merge_parents). done.
Qed.

(** What may be stored for a node: the old entry or one of the announcements. *)
Definition offered (infos : gmap bytes routerInfo) (anns : list routerAnnounce) (k : bytes) (i : routerInfo) : Prop :=
  infos !! k = Some i ∨ ∃ a, a ∈ anns ∧ ann_key a = k ∧ ann_info a = i.

Lemma offered_merge a anns infos k i :
  offered (merge a infos) anns k i → offered infos (a :: anns) k i.
Proof.
  intros [Hm|(b & Hb & Hrest)]; [|right; exists b; set_solver].
  unfold merge in Hm. destruct (infos !! ann_key a) as [old|] eqn:Hold;
    [destruct (outranks (ann_info a) old)|]; [| by left|];
    (destruct (decide (k = ann_key a)) as [->|];
     [rewrite lookup_insert_eq in Hm; simplify_eq; right; exists a; set_solver
     |rewrite lookup_insert_ne in Hm by done; by left]).
Qed.

Lemma offered_parent anns infos k i :
  Forall (λ a, parent_ok (ann_info a)) anns → parents_ok infos → offered infos anns k i → parent_ok i.
Proof.
  intros Ha Hi [Hj|(b & Hb & _ & <-)]; [by eapply Hi|]. rewrite Forall_forall in Ha. by apply Ha.
Qed.

(** What was there before is not better than what is there after. *)
Lemma merge_dominates a infos k j :
  parents_ok infos → infos !! k = Some j ∨ ann_key a = k ∧ ann_info a = j →
  ∃ i, merge a infos !! k = Some i ∧ outranks j i = false.
Proof.
  intros Hi Hj. unfold merge. destruct (decide (k = ann_key a)) as [->|Hne].
  - destruct (infos !! ann_key a) as [old|] eqn:Hold.
    + destruct (outranks (ann_info a) old) eqn:Hb.
      * exists (ann_info a). rewrite lookup_insert_eq. split; [done|].
        destruct Hj as [[= ->]|[_ <-]]; [by apply key_less_asym|apply outranks_irrefl].
      * exists old. split; [done|]. destruct Hj as [[= ->]|[_ <-]]; [apply outranks_irrefl|done].
    + exists (ann_info a). rewrite lookup_insert_eq. split; [done|].
      destruct Hj as [?|[_ <-]]; [congruence|apply outranks_irrefl].
  - destruct Hj as [Hj|[? _]]; [|congruence]. exists j. split; [|apply outranks_irrefl].
    destruct (infos !! ann_key a) as [old|]; [destruct (outranks _ old)|]; rewrite ?lookup_insert_ne by done; done.
Qed.

(** The entry is one of the best of what was offered. *)
Lemma merge_best anns infos k :
  Forall (λ a, parent_ok (ann_info a)) anns → parents_ok infos →
  match foldl (λ m a, merge a m) infos anns !! k with
  | Some i => offered infos anns k i ∧ ∀ j, offered infos anns k j → outranks j i = false
  | None => ∀ j, ¬ offered infos anns k j
  end.
Proof.
  intros Ha. revert infos. induction Ha as [|a anns Hpa Hall IH]; intros infos Hi; simpl.
  { destruct (infos !! k) as [i|] eqn:Hk.
    - split; [by left|]. intros j [Hj|(? & ?%not_elem_of_nil & _)]; [|done]. simplify_eq. apply outranks_irrefl.
    - intros j [Hj|(? & ?%not_elem_of_nil & _)]; [congruence|done]. }
  assert (parents_ok (merge a infos)) as Hi' by by apply merge_parents.
  assert (∀ j, offered infos (a :: anns) k j →
    ∃ i, offered (merge a infos) anns k i ∧ outranks j i = false) as Hto.
  { intros j [Hj|(b & [->|Hb]%elem_of_cons & Hk & Hj)].
    - destruct (merge_dominates a infos k j) as (i & ? & ?); [done|by left|]. exists i. split; [by left|done].
    - destruct (merge_dominates a infos k j) as (i & ? & ?); [done|by right|]. exists i. split; [by left|done].
    - exists j. split; [right; eauto|apply outranks_irrefl]. }
  specialize (IH (merge a infos) Hi'). destruct (foldl _ _ anns !! k) as [i|].
  - destruct IH as [Hoff Hbest]. split; [by apply offered_merge|]. intros j Hj.
    destruct (Hto j Hj) as (i' & Hoff' & Hb). eapply (better_negtrans j i'); [| |done|by apply Hbest].
    + eapply (offered_parent (a :: anns) infos k); [by constructor|done|done].
    + by eapply (offered_parent anns (merge a infos) k).
  - intros j Hj. destruct (Hto j Hj) as (i' & Hoff' & _). by eapply IH.
Qed.

(** C22: announces_converge.  Two routers that start from the same announcements
    and handle the same further ones, in any order and any number of times, end
    with the same announcements, provided that no node signed two announcements
    of the same sequence number, parent and nonce: the comparison of [_update] is
    a total preorder, and the best announcement of each node wins. *)
Theorem announces_converge (r : router F) anns1 anns2 :
  parents_ok (r_infos r) →
  Forall (λ a, parent_ok (ann_info a)) anns1 → (∀ a, a ∈ anns1 ↔ a ∈ anns2) →
  (∀ k i j, offered (r_infos r) anns1 k i → offered (r_infos r) anns1 k j →
     info_rank i = info_rank j → i = j) →
  r_infos (updates anns1 r) = r_infos (updates anns2 r).
Proof.
  intros Hi Ha Hsame Huniq.
  assert (Forall (λ a, parent_ok (ann_info a)) anns2) as Ha2.
  { rewrite Forall_forall in *. intros a Hin. by apply Ha, Hsame. }
  rewrite !updates_merge by done. apply map_eq. intros k.
  pose proof (merge_best anns1 (r_infos r) k Ha Hi) as H1.
  pose proof (merge_best anns2 (r_infos r) k Ha2 Hi) as H2.
  assert (∀ i, offered (r_infos r) anns2 k i ↔ offered (r_infos r) anns1 k i) as Hoff.
  { intros i. unfold offered. by setoid_rewrite Hsame. }
  destruct (foldl _ _ anns1 !! k) as [i|], (foldl _ _ anns2 !! k) as [j|].
  - destruct H1 as [O1 B1], H2 as [O2 B2]. f_equal. apply (Huniq k); [done|by apply Hoff|].
    apply rank_eq; [exact (offered_parent _ _ _ _ Ha Hi O1)|exact (offered_parent _ _ _ _ Ha2 Hi O2)
      |by apply B2, Hoff|by apply B1, Hoff].
  - destruct H1 as [O1 _]. destruct (H2 i). by apply Hoff.
  - destruct H2 as [O2 _]. destruct (H1 j). by apply Hoff.
  - done.
Qed.
End Merge.

(** ** Two neighbours that disagree about a node *)

Lemma ann_info_getAnnounce i k : ann_info (getAnnounce i k) = i.
Proof. by destruct i. Qed.

Section Exchange.
Context {F : Type}.
Implicit Types (r : router F).

(** [_handleAnnounce] for a connected neighbour, by what is known already. *)
Lemma handleAnnounce_cases self p k i r :
  is_Some (r_sent r !! peer_key p) → parents_ok (r_infos r) → parent_ok i →
  ∃ r' out, router_handleAnnounce self p (getAnnounce i k) r = Ok (r', out) ∧
    is_Some (r_sent r' !! peer_key p) ∧
    match r_infos r !! k with
    | Some old =>
        if outranks i old then out = [] ∧ r_infos r' = <[k := i]> (r_infos r)
        else r_infos r' = r_infos r ∧
             out = if decide (i = old) then [] else [OutAnnounce p (getAnnounce old k)]
    | None => out = [] ∧ r_infos r' = <[k := i]> (r_infos r)
    end.
Proof.
  intros Hs Hr Hi. unfold router_handleAnnounce.
  pose proof (update_merge (getAnnounce i k) r) as Hm. rewrite ann_info_getAnnounce in Hm.
  specialize (Hm Hi Hr). unfold merge in Hm. rewrite ann_info_getAnnounce in Hm.
  change (ann_key (getAnnounce i k)) with k in *.
  assert (is_Some (r_sent (snd (router_update (getAnnounce i k) r)) !! peer_key p)) as Hs1.
  { unfold router_update. destruct (negb _); [done|]. simpl. rewrite lookup_fmap. by apply fmap_is_Some. }
  assert (∀ r1, is_Some (r_sent r1 !! peer_key p) → ∃ r2, mark_sent (peer_key p) k r1 = Ok r2 ∧
    r_infos r2 = r_infos r1 ∧ is_Some (r_sent r2 !! peer_key p)) as Hmark.
  { intros r1 [s Hs']. unfold mark_sent. rewrite Hs'. eexists. split; [done|]. split; [done|].
    simpl. rewrite lookup_insert_eq. by eexists. }
  destruct (router_update (getAnnounce i k) r) as [ok r1] eqn:Hu. cbn [snd] in *.
  set (r2 := if decide (k = self) then set_refresh true r1 else r1).
  assert (r_infos r2 = r_infos r1 ∧ r_sent r2 = r_sent r1) as [Ei Es] by (unfold r2; by destruct (decide _)).
  destruct ok.
  - destruct (update_accepted _ _ _ Hu) as [Hins Hsup]. rewrite ann_info_getAnnounce in Hins.
    change (ann_key (getAnnounce i k)) with k in *.
    destruct (Hmark r2) as (r3 & -> & E3 & Hs3); [by rewrite Es|]. cbn [mbind res_bind].
    exists r3, []. split; [done|]. split; [done|]. rewrite E3, Ei, Hins.
    destruct (r_infos r !! k) as [old|] eqn:Hold; [|done].
    pose proof (supersedes_outranks (getAnnounce i k) old) as Hb. rewrite ann_info_getAnnounce in Hb.
    rewrite <- Hb by (done || by eapply Hr). by rewrite (Hsup old eq_refl).
  - destruct (update_rejected _ _ _ Hu) as (-> & old & Hold & Hsup).
    change (ann_key (getAnnounce i k)) with k in Hold. rewrite Hold. simpl default. rewrite ann_info_getAnnounce.
    pose proof (supersedes_outranks (getAnnounce i k) old) as Hb. rewrite ann_info_getAnnounce in Hb.
    rewrite <- Hb, Hsup by (done || by eapply Hr).
    destruct (Hmark r) as (r3 & -> & E3 & Hs3); [done|]. destruct (decide (i = old)); cbn [mbind res_bind];
      by eexists _, _.
Qed.

Context (selfA selfB : bytes) (pA pB : peer) (k : bytes).

(** announce_exchange_settles.  When a router tells a neighbour what it knows
    about a node, either the neighbour now knows the same and says nothing, or it
    knows something better, says so once, and the router adopts that and says
    nothing: both hold the better announcement and the exchange is over.  (Two
    different announcements of the same rank are excluded.) *)
Theorem announce_exchange_settles (rA rB : router F) a :
  is_Some (r_sent rA !! peer_key pB) → is_Some (r_sent rB !! peer_key pA) →
  parents_ok (r_infos rA) → parents_ok (r_infos rB) → r_infos rA !! k = Some a →
  (∀ b, r_infos rB !! k = Some b → info_rank a = info_rank b → a = b) →
  ∃ rB' out, router_handleAnnounce selfB pA (getAnnounce a k) rB = Ok (rB', out) ∧
    ((out = [] ∧ r_infos rB' !! k = Some a) ∨
     (∃ b rA', r_infos rB !! k = Some b ∧ outranks b a = true ∧ r_infos rB' = r_infos rB ∧
        out = [OutAnnounce pA (getAnnounce b k)] ∧
        router_handleAnnounce selfA pB (getAnnounce b k) rA = Ok (rA', []) ∧ r_infos rA' !! k = Some b)).
Proof.
  intros HsA HsB HA HB Ha Huniq. pose proof (HA _ _ Ha) as Hpa.
  destruct (handleAnnounce_cases selfB pA k a rB HsB HB Hpa) as (rB' & out & Hh & _ & Hcase).
  exists rB', out. split; [done|].
  destruct (r_infos rB !! k) as [b|] eqn:Hb.
  2:{ destruct Hcase as [-> ->]. left. by rewrite lookup_insert_eq. }
  pose proof (HB _ _ Hb) as Hpb. destruct (outranks a b) eqn:Hab.
  { destruct Hcase as [-> ->]. left. by rewrite lookup_insert_eq. }
  destruct Hcase as [Hi ->]. destruct (decide (a = b)) as [->|Hne]; [left; by rewrite Hi|right].
  assert (outranks b a = true) as Hba.
  { destruct (outranks b a) eqn:E; [done|]. destruct Hne. by apply Huniq, rank_eq. }
  destruct (handleAnnounce_cases selfA pB k b rA HsA HA Hpb) as (rA' & out & HhA & _ & Hc).
  rewrite Ha, Hba in Hc. destruct Hc as [-> Hi']. exists b, rA'. split_and!; try done.
  by rewrite Hi', lookup_insert_eq.
Qed.

(** The exchange between two routers, message by message, starting with an
    announcement that reaches B: [Some] while each reply provokes another. *)
Fixpoint volleys (n : nat) (rA rB : router F) (ann : routerAnnounce) : option (router F * router F * routerAnnounce) :=
  match n with
  | O => Some (rA, rB, ann)
  | S n =>
      match router_handleAnnounce selfB pA ann rB with
      | Ok (rB, [OutAnnounce _ ann]) =>
          match router_handleAnnounce selfA pB ann rA with
          | Ok (rA, [OutAnnounce _ ann]) => volleys n rA rB ann
          | _ => None
          end
      | _ => None
      end
  end.

(** Two announcements of one node with the same sequence number, parent and
    nonce, but another port or signature, are never settled: each router answers
    the other's announcement with its own, without end.  The comment in the code
    rules such exchanges out, yet nothing stops a node from signing two such
    announcements. *)
Lemma equal_rank_never_settles (rA rB : router F) a b :
  is_Some (r_sent rA !! peer_key pB) → is_Some (r_sent rB !! peer_key pA) →
  parents_ok (r_infos rA) → parents_ok (r_infos rB) →
  r_infos rA !! k = Some a → r_infos rB !! k = Some b → info_rank a = info_rank b → a ≠ b →
  ∀ n, ∃ rA' rB', volleys n rA rB (getAnnounce a k) = Some (rA', rB', getAnnounce a k).
Proof.
  intros HsA HsB HA HB Ha Hb Hrank Hne n. revert rA rB HsA HsB HA HB Ha Hb.
  assert (outranks a b = false ∧ outranks b a = false) as [Hab Hba].
  { unfold outranks. rewrite Hrank. split; apply key_less_irrefl. }
  induction n as [|n IH]; intros rA rB HsA HsB HA HB Ha Hb; [by eexists _, _|]. simpl.
  destruct (handleAnnounce_cases selfB pA k a rB HsB HB (HA _ _ Ha)) as (rB' & out & -> & HsB' & Hc).
  rewrite Hb, Hab, decide_False in Hc by done. destruct Hc as [Hi ->].
  destruct (handleAnnounce_cases selfA pB k b rA HsA HA (HB _ _ Hb)) as (rA' & out & -> & HsA' & Hc).
  rewrite Ha, Hba, decide_False in Hc by congruence. destruct Hc as [Hi' ->].
  apply IH; rewrite ?Hi, ?Hi'; done.
Qed.
End Exchange.

(** ** The choice of a parent *)

Lemma numbered_is_Some l dist dists k :
  is_Some (numbered l dist dists !! k) ↔ k ∈ l ∨ is_Some (dists !! k).
Proof.
  revert dist dists. induction l as [|x l IH]; intros dist dists; cbn [numbered].
  - split; [by right|]. by intros [?%not_elem_of_nil|?].
  - rewrite IH, elem_of_cons. destruct (decide (k = x)) as [->|].
    + rewrite lookup_insert_eq. split; [by left; left|]. right. by eexists.
    + rewrite lookup_insert_ne by done. tauto.
Qed.

Lemma dists_ancestry infos pk k :
  is_Some (snd (getRootAndDists infos pk) !! k) ↔ k ∈ backwardsAncestry infos pk.
Proof.
  destruct (walk_exists infos pk) as (l & stop & Hw).
  rewrite (getRootAndDists_walk _ _ _ _ Hw), (backwardsAncestry_walk _ _ _ _ Hw). simpl.
  rewrite numbered_is_Some, lookup_empty. split; [intros [?|[? [=]]]; done|by left].
Qed.

(** A walk that avoids a node is the same whatever that node announces, also when
    it starts from that node. *)
Lemma walk_avoid infos k i anc anc' here l stop :
  walk infos anc here l stop → k ∉ l → stop ≠ k →
  (∀ x, x ∈ anc → x ∈ anc') → (∀ x, x ∈ anc' → x = k ∨ x ∈ anc) →
  walk (<[k := i]> infos) anc' here l stop.
Proof.
  intros Hw. revert anc'. induction Hw as [anc here Hin|anc here Hn Hd|anc here info l stop Hn Hi Hw IH];
    intros anc' Hk Hstop Hsub Hsup.
  - apply walk_seen. by apply Hsub.
  - apply walk_dead; [intros [?|?]%Hsup; congruence|]. by rewrite lookup_insert_ne.
  - apply not_elem_of_cons in Hk as [Hne Hk]. econstructor.
    + intros [?|?]%Hsup; congruence.
    + by rewrite lookup_insert_ne.
    + apply IH; [done|done| |]; intros x Hx; set_solver.
Qed.

Section Parent.
Context {F : Type} (self : bytes).
Implicit Types (r : router F).

Definition root_of (infos : gmap bytes routerInfo) (pk : bytes) : bytes := fst (getRootAndDists infos pk).

(** A neighbour that responded, is known and does not hang below us. *)
Definition candidate (r : router F) (pk : bytes) : Prop :=
  is_Some (r_responses r !! pk) ∧ is_Some (r_infos r !! pk) ∧ self ∉ backwardsAncestry (r_infos r) pk.

(** What the choice is at any point of the loop. *)
Definition choice_sound (r : router F) (best : choice) : Prop :=
  (ch_root best = self ∧ ch_parent best = self) ∨
  (key_less (ch_root best) self = true ∧
   (ch_parent best = info_parent (selfInfo self r) ∨
    candidate r (ch_parent best) ∧ ch_root best = root_of (r_infos r) (ch_parent best))).

Lemma fix_current_sound r : choice_sound r (fix_current self r).
Proof.
  unfold fix_current. destruct (r_peers r !! _); [|by left].
  destruct (getRootAndDists _ _) as [root dists]. destruct (key_less root self) eqn:Hl; [|by left].
  right. split; [done|]. by left.
Qed.

(** A candidate's root is one of its ancestors, so it is not us. *)
Lemma candidate_root r pk : candidate r pk → root_of (r_infos r) pk ≠ self.
Proof.
  intros (_ & Hk & Hn) E. apply Hn. unfold root_of in E.
  destruct (walk_exists (r_infos r) pk) as (l & stop & Hw).
  rewrite (getRootAndDists_walk _ _ _ _ Hw) in E. rewrite (backwardsAncestry_walk _ _ _ _ Hw).
  destruct (walk_head _ _ _ _ Hw) as [[Hnone _]|[_ Hhead]]; [by rewrite Hnone in Hk; destruct Hk|].
  simpl in E. destruct (last l) as [x|] eqn:Hl.
  - simpl in E. subst x. rewrite last_lookup in Hl. by eapply list_elem_of_lookup_2.
  - apply last_None in Hl as ->. done.
Qed.

(** One step keeps the choice sound, never makes the root worse, and ends with a
    root no worse than the candidate's. *)
Lemma fix_step_sound r best pk :
  is_Some (r_responses r !! pk) → choice_sound r best →
  let best' := fix_step self r best pk in
  choice_sound r best' ∧
  (ch_root best' = ch_root best ∨ key_less (ch_root best') (ch_root best) = true) ∧
  (candidate r pk → key_less (root_of (r_infos r) pk) (ch_root best') = false).
Proof.
  intros Hresp Hb. unfold fix_step. destruct (r_infos r !! pk) as [info|] eqn:Hi.
  2:{ simpl. split_and!; [done|by left|]. by intros (_ & [? ?] & _); congruence. }
  pose proof (dists_ancestry (r_infos r) pk self) as Hd. unfold root_of.
  destruct (getRootAndDists (r_infos r) pk) as [pRoot pDists] eqn:Hg. simpl in Hd. simpl fst.
  destruct (decide (is_Some (pDists !! self))) as [Hin|Hnin].
  { simpl. split_and!; [done|by left|]. intros (_ & _ & Hn). by apply Hd in Hin. }
  assert (candidate r pk) as Hc by (split_and!; [done|by eexists|by rewrite <- Hd]).
  assert (root_of (r_infos r) pk = pRoot) as Hroot by (unfold root_of; by rewrite Hg).
  pose proof (candidate_root r pk Hc) as Hne. rewrite Hroot in Hne.
  assert (∀ cost, key_less pRoot self = true → choice_sound r (Choice pRoot pk cost)) as Hnew.
  { intros cost Hl. right. split; [done|]. right. by split. }
  set (cost := link_cost r _ pk). cbv zeta.
  destruct (key_less pRoot (ch_root best)) eqn:Hl.
  - assert (key_less pRoot self = true) as Hls.
    { destruct Hb as [[<- _]|[Hb _]]; [done|by eapply key_less_trans]. }
    simpl. destruct (_ || _); simpl; (split_and!; [by apply Hnew|by right|intros _; apply key_less_irrefl]).
  - destruct (bool_decide (pRoot = ch_root best)) eqn:He; simpl.
    + apply bool_decide_eq_true in He. destruct (_ || _); simpl.
      * split_and!; [|by left|intros _; apply key_less_irrefl].
        apply Hnew. destruct Hb as [[E _]|[Hb _]]; [congruence|by rewrite He].
      * split_and!; [done|by left|]. intros _. rewrite He. apply key_less_irrefl.
    + by split_and!; [|left|].
Qed.

Lemma fix_fold_sound r l best :
  (∀ pk, pk ∈ l → is_Some (r_responses r !! pk)) → choice_sound r best →
  let best' := foldl (fix_step self r) best l in
  choice_sound r best' ∧
  (ch_root best' = ch_root best ∨ key_less (ch_root best') (ch_root best) = true) ∧
  ∀ pk, pk ∈ l → candidate r pk → key_less (root_of (r_infos r) pk) (ch_root best') = false.
Proof.
  revert best. induction l as [|pk l IH]; intros best Hl Hb; simpl.
  { split_and!; [done|by left|]. by intros pk ?%not_elem_of_nil. }
  destruct (fix_step_sound r best pk) as (Hs & Hle & Hc); [apply Hl; set_solver|done|].
  destruct (IH (fix_step self r best pk)) as (Hs' & Hle' & Hall); [set_solver|done|].
  split_and!; [done| |].
  - destruct Hle as [E|E], Hle' as [E'|E']; rewrite ?E', ?E in *; auto. right. by eapply key_less_trans.
  - intros x [->|Hx]%elem_of_cons Hcx; [|by apply Hall]. specialize (Hc Hcx).
    destruct Hle' as [->|E']; [done|].
    destruct (key_less (root_of _ pk) (ch_root (foldl _ _ l))) eqn:E; [|done].
    by rewrite (key_less_trans _ _ _ E E') in Hc.
Qed.

Lemma fix_choose_sound r order :
  (∀ l, order l ≡ₚ l) →
  let best := fix_choose self order r in
  choice_sound r best ∧ ∀ pk, candidate r pk → key_less (root_of (r_infos r) pk) (ch_root best) = false.
Proof.
  intros Ho. destruct (fix_fold_sound r (order (map_to_list (r_responses r)).*1) (fix_current self r))
    as (Hs & _ & Hall).
  - intros pk. rewrite Ho. intros [[k rs] [-> Hin%elem_of_map_to_list]]%list_elem_of_fmap. by eexists.
  - apply fix_current_sound.
  - split; [done|]. intros pk Hc. apply Hall; [|done]. rewrite Ho.
    destruct Hc as ([rs Hrs] & _). apply list_elem_of_fmap. exists (pk, rs). split; [done|].
    by apply elem_of_map_to_list.
Qed.

Lemma sendReqs_infos nonces r : r_infos (fst (sendReqs self nonces r)) = r_infos r.
Proof.
  assert (∀ l r0 out, r_infos (fst (foldl (sendReqs_step self nonces) (r0, out) l)) = r_infos r0) as Hfold.
  { intros l. induction l as [|[pk ps] l IH]; intros r0 out; [done|]. simpl. by rewrite IH. }
  unfold sendReqs. by rewrite Hfold.
Qed.

Context `{Ed25519} (sk : bytes).

Lemma fix_alone_infos dr r r' out :
  fix_alone sk self dr r = Ok (r', out) →
  r_infos r' = r_infos r ∨ ∃ i, r_infos r' = <[self := i]> (r_infos r) ∧ info_parent i = self.
Proof.
  unfold fix_alone. destruct (r_doRoot2 r); [|by destruct (negb _); intros [= <- <-]; left].
  unfold becomeRoot. rewrite routerSigRes_bytesForSig_eq. cbn [mbind res_bind].
  destruct (routerAnnounce_check _) as [[]| |]; cbn [mbind res_bind negb]; [|done..].
  match goal with |- context [router_update ?a r] => set (ann := a) end.
  destruct (router_update ann r) as [[] r1] eqn:Hu; [|done]. simpl negb. cbv iota. intros [= E].
  apply (f_equal fst) in E. cbn [fst] in E. subst r'.
  apply update_accepted in Hu as [Hu _]. right. exists (ann_info ann).
  unfold fix_done. by rewrite sendReqs_infos.
Qed.

Lemma router_fix_infos dr r r' out :
  router_fix sk self dr r = Ok (r', out) →
  let best := fix_choose self (dr_order dr) r in
  r_infos r' = r_infos r ∨
  (∃ i, r_infos r' = <[self := i]> (r_infos r) ∧ info_parent i = self) ∨
  (∃ i, r_infos r' = <[self := i]> (r_infos r) ∧ info_parent i = ch_parent best ∧ ch_root best ≠ self).
Proof.
  unfold router_fix. set (best := fix_choose _ _ _).
  assert (∀ r1 out1, fix_alone sk self dr r = Ok (r1, out1) → r_infos r1 = r_infos r ∨
    (∃ i, r_infos r1 = <[self := i]> (r_infos r) ∧ info_parent i = self) ∨
    (∃ i, r_infos r1 = <[self := i]> (r_infos r) ∧ info_parent i = ch_parent best ∧ ch_root best ≠ self)) as Halone.
  { intros r1 out1 Ha. destruct (fix_alone_infos _ _ _ _ Ha); auto. }
  destruct (_ || _); [|intros [= <- <-]; by left].
  destruct (r_responses r !! ch_parent best) as [rs|]; [|apply Halone].
  destruct (bool_decide (ch_root best = self)) eqn:Hroot; [apply Halone|].
  apply bool_decide_eq_false in Hroot. unfold useResponse. rewrite routerSigRes_bytesForSig_eq.
  cbn [mbind res_bind negb]. match goal with |- context [router_update ?a r] => set (ann := a) end.
  destruct (router_update ann r) as [[] r1] eqn:Hu.
  - intros [= E]. apply (f_equal fst) in E. cbn [fst] in E. subst r'.
    apply update_accepted in Hu as [Hu _]. right. right. exists (ann_info ann).
    unfold fix_done. by rewrite sendReqs_infos.
  - apply update_rejected in Hu as [-> _]. apply Halone.
Qed.

(** C23: fix_parent_sound.  The choice of a parent changes no announcement but our
    own.  When it replaces our parent by another node than ourselves, that node
    is a neighbour that answered our request, it does not hang below us, its root
    has a lower key than ours and than that of no other such neighbour, and our
    new ancestry is exactly ours on top of its ancestry: the change makes no loop
    and we now share its root. *)
Theorem fix_parent_sound dr r r' out :
  (∀ l, dr_order dr l ≡ₚ l) → is_Some (r_infos r !! self) →
  router_fix sk self dr r = Ok (r', out) →
  (∀ k, k ≠ self → r_infos r' !! k = r_infos r !! k) ∧
  let parent := info_parent (selfInfo self r) in
  let parent' := info_parent (selfInfo self r') in
  (parent' = parent ∨ parent' = self ∨
   candidate r parent' ∧
   key_less (root_of (r_infos r) parent') self = true ∧
   (∀ pk, candidate r pk → key_less (root_of (r_infos r) pk) (root_of (r_infos r) parent') = false) ∧
   backwardsAncestry (r_infos r') self = self :: backwardsAncestry (r_infos r) parent' ∧
   root_of (r_infos r') self = root_of (r_infos r) parent').
Proof.
  intros Ho Hself Hf. destruct (fix_choose_sound r (dr_order dr) Ho) as [Hsound Hmin].
  pose proof (router_fix_infos dr r r' out Hf) as Hcase. simpl in Hcase.
  set (best := fix_choose self (dr_order dr) r) in *.
  destruct Hcase as [E|[(i & E & Hp)|(i & E & Hp & Hne)]].
  { split; [by rewrite E|]. left. unfold selfInfo. by rewrite E. }
  { split; [intros k Hk; by rewrite E, lookup_insert_ne|]. right. left. unfold selfInfo.
    by rewrite E, lookup_insert_eq. }
  split; [intros k Hk; by rewrite E, lookup_insert_ne|].
  assert (info_parent (selfInfo self r') = ch_parent best) as Hpar
    by (unfold selfInfo; by rewrite E, lookup_insert_eq).
  cbv zeta. rewrite Hpar.
  destruct Hsound as [[? _]|[Hless [Hcur|[Hc Hroot]]]]; [done|by left|]. right. right.
  rewrite <- Hroot. split_and!; [done|done|done| |].
  all: destruct (walk_exists (r_infos r) (ch_parent best)) as (l & stop & Hw);
    pose proof Hc as (_ & Hk & Hn); rewrite (backwardsAncestry_walk _ _ _ _ Hw) in Hn.
  all: assert (stop ≠ self) as Hstop by (intros ->; destruct (walk_ends _ _ _ _ _ Hw) as [Hin|Hnone];
    [done|rewrite Hnone in Hself; by destruct Hself]).
  all: assert (walk (r_infos r') [] self (self :: l) stop) as Hw'
    by (rewrite E; econstructor; [apply not_elem_of_nil|by rewrite lookup_insert_eq|];
        rewrite Hp; apply (walk_avoid _ self i [] _ _ _ _ Hw); [done|done|set_solver|set_solver]).
  - by rewrite (backwardsAncestry_walk _ _ _ _ Hw'), (backwardsAncestry_walk _ _ _ _ Hw).
  - rewrite Hroot. unfold root_of. rewrite (getRootAndDists_walk _ _ _ _ Hw'), (getRootAndDists_walk _ _ _ _ Hw).
    simpl fst. destruct (walk_head _ _ _ _ Hw) as [[Hnone _]|[_ Hhead]]; [by rewrite Hnone in Hk; destruct Hk|].
    destruct l as [|x l]; [done|]. by rewrite last_cons_cons.
Qed.
End Parent.

(** ** Delivery on a common tree *)

Section Delivery.
Context {F : Type} (net : bytes → router F) (orders : bytes → list peer → list peer).

(** A packet on its way: each node hands it to the next one, until it is
    delivered ([Some], with the node) or the path is broken. *)
Fixpoint route (fuel : nat) (node : bytes) (tr : traffic) : option (bytes * traffic) :=
  match fuel with
  | O => None
  | S fuel =>
      match snd (router_handleTraffic node (orders node) tr (net node)) with
      | TrafficForward p tr => route fuel (peer_key p) tr
      | TrafficDeliver tr => Some (node, tr)
      | TrafficBroken _ => None
      end
  end.

Context (infos : gmap bytes routerInfo) (root : bytes).

(** All routers hold the same announcements, which form a tree, and neighbours
    in the tree are connected. *)
Record network_ok : Prop := {
  nw_tree : converged infos root;
  nw_node : ∀ n, is_Some (infos !! n) →
    r_infos (net n) = infos ∧ cache_ok infos (r_cache (net n)) ∧ filed (r_peers (net n)) ∧
    (∀ l, orders n l ≡ₚ l);
  nw_links : ∀ n nb, is_Some (infos !! n) → tree_neighbour infos n nb → nb ≠ n →
    ∃ ps, r_peers (net n) !! nb = Some ps ∧ ps ≠ [];
  nw_known : ∀ n nb ps, is_Some (infos !! n) → r_peers (net n) !! nb = Some ps → is_Some (infos !! nb);
}.

(** The next hop of node [n] towards [d]. *)
Lemma lookup_hop n d w :
  network_ok → is_Some (infos !! n) → is_Some (infos !! d) → distTo infos (coords infos d) n < w →
  ∃ next cache, router_lookup n (r_infos (net n)) (r_peers (net n)) (r_lags (net n)) (orders n) (r_cache (net n))
      (coords infos d) (Some w) = (next, Some (distTo infos (coords infos d) n), cache) ∧ cache_ok infos cache ∧
    if decide (n = d) then next = None
    else ∃ p, next = Some p ∧ is_Some (infos !! peer_key p) ∧
      distTo infos (coords infos d) (peer_key p) < distTo infos (coords infos d) n.
Proof.
  intros Hnet Hn Hd Hw. destruct (nw_node Hnet n Hn) as (Hi & Hc & Hf & Ho). rewrite Hi.
  destruct (router_lookup _ _ _ _ _ _ _ _) as [[next w'] cache'] eqn:Hl. exists next, cache'.
  pose proof (view_lookup_spec (View n infos (r_peers (net n)) (r_lags (net n)) (r_cache (net n)) (orders n))
    (coords infos d) w next w' cache' ltac:(by split) Hl) as [Hc' Hs].
  unfold selfDist in Hs. simpl in Hs. rewrite decide_True in Hs by done. destruct Hs as [-> Hs].
  split; [done|]. split; [done|]. destruct (decide (n = d)) as [->|Hne].
  - destruct next as [p|]; [|done].
    destruct Hs as [_ Hlt]. exfalso. unfold distTo in Hlt.
    pose proof (treeDist_nonneg (coords infos (peer_key p)) (coords infos d)).
    rewrite (proj2 (treeDist_0 (coords infos d) (coords infos d)) eq_refl) in Hlt. lia.
  - destruct next as [p|].
    + destruct Hs as [(ps & Hps & Hp) Hlt]. exists p. split; [done|]. split; [|done].
      by eapply (nw_known Hnet n).
    + exfalso. pose proof (nw_tree Hnet) as Hcv.
      destruct (closer_neighbour infos root Hcv n d) as (nb & Hnb & _ & Hlt);
        [by apply Hcv|by apply Hcv|done|].
      destruct (nw_links Hnet n nb Hn Hnb) as (ps & Hps & Hne'); [intros ->; lia|].
      specialize (Hs nb ps Hps Hne'). lia.
Qed.

Lemma handleTraffic_hop n d tr :
  network_ok → is_Some (infos !! n) → is_Some (infos !! d) →
  tr_path tr = coords infos d → tr_dest tr = d → distTo infos (coords infos d) n < tr_watermark tr →
  let tr' := set_watermark (distTo infos (coords infos d) n) tr in
  if decide (n = d) then snd (router_handleTraffic n (orders n) tr (net n)) = TrafficDeliver tr'
  else ∃ p, snd (router_handleTraffic n (orders n) tr (net n)) = TrafficForward p tr' ∧
    is_Some (infos !! peer_key p) ∧ distTo infos (coords infos d) (peer_key p) < distTo infos (coords infos d) n.
Proof.
  intros Hnet Hn Hd Hpath Hdest Hw. destruct (lookup_hop n d _ Hnet Hn Hd Hw) as (next & cache & Hl & _ & Hs).
  unfold router_handleTraffic. rewrite Hpath, Hl. simpl. destruct (decide (n = d)) as [->|Hne].
  - subst next. by rewrite decide_True.
  - destruct Hs as (p & -> & Hp & Hlt). by exists p.
Qed.

Lemma route_delivers n d tr fuel :
  network_ok → is_Some (infos !! n) → is_Some (infos !! d) →
  tr_path tr = coords infos d → tr_dest tr = d → distTo infos (coords infos d) n < tr_watermark tr →
  distTo infos (coords infos d) n < Z.of_nat fuel →
  ∃ w, route fuel n tr = Some (d, set_watermark w tr).
Proof.
  intros Hnet Hn Hd. revert n tr Hn. induction fuel as [|fuel IH]; intros n tr Hn Hpath Hdest Hw Hfuel.
  { pose proof (treeDist_nonneg (coords infos n) (coords infos d)). unfold distTo in Hfuel. lia. }
  simpl. pose proof (handleTraffic_hop n d tr Hnet Hn Hd Hpath Hdest Hw) as Hhop. cbv zeta in Hhop.
  destruct (decide (n = d)) as [->|Hne].
  - rewrite Hhop. by eexists.
  - destruct Hhop as (p & -> & Hp & Hlt).
    destruct (IH (peer_key p) (set_watermark (distTo infos (coords infos d) n) tr)) as [w Hr]; [done..|simpl; lia|lia|].
    exists w. by rewrite Hr.
Qed.

(** greedy_routing_delivers.  When all routers know the same announcements,
    these form a tree whose nodes gave their children different ports, and
    neighbours in the tree are connected, then a packet that carries the path of
    its destination is delivered there, unchanged but for the watermark, from any
    node, over no more hops than the distance in the tree; whatever the latencies,
    the order in which candidates are visited and the cached paths are. *)
Theorem greedy_routing_delivers n d tr fuel :
  network_ok → is_Some (infos !! n) → is_Some (infos !! d) →
  tr_path tr = coords infos d → tr_dest tr = d → distTo infos (coords infos d) n < tr_watermark tr →
  distTo infos (coords infos d) n < Z.of_nat fuel →
  ∃ w, route fuel n tr = Some (d, set_watermark w tr).
Proof. apply route_delivers. Qed.
End Delivery.

(** ** The network of four nodes

    The tree of [TreeWitness]: [nA] and [nS] hang below [nR], [nB] below [nA]. *)
Module RoutingWitness.
Import TreeWitness.

(** Prove a decidable fact about concrete keys. *)
Ltac by_eval := apply (bool_decide_unpack _); vm_compute; exact I.

Lemma infos4_cases k i :
  infos4 !! k = Some i →
  (k = nR ∧ i = mk_info nR 0) ∨ (k = nA ∧ i = mk_info nR 1) ∨ (k = nB ∧ i = mk_info nA 1) ∨ (k = nS ∧ i = mk_info nR 3).
Proof.
  unfold infos4. rewrite !lookup_insert_Some, lookup_empty. naive_solver.
Qed.

Ltac four H := apply infos4_cases in H as [[-> ->]|[[-> ->]|[[-> ->]|[-> ->]]]].

Lemma walk_R anc : nR ∉ anc → walk infos4 anc nR [nR] nR.
Proof. intros Hn. econstructor; [done|reflexivity|]. apply walk_seen. set_solver. Qed.

Lemma rooted4 k : is_Some (infos4 !! k) → rooted infos4 nR k.
Proof.
  intros [i Hi]. four Hi.
  - exists [nR]. split; [apply walk_R, not_elem_of_nil|done].
  - exists [nA; nR]. split; [|done]. econstructor; [apply not_elem_of_nil|reflexivity|]. apply walk_R. by_eval.
  - exists [nB; nA; nR]. split; [|done]. econstructor; [apply not_elem_of_nil|reflexivity|].
    econstructor; [by_eval|reflexivity|]. apply walk_R. by_eval.
  - exists [nS; nR]. split; [|done]. econstructor; [apply not_elem_of_nil|reflexivity|]. apply walk_R. by_eval.
Qed.

Lemma converged4 : converged infos4 nR.
Proof.
  split.
  - by exists (mk_info nR 0).
  - apply rooted4.
  - intros k1 k2 i1 i2 H1 H2 N1 N2 Hp Hport. four H1; four H2; try done.
Qed.

Definition peers4 (n : bytes) : gmap bytes (list peer) :=
  if decide (n = nR) then <[nA := [Peer 0 nA 1 0 0]]> (<[nS := [Peer 1 nS 3 0 1]]> ∅)
  else if decide (n = nA) then <[nR := [Peer 0 nR 2 0 0]]> (<[nB := [Peer 1 nB 1 0 1]]> ∅)
  else if decide (n = nB) then <[nA := [Peer 0 nA 1 0 0]]> ∅
  else <[nR := [Peer 0 nR 1 0 0]]> ∅.

Definition net4 (n : bytes) : router unit := set_peers (peers4 n) (set_infos infos4 router_init).

Lemma peers4_entry n k ps : peers4 n !! k = Some ps → ∃ p, ps = [p] ∧ peer_key p = k ∧ is_Some (infos4 !! k).
Proof.
  unfold peers4. repeat case_decide; rewrite ?lookup_insert_Some, lookup_empty; intros Hk;
    repeat match goal with
    | H : _ ∨ _ |- _ => destruct H
    | H : _ ∧ _ |- _ => destruct H
    end; subst; try done; (eexists; split; [done|split; [done|by eexists]]).
Qed.

Lemma network4 : network_ok net4 (λ _, id) infos4 nR.
Proof.
  split.
  - apply converged4.
  - intros n _. split; [done|]. split; [intros k path; simpl; by rewrite lookup_empty|]. split; [|done].
    intros k ps p (q & -> & <- & _)%peers4_entry ->%list_elem_of_singleton. done.
  - intros n nb [i0 Hn] [(i & Hi & <-)|(i & Hi & <-)] Hne; four Hi; try done;
      eexists; (split; [vm_compute; reflexivity|done]).
  - intros n nb ps _ (q & _ & _ & Hk)%peers4_entry. done.
Qed.

(** From [nS] to [nB]: over [nR] and [nA], three hops. *)
Lemma greedy_routing_delivers_witness :
  ∃ w, route net4 (λ _, id) 4 nS (Traffic (coords infos4 nB) [] nS nB max_u64 [7]) =
    Some (nB, set_watermark w (Traffic (coords infos4 nB) [] nS nB max_u64 [7])).
Proof.
  apply (greedy_routing_delivers net4 (λ _, id) infos4 nR nS nB); simpl.
  - apply network4.
  - by eexists.
  - by eexists.
  - done.
  - done.
  - vm_compute. reflexivity.
  - vm_compute. reflexivity.
Defined.

(** Two announcements of [nS] reach two routers in different orders. *)
Definition annS (seq nonce : Z) : routerAnnounce :=
  RouterAnnounce nS nR (RouterSigRes (RouterSigReq seq nonce) 3 []) [].

Lemma announces_converge_witness :
  r_infos (updates [annS 2 5; annS 2 4] (net4 nR)) = r_infos (updates [annS 2 4; annS 2 5; annS 2 4] (net4 nR)).
Proof.
  apply (announces_converge (net4 nR)).
  - intros k i Hi. simpl in Hi. by four Hi.
  - by repeat constructor.
  - intros a. set_solver.
  - assert (∀ k i, offered (r_infos (net4 nR)) [annS 2 5; annS 2 4] k i →
      k = nS ∧ (i = mk_info nR 3 ∨ i = ann_info (annS 2 5) ∨ i = ann_info (annS 2 4)) ∨
      k = nR ∧ i = mk_info nR 0 ∨ k = nA ∧ i = mk_info nR 1 ∨ k = nB ∧ i = mk_info nA 1) as Hcases.
    { intros k i [Hi|(a & Ha & <- & <-)]; [simpl in Hi; four Hi; tauto|].
      left. split; [|repeat (apply elem_of_cons in Ha as [->|Ha]; [tauto|]); by apply not_elem_of_nil in Ha].
      by repeat (apply elem_of_cons in Ha as [->|Ha]; [done|]); apply not_elem_of_nil in Ha. }
    intros k i j Hi%Hcases Hj%Hcases. naive_solver.
Defined.

Definition linkAtoR : peer := Peer 0 nR 2 0 0.
Definition linkRtoA : peer := Peer 0 nA 1 0 0.
Definition rA0 : router unit := set_sent (<[nR := ∅]> ∅) (net4 nA).
Definition rR0 : router unit :=
  set_infos (<[nS := ann_info (annS 2 5)]> infos4) (set_sent (<[nA := ∅]> ∅) (net4 nR)).

(** [nA] tells [nR] about the old announcement of [nS] and learns the new one. *)
Lemma announce_exchange_settles_witness :
  ∃ rR out, router_handleAnnounce nR linkRtoA (getAnnounce (mk_info nR 3) nS) rR0 = Ok (rR, out) ∧
    ((out = [] ∧ r_infos rR !! nS = Some (mk_info nR 3)) ∨
     (∃ b rA', r_infos rR0 !! nS = Some b ∧ outranks b (mk_info nR 3) = true ∧ r_infos rR = r_infos rR0 ∧
        out = [OutAnnounce linkRtoA (getAnnounce b nS)] ∧
        router_handleAnnounce nA linkAtoR (getAnnounce b nS) rA0 = Ok (rA', []) ∧ r_infos rA' !! nS = Some b)).
Proof.
  apply (announce_exchange_settles nA nR linkRtoA linkAtoR nS rA0 rR0 (mk_info nR 3)).
  - by eexists.
  - by eexists.
  - intros k i Hi. simpl in Hi. by four Hi.
  - intros k i Hi. simpl in Hi. apply lookup_insert_Some in Hi as [[<- <-]|[_ Hi]]; [done|]. by four Hi.
  - reflexivity.
  - intros b. change (r_infos rR0) with (<[nS := ann_info (annS 2 5)]> infos4).
    rewrite lookup_insert_eq. by intros [= <-].
Defined.

(** [nS], for now its own root, is offered [nA] (whose root is [nR]) as a parent. *)
Definition rS0 : router unit :=
  set_responses (<[nA := RouterSigRes (RouterSigReq 2 7) 4 []]> ∅)
    (set_peers (<[nA := [Peer 0 nA 1 0 0]]> ∅) (set_infos (<[nS := mk_info nS 0]> infos4) router_init)).

Import ToySig.
Lemma fix_parent_sound_witness :
  ∃ r' out, router_fix (replicate 64 4) nS (Draws 1 (λ _, 2) id) rS0 = Ok (r', out) ∧
    info_parent (selfInfo nS r') = nA ∧ root_of (r_infos r') nS = nR.
Proof.
  assert (Hrun : match router_fix (replicate 64 4) nS (Draws 1 (λ _, 2) id) rS0 with
                 | Ok (r', _) => info_parent (selfInfo nS r') = nA | _ => False end) by (vm_compute; reflexivity).
  destruct (router_fix (replicate 64 4) nS (Draws 1 (λ _, 2) id) rS0) as [[r' out]| |] eqn:E;
    [|destruct Hrun..].
  exists r', out. split; [reflexivity|]. split; [exact Hrun|].
  destruct (fix_parent_sound nS (replicate 64 4) (Draws 1 (λ _, 2) id) rS0 r' out) as [_ Hc].
  - reflexivity.
  - by eexists.
  - exact E.
  - cbv zeta in Hc. rewrite Hrun in Hc. destruct Hc as [Hc|[Hc|(_ & _ & _ & _ & ->)]].
    + exfalso. revert Hc. vm_compute. discriminate.
    + exfalso. revert Hc. vm_compute. discriminate.
    + vm_compute. reflexivity.
Defined.
End RoutingWitness.
