(* ===== verification/Pathfinder.v ===== *)
(** * Path discovery (third_party/ironwood/network/pathfinder.go)

    The pathfinder runs in the router's actor: lookups are multicast along the
    tree to the nodes whose filter matches, a node that matches answers with a
    signed notification of its own path, the answer stores the path, and packets
    that waited are sent; a broken path is reported back to the sender.  Messages
    to other nodes and calls of other parts are outputs.  Timers are numbered;
    [OReset] and [OResetRumor] say that a timer was restarted. *)

From S2P Require Import Prelude Binary Wire GoHeap Address Crypto Messages PacketQueue Bloom Tree Router Routing.

Record pathInfo := PathInfo {
  pa_path : list Z;
  pa_seq : Z;
  pa_reqTime : Z;
  pa_timer : nat;
  pa_traffic : option traffic;
  pa_broken : bool;
}.

Record pathRumor := PathRumor { ru_traffic : option traffic; ru_sendTime : Z; ru_timer : nat }.

Record pathfinder := Pathfinder {
  pf_info : pathNotifyInfo;
  pf_paths : gmap bytes pathInfo;
  pf_rumors : gmap bytes pathRumor;
  pf_logging : bool;
  pf_nextTimer : nat;
}.

Inductive pf_out :=
| OLog (lookup : pathLookup)
| OLookup (p : peer) (lookup : pathLookup)
| ONotify (p : peer) (notify : pathNotify)
| OBroken (p : peer) (broken : pathBroken)
| OTraffic (p : peer) (tr : traffic)
| OSelf (tr : traffic)
| ODeliver (tr : traffic)
| OFound (key : bytes)
| OReset (key : bytes)
| OResetRumor (xform : bytes).

Section Pathfinder.
Context {F : Type} `{BloomFilter F} `{Ed25519}.
Context (sk self : bytes) (transform : bytes → bytes).
(** The configured throttle in nanoseconds, the time of the event in nanoseconds
    since 1970, and the order in which Go visits candidates. *)
Context (pathThrottle now : Z) (order : list peer → list peer).

(** ** A monad for the actor's state and outputs *)

Definition pst : Type := router F * pathfinder.
Definition PF (A : Type) : Type := pst → res iw_error (A * pst * list pf_out).

#[export] Instance PF_ret : MRet PF := λ A a st, Ok (a, st, []).
#[export] Instance PF_bind : MBind PF := λ A B f m st,
  match m st with
  | Ok (a, st, out) =>
      match f a st with
      | Ok (b, st, out') => Ok (b, st, out ++ out')
      | Err e => Err e
      | Panic => Panic
      end
  | Err e => Err e
  | Panic => Panic
  end.

Definition get_pf : PF pathfinder := λ st, Ok (snd st, st, []).
Definition get_router : PF (router F) := λ st, Ok (fst st, st, []).
Definition put_pf (pf : pathfinder) : PF unit := λ st, Ok ((), (fst st, pf), []).
Definition emit (out : list pf_out) : PF unit := λ st, Ok ((), st, out).
Definition stop : PF unit := mret ().
Definition panic {A} : PF A := λ _, Panic.

Definition put_path (key : bytes) (info : pathInfo) : PF unit :=
  pf ← get_pf;
  put_pf (Pathfinder (pf_info pf) (<[key := info]> (pf_paths pf)) (pf_rumors pf) (pf_logging pf) (pf_nextTimer pf)).

Definition put_rumor (xform : bytes) (rumor : pathRumor) : PF unit :=
  pf ← get_pf;
  put_pf (Pathfinder (pf_info pf) (pf_paths pf) (<[xform := rumor]> (pf_rumors pf)) (pf_logging pf) (pf_nextTimer pf)).

Definition put_info (info : pathNotifyInfo) : PF unit :=
  pf ← get_pf;
  put_pf (Pathfinder info (pf_paths pf) (pf_rumors pf) (pf_logging pf) (pf_nextTimer pf)).

(** [time.AfterFunc] *)
Definition new_timer : PF nat :=
  pf ← get_pf;
  _ ← put_pf (Pathfinder (pf_info pf) (pf_paths pf) (pf_rumors pf) (pf_logging pf) (S (pf_nextTimer pf)));
  mret (pf_nextTimer pf).

(** ** The calls of the router *)

Definition pf_xKey (key : bytes) : bytes := copy (replicate PublicKeySize 0) (transform key).

(** The next hop, and the watermark as [_lookup] leaves it. *)
Definition next_hop (path : list Z) (watermark : Z) : PF (option peer * Z) := λ st,
  let r := fst st in
  let '(next, w, cache) :=
    router_lookup self (r_infos r) (r_peers r) (r_lags r) order (r_cache r) path (Some watermark) in
  Ok ((next, default watermark w), (set_cache cache r, snd st), []).

Definition own_path : PF (list Z) :=
  r ← get_router; mret (snd (getRootAndPath (r_infos r) self)).

Definition pf_multicast (lookup : pathLookup) (fromKey toKey : bytes) : PF unit := λ st,
  match sendMulticast (bloomEnv self transform (fst st)) (r_blooms (fst st)) fromKey toKey with
  | Ok ps => Ok ((), st, (λ p, OLookup p lookup) <$> ps)
  | _ => Panic
  end.

(** ** The operations *)

(** [pathfinder.init] *)
Definition pf_init : pathfinder :=
  Pathfinder (pathNotifyInfo_sign (PathNotifyInfo 0 [] []) sk) ∅ ∅ false 0.

Definition with_watermark (w : Z) (n : pathNotify) : pathNotify :=
  PathNotify (notify_path n) w (notify_source n) (notify_dest n) (notify_info n).

(** [_handleNotify] once a path is accepted: [info] is the entry to store. *)
Definition store_path (deferred : traffic → PF unit) (notify : pathNotify) (info : pathInfo) : PF unit :=
  let stored := PathInfo (pni_path (notify_info notify)) (pni_seq (notify_info notify)) (pa_reqTime info)
    (pa_timer info) None false in
  _ ← put_path (notify_source notify) stored;
  _ ← emit [OFound (notify_source notify)];
  match pa_traffic info with
  | Some tr => deferred tr
  | None => stop
  end.

(** An answer for a key that is known. *)
Definition notify_known (deferred : traffic → PF unit) (notify : pathNotify) (info : pathInfo) : PF unit :=
  if pni_seq (notify_info notify) <=? pa_seq info then stop
  else
    let nfo := PathNotifyInfo (pni_seq (notify_info notify)) (pa_path info) (pni_sig (notify_info notify)) in
    if pathNotifyInfo_equal nfo (notify_info notify) then stop
    else if negb (pathNotify_check notify) then stop
    else
      _ ← emit [OReset (notify_source notify)];
      store_path deferred notify info.

(** An answer for a key that is not known is used only if we asked for it. *)
Definition notify_new (deferred : traffic → PF unit) (notify : pathNotify) : PF unit :=
  pf ← get_pf;
  let xform := pf_xKey (notify_source notify) in
  match pf_rumors pf !! xform with
  | None => stop
  | Some rumor =>
      if negb (pathNotify_check notify) then stop
      else
        timer ← new_timer;
        match ru_traffic rumor with
        | Some tr =>
            if decide (tr_dest tr = notify_source notify) then
              _ ← put_rumor xform (PathRumor None (ru_sendTime rumor) (ru_timer rumor));
              store_path deferred notify (PathInfo [] 0 now timer (Some tr) false)
            else store_path deferred notify (PathInfo [] 0 now timer None false)
        | None => store_path deferred notify (PathInfo [] 0 now timer None false)
        end
  end.

(** [_handleNotify]; the call that the code defers is the argument. *)
Definition pf_handleNotify (deferred : traffic → PF unit) (notify : pathNotify) : PF unit :=
  '(next, w) ← next_hop (notify_path notify) (notify_watermark notify);
  let notify := with_watermark w notify in
  match next with
  | Some p => emit [ONotify p notify]
  | None =>
      if negb (bool_decide (notify_dest notify = self)) then stop
      else
        pf ← get_pf;
        match pf_paths pf !! notify_source notify with
        | Some info => notify_known deferred notify info
        | None => notify_new deferred notify
        end
  end.

(** The answer to a lookup that matches this node. *)
Definition pf_respond (deferred : traffic → PF unit) (lookup : pathLookup) : PF unit :=
  path ← own_path;
  pf ← get_pf;
  let info := PathNotifyInfo (u64 (now / 1000000000)) path [] in
  if negb (pathNotifyInfo_equal (pf_info pf) info) then
    let info := pathNotifyInfo_sign info sk in
    _ ← put_info info;
    pf_handleNotify deferred (PathNotify (Messages.lookup_from lookup) max_u64 self (lookup_source lookup) info)
  else pf_handleNotify deferred (PathNotify (Messages.lookup_from lookup) max_u64 self (lookup_source lookup) (pf_info pf)).

Definition pf_handleLookup (deferred : traffic → PF unit) (fromKey : bytes) (lookup : pathLookup) : PF unit :=
  pf ← get_pf;
  _ ← emit (if pf_logging pf then [OLog lookup] else []);
  _ ← pf_multicast lookup fromKey (lookup_dest lookup);
  if decide (pf_xKey (lookup_dest lookup) = pf_xKey self) then pf_respond deferred lookup else stop.

Definition pf_sendLookup (deferred : traffic → PF unit) (dest : bytes) : PF unit :=
  pf ← get_pf;
  let send :=
    from ← own_path;
    pf_handleLookup deferred self (PathLookup self dest from) in
  match pf_paths pf !! dest with
  | Some info => if now - pa_reqTime info <? pathThrottle then stop else send
  | None => send
  end.

Definition pf_rumorSendLookup (deferred : traffic → PF unit) (dest : bytes) : PF unit :=
  pf ← get_pf;
  let xform := pf_xKey dest in
  match pf_rumors pf !! xform with
  | Some rumor =>
      if now - ru_sendTime rumor <? pathThrottle then stop
      else
        _ ← put_rumor xform (PathRumor (ru_traffic rumor) now (ru_timer rumor));
        _ ← emit [OResetRumor xform];
        pf_sendLookup deferred dest
  | None =>
      timer ← new_timer;
      _ ← put_rumor xform (PathRumor None now timer);
      pf_sendLookup deferred dest
  end.

Definition with_paths (path from : list Z) (tr : traffic) : traffic :=
  Traffic path from (tr_source tr) (tr_dest tr) (tr_watermark tr) (tr_payload tr).

(** The packet is sent along the known path and kept for the next one; the call of
    the router's [handleTraffic] is a message to the same actor. *)
Definition traffic_known (tr : traffic) (info : pathInfo) : PF unit :=
  from ← own_path;
  let tr := with_paths (pa_path info) from tr in
  _ ← put_path (tr_dest tr)
        (PathInfo (pa_path info) (pa_seq info) (pa_reqTime info) (pa_timer info) (Some tr) (pa_broken info));
  emit [OSelf tr].

(** [_handleTraffic] calls itself, through the answer to its own lookup: the
    recursion has fuel. *)
Fixpoint pf_handleTraffic (fuel : nat) (tr : traffic) : PF unit :=
  match fuel with
  | O => panic
  | S fuel =>
      pf ← get_pf;
      match pf_paths pf !! tr_dest tr with
      | Some info => traffic_known tr info
      | None =>
          _ ← pf_rumorSendLookup (pf_handleTraffic fuel) (tr_dest tr);
          pf ← get_pf;
          let xform := pf_xKey (tr_dest tr) in
          match pf_rumors pf !! xform with
          | Some rumor => put_rumor xform (PathRumor (Some tr) (ru_sendTime rumor) (ru_timer rumor))
          | None => panic
          end
      end
  end.

(** The deferred call. *)
Abbreviation pf_deferred := (pf_handleTraffic 2).

Definition pf_handleBroken (broken : pathBroken) : PF unit :=
  '(next, w) ← next_hop (broken_path broken) (broken_watermark broken);
  let broken := PathBroken (broken_path broken) w (broken_source broken) (broken_dest broken) in
  match next with
  | Some p => emit [OBroken p broken]
  | None =>
      if negb (bool_decide (broken_source broken = self)) then stop
      else
        pf ← get_pf;
        match pf_paths pf !! broken_dest broken with
        | Some info =>
            _ ← put_path (broken_dest broken)
                  (PathInfo (pa_path info) (pa_seq info) (pa_reqTime info) (pa_timer info) (pa_traffic info) true);
            pf_sendLookup pf_deferred (broken_dest broken)
        | None => stop
        end
  end.

Definition pf_doBroken (tr : traffic) : PF unit :=
  pf_handleBroken (PathBroken (tr_from tr) max_u64 (tr_source tr) (tr_dest tr)).

Definition pf_resetTimeout (key : bytes) : PF unit :=
  pf ← get_pf;
  match pf_paths pf !! key with
  | Some info => if negb (pa_broken info) then emit [OReset key] else stop
  | None => stop
  end.

(** The functions of the timers. *)
Definition path_expires (key : bytes) (timer : nat) : PF unit :=
  pf ← get_pf;
  match pf_paths pf !! key with
  | Some info =>
      if decide (pa_timer info = timer) then
        put_pf (Pathfinder (pf_info pf) (delete key (pf_paths pf)) (pf_rumors pf) (pf_logging pf) (pf_nextTimer pf))
      else stop
  | None => stop
  end.

Definition rumor_expires (xform : bytes) (timer : nat) : PF unit :=
  pf ← get_pf;
  match pf_rumors pf !! xform with
  | Some rumor =>
      if decide (ru_timer rumor = timer) then
        put_pf (Pathfinder (pf_info pf) (pf_paths pf) (delete xform (pf_rumors pf)) (pf_logging pf) (pf_nextTimer pf))
      else stop
  | None => stop
  end.

(** The router's [handleTraffic] with its calls of the pathfinder. *)
Definition router_traffic (tr : traffic) : PF unit := λ st,
  let '(r, act) := router_handleTraffic self order tr (fst st) in
  let m := match act with
    | TrafficForward p tr => emit [OTraffic p tr]
    | TrafficDeliver tr => _ ← pf_resetTimeout (tr_source tr); emit [ODeliver tr]
    | TrafficBroken tr => pf_doBroken tr
    end in
  m (r, snd st).

(** The messages and calls that the actor handles. *)
Inductive pf_event :=
| PfTraffic (tr : traffic)
| PfSend (tr : traffic)
| PfSendLookup (key : bytes)
| PfLookup (p : peer) (lookup : pathLookup)
| PfNotify (notify : pathNotify)
| PfBroken (broken : pathBroken)
| PfPathTimer (key : bytes) (timer : nat)
| PfRumorTimer (xform : bytes) (timer : nat)
| PfSetLogger.

Definition pf_step (ev : pf_event) : PF unit :=
  match ev with
  | PfTraffic tr => router_traffic tr
  | PfSend tr => pf_handleTraffic 3 tr
  | PfSendLookup key => pf_rumorSendLookup pf_deferred (copy (replicate PublicKeySize 0) key)
  | PfLookup p lookup => λ st,
      if negb (isOnTree (r_blooms (fst st)) (peer_key p)) then stop st
      else pf_handleLookup pf_deferred (peer_key p) lookup st
  | PfNotify notify => pf_handleNotify pf_deferred notify
  | PfBroken broken => pf_handleBroken broken
  | PfPathTimer key timer => path_expires key timer
  | PfRumorTimer xform timer => rumor_expires xform timer
  | PfSetLogger =>
      pf ← get_pf; put_pf (Pathfinder (pf_info pf) (pf_paths pf) (pf_rumors pf) true (pf_nextTimer pf))
  end.

(** ** Reasoning about the monad

    [spec m st Q]: [m] ends without a panic from [st], with a result, a state and
    outputs that [Q] holds of. *)
Definition spec {A} (m : PF A) (st : pst) (Q : A → pst → list pf_out → Prop) : Prop :=
  ∃ a st' out, m st = Ok (a, st', out) ∧ Q a st' out.

Lemma spec_bind {A B} (m : PF A) (f : A → PF B) st Q :
  spec m st (λ a st1 out1, spec (f a) st1 (λ b st2 out2, Q b st2 (out1 ++ out2))) → spec (m ≫= f) st Q.
Proof.
  intros (a & st1 & out1 & Hm & b & st2 & out2 & Hf & HQ). exists b, st2, (out1 ++ out2). split; [|done].
  unfold mbind, PF_bind. by rewrite Hm, Hf.
Qed.

Lemma spec_ok {A} (m : PF A) st a st' out (Q : A → pst → list pf_out → Prop) :
  m st = Ok (a, st', out) → Q a st' out → spec m st Q.
Proof. intros Hm HQ. by exists a, st', out. Qed.

Lemma spec_weaken {A} (m : PF A) st (Q Q' : A → pst → list pf_out → Prop) :
  spec m st Q → (∀ a st' out, Q a st' out → Q' a st' out) → spec m st Q'.
Proof. intros (a & st' & out & Hm & HQ) Hw. exists a, st', out. eauto. Qed.
End Pathfinder.

(** Run one primitive of the monad. *)
Ltac pf_run := first [apply spec_bind|idtac]; eapply spec_ok; [reflexivity|]; cbn [fst snd].

(** ** The invariant of the pathfinder *)

Section PathfinderOk.
Context {F : Type} `{BloomFilterLaws F} `{Ed25519Laws}.
Context (sk self : bytes) (transform : bytes → bytes) (pathThrottle : Z).

Abbreviation xform := (pf_xKey transform).

(** A path that the node [k] signed. *)
Definition signed_path (k : bytes) (seq : Z) (path : list Z) : Prop :=
  ∃ sig, publicKey_verify k (pathNotifyInfo_bytesForSig (PathNotifyInfo seq path sig)) sig = true.

Record pf_ok (pf : pathfinder) : Prop := {
  po_signed : ∀ k info, pf_paths pf !! k = Some info → signed_path k (pa_seq info) (pa_path info);
  po_dest : ∀ k info tr, pf_paths pf !! k = Some info → pa_traffic info = Some tr → tr_dest tr = k;
  po_rumor : ∀ x rumor tr, pf_rumors pf !! x = Some rumor → ru_traffic rumor = Some tr → xform (tr_dest tr) = x;
  po_own : signed_path self (pni_seq (pf_info pf)) (pni_path (pf_info pf)) ∧
    publicKey_verify self (pathNotifyInfo_bytesForSig (pf_info pf)) (pni_sig (pf_info pf)) = true;
}.

(** The part of the router that the pathfinder relies on. *)
Definition router_covers (r : router F) : Prop := peers_cover (bloomEnv self transform r) (r_blooms r).

Definition st_ok (st : pst (F := F)) : Prop := router_covers (fst st) ∧ pf_ok (snd st).

(** The packets that wait for a path. *)
Definition waiting (pf : pathfinder) (tr : traffic) : Prop :=
  (∃ k info, pf_paths pf !! k = Some info ∧ pa_traffic info = Some tr) ∨
  (∃ x rumor, pf_rumors pf !! x = Some rumor ∧ ru_traffic rumor = Some tr).

(** The same packet, with other paths. *)
Definition same_packet (tr tr' : traffic) : Prop := ∃ path from, tr' = with_paths path from tr.

(** A set of packets, whatever paths they have, to which all that wait belong. *)
Context (W : traffic → Prop) (HW : ∀ path from tr, W tr → W (with_paths path from tr)).

Definition held (pf : pathfinder) : Prop := ∀ tr, waiting pf tr → W tr.

Definition ok (st : pst (F := F)) : Prop := st_ok st ∧ held (snd st).

(** What every operation but a timer does: it keeps what is known, and of the
    router it changes only the cache. *)
Definition grows (st st' : pst (F := F)) : Prop :=
  (∀ k, is_Some (pf_paths (snd st) !! k) → is_Some (pf_paths (snd st') !! k)) ∧
  (∀ x, is_Some (pf_rumors (snd st) !! x) → is_Some (pf_rumors (snd st') !! x)) ∧
  ∃ cache, fst st' = set_cache cache (fst st).

Lemma grows_refl st : grows st st.
Proof. split_and!; [done..|]. exists (r_cache (fst st)). by destruct st as [[] ?]. Qed.

Lemma grows_trans st1 st2 st3 : grows st1 st2 → grows st2 st3 → grows st1 st3.
Proof. intros (H1a & H1b & c1 & H1c) (H2a & H2b & c2 & H2c). split_and!; [auto..|]. exists c2. by rewrite H2c, H1c. Qed.

Lemma covers_cache cache r : router_covers r → router_covers (set_cache cache r).
Proof. done. Qed.

(** Keys of which an output says that their path was found are known, and a
    packet goes out only along a path that its destination signed. *)
Definition found_known (pf : pathfinder) (out : list pf_out) : Prop :=
  (∀ k, OFound k ∈ out → is_Some (pf_paths pf !! k)) ∧
  ∀ tr, OSelf tr ∈ out → W tr ∧ ∃ seq, signed_path (tr_dest tr) seq (tr_path tr).

Definition good (st : pst (F := F)) : unit → pst (F := F) → list pf_out → Prop := λ _ st' out,
  ok st' ∧ grows st st' ∧ found_known (snd st') out.

Lemma good_trans st st1 out1 a st2 out2 : grows st st1 → found_known (snd st1) out1 → good st1 a st2 out2 → good st a st2 (out1 ++ out2).
Proof.
  intros Hg Hf (Hok & Hg2 & Hf2). split; [done|]. split; [by eapply grows_trans|].
  split; [|intros tr [Htr|Htr]%elem_of_app; [by apply Hf|by apply Hf2]].
  intros k [Hk|Hk]%elem_of_app; [|by apply Hf2]. apply Hg2. by apply Hf.
Qed.

Lemma found_nil pf : found_known pf [].
Proof. split; by intros k ?%not_elem_of_nil. Qed.

Lemma good_refl st out : ok st → found_known (snd st) out → good st () st out.
Proof. intros Hok Hf. split; [done|]. split; [apply grows_refl|done]. Qed.

Lemma spec_good_bind {A} (m : PF A) (f : A → PF unit) st :
  spec m st (λ a st1 out1, grows st st1 ∧ found_known (snd st1) out1 ∧ spec (f a) st1 (good st1)) →
  spec (m ≫= f) st (good st).
Proof.
  intros Hm. apply spec_bind. eapply spec_weaken; [exact Hm|]. intros a st1 out1 (Hg & Hf & Hs).
  eapply spec_weaken; [exact Hs|]. intros b st2 out2. by apply good_trans.
Qed.

(** A step that is known to go well. *)
Lemma spec_good_ok {A} (m : PF A) (f : A → PF unit) st a st1 out1 :
  m st = Ok (a, st1, out1) → grows st st1 → found_known (snd st1) out1 → spec (f a) st1 (good st1) →
  spec (m ≫= f) st (good st).
Proof. intros Hm Hg Hf Hs. apply spec_good_bind. by eapply spec_ok. Qed.

(** ** Every operation keeps the invariant *)

Context (Hsk : priv_ok sk) (Hself : self = ed_Public sk).
Context (now : Z) (order : list peer → list peer).

Lemma insert_is_Some {A} (m : gmap bytes A) k x j : is_Some (m !! j) → is_Some (<[k := x]> m !! j).
Proof. intros Hj. destruct (decide (k = j)) as [->|]; [rewrite lookup_insert_eq|rewrite lookup_insert_ne]; by eauto. Qed.

Lemma set_cache_id (r : router F) : r = set_cache (r_cache r) r.
Proof. by destruct r. Qed.

Lemma held_path pf k info :
  held pf → (∀ tr, pa_traffic info = Some tr → W tr) →
  held (Pathfinder (pf_info pf) (<[k := info]> (pf_paths pf)) (pf_rumors pf) (pf_logging pf) (pf_nextTimer pf)).
Proof.
  intros Hh Hi tr [(j & i & Hj & Ht)|(x & ru & Hx & Ht)]; simpl in *; [|apply Hh; right; by exists x, ru].
  apply lookup_insert_Some in Hj as [[<- <-]|[_ Hj]]; [by apply Hi|]. apply Hh. left. by exists j, i.
Qed.

Lemma held_rumor pf x rumor :
  held pf → (∀ tr, ru_traffic rumor = Some tr → W tr) →
  held (Pathfinder (pf_info pf) (pf_paths pf) (<[x := rumor]> (pf_rumors pf)) (pf_logging pf) (pf_nextTimer pf)).
Proof.
  intros Hh Hi tr [(j & i & Hj & Ht)|(y & ru & Hy & Ht)]; simpl in *; [apply Hh; left; by exists j, i|].
  apply lookup_insert_Some in Hy as [[<- <-]|[_ Hy]]; [by apply Hi|]. apply Hh. right. by exists y, ru.
Qed.

Lemma held_delete_path pf k :
  held pf → held (Pathfinder (pf_info pf) (delete k (pf_paths pf)) (pf_rumors pf) (pf_logging pf) (pf_nextTimer pf)).
Proof.
  intros Hh tr [(j & i & Hj & Ht)|?]; apply Hh; [left|by right]. exists j, i. simpl in Hj.
  by apply lookup_delete_Some in Hj as [_ ?].
Qed.

Lemma held_delete_rumor pf x :
  held pf → held (Pathfinder (pf_info pf) (pf_paths pf) (delete x (pf_rumors pf)) (pf_logging pf) (pf_nextTimer pf)).
Proof.
  intros Hh tr [?|(y & ru & Hy & Ht)]; apply Hh; [by left|right]. exists y, ru. simpl in Hy.
  by apply lookup_delete_Some in Hy as [_ ?].
Qed.

Lemma put_path_good st k info :
  ok st → signed_path k (pa_seq info) (pa_path info) → (∀ tr, pa_traffic info = Some tr → tr_dest tr = k ∧ W tr) →
  let st' := (fst st, Pathfinder (pf_info (snd st)) (<[k := info]> (pf_paths (snd st))) (pf_rumors (snd st))
                       (pf_logging (snd st)) (pf_nextTimer (snd st))) in
  put_path k info st = Ok ((), st', []) ∧ ok st' ∧ grows st st' ∧ is_Some (pf_paths (snd st') !! k).
Proof.
  intros [[Hr [Hs Hd Hu Ho]] Hw] Hk Ht st'. subst st'. split; [done|]. split; [|split].
  - split; [|apply held_path; [done|]; intros tr Htr; by apply Ht].
    split; [done|]. split; simpl; try done.
    + intros j i [[<- <-]|[_ Hj]]%lookup_insert_Some; [done|by apply Hs].
    + intros j i tr [[<- <-]|[_ Hj]]%lookup_insert_Some; [by apply Ht|by apply Hd].
  - split_and!; simpl; [intros j; apply insert_is_Some|done|]. eexists. apply set_cache_id.
  - simpl. rewrite lookup_insert_eq. by eexists.
Qed.

Lemma put_rumor_good st x rumor :
  ok st → (∀ tr, ru_traffic rumor = Some tr → xform (tr_dest tr) = x ∧ W tr) →
  let st' := (fst st, Pathfinder (pf_info (snd st)) (pf_paths (snd st)) (<[x := rumor]> (pf_rumors (snd st)))
                       (pf_logging (snd st)) (pf_nextTimer (snd st))) in
  put_rumor x rumor st = Ok ((), st', []) ∧ ok st' ∧ grows st st' ∧ is_Some (pf_rumors (snd st') !! x).
Proof.
  intros [[Hr [Hs Hd Hu Ho]] Hw] Ht st'. subst st'. split; [done|]. split; [|split].
  - split; [|apply held_rumor; [done|]; intros tr Htr; by apply Ht].
    split; [done|]. split; simpl; try done.
    intros j i tr [[<- <-]|[_ Hj]]%lookup_insert_Some; [by apply Ht|by apply Hu].
  - split_and!; simpl; [done|intros j; apply insert_is_Some|]. eexists. apply set_cache_id.
  - simpl. rewrite lookup_insert_eq. by eexists.
Qed.

Definition deferred_ok (deferred : traffic → PF (F := F) unit) : Prop :=
  ∀ tr st, ok st → W tr → is_Some (pf_paths (snd st) !! tr_dest tr) → spec (deferred tr) st (good st).

Lemma stop_good st : ok st → spec stop st (good st).
Proof. intros Hok. eapply spec_ok; [reflexivity|]. by apply good_refl; [|apply found_nil]. Qed.

Lemma emit_good st out : ok st → found_known (snd st) out → spec (emit out) st (good st).
Proof. intros Hok Hf. eapply spec_ok; [reflexivity|]. by apply good_refl. Qed.

Lemma get_pf_good st f : spec (f (snd st)) st (good st) → spec (get_pf ≫= f) st (good st).
Proof. intros Hs. eapply spec_good_ok; [reflexivity|apply grows_refl|apply found_nil|done]. Qed.

Lemma own_path_good st f :
  spec (f (snd (getRootAndPath (r_infos (fst st)) self))) st (good st) → spec (own_path self ≫= f) st (good st).
Proof. intros Hs. eapply spec_good_ok; [reflexivity|apply grows_refl|apply found_nil|done]. Qed.

Lemma emit_bind_good st out f :
  found_known (snd st) out → spec (f ()) st (good st) → spec (emit out ≫= f) st (good st).
Proof. intros Hf Hs. eapply spec_good_ok; [reflexivity|apply grows_refl|done|done]. Qed.

(** Outputs of the other kinds. *)
Definition quiet (o : pf_out) : bool := match o with OFound _ | OSelf _ => false | _ => true end.

Lemma no_found pf out : forallb quiet out = true → found_known pf out.
Proof. rewrite forallb_forall. intros Hn. split; intros k Hk%list_elem_of_In%Hn; done. Qed.

Lemma next_hop_good st path w f :
  ok st → (∀ a st1, ok st1 → snd st1 = snd st → spec (f a) st1 (good st1)) →
  spec (next_hop self order path w ≫= f) st (good st).
Proof.
  intros [[Hr Hp] Hw] Hf.
  assert (∃ a cache, next_hop self order path w st = Ok (a, (set_cache cache (fst st), snd st), [])) as (a & cache & Hn).
  { unfold next_hop. destruct (router_lookup _ _ _ _ _ _ _ _) as [[next w'] cache]. by eexists _, _. }
  eapply spec_good_ok; [exact Hn| |apply found_nil|by apply Hf].
  split_and!; [done..|]. by exists cache.
Qed.

Lemma store_path_good deferred notify info st :
  ok st → deferred_ok deferred → pathNotify_check notify = true →
  (∀ tr, pa_traffic info = Some tr → tr_dest tr = notify_source notify ∧ W tr) →
  spec (store_path deferred notify info) st (good st).
Proof.
  intros Hok Hdef Hc Ht. unfold store_path.
  destruct (put_path_good st (notify_source notify) (PathInfo (pni_path (notify_info notify)) (pni_seq (notify_info notify))
    (pa_reqTime info) (pa_timer info) None false) Hok) as (Hp & Hok1 & Hg & Hk).
  { exists (pni_sig (notify_info notify)). unfold pathNotify_check in Hc. by destruct (notify_info notify). }
  { done. }
  eapply spec_good_ok; [exact Hp|exact Hg|apply found_nil|]. apply emit_bind_good.
  { split; [by intros k [= ->]%list_elem_of_singleton|by intros tr ?%list_elem_of_singleton]. }
  destruct (pa_traffic info) as [tr|] eqn:E; [|by apply stop_good].
  destruct (Ht tr eq_refl) as [Hd Hw]. apply Hdef; [done..|]. by rewrite Hd.
Qed.

Lemma new_timer_good st f :
  ok st →
  (∀ t st1, ok st1 → fst st1 = fst st → pf_paths (snd st1) = pf_paths (snd st) → pf_rumors (snd st1) = pf_rumors (snd st) →
     spec (f t) st1 (good st1)) →
  spec (new_timer ≫= f) st (good st).
Proof.
  intros [[Hr [Hs Hd Hu Ho]] Hw] Hf. eapply spec_good_ok; [reflexivity| |apply found_nil|].
  - split_and!; [done..|]. eexists. apply set_cache_id.
  - apply Hf; [split; [split; [done|by split]|exact Hw]|done..].
Qed.

Lemma check_watermark w notify : pathNotify_check (with_watermark w notify) = pathNotify_check notify.
Proof. done. Qed.

Lemma handleNotify_good deferred notify st :
  ok st → deferred_ok deferred → spec (pf_handleNotify self transform now order deferred notify) st (good st).
Proof.
  intros Hok Hdef. unfold pf_handleNotify. apply next_hop_good; [done|]. intros [next w] st1 Hok1 _. cbv zeta.
  destruct next as [p|]; [apply emit_good; [done|]; by apply no_found|].
  destruct (negb _); [by apply stop_good|]. apply get_pf_good. cbn [with_watermark notify_source].
  destruct (pf_paths (snd st1) !! notify_source notify) as [info|] eqn:Hinfo.
  - unfold notify_known. destruct (_ <=? _); [by apply stop_good|]. cbv zeta. destruct (pathNotifyInfo_equal _ _); [by apply stop_good|].
    destruct (pathNotify_check _) eqn:Hc; [|by apply stop_good]. cbn [negb].
    apply emit_bind_good; [by apply no_found|].
    apply store_path_good; [done..|]. intros tr Htr. split; [by apply (po_dest _ (proj2 (proj1 Hok1)) _ _ _ Hinfo)|].
    apply Hok1. left. by exists (notify_source notify), info.
  - unfold notify_new. apply get_pf_good. cbv zeta. cbn [with_watermark notify_source].
    destruct (pf_rumors (snd st1) !! _) as [rumor|] eqn:Hru; [|by apply stop_good].
    destruct (pathNotify_check _) eqn:Hc; [|by apply stop_good]. cbn [negb].
    apply new_timer_good; [done|]. intros t st2 Hok2 _ _ Hr2.
    destruct (ru_traffic rumor) as [tr|] eqn:Htr; [|by apply store_path_good].
    destruct (decide _) as [E|]; [|by apply store_path_good].
    destruct (put_rumor_good st2 (xform (notify_source notify)) (PathRumor None (ru_sendTime rumor) (ru_timer rumor)) Hok2)
      as (Hp & Hok3 & Hg & _); [done|].
    eapply spec_good_ok; [exact Hp|exact Hg|apply found_nil|]. apply store_path_good; [done..|].
    intros tr' [= <-]. split; [done|]. apply Hok1. right. by eexists _, rumor.
Qed.

Lemma put_info_good st info f :
  ok st → publicKey_verify self (pathNotifyInfo_bytesForSig info) (pni_sig info) = true →
  (∀ st1, ok st1 → spec (f ()) st1 (good st1)) → spec (put_info info ≫= f) st (good st).
Proof.
  intros [[Hr [Hs Hd Hu Ho]] Hw] Hv Hf. eapply spec_good_ok; [reflexivity| |apply found_nil|].
  - split; [done|]. split; [done|]. eexists. apply set_cache_id.
  - apply Hf. split; [|exact Hw]. split; [done|]. split; simpl; try done. split; [|done]. exists (pni_sig info). by destruct info.
Qed.

Lemma multicast_good st lookup fromKey f :
  ok st → spec (f ()) st (good st) →
  spec (pf_multicast self transform lookup fromKey (lookup_dest lookup) ≫= f) st (good st).
Proof.
  intros [[Hr Hp] Hw] Hf. destruct (multicast_recipients _ _ fromKey (lookup_dest lookup) Hr) as (sent & Hsent & _).
  eapply spec_good_ok; [unfold pf_multicast; by rewrite Hsent|apply grows_refl| |done].
  apply no_found, forallb_forall. intros o (q & <- & _)%in_map_iff. done.
Qed.

Lemma sign_info_ok info :
  publicKey_verify self (pathNotifyInfo_bytesForSig (pathNotifyInfo_sign info sk)) (pni_sig (pathNotifyInfo_sign info sk)) = true.
Proof. rewrite Hself. unfold pathNotifyInfo_sign. simpl. apply privateKey_sign_verify. apply Hsk. Qed.

Lemma respond_good deferred lookup st :
  ok st → deferred_ok deferred → spec (pf_respond sk self transform now order deferred lookup) st (good st).
Proof.
  intros Hok Hdef. unfold pf_respond. apply own_path_good, get_pf_good. cbv zeta.
  destruct (negb _); [|by apply handleNotify_good].
  apply put_info_good; [done|apply sign_info_ok|]. intros st1 Hok1. by apply handleNotify_good.
Qed.

Lemma handleLookup_good deferred fromKey lookup st :
  ok st → deferred_ok deferred → spec (pf_handleLookup sk self transform now order deferred fromKey lookup) st (good st).
Proof.
  intros Hok Hdef. unfold pf_handleLookup. apply get_pf_good. apply emit_bind_good.
  { apply no_found. by case_match. }
  apply multicast_good; [done|]. case_decide; [by apply respond_good|by apply stop_good].
Qed.

Lemma sendLookup_good deferred dest st :
  ok st → deferred_ok deferred →
  spec (pf_sendLookup sk self transform pathThrottle now order deferred dest) st (good st).
Proof.
  intros Hok Hdef. unfold pf_sendLookup. apply get_pf_good. cbv zeta.
  repeat case_match; try (by apply stop_good); apply own_path_good; by apply handleLookup_good.
Qed.

(** Afterwards the key is asked for. *)
Lemma rumorSendLookup_good deferred dest st :
  ok st → deferred_ok deferred →
  spec (pf_rumorSendLookup sk self transform pathThrottle now order deferred dest) st
    (λ a st' out, good st a st' out ∧ is_Some (pf_rumors (snd st') !! xform dest)).
Proof.
  intros Hok Hdef. unfold pf_rumorSendLookup. apply spec_bind. eapply spec_ok; [reflexivity|]. cbv zeta.
  destruct (pf_rumors (snd st) !! xform dest) as [rumor|] eqn:Hru.
  - destruct (_ <? _).
    { eapply spec_ok; [reflexivity|]. split; [by apply good_refl; [|apply found_nil]|by eexists]. }
    destruct (put_rumor_good st (xform dest) (PathRumor (ru_traffic rumor) now (ru_timer rumor)) Hok)
      as (Hp & Hok1 & Hg & Hk); [intros tr Htr; split; [by apply (po_rumor _ (proj2 (proj1 Hok)) _ _ _ Hru)|apply Hok; right; by eexists _, rumor]|].
    apply spec_bind. eapply spec_ok; [exact Hp|]. apply spec_bind. eapply spec_ok; [reflexivity|].
    eapply spec_weaken; [by apply sendLookup_good|]. intros a st2 out2 Hgood. split; [|by apply Hgood].
    eapply (good_trans st _ [] a st2 (OResetRumor (xform dest) :: out2)); [exact Hg|apply found_nil|].
    eapply (good_trans _ _ [OResetRumor (xform dest)] a st2 out2); [apply grows_refl| |exact Hgood].
    by apply no_found.
  - set (st1 := (fst st, Pathfinder (pf_info (snd st)) (pf_paths (snd st)) (pf_rumors (snd st)) (pf_logging (snd st))
      (S (pf_nextTimer (snd st)))) : pst (F := F)).
    assert (ok st1) as Hok1 by (destruct Hok as [[? []] ?]; split; [split; [done|by split]|done]).
    assert (grows st st1) as Hg1 by (split; [done|]; split; [done|]; eexists; apply set_cache_id).
    destruct (put_rumor_good st1 (xform dest) (PathRumor None now (pf_nextTimer (snd st))) Hok1)
      as (Hp & Hok2 & Hg2 & Hk); [done|].
    apply spec_bind. eapply (spec_ok _ _ _ st1); [reflexivity|]. apply spec_bind. eapply spec_ok; [exact Hp|].
    eapply spec_weaken; [by apply sendLookup_good|]. intros a st3 out3 Hgood. split; [|by apply Hgood].
    eapply (good_trans st st1 [] a st3 out3); [exact Hg1|apply found_nil|].
    eapply (good_trans st1 _ [] a st3 out3); [exact Hg2|apply found_nil|exact Hgood].
Qed.

Lemma traffic_known_good tr info st :
  ok st → W tr → pf_paths (snd st) !! tr_dest tr = Some info → spec (traffic_known self tr info) st (good st).
Proof.
  intros Hok Hw Hi. unfold traffic_known. apply own_path_good. cbv zeta. cbn [with_paths tr_dest].
  match goal with |- spec (put_path ?k ?i ≫= _) _ _ => destruct (put_path_good st k i Hok) as (Hp & Hok1 & Hg & _) end.
  - by apply (po_signed _ (proj2 (proj1 Hok))) in Hi.
  - intros tr' [= <-]. split; [done|]. by apply HW.
  - eapply spec_good_ok; [exact Hp|exact Hg|apply found_nil|]. apply emit_good; [done|].
    split; [by intros k ?%list_elem_of_singleton|]. intros tr' [= ->]%list_elem_of_singleton. split; [by apply HW|].
    exists (pa_seq info). by apply (po_signed _ (proj2 (proj1 Hok))) in Hi.
Qed.

(** One level of recursion is enough for a packet whose path is known, two are
    enough for every packet. *)
Lemma handleTraffic_known n : deferred_ok (pf_handleTraffic sk self transform pathThrottle now order (S n)).
Proof.
  intros tr st Hok Hw [info Hi]. cbn [pf_handleTraffic]. apply get_pf_good. rewrite Hi. by apply traffic_known_good.
Qed.

Lemma handleTraffic_good n tr st :
  ok st → W tr → spec (pf_handleTraffic sk self transform pathThrottle now order (S (S n)) tr) st (good st).
Proof.
  intros Hok Hw. cbn [pf_handleTraffic]. apply get_pf_good.
  destruct (pf_paths (snd st) !! tr_dest tr) as [info|] eqn:Hi; [by apply traffic_known_good|].
  apply spec_good_bind. eapply spec_weaken; [apply rumorSendLookup_good; [done|apply handleTraffic_known]|].
  intros [] st1 out1 ((Hok1 & Hg & Hf) & [rumor Hru]). split; [done|]. split; [done|]. apply get_pf_good. rewrite Hru.
  destruct (put_rumor_good st1 (xform (tr_dest tr)) (PathRumor (Some tr) (ru_sendTime rumor) (ru_timer rumor)) Hok1)
    as (Hp & Hok2 & Hg2 & _); [by intros tr' [= <-]|].
  eapply spec_ok; [exact Hp|]. split; [done|]. split; [done|apply found_nil].
Qed.

Lemma handleBroken_good broken st :
  ok st → spec (pf_handleBroken sk self transform pathThrottle now order broken) st (good st).
Proof.
  intros Hok. unfold pf_handleBroken. apply next_hop_good; [done|]. intros [next w] st1 Hok1 _. cbv zeta.
  destruct next as [p|]; [apply emit_good; [done|]; by apply no_found|].
  destruct (negb _); [by apply stop_good|]. apply get_pf_good. cbn [broken_dest].
  destruct (pf_paths (snd st1) !! broken_dest broken) as [info|] eqn:Hi; [|by apply stop_good].
  match goal with |- spec (put_path ?k ?i ≫= _) _ _ => destruct (put_path_good st1 k i Hok1) as (Hp & Hok2 & Hg & _) end.
  - by apply (po_signed _ (proj2 (proj1 Hok1))) in Hi.
  - intros tr Htr. split; [by apply (po_dest _ (proj2 (proj1 Hok1)) _ _ _ Hi)|]. apply Hok1. left. by eexists _, info.
  - eapply spec_good_ok; [exact Hp|exact Hg|apply found_nil|]. apply sendLookup_good; [done|]. apply handleTraffic_known.
Qed.

Lemma router_traffic_good tr st :
  ok st → spec (router_traffic sk self transform pathThrottle now order tr) st (good st).
Proof.
  intros Hok. unfold router_traffic, spec. destruct (router_handleTraffic self order tr (fst st)) as [r act] eqn:E.
  assert (∃ cache, r = set_cache cache (fst st)) as [cache ->].
  { unfold router_handleTraffic in E. destruct (router_lookup _ _ _ _ _ _ _ _) as [[next w] cache]. injection E as <- _. by eexists. }
  set (st1 := (set_cache cache (fst st), snd st)). assert (ok st1) as Hok1 by (destruct Hok as [[] ?]; by split; [split|]).
  assert (grows st st1) as Hg by (split; [done|]; split; [done|]; by exists cache).
  match goal with |- ∃ a st' out, ?m st1 = _ ∧ _ => assert (spec m st1 (good st1)) as Hs end.
  { destruct act as [p tr'|tr'|tr'].
    - apply emit_good; [done|]. by apply no_found.
    - apply spec_good_bind. eapply (spec_ok _ _ () st1).
      + unfold pf_resetTimeout. unfold mbind at 1, PF_bind. simpl. instantiate (1 := match pf_paths (snd st) !! tr_source tr' with
          | Some info => if negb (pa_broken info) then [OReset (tr_source tr')] else [] | None => [] end).
        destruct (pf_paths (snd st) !! tr_source tr'); [destruct (negb _)|]; done.
      + split; [apply grows_refl|]. split; [|apply emit_good; [done|]]; apply no_found; by repeat case_match.
    - by apply handleBroken_good. }
  destruct Hs as (a & st' & out & Hm & Hgood). exists a, st', out. split; [exact Hm|].
  by apply (good_trans st st1 []); [|apply found_nil|].
Qed.

(** The expiry of an entry deletes it, everything else only grows. *)
Lemma pf_step_ok ev st :
  ok st → (∀ tr, ev = PfSend tr → W tr) → spec (pf_step sk self transform pathThrottle now order ev) st
    (λ _ st' out, ok st' ∧ found_known (snd st') out ∧ ∃ cache, fst st' = set_cache cache (fst st)).
Proof.
  intros Hok HWev.
  assert (∀ m, spec m st (good st) → spec m st
    (λ _ st' out, ok st' ∧ found_known (snd st') out ∧ ∃ cache, fst st' = set_cache cache (fst st))) as Hgood.
  { intros m Hm. eapply spec_weaken; [exact Hm|]. intros _ st' out (H1' & (_ & _ & H2') & H3'). done. }
  pose proof Hok as [[Hr [Hs Hd Hu Ho]] Hw].
  destruct ev as [tr|tr|key|p lookup|notify|broken|key timer|x timer|]; cbn [pf_step].
  - apply Hgood. by apply router_traffic_good.
  - apply Hgood. apply (handleTraffic_good 1); [done|]. by apply HWev.
  - apply Hgood. eapply spec_weaken; [apply rumorSendLookup_good; [done|apply handleTraffic_known]|]. by intros a st' out [? _].
  - unfold spec. destruct (negb _).
    + eapply (spec_ok stop); [reflexivity|]. split; [done|]. split; [apply found_nil|]. eexists. apply set_cache_id.
    + apply Hgood. apply handleLookup_good; [done|apply handleTraffic_known].
  - apply Hgood. apply handleNotify_good; [done|apply handleTraffic_known].
  - apply Hgood. by apply handleBroken_good.
  - apply spec_bind. eapply spec_ok; [reflexivity|].
    destruct (pf_paths (snd st) !! key); [destruct (decide _)|]; (eapply spec_ok; [reflexivity|]);
      (split; [|split; [apply found_nil|eexists; apply set_cache_id]]); try done.
    split; [|by apply held_delete_path].
    split; [done|]. split; simpl; try done; intros k info; [|intros tr]; rewrite lookup_delete_Some; intros [_ Hk]; eauto.
  - apply spec_bind. eapply spec_ok; [reflexivity|].
    destruct (pf_rumors (snd st) !! x); [destruct (decide _)|]; (eapply spec_ok; [reflexivity|]);
      (split; [|split; [apply found_nil|eexists; apply set_cache_id]]); try done.
    split; [|by apply held_delete_rumor].
    split; [done|]. split; simpl; try done. intros k rumor tr. rewrite lookup_delete_Some. intros [_ Hk]. eauto.
  - apply spec_bind. eapply spec_ok; [reflexivity|]. eapply spec_ok; [reflexivity|].
    split; [|split; [apply found_nil|eexists; apply set_cache_id]]. split; [split; [done|by split]|exact Hw].
Qed.

Lemma pf_init_ok : pf_ok (pf_init sk).
Proof.
  assert (publicKey_verify self (pathNotifyInfo_bytesForSig (pf_info (pf_init sk))) (pni_sig (pf_info (pf_init sk))) = true) as Hv
    by apply (sign_info_ok (PathNotifyInfo 0 [] [])).
  split; try (intros ? ?; simpl; rewrite lookup_empty; done); try (intros ? ? ?; simpl; rewrite lookup_empty; done).
  split; [|exact Hv]. by eexists.
Qed.
End PathfinderOk.

(** The states of the actor: between two events of the pathfinder the rest of the
    router changes in any way that keeps a connection for every filter. *)
Section Reachable.
Context {F : Type} `{BloomFilterLaws F} `{Ed25519Laws}.
Context (sk self : bytes) (transform : bytes → bytes) (pathThrottle : Z).

Inductive pf_reachable : pst (F := F) → Prop :=
| pr_start r : router_covers self transform r → pf_reachable (r, pf_init sk)
| pr_router r r' pf : pf_reachable (r, pf) → router_covers self transform r' → pf_reachable (r', pf)
| pr_step st now order ev st' out :
    pf_reachable st → pf_step sk self transform pathThrottle now order ev st = Ok ((), st', out) → pf_reachable st'.

Lemma pf_reachable_ok st : priv_ok sk → self = ed_Public sk → pf_reachable st → st_ok self transform st.
Proof.
  intros Hsk Hself. induction 1 as [r Hr|r r' pf _ [_ Hp] Hr|st now order ev st' out _ IH Hs].
  - split; [done|]. by apply pf_init_ok.
  - by split.
  - destruct (pf_step_ok sk self transform pathThrottle (λ _, True) (λ _ _ _ _, I) Hsk Hself now order ev st)
      as (a & st1 & out1 & Hs1 & [Hok _] & _); [by split|done|].
    rewrite Hs in Hs1. by injection Hs1 as _ <- _.
Qed.

(** C13: pathfinder_paths_authentic.  Whatever lookups, answers, packets, reports
    and timers a node handles, in any order and at any time, and however the tree
    changes in between, path discovery does not panic, needs no deeper recursion
    than the model has, and stores a path for a key only if that key signed it;
    it says that a key was found only for such keys.  A packet that it sends is
    the one written by the event or one that was waiting, to the same
    destination and with the same source and payload, along a path that this
    destination signed; a packet that waits afterwards is one of these as well,
    kept under its own destination or, while there is no path, under the
    transformed key of its destination. *)
Theorem pathfinder_paths_authentic st now order ev :
  priv_ok sk → self = ed_Public sk → pf_reachable st →
  ∃ st' out, pf_step sk self transform pathThrottle now order ev st = Ok ((), st', out) ∧
    (∀ k info, pf_paths (snd st') !! k = Some info →
       signed_path k (pa_seq info) (pa_path info) ∧ ∀ tr, pa_traffic info = Some tr → tr_dest tr = k) ∧
    (∀ x rumor tr, pf_rumors (snd st') !! x = Some rumor → ru_traffic rumor = Some tr → pf_xKey transform (tr_dest tr) = x) ∧
    (∀ k, OFound k ∈ out → ∃ info, pf_paths (snd st') !! k = Some info ∧ signed_path k (pa_seq info) (pa_path info)) ∧
    (∀ tr', OSelf tr' ∈ out → ∃ tr seq, (ev = PfSend tr ∨ waiting (snd st) tr) ∧ same_packet tr tr' ∧
       signed_path (tr_dest tr) seq (tr_path tr')) ∧
    (∀ tr', waiting (snd st') tr' → ∃ tr, (ev = PfSend tr ∨ waiting (snd st) tr) ∧ same_packet tr tr').
Proof.
  intros Hsk Hself Hr. pose proof (pf_reachable_ok st Hsk Hself Hr) as Hok.
  set (W := λ tr', ∃ tr, (ev = PfSend tr ∨ waiting (snd st) tr) ∧ same_packet tr tr').
  assert (∀ tr, ev = PfSend tr ∨ waiting (snd st) tr → W tr) as Hin.
  { intros tr Htr. exists tr. split; [done|]. exists (tr_path tr), (tr_from tr). by destruct tr. }
  destruct (pf_step_ok sk self transform pathThrottle W) with (now := now) (order := order) (ev := ev) (st := st)
    as ([] & st' & out & Hs & [[_ Hp] Hw] & [Hf Hself'] & _); try done.
  - intros path from tr (tr0 & Htr0 & q & q' & ->). exists tr0. split; [done|]. by exists path, from.
  - split; [done|]. intros tr Htr. apply Hin. by right.
  - intros tr Htr. apply Hin. by left.
  - exists st', out. split_and!; [done|..|done].
    + intros k info Hk. split; [by eapply (po_signed _ _ _ Hp)|]. intros tr. by apply (po_dest _ _ _ Hp).
    + intros x rumor tr. apply (po_rumor _ _ _ Hp).
    + intros k [info Hk]%Hf. exists info. split; [done|]. by eapply (po_signed _ _ _ Hp).
    + intros tr' ((tr & Htr & q & q' & ->) & seq & Hsig)%Hself'. exists tr, seq. split_and!; [done|by exists q, q'|done].
Qed.
End Reachable.

(** ** An answer that brings nothing new *)

Lemma info_equal_refl seq path sig sig' :
  pathNotifyInfo_equal (PathNotifyInfo seq path sig) (PathNotifyInfo seq path sig') = true.
Proof.
  unfold pathNotifyInfo_equal. simpl. rewrite !Z.eqb_refl. simpl. induction path as [|x path IH]; [done|]. simpl. by rewrite Z.eqb_refl.
Qed.

(** An answer with the path that is known already is dropped, also when it is newer
    and was asked for: the key is not reported as found. *)
Theorem known_path_not_announced {F} `{BloomFilter F} `{Ed25519} sk self transform throttle now order notify
    (st st' : pst (F := F)) out info :
  pf_step sk self transform throttle now order (PfNotify notify) st = Ok ((), st', out) →
  pf_paths (snd st) !! notify_source notify = Some info → pa_path info = pni_path (notify_info notify) →
  pf_paths (snd st') = pf_paths (snd st) ∧ ∀ k, OFound k ∉ out.
Proof.
  intros Hstep Hp Hpath. cbn [pf_step] in Hstep. unfold pf_handleNotify, next_hop, mbind, PF_bind in Hstep.
  destruct (router_lookup _ _ _ _ _ _ _ _) as [[next w] cache]. destruct next as [p|].
  - cbn in Hstep. injection Hstep as <- <-. split; [done|]. intros k Hk%list_elem_of_singleton. done.
  - cbn in Hstep. assert (st' = (set_cache cache (fst st), snd st) ∧ out = []) as [-> ->].
    { destruct (bool_decide _); cbn in Hstep; [|by injection Hstep as <- <-].
      rewrite Hp in Hstep. unfold notify_known in Hstep. cbn in Hstep. rewrite Hpath in Hstep.
      destruct (_ <=? _); [by injection Hstep as <- <-|]. destruct (notify_info notify) as [seq path sig]. cbn in Hstep.
      rewrite info_equal_refl in Hstep. by injection Hstep as <- <-. }
    split; [done|]. intros k. apply not_elem_of_nil.
Qed.

(** ** Discovery in a network that has settled *)

Section Discovery.
Context {F : Type} `{BloomFilterLaws F} `{Ed25519Laws}.
Context (transform : bytes → bytes) (pathThrottle : Z).
Context (net : bytes → router F) (pfs : bytes → pathfinder) (sks : bytes → bytes).
Context (orders : bytes → list peer → list peer) (times : bytes → Z).
Context (infos : gmap bytes routerInfo) (root : bytes).

Abbreviation xf := (pf_xKey transform).
Abbreviation dist d n := (distTo infos (coords infos d) n).
Abbreviation node_step n now ev := (pf_step (sks n) n transform pathThrottle now (orders n) ev).

(** Nodes have their own keys and an intact pathfinder; the filters between
    neighbours in the tree match the nodes behind them. *)
Record discovery_ok : Prop := {
  dc_net : network_ok net orders infos root;
  dc_node : ∀ n, is_Some (infos !! n) →
    priv_ok (sks n) ∧ n = ed_Public (sks n) ∧ st_ok n transform (net n, pfs n);
  dc_filters : ∀ n nb d, is_Some (infos !! n) → is_Some (infos !! d) → tree_neighbour infos n nb → dist d nb < dist d n →
    (∃ pbi, r_blooms (net n) !! nb = Some pbi ∧ bi_onTree pbi = true ∧ bf_Test (bi_recv pbi) (xf d) = true) ∧
    isOnTree (r_blooms (net nb)) n = true;
}.

(** [arrives out lk from m]: the lookup [lk], first sent with the outputs [out] of
    node [s], arrives at node [m] on a connection of node [from]. *)
Inductive arrives (s : bytes) (out : list pf_out) (lk : pathLookup) : bytes → bytes → Prop :=
| arrives_first p : OLookup p lk ∈ out → arrives s out lk s (peer_key p)
| arrives_next from m q p st' out' :
    arrives s out lk from m → peer_key q = from →
    node_step m (times m) (PfLookup q lk) (net m, pfs m) = Ok ((), st', out') → OLookup p lk ∈ out' →
    arrives s out lk m (peer_key p).

(** A notification on its way to the node that asked. *)
Fixpoint route_notify (fuel : nat) (node : bytes) (notify : pathNotify) : option (bytes * pathNotify) :=
  match fuel with
  | O => None
  | S fuel =>
      match node_step node (times node) (PfNotify notify) (net node, pfs node) with
      | Ok (_, _, [ONotify p notify]) => route_notify fuel (peer_key p) notify
      | Ok _ => Some (node, notify)
      | _ => None
      end
  end.

Lemma multicast_includes n from k d nb :
  discovery_ok → is_Some (infos !! n) → is_Some (infos !! d) → xf k = xf d → tree_neighbour infos n nb → dist d nb < dist d n →
  nb ≠ from →
  ∃ sent p, sendMulticast (bloomEnv n transform (net n)) (r_blooms (net n)) from k = Ok sent ∧ p ∈ sent ∧ peer_key p = nb.
Proof.
  intros Hdc Hn Hd Hk Hnb Hlt Hne. destruct (dc_filters Hdc n nb d Hn Hd Hnb Hlt) as [(pbi & Hpbi & Hon & Ht) _].
  destruct (dc_node Hdc n Hn) as (_ & _ & [Hcov _]).
  destruct (multicast_recipients _ _ from k Hcov) as (sent & Hs & Hall). exists sent.
  assert ((nb, pbi) ∈ filter (wants (bloomEnv n transform (net n)) from (xKey (bloomEnv n transform (net n)) k)) (map_to_list (r_blooms (net n)))) as Hin.
  { apply list_elem_of_filter. split; [|by apply elem_of_map_to_list]. unfold wants. simpl. split_and!; [done..|].
    change (xKey _ k) with (xf k). by rewrite Hk. }
  apply list_elem_of_lookup in Hin as [i Hi]. destruct (Forall2_lookup_l _ _ _ _ _ Hall Hi) as (p & Hp & ps & Hps & Hin & _).
  exists p. split; [done|]. split; [by eapply list_elem_of_lookup_2|]. simpl in Hps.
  destruct (nw_node _ _ _ _ (dc_net Hdc) n Hn) as (_ & _ & Hf & _). by apply (Hf nb ps p).
Qed.

(** A node that handles a lookup passes it on to every recipient. *)
Lemma handleLookup_sends sk n now deferred from lk st :
  priv_ok sk → n = ed_Public sk → st_ok n transform st → deferred_ok n transform (λ _, True) deferred →
  ∃ st' out sent, pf_handleLookup sk n transform now (orders n) deferred from lk st = Ok ((), st', out) ∧
    sendMulticast (bloomEnv n transform (fst st)) (r_blooms (fst st)) from (lookup_dest lk) = Ok sent ∧
    ∀ p, p ∈ sent → OLookup p lk ∈ out.
Proof.
  intros Hsk Hself Hok Hdef. destruct (multicast_recipients _ _ from (lookup_dest lk) (proj1 Hok)) as (sent & Hs & _).
  assert (spec (pf_handleLookup sk n transform now (orders n) deferred from lk) st (λ _ _ out, ∀ p, p ∈ sent → OLookup p lk ∈ out))
    as ([] & st' & out & Hr & Hout); [|by exists st', out, sent].
  unfold pf_handleLookup. apply spec_bind. eapply spec_ok; [reflexivity|]. apply spec_bind. eapply spec_ok; [reflexivity|].
  apply spec_bind. eapply spec_ok; [unfold pf_multicast; by rewrite Hs|].
  assert (∀ m, spec m st (good n transform (λ _, True) st) → spec m st
    (λ _ _ out2, ∀ p, p ∈ sent → OLookup p lk ∈ [] ++ (if pf_logging (snd st) then [OLog lk] else []) ++ ((λ p, OLookup p lk) <$> sent) ++ out2)) as Hm.
  { intros m Hm. eapply spec_weaken; [exact Hm|]. intros _ _ out2 _ p Hp. simpl. apply elem_of_app. right.
    apply elem_of_app. left. apply list_elem_of_fmap. by exists p. }
  apply Hm. assert (ok n transform (λ _, True) st) as Hok' by (by split).
  case_decide; [by apply respond_good|by apply stop_good].
Qed.

(** The lookup reaches its destination: every node on the way passes it to the
    neighbour that is closer, which is not the one it came from. *)
Lemma lookup_flood s out lk d : discovery_ok → is_Some (infos !! d) → xf (lookup_dest lk) = xf d →
  ∀ from m, is_Some (infos !! from) → is_Some (infos !! m) → tree_neighbour infos from m → dist d m < dist d from →
  arrives s out lk from m →
  ∃ from', arrives s out lk from' d ∧ is_Some (infos !! from') ∧ isOnTree (r_blooms (net d)) from' = true.
Proof.
  intros Hdc Hd Hk from m. remember (Z.to_nat (dist d m)) as k eqn:Ek. revert from m Ek.
  induction k as [k IH] using lt_wf_ind. intros from m Ek Hfrom Hm Hnb Hlt Harr.
  destruct (dc_filters Hdc from m d Hfrom Hd Hnb Hlt) as [_ Hon].
  destruct (decide (m = d)) as [->|Hne]; [by exists from|].
  pose proof (nw_tree _ _ _ _ (dc_net Hdc)) as Hcv.
  destruct (closer_neighbour infos root Hcv m d) as (nb & Htn & Hrt & Hcl); [by apply Hcv|by apply Hcv|done|].
  destruct (dc_node Hdc m Hm) as (Hsk & Hself & Hok).
  destruct (handleLookup_sends (sks m) m (times m) (pf_handleTraffic (sks m) m transform pathThrottle (times m) (orders m) 2) from lk
    (net m, pfs m) Hsk Hself Hok) as (st' & out' & sent & Hr & Hs & Hout); [by apply handleTraffic_known|].
  destruct (multicast_includes m from (lookup_dest lk) d nb Hdc Hm Hd Hk Htn Hcl) as (sent' & p & Hs' & Hp & Hpk); [intros ->; lia|].
  simpl in Hs. rewrite Hs in Hs'. injection Hs' as <-.
  assert (is_Some (infos !! nb)) as Hnbk.
  { destruct (nw_links _ _ _ _ (dc_net Hdc) m nb Hm Htn) as (ps & Hps & _); [intros ->; lia|].
    by eapply (nw_known _ _ _ _ (dc_net Hdc) m). }
  pose proof (treeDist_nonneg (coords infos nb) (coords infos d)) as H0nb.
  eapply (IH (Z.to_nat (dist d nb)) ltac:(unfold distTo in *; lia) m nb); [done..|].
  rewrite <- Hpk. eapply (arrives_next s out lk from m (Peer 0 from 0 0 0) p st' out' Harr eq_refl); [|by apply Hout].
  cbn [pf_step peer_key fst]. rewrite Hon. exact Hr.
Qed.

(** [_lookup] at a node of the network, whatever its cache is. *)
Lemma next_hop_net n d w pf cache :
  discovery_ok → is_Some (infos !! n) → is_Some (infos !! d) → dist d n < w → cache_ok infos cache →
  ∃ next cache', next_hop n (orders n) (coords infos d) w (set_cache cache (net n), pf) =
      Ok ((next, dist d n), (set_cache cache' (net n), pf), []) ∧ cache_ok infos cache' ∧
    if decide (n = d) then next = None
    else ∃ p, next = Some p ∧ is_Some (infos !! peer_key p) ∧ dist d (peer_key p) < dist d n.
Proof.
  intros Hdc Hn Hd Hw Hc. 
  set (net' := λ m, if decide (m = n) then set_cache cache (net n) else net m).
  assert (network_ok net' orders infos root) as Hnet.
  { destruct (dc_net Hdc) as [Ht Hnode Hl Hk]. split; [done| | |]; unfold net'; intros m.
    - intros Hm. destruct (decide (m = n)) as [->|]; [|by apply Hnode]. simpl.
      destruct (Hnode n Hn) as (? & _ & ? & ?). done.
    - intros nb Hm Hnb Hne. destruct (decide (m = n)) as [->|]; by apply Hl.
    - intros nb ps Hm. destruct (decide (m = n)) as [->|]; by apply Hk. }
  destruct (lookup_hop net' orders infos root n d w Hnet Hn Hd Hw) as (next & cache' & Hl & Hc' & Hcase).
  exists next, cache'. split; [|done]. unfold next_hop, net' in *. rewrite decide_True in Hl by done.
  cbn [fst snd]. rewrite Hl. done.
Qed.

Lemma info_equal_path a b : pathNotifyInfo_equal a b = true → pni_path a = pni_path b.
Proof.
  unfold pathNotifyInfo_equal. destruct (negb _); [done|]. destruct (Z.eqb_spec (len (pni_path a)) (len (pni_path b))) as [Hl|]; [|done].
  cbn [negb]. generalize dependent (pni_path b). intros l2. generalize (pni_path a). intros l1. revert l2.
  induction l1 as [|x l1 IH]; intros [|y l2] Hl Hall; try done; unfold len in Hl; simpl in Hl; try lia.
  simpl in Hall. apply andb_true_iff in Hall as [->%Z.eqb_eq Hall]. f_equal. apply IH; [unfold len; lia|done].
Qed.

(** [answer s d p n]: [n] notifies [s] of the path of [d], which signed it, and [p]
    is a connection to a node that is closer to [s] than [d] is. *)
Definition answer (s d : bytes) (p : peer) (n : pathNotify) : Prop :=
  notify_path n = coords infos s ∧ notify_watermark n = dist s d ∧ notify_source n = d ∧ notify_dest n = s ∧
  pni_path (notify_info n) = coords infos d ∧ pathNotify_check n = true ∧
  is_Some (infos !! peer_key p) ∧ dist s (peer_key p) < dist s d.

Lemma notify_sent s d deferred info pf' :
  discovery_ok → is_Some (infos !! s) → is_Some (infos !! d) → s ≠ d → dist s d < max_u64 →
  pni_path info = coords infos d → publicKey_verify d (pathNotifyInfo_bytesForSig info) (pni_sig info) = true →
  spec (pf_handleNotify d transform (times d) (orders d) deferred (PathNotify (coords infos s) max_u64 d s info)) (net d, pf')
    (λ _ _ out, ∃ p n, out = [ONotify p n] ∧ answer s d p n).
Proof.
  intros Hdc Hs Hd Hsd Hmax Hp Hv. destruct (nw_node _ _ _ _ (dc_net Hdc) d Hd) as (_ & Hc & _ & _).
  destruct (next_hop_net d s max_u64 pf' (r_cache (net d)) Hdc Hd Hs Hmax Hc) as (next & cache' & Hn & _ & Hcase).
  rewrite decide_False in Hcase by done. destruct Hcase as (p & -> & Hpk & Hlt).
  rewrite <- set_cache_id in Hn. unfold pf_handleNotify. apply spec_bind. eapply spec_ok; [exact Hn|].
  eapply spec_ok; [reflexivity|]. eexists _, _. split; [reflexivity|]. by split_and!.
Qed.

(** The destination answers with its own signed path. *)
Lemma lookup_answered s d q lk :
  discovery_ok → is_Some (infos !! s) → is_Some (infos !! d) → s ≠ d → isOnTree (r_blooms (net d)) (peer_key q) = true →
  xf (lookup_dest lk) = xf d → lookup_source lk = s → Messages.lookup_from lk = coords infos s → dist s d < max_u64 →
  ∃ st' out p n, node_step d (times d) (PfLookup q lk) (net d, pfs d) = Ok ((), st', out) ∧ ONotify p n ∈ out ∧ answer s d p n.
Proof.
  intros Hdc Hs Hd Hsd Hon Hx Hsrc Hfrom Hmax. destruct (dc_node Hdc d Hd) as (Hsk & Hself & Hok).
  destruct (nw_node _ _ _ _ (dc_net Hdc) d Hd) as (Hi & _ & _ & _).
  set (deferred := pf_handleTraffic (sks d) d transform pathThrottle (times d) (orders d) 2).
  destruct (multicast_recipients _ _ (peer_key q) (lookup_dest lk) (proj1 Hok)) as (sent & Hsent & _).
  assert (spec (pf_handleLookup (sks d) d transform (times d) (orders d) deferred (peer_key q) lk) (net d, pfs d)
    (λ _ _ out, ∃ p n, ONotify p n ∈ out ∧ answer s d p n)) as ([] & st' & out & Hr & p & n & Hin & Ha).
  { unfold pf_handleLookup. apply spec_bind. eapply spec_ok; [reflexivity|]. apply spec_bind. eapply spec_ok; [reflexivity|].
    apply spec_bind. eapply spec_ok; [unfold pf_multicast; by rewrite Hsent|]. rewrite decide_True by done.
    unfold pf_respond. apply spec_bind. eapply spec_ok; [reflexivity|]. apply spec_bind. eapply spec_ok; [reflexivity|].
    cbv zeta. cbn [fst snd]. rewrite Hi, Hsrc, Hfrom. fold (coords infos d).
    destruct (pathNotifyInfo_equal _ _) eqn:He; cbn [negb]; [|apply spec_bind; eapply spec_ok; [reflexivity|]].
    - eapply spec_weaken; [apply notify_sent; try done; [by apply info_equal_path in He|apply (po_own _ _ _ (proj2 Hok))]|].
      intros _ _ out (p & n & -> & Ha). exists p, n. split; [|done]. rewrite !elem_of_app, list_elem_of_singleton. tauto.
    - cbn [fst snd]. eapply spec_weaken; [apply notify_sent; try done; by apply sign_info_ok|].
      intros _ _ out (p & n & -> & Ha). exists p, n. split; [|done]. rewrite !elem_of_app, list_elem_of_singleton. tauto. }
  exists st', out, p, n. split; [|done]. cbn [pf_step fst]. rewrite Hon. exact Hr.
Qed.

(** The notification finds its way to the node that asked. *)
Lemma notify_routed s fuel : discovery_ok → is_Some (infos !! s) →
  ∀ m n, is_Some (infos !! m) → notify_path n = coords infos s → notify_dest n = s → dist s m < notify_watermark n →
  dist s m < Z.of_nat fuel → pf_paths (pfs s) !! notify_source n = None → pf_rumors (pfs s) !! xf (notify_source n) = None →
  ∃ w, route_notify fuel m n = Some (s, with_watermark w n) ∧ dist s s < w.
Proof.
  intros Hdc Hs. induction fuel as [|fuel IH]; intros m n Hm Hpath Hdest Hw Hfuel Hnp Hnr.
  { pose proof (treeDist_nonneg (coords infos m) (coords infos s)). unfold distTo in Hfuel. lia. }
  destruct (nw_node _ _ _ _ (dc_net Hdc) m Hm) as (_ & Hc & _ & _).
  destruct (next_hop_net m s (notify_watermark n) (pfs m) (r_cache (net m)) Hdc Hm Hs Hw Hc) as (next & cache' & Hn & _ & Hcase).
  rewrite <- set_cache_id, <- Hpath in Hn. cbn [route_notify pf_step]. unfold pf_handleNotify, mbind, PF_bind. rewrite Hn.
  destruct (decide (m = s)) as [->|Hne].
  - subst next. cbn. rewrite bool_decide_true by done. cbn [negb]. unfold get_pf. cbn [snd]. rewrite Hnp.
    unfold notify_new, mbind, PF_bind, get_pf. cbn [snd with_watermark notify_source]. rewrite Hnr. cbn.
    exists (notify_watermark n). by destruct n.
  - destruct Hcase as (p & -> & Hpk & Hlt). cbn.
    destruct (IH (peer_key p) (with_watermark (dist s m) n)) as (w & Hr & Hw'); [done..|simpl; lia|lia|done|done|].
    exists w. split; [|done]. rewrite <- Hpath in Hr. exact Hr.
Qed.

(** At the node that asked, the answer stores the path; the packet that waits for
    this key, if any, is sent. *)
Lemma notify_accepted s d n rumor cache pf now w :
  discovery_ok → is_Some (infos !! s) → notify_path n = coords infos s → notify_dest n = s → notify_source n = d →
  dist s s < w → cache_ok infos cache → pni_path (notify_info n) = coords infos d → pathNotify_check n = true →
  pf_paths pf !! d = None → pf_rumors pf !! xf d = Some rumor → (∀ tr, ru_traffic rumor = Some tr → tr_dest tr = d) →
  ∃ st', node_step s now (PfNotify (with_watermark w n)) (set_cache cache (net s), pf) =
      Ok ((), st', OFound d ::
        match ru_traffic rumor with Some tr => [OSelf (with_paths (coords infos d) (coords infos s) tr)] | None => [] end) ∧
    r_infos (fst st') = infos ∧ ∃ info, pf_paths (snd st') !! d = Some info ∧ pa_path info = coords infos d.
Proof.
  intros Hdc Hs Hpath Hdest Hsrc Hw Hc Hinfo Hchk Hnp Hru Hd.
  destruct (next_hop_net s s w pf cache Hdc Hs Hs Hw Hc) as (next & cache' & Hn & _ & Hcase).
  rewrite decide_True in Hcase by done. subst next. destruct (nw_node _ _ _ _ (dc_net Hdc) s Hs) as (Hi & _).
  set (deferred := pf_handleTraffic (sks s) s transform pathThrottle now (orders s) 2).
  assert (spec (pf_handleNotify s transform now (orders s) deferred (with_watermark w n)) (set_cache cache (net s), pf)
    (λ _ st' out, out = OFound d ::
        match ru_traffic rumor with Some tr => [OSelf (with_paths (coords infos d) (coords infos s) tr)] | None => [] end ∧
       r_infos (fst st') = infos ∧ ∃ info, pf_paths (snd st') !! d = Some info ∧ pa_path info = coords infos d))
    as ([] & st' & out & Hr & -> & Hst); [|by exists st'].
  unfold pf_handleNotify. apply spec_bind. rewrite <- Hpath in Hn. eapply spec_ok; [exact Hn|]. cbv zeta.
  cbn [with_watermark notify_dest notify_source]. rewrite bool_decide_true by done. cbn [negb].
  apply spec_bind. eapply spec_ok; [reflexivity|]. cbn [snd]. rewrite Hsrc, Hnp.
  unfold notify_new. apply spec_bind. eapply spec_ok; [reflexivity|]. cbv zeta. cbn [snd with_watermark notify_source].
  rewrite Hsrc, Hru, !check_watermark, Hchk. cbn [negb]. apply spec_bind. eapply spec_ok; [reflexivity|].
  destruct (ru_traffic rumor) as [tr|] eqn:Htr.
  - specialize (Hd tr eq_refl). rewrite decide_True by done. apply spec_bind. eapply spec_ok; [reflexivity|].
    unfold store_path. apply spec_bind. eapply spec_ok; [reflexivity|]. apply spec_bind. eapply spec_ok; [reflexivity|].
    cbn [pa_traffic]. unfold deferred. cbn [pf_handleTraffic]. apply spec_bind. eapply spec_ok; [reflexivity|].
    cbn [snd pf_paths with_watermark notify_source]. rewrite Hsrc, Hd, lookup_insert_eq.
    unfold traffic_known. apply spec_bind. eapply spec_ok; [reflexivity|]. apply spec_bind. eapply spec_ok; [reflexivity|].
    eapply spec_ok; [reflexivity|]. split; [|split; [done|]].
    + cbn. by rewrite Hi, Hinfo.
    + cbn. rewrite Hd, lookup_insert_eq. by eexists.
  - unfold store_path. apply spec_bind. eapply spec_ok; [reflexivity|]. apply spec_bind. eapply spec_ok; [reflexivity|].
    eapply spec_ok; [reflexivity|]. cbn. rewrite Hsrc. split; [done|]. split; [done|]. rewrite lookup_insert_eq. by eexists.
Qed.

(** The way of a lookup from [s] for a key of [d]'s subnet: it arrives at [d], whose
    answer arrives at [s]. *)
Lemma lookup_round s d out1 sent lk fuel :
  discovery_ok → is_Some (infos !! s) → is_Some (infos !! d) → xf s ≠ xf d →
  pf_paths (pfs s) !! d = None → pf_rumors (pfs s) !! xf d = None → dist s d < max_u64 → dist s d <= Z.of_nat fuel →
  xf (lookup_dest lk) = xf d → lookup_source lk = s → Messages.lookup_from lk = coords infos s →
  sendMulticast (bloomEnv s transform (net s)) (r_blooms (net s)) s (lookup_dest lk) = Ok sent →
  (∀ p, p ∈ sent → OLookup p lk ∈ out1) →
  ∃ from, arrives s out1 lk from d ∧
  ∃ st2 out2 p n w, node_step d (times d) (PfLookup (Peer 0 from 0 0 0) lk) (net d, pfs d) = Ok ((), st2, out2) ∧ ONotify p n ∈ out2 ∧
    answer s d p n ∧ route_notify fuel (peer_key p) n = Some (s, with_watermark w n) ∧ dist s s < w.
Proof.
  intros Hdc Hs Hd Hx Hnp Hnr Hsd Hf1 Hlk Hsrc Hfrom Hsent Hout. assert (s ≠ d) as Hne by congruence.
  pose proof (nw_tree _ _ _ _ (dc_net Hdc)) as Hcv.
  destruct (closer_neighbour infos root Hcv s d) as (nb & Htn & _ & Hcl); [by apply Hcv|by apply Hcv|done|].
  destruct (multicast_includes s s (lookup_dest lk) d nb Hdc Hs Hd Hlk Htn Hcl) as (sent' & p1 & Hsent' & Hin & Hpk); [intros ->; lia|].
  rewrite Hsent in Hsent'. injection Hsent' as <-.
  assert (is_Some (infos !! nb)) as Hnb.
  { destruct (nw_links _ _ _ _ (dc_net Hdc) s nb Hs Htn) as (ps & Hps & _); [intros ->; lia|]. by eapply (nw_known _ _ _ _ (dc_net Hdc) s). }
  destruct (lookup_flood s out1 lk d Hdc Hd Hlk s nb Hs Hnb Htn Hcl) as (from & Harr & _ & Hon).
  { rewrite <- Hpk. apply arrives_first. by apply Hout. }
  destruct (lookup_answered s d (Peer 0 from 0 0 0) lk Hdc Hs Hd Hne Hon Hlk Hsrc Hfrom Hsd)
    as (st2 & out2 & p & n & H2' & Hnin & Ha).
  pose proof Ha as (Hpath & Hw & Hns & Hdest & Hinfo & Hchk & Hpknown & Hplt).
  destruct (notify_routed s fuel Hdc Hs (peer_key p) n Hpknown Hpath Hdest) as (w & Hroute & Hws);
    [lia|lia|by rewrite Hns|by rewrite Hns|].
  exists from. split; [done|]. by exists st2, out2, p, n, w.
Qed.

(** A request for a key that is not known and was not asked for before. *)
Lemma rumor_lookup s k deferred :
  discovery_ok → is_Some (infos !! s) → xf k ≠ xf s → pf_paths (pfs s) !! k = None → pf_rumors (pfs s) !! xf k = None →
  let lk := PathLookup s k (coords infos s) in
  ∃ sent, sendMulticast (bloomEnv s transform (net s)) (r_blooms (net s)) s k = Ok sent ∧
  spec (pf_rumorSendLookup (sks s) s transform pathThrottle (times s) (orders s) deferred k) (net s, pfs s)
    (λ _ st' out, fst st' = net s ∧ (∀ p, p ∈ sent → OLookup p lk ∈ out) ∧ pf_paths (snd st') = pf_paths (pfs s) ∧
       ∃ rumor, pf_rumors (snd st') !! xf k = Some rumor ∧ ru_traffic rumor = None).
Proof.
  intros Hdc Hs Hx Hnp Hnr lk. destruct (dc_node Hdc s Hs) as (_ & _ & [Hcov _]).
  destruct (multicast_recipients _ _ s k Hcov) as (sent & Hsent & _). cbn [fst] in Hsent. exists sent. split; [exact Hsent|].
  destruct (nw_node _ _ _ _ (dc_net Hdc) s Hs) as (Hi & _).
  unfold pf_rumorSendLookup. apply spec_bind. eapply spec_ok; [reflexivity|]. cbv zeta. cbn [snd]. rewrite Hnr.
  apply spec_bind. eapply spec_ok; [reflexivity|]. apply spec_bind. eapply spec_ok; [reflexivity|].
  unfold pf_sendLookup. apply spec_bind. eapply spec_ok; [reflexivity|]. cbv zeta. cbn. rewrite Hnp.
  apply spec_bind. eapply spec_ok; [reflexivity|]. unfold pf_handleLookup. apply spec_bind. eapply spec_ok; [reflexivity|].
  apply spec_bind. eapply spec_ok; [reflexivity|]. apply spec_bind.
  eapply spec_ok; [unfold pf_multicast; cbn [fst lookup_dest]; by rewrite Hsent|]. cbn [lookup_dest]. rewrite decide_False by done.
  eapply spec_ok; [reflexivity|]. cbn. split; [done|]. split; [|split; [done|rewrite lookup_insert_eq; by eexists]].
  intros p Hp. unfold lk, coords. rewrite <- Hi. rewrite !elem_of_app. right. left. apply list_elem_of_fmap. by exists p.
Qed.

(** A packet for an unknown key: it waits, and a lookup goes out. *)
Lemma send_unknown s d tr :
  discovery_ok → is_Some (infos !! s) → tr_dest tr = d → xf d ≠ xf s →
  pf_paths (pfs s) !! d = None → pf_rumors (pfs s) !! xf d = None →
  let lk := PathLookup s d (coords infos s) in
  ∃ pf1 out sent rumor, node_step s (times s) (PfSend tr) (net s, pfs s) = Ok ((), (net s, pf1), out) ∧
    sendMulticast (bloomEnv s transform (net s)) (r_blooms (net s)) s d = Ok sent ∧ (∀ p, p ∈ sent → OLookup p lk ∈ out) ∧
    pf_paths pf1 !! d = None ∧ pf_rumors pf1 !! xf d = Some rumor ∧ ru_traffic rumor = Some tr.
Proof.
  intros Hdc Hs Hd Hx Hnp Hnr lk.
  destruct (rumor_lookup s d (pf_handleTraffic (sks s) s transform pathThrottle (times s) (orders s) 2) Hdc Hs Hx Hnp Hnr)
    as (sent & Hsent & Hrl).
  assert (spec (pf_handleTraffic (sks s) s transform pathThrottle (times s) (orders s) 3 tr) (net s, pfs s)
    (λ _ st' out, fst st' = net s ∧ (∀ p, p ∈ sent → OLookup p lk ∈ out) ∧ pf_paths (snd st') !! d = None ∧
       ∃ rumor, pf_rumors (snd st') !! xf d = Some rumor ∧ ru_traffic rumor = Some tr))
    as ([] & [r1 pf1] & out & Hr & Hr1 & Hout & Hp & rumor & Hru & Htr).
  2:{ simpl in Hr1, Hp, Hru. subst r1. by exists pf1, out, sent, rumor. }
  change 3%nat with (S 2). cbn [pf_handleTraffic]. apply spec_bind. eapply spec_ok; [reflexivity|]. cbn [snd]. rewrite Hd, Hnp.
  apply spec_bind. eapply spec_weaken; [exact Hrl|]. intros _ st1 out1 (Hf & Hout & Hp & rumor & Hru & _).
  apply spec_bind. eapply spec_ok; [reflexivity|]. cbv zeta. rewrite Hru. eapply spec_ok; [reflexivity|]. cbn.
  split; [done|]. split; [|split; [by rewrite Hp|rewrite lookup_insert_eq; by eexists]].
  intros p Hin. rewrite !elem_of_app. left. by apply Hout.
Qed.

(** A lookup for a key of [d]'s subnet, such as one made from an address, finds [d]. *)
Lemma lookup_finds s k d now fuel :
  discovery_ok → is_Some (infos !! s) → is_Some (infos !! d) → xf s ≠ xf d → xf k = xf d → length k = PublicKeySize →
  pf_paths (pfs s) !! k = None → pf_paths (pfs s) !! d = None → pf_rumors (pfs s) !! xf d = None →
  dist s d < max_u64 → dist s d <= Z.of_nat fuel →
  let lk := PathLookup s k (coords infos s) in
  ∃ st1 out1 from, node_step s (times s) (PfSendLookup k) (net s, pfs s) = Ok ((), st1, out1) ∧ arrives s out1 lk from d ∧
  ∃ st2 out2 p n, node_step d (times d) (PfLookup (Peer 0 from 0 0 0) lk) (net d, pfs d) = Ok ((), st2, out2) ∧ ONotify p n ∈ out2 ∧
  ∃ n' st3, route_notify fuel (peer_key p) n = Some (s, n') ∧ node_step s now (PfNotify n') st1 = Ok ((), st3, [OFound d]) ∧
    r_infos (fst st3) = infos ∧ ∃ info, pf_paths (snd st3) !! d = Some info ∧ pa_path info = coords infos d.
Proof.
  intros Hdc Hs Hd Hx Hk Hl Hnk Hnp Hnr Hsd Hf lk.
  destruct (rumor_lookup s k (pf_handleTraffic (sks s) s transform pathThrottle (times s) (orders s) 2) Hdc Hs)
    as (sent & Hsent & [] & [r1 pf1] & out1 & H1' & Hr1 & Hout & Hp1 & rumor & Hru & Hrt); [congruence|done|congruence|].
  simpl in Hr1, Hp1, Hru. subst r1.
  destruct (lookup_round s d out1 sent lk fuel Hdc Hs Hd Hx Hnp Hnr Hsd Hf Hk eq_refl eq_refl Hsent Hout)
    as (from & Harr & st2 & out2 & p & n & w & H2' & Hnin & (Hpath & Hw & Hsrc & Hdest & Hinfo & Hchk & _) & Hroute & Hws).
  destruct (nw_node _ _ _ _ (dc_net Hdc) s Hs) as (_ & Hc & _). rewrite Hk in Hru. rewrite <- Hp1 in Hnp.
  destruct (notify_accepted s d n rumor (r_cache (net s)) pf1 now w Hdc Hs Hpath Hdest Hsrc Hws Hc Hinfo Hchk Hnp Hru)
    as (st3 & H3' & Hi3 & Hst3); [by rewrite Hrt|]. rewrite Hrt in H3'. rewrite <- set_cache_id in H3'.
  exists (net s, pf1), out1, from. split; [|split; [done|]].
  { cbn [pf_step]. rewrite copy_full; [exact H1'|]. by rewrite length_replicate. }
  exists st2, out2, p, n. split; [done|]. split; [done|]. by exists (with_watermark w n), st3.
Qed.

(** A packet for a key whose path is known is sent along it. *)
Lemma send_known s d st info tr now :
  r_infos (fst st) = infos → pf_paths (snd st) !! d = Some info → pa_path info = coords infos d → tr_dest tr = d →
  ∃ st', node_step s now (PfSend tr) st = Ok ((), st', [OSelf (with_paths (coords infos d) (coords infos s) tr)]).
Proof.
  intros Hi Hp Hpath Hd. destruct st as [r pf]. simpl in Hi, Hp. eexists.
  cbn [pf_step pf_handleTraffic]. unfold mbind, PF_bind, get_pf. cbn [snd]. rewrite Hd, Hp.
  unfold traffic_known, own_path, get_router, mbind, PF_bind. cbn. by rewrite Hi, Hpath.
Qed.

(** C12: path_discovery_delivers.  In a network whose tree and filters have settled,
    a packet for a key whose path is not known is delivered: its sender keeps it
    and sends a lookup; the lookup arrives at the destination; the destination
    answers; the answer arrives at the sender, which stores the path of the
    destination, reports the key as found and sends the packet; and the packet is
    delivered.  Every node may know other paths already, and latencies, caches
    and the order of candidates are arbitrary. *)
Theorem path_discovery_delivers s d tr now fuel :
  discovery_ok → is_Some (infos !! s) → is_Some (infos !! d) → xf s ≠ xf d →
  tr_dest tr = d → tr_watermark tr = max_u64 →
  pf_paths (pfs s) !! d = None → pf_rumors (pfs s) !! xf d = None →
  dist s d < max_u64 → dist d s < max_u64 → dist s d <= Z.of_nat fuel → dist d s < Z.of_nat fuel →
  let lk := PathLookup s d (coords infos s) in
  ∃ st1 out1 from, node_step s (times s) (PfSend tr) (net s, pfs s) = Ok ((), st1, out1) ∧ arrives s out1 lk from d ∧
  ∃ st2 out2 p n, node_step d (times d) (PfLookup (Peer 0 from 0 0 0) lk) (net d, pfs d) = Ok ((), st2, out2) ∧ ONotify p n ∈ out2 ∧
  ∃ n', route_notify fuel (peer_key p) n = Some (s, n') ∧
  ∃ st3, let tr' := with_paths (coords infos d) (coords infos s) tr in
    node_step s now (PfNotify n') st1 = Ok ((), st3, [OFound d; OSelf tr']) ∧
    (∃ info, pf_paths (snd st3) !! d = Some info ∧ pa_path info = coords infos d) ∧
    ∃ w, route net orders fuel s tr' = Some (d, set_watermark w tr').
Proof.
  intros Hdc Hs Hd Hx Htr Hwm Hnp Hnr Hsd Hds Hf1 Hf2 lk.
  destruct (send_unknown s d tr Hdc Hs Htr (not_eq_sym Hx) Hnp Hnr) as (pf1 & out1 & sent & rumor & H1' & Hsent & Hout & Hp1 & Hru & Hrt).
  destruct (lookup_round s d out1 sent lk fuel Hdc Hs Hd Hx Hnp Hnr Hsd Hf1 eq_refl eq_refl eq_refl Hsent Hout)
    as (from & Harr & st2 & out2 & p & n & w & H2' & Hnin & (Hpath & Hw & Hsrc & Hdest & Hinfo & Hchk & _) & Hroute & Hws).
  destruct (nw_node _ _ _ _ (dc_net Hdc) s Hs) as (_ & Hc & _).
  destruct (notify_accepted s d n rumor (r_cache (net s)) pf1 now w Hdc Hs Hpath Hdest Hsrc Hws Hc Hinfo Hchk Hp1 Hru)
    as (st3 & H3' & _ & Hst3); [by rewrite Hrt; intros ? [= <-]|]. rewrite Hrt in H3'. rewrite <- set_cache_id in H3'.
  destruct (route_delivers net orders infos root s d (with_paths (coords infos d) (coords infos s) tr) fuel (dc_net Hdc) Hs Hd)
    as (w' & Hdel); [done|done|simpl; lia|done|].
  exists (net s, pf1), out1, from. split; [done|]. split; [done|]. exists st2, out2, p, n. split; [done|]. split; [done|].
  exists (with_watermark w n). split; [done|]. exists st3. split; [done|]. split; [done|]. by exists w'.
Qed.
End Discovery.

(** ** A network of four nodes *)

Module PathfinderWitness.
Import TreeWitness RoutingWitness ToySig ToyBloom.

Definition skD (n : bytes) : bytes := replicate 32 0 ++ n.
Definition all4 (t : bytes → bytes) : tfilter := foldl bf_Add bf_New (pf_xKey t <$> [nR; nA; nB; nS]).
Definition infoT (t : bytes → bytes) : bloomInfo tfilter := BloomInfo bf_New (all4 t) 0 true false.

(** The four routers, with the transform [t] of keys. *)
Definition netT (t : bytes → bytes) (n : bytes) : router tfilter :=
  set_blooms ((λ _, infoT t) <$> peers4 n) (set_peers (peers4 n) (set_infos infos4 router_init)).
Definition pfD (n : bytes) : pathfinder := pf_init (skD n).
Definition sec : Z := 1000000000.

Lemma keyD n : is_Some (infos4 !! n) → priv_ok (skD n) ∧ n = ed_Public (skD n).
Proof. intros [i Hi]. four Hi; (split; [split; [reflexivity|by_eval]|reflexivity]). Qed.

Lemma covers_T t n : router_covers n t (netT t n).
Proof.
  intros k [b Hb]. simpl in Hb. apply lookup_fmap_Some in Hb as (ps & _ & Hps).
  exists ps. split; [done|]. by apply peers4_entry in Hps as (p & -> & _).
Qed.

Lemma networkT t : network_ok (netT t) (λ _, id) infos4 nR.
Proof. destruct network4 as [Ht Hn Hl Hk]. split; [exact Ht|exact Hn|exact Hl|exact Hk]. Qed.

Lemma discoveryT t :
  (∀ d, is_Some (infos4 !! d) → bf_Test (all4 t) (pf_xKey t d) = true) → discovery_ok t (netT t) pfD skD (λ _, id) infos4 nR.
Proof.
  intros Hall. split.
  - apply networkT.
  - intros n Hn. destruct (keyD n Hn) as [Hsk Hk]. split; [done|]. split; [done|]. split; [apply covers_T|].
    by apply pf_init_ok.
  - intros n nb d [i Hn] Hd Hnb Hlt. split.
    + assert (nb ≠ n) as Hne by (intros ->; lia).
      destruct (nw_links _ _ _ _ network4 n nb (ex_intro _ i Hn) Hnb Hne) as (ps & Hps & _). simpl in Hps.
      exists (infoT t). split; [simpl; by rewrite lookup_fmap, Hps|]. split; [done|]. by apply Hall.
    + assert (nb ≠ n) as Hne by (intros ->; lia). clear -Hnb Hn Hne.
      destruct Hnb as [(j & Hj & <-)|(j & Hj & <-)]; four Hj; try done; vm_compute; reflexivity.
Qed.

(** Keys as they are. *)
Abbreviation netD := (netT id).
Abbreviation stepD n now ev := (pf_step (skD n) n id sec now id ev).

Lemma discoveryD : discovery_ok id netD pfD skD (λ _, id) infos4 nR.
Proof. apply discoveryT. intros d [i Hd]. four Hd; vm_compute; reflexivity. Qed.

(** A packet from [nS] to [nB], whose path [nS] does not know. *)
Definition trD : traffic := Traffic [] [] nS nB max_u64 [7].

Lemma path_discovery_delivers_witness :
  let lk := PathLookup nS nB (coords infos4 nS) in
  ∃ st1 out1 from, stepD nS sec (PfSend trD) (netD nS, pfD nS) = Ok ((), st1, out1) ∧
    arrives id sec netD pfD skD (λ _, id) (λ _, sec) nS out1 lk from nB ∧
  ∃ st2 out2 p n, stepD nB sec (PfLookup (Peer 0 from 0 0 0) lk) (netD nB, pfD nB) = Ok ((), st2, out2) ∧ ONotify p n ∈ out2 ∧
  ∃ n', route_notify id sec netD pfD skD (λ _, id) (λ _, sec) 4 (peer_key p) n = Some (nS, n') ∧
  ∃ st3, let tr' := with_paths (coords infos4 nB) (coords infos4 nS) trD in
    stepD nS (2 * sec) (PfNotify n') st1 = Ok ((), st3, [OFound nB; OSelf tr']) ∧
    (∃ info, pf_paths (snd st3) !! nB = Some info ∧ pa_path info = coords infos4 nB) ∧
    ∃ w, route netD (λ _, id) 4 nS tr' = Some (nB, set_watermark w tr').
Proof.
  cbv zeta.
  refine (path_discovery_delivers id sec netD pfD skD (λ _, id) (λ _, sec) infos4 nR nS nB trD (2 * sec) 4 discoveryD
    (ex_intro _ _ eq_refl) (ex_intro _ _ eq_refl) _ eq_refl eq_refl eq_refl eq_refl _ _ _ _).
  - by_eval.
  - vm_compute; reflexivity.
  - vm_compute; reflexivity.
  - by_eval.
  - vm_compute; reflexivity.
Defined.

(** The answer of [nB] to the lookup of [nS], and one that [nB] did not sign. *)
Definition infoB : pathNotifyInfo := pathNotifyInfo_sign (PathNotifyInfo 1 (coords infos4 nB) []) (skD nB).
Definition notifyB : pathNotify := PathNotify (coords infos4 nS) 5 nB nS infoB.
Definition forgedB : pathNotify := PathNotify (coords infos4 nS) 5 nB nS (PathNotifyInfo 1 [9] (replicate 64 0)).

Definition after (n : bytes) (now : Z) (ev : pf_event) (st : pst (F := tfilter)) : pst (F := tfilter) * list pf_out :=
  match stepD n now ev st with Ok (_, st, out) => (st, out) | _ => (st, []) end.

Lemma after_ok n now ev st :
  (if stepD n now ev st is Ok _ then true else false) = true →
  stepD n now ev st = Ok ((), fst (after n now ev st), snd (after n now ev st)).
Proof. unfold after. by destruct (stepD n now ev st) as [[[[] st'] out]| |]. Qed.

Definition st1 := fst (after nS sec (PfSend trD) (netD nS, pfD nS)).

Lemma st1_reachable : pf_reachable (skD nS) nS id sec st1.
Proof.
  apply (pr_step _ _ _ _ (netD nS, pfD nS) sec id (PfSend trD) st1 (snd (after nS sec (PfSend trD) (netD nS, pfD nS)))).
  - apply pr_start. apply covers_T.
  - apply (after_ok nS sec (PfSend trD)). vm_compute. reflexivity.
Qed.

(** The answer of the destination releases the packet that was waiting. *)
Lemma pathfinder_paths_authentic_witness :
  ∃ st' out, stepD nS (2 * sec) (PfNotify notifyB) st1 = Ok ((), st', out) ∧
    (∀ tr', OSelf tr' ∈ out → ∃ tr seq, waiting (snd st1) tr ∧ same_packet tr tr' ∧
       signed_path (tr_dest tr) seq (tr_path tr')) ∧
    (∀ k, OFound k ∈ out → ∃ info, pf_paths (snd st') !! k = Some info ∧ signed_path k (pa_seq info) (pa_path info)).
Proof.
  destruct (pathfinder_paths_authentic (skD nS) nS id sec st1 (2 * sec) id (PfNotify notifyB))
    as (st' & out & Hs & _ & _ & Hf & Hself & _).
  - by apply keyD; eexists.
  - by apply keyD; eexists.
  - exact st1_reachable.
  - exists st', out. split; [exact Hs|]. split; [|exact Hf].
    intros tr' Htr'. destruct (Hself tr' Htr') as (tr & seq & [Hev|Hw] & Hrest); [discriminate Hev|].
    exists tr, seq. split; [exact Hw|exact Hrest].
Defined.

(** The signed answer is stored and the forged one is not. *)
Lemma answers_checked :
  snd (after nS (2 * sec) (PfNotify forgedB) st1) = [] ∧
  snd (after nS (2 * sec) (PfNotify notifyB) st1) =
    [OFound nB; OSelf (with_paths (coords infos4 nB) (coords infos4 nS) trD)].
Proof. split; vm_compute; reflexivity. Qed.

Definition st2 := fst (after nS (2 * sec) (PfNotify notifyB) st1).
Definition brokenB : pathBroken := PathBroken (coords infos4 nS) 5 nS nB.
Definition st3 := fst (after nS (4 * sec) (PfBroken brokenB) st2).

Definition lookups (out : list pf_out) : nat :=
  length (filter (λ o, (if o is OLookup _ _ then true else false) = true) out).

(** A report of a broken path sends a lookup, and a second report at the same time
    sends another: the time of the last request is not updated. *)
Lemma broken_reports_not_throttled :
  lookups (snd (after nS (2 * sec) (PfBroken brokenB) st2)) = 0%nat ∧
  lookups (snd (after nS (4 * sec) (PfBroken brokenB) st2)) = 1%nat ∧
  lookups (snd (after nS (4 * sec) (PfBroken brokenB) st3)) = 1%nat.
Proof. split_and!; vm_compute; reflexivity. Qed.

(** A newer answer with the same path does not clear the mark of a broken path. *)
Lemma same_path_stays_broken :
  let newer := pathNotifyInfo_sign (PathNotifyInfo 2 (coords infos4 nB) []) (skD nB) in
  let notify := PathNotify (coords infos4 nS) 5 nB nS newer in
  pathNotify_check notify = true ∧
  pa_broken <$> (pf_paths (snd st3) !! nB) = Some true ∧
  pa_broken <$> (pf_paths (snd (fst (after nS (5 * sec) (PfNotify notify) st3))) !! nB) = Some true.
Proof. split_and!; vm_compute; reflexivity. Qed.
End PathfinderWitness.
