(* ===== verification/SessionInit.v ===== *)
(** * SessionInit: cryptography and handshake messages of the sessions
    (crypto.go, internal/e2c/e2c.go and the sessionInit part of session.go in
    third_party/ironwood/encrypted)

    Curve25519 boxes (golang.org/x/crypto/nacl/box), SHA-512 and Argon2id are
    parameters, behind the classes [Box], [Sha512] and [Argon2]; [BoxLaws] is what
    the documentation of box promises.  Random keys come from a stream: the i-th
    key that the program draws is [rng i], and the number drawn so far is threaded
    through the code. *)

From S2P Require Import Prelude Binary Wire Address Crypto.

(** ** crypto.go *)

Class Box := {
  box_Public : bytes → bytes;                       (* the public key of a private one *)
  box_Precompute : bytes → bytes → bytes;           (* box.Precompute: public, private *)
  box_Seal : bytes → bytes → bytes → bytes;         (* SealAfterPrecomputation: message, nonce, key *)
  box_Open : bytes → bytes → bytes → option bytes;  (* OpenAfterPrecomputation *)
}.

Class Sha512 := { sha512_Sum : bytes → bytes }.
Class Argon2 := { argon2_IDKey : bytes → bytes → bytes }.   (* password, salt *)

Definition edPubSize : nat := 32.
Definition boxPubSize : nat := 32.
Definition edSigSize : nat := 64.
Definition boxNonceSize : nat := 24.
Definition boxOverhead : nat := 16.

(** A private key of a box: 32 bytes. *)
Definition boxPriv_ok (k : bytes) : Prop := length k = 32%nat ∧ bytes_ok k.

Class BoxLaws `{Box} : Prop := {
  box_Public_ok : ∀ k, boxPriv_ok k → length (box_Public k) = boxPubSize ∧ bytes_ok (box_Public k);
  (** both sides compute the same key *)
  box_shared : ∀ a b, boxPriv_ok a → boxPriv_ok b →
    box_Precompute (box_Public a) b = box_Precompute (box_Public b) a;
  box_Open_Seal : ∀ m n k, bytes_ok m → box_Open (box_Seal m n k) n k = Some m;
  box_Seal_len : ∀ m n k, length (box_Seal m n k) = (boxOverhead + length m)%nat;
  box_Seal_ok : ∀ m n k, bytes_ok m → bytes_ok (box_Seal m n k);
  (** what opens is a message with the overhead, of bytes *)
  box_Open_len : ∀ c n k m, box_Open c n k = Some m → length c = (boxOverhead + length m)%nat;
  box_Open_ok : ∀ c n k m, box_Open c n k = Some m → bytes_ok m;
}.

(** [bytesPop]: the popped bytes and the new offset; [dest] has its size. *)
Definition bytesPop (dest source : bytes) (offset : nat) : res () (bytes * nat) :=
  if decide (offset <= length source)%nat
  then Ok (copy dest (drop offset source), (offset + length dest)%nat)
  else Panic.

Definition edSign `{Ed25519} (msg priv preimage : bytes) : bytes :=
  if decide (0 < length preimage)%nat
  then copy (replicate edSigSize 0) (ed_Sign priv (preimage ++ msg))
  else copy (replicate edSigSize 0) (ed_Sign priv msg).

Definition edCheck `{Ed25519} (msg sig pub preimage : bytes) : bool :=
  if decide (0 < length preimage)%nat then ed_Verify pub (preimage ++ msg) sig else ed_Verify pub msg sig.

(** *** e2c: from ed25519 to curve25519 keys *)

Definition curve25519P : Z :=
  57896044618658097711785492504343953926634992332820282019728792003956564819949.

(** [b ^ e mod m] by squaring. *)
Fixpoint pow_mod (b : Z) (e : positive) (m : Z) : Z :=
  match e with
  | xH => b mod m
  | xO e => pow_mod (b * b mod m) e m
  | xI e => b * pow_mod (b * b mod m) e m mod m
  end.

(** [big.Int.ModInverse] modulo the prime: the inverse, by Fermat; for a multiple
    of the prime, where it leaves its receiver alone, a multiple of the prime. *)
Definition mod_inverse (x : Z) : Z := pow_mod (x mod curve25519P) (Z.to_pos (curve25519P - 2)) curve25519P.

(** [Ed25519PublicKeyToCurve25519]: u = (1 + y) / (1 - y), little-endian, where y
    is the key without its sign bit. *)
Definition Ed25519PublicKeyToCurve25519 (pk : bytes) : bytes :=
  let bigEndianY := reverse pk in
  let y := be_val (alter (λ b, Z.land b 0x7f) 0%nat bigEndianY) in
  let u := (y + 1) * mod_inverse (1 - y) mod curve25519P in
  reverse (be_bytes 32 u).

Definition Ed25519PrivateKeyToCurve25519 `{Sha512} (pk : bytes) : bytes := take 32 (sha512_Sum (take 32 pk)).

Definition edPub_toBox (pub : bytes) : bytes := copy (replicate boxPubSize 0) (Ed25519PublicKeyToCurve25519 pub).
Definition edPriv_toBox `{Sha512} (priv : bytes) : bytes :=
  copy (replicate 32 0) (Ed25519PrivateKeyToCurve25519 priv).

(** *** Boxes *)

Definition nonceForUint64 (u : Z) : bytes := replicate (boxNonceSize - 8) 0 ++ be_bytes 8 u.

Definition getShared `{Box} (pub priv : bytes) : bytes := box_Precompute pub priv.
Definition boxOpen `{Box} (boxed : bytes) (nonce : Z) (shared : bytes) : option bytes :=
  box_Open boxed (nonceForUint64 nonce) shared.
Definition boxSeal `{Box} (out msg : bytes) (nonce : Z) (shared : bytes) : bytes :=
  out ++ box_Seal msg (nonceForUint64 nonce) shared.

(** [newBoxKeys]: the next key pair, public key first. *)
Definition newBoxKeys `{Box} (rng : nat → bytes) (gen : nat) : bytes * bytes := (box_Public (rng gen), rng gen).

(** *** Group authentication *)

Record groupAuth := GroupAuth { ga_enabled : bool; ga_secret : bytes }.

Definition groupAuthSalt : bytes :=
  [105; 114; 111; 110; 119; 111; 111; 100; 47; 101; 110; 99; 114; 121; 112; 116; 101; 100; 47;
   103; 114; 111; 117; 112; 45; 97; 117; 116; 104; 47; 118; 50].

Definition newGroupAuth `{Argon2} (password : bytes) : groupAuth :=
  if bool_decide (password = []) then GroupAuth false (replicate 32 0)
  else GroupAuth true (copy (replicate 32 0) (argon2_IDKey password groupAuthSalt)).

Definition groupAuth_preimage (auth : groupAuth) : bytes := if ga_enabled auth then ga_secret auth else [].

(** ** sessionInit *)

Definition sessionTypeDummy : Z := 0.
Definition sessionTypeInit : Z := 1.
Definition sessionTypeAck : Z := 2.
Definition sessionTypeTraffic : Z := 3.

Definition sessionInitSize : nat :=
  1 + boxPubSize + boxOverhead + edSigSize + boxPubSize + boxPubSize + 8 + 8.

Record sessionInit := SessionInit {
  in_current : bytes;
  in_next : bytes;
  in_keySeq : Z;
  in_seq : Z;
}.

(** [newSessionInit]: the time is in nanoseconds, [Unix] in seconds. *)
Definition newSessionInit (now : Z) (current next : bytes) (keySeq : Z) : sessionInit :=
  SessionInit current next keySeq (u64 (now / 1000000000)).

(** The signed bytes after the ephemeral key. *)
Definition init_fields (init : sessionInit) : bytes :=
  in_current init ++ in_next init ++ be_bytes 8 (in_keySeq init) ++ be_bytes 8 (in_seq init).

(** [sessionInit.encrypt], with the ephemeral key [gen] of the stream. *)
Definition sessionInit_encrypt `{Ed25519} `{Box} (rng : nat → bytes) (gen : nat)
    (init : sessionInit) (from to : bytes) (auth : groupAuth) : res () bytes :=
  let '(fromPub, fromPriv) := newBoxKeys rng gen in
  let toBox := edPub_toBox to in
  let sigBytes := fromPub ++ init_fields init in
  let sig := edSign sigBytes from (groupAuth_preimage auth) in
  let payload := sig ++ drop boxPubSize sigBytes in
  let bs := boxSeal [] payload 0 (getShared toBox fromPriv) in
  let data := sessionTypeInit :: fromPub ++ bs in
  if decide (length data = sessionInitSize) then Ok data else Panic.

(** [sessionAck.encrypt]: the same message with another type. *)
Definition sessionAck_encrypt `{Ed25519} `{Box} (rng : nat → bytes) (gen : nat)
    (init : sessionInit) (from to : bytes) (auth : groupAuth) : res () bytes :=
  data ← sessionInit_encrypt rng gen init from to auth;
  Ok (<[0%nat := sessionTypeAck]> data).

(** [sessionInit.decrypt]; [None] is false. *)
Definition sessionInit_decrypt `{Ed25519} `{Box} (priv from data : bytes) (auth : groupAuth) :
    res () (option sessionInit) :=
  if negb (len data =? Z.of_nat sessionInitSize) then Ok None
  else
    '(fromBox, offset) ← bytesPop (replicate boxPubSize 0) data 1;
    let bs := drop offset data in
    match boxOpen bs 0 (getShared fromBox priv) with
    | None => Ok None
    | Some payload =>
        '(sig, offset) ← bytesPop (replicate edSigSize 0) payload 0;
        let tmp := drop offset payload in
        '(current, offset) ← bytesPop (replicate boxPubSize 0) payload offset;
        '(next, offset) ← bytesPop (replicate boxPubSize 0) payload offset;
        if decide (offset + 8 <= length payload)%nat then
          let keySeq := be_val (take 8 (drop offset payload)) in
          let rest := drop (offset + 8) payload in
          if decide (8 <= length rest)%nat then
            let init := SessionInit current next keySeq (be_val (take 8 rest)) in
            Ok (if edCheck (fromBox ++ tmp) sig from (groupAuth_preimage auth) then Some init else None)
          else Panic
        else Panic
    end.

(** Arithmetic on the sizes of the fields. *)
Ltac size_lia := unfold sessionInitSize, edSigSize, boxPubSize, boxOverhead in *; simpl in *; lia.

(** A well-formed message. *)
Definition init_ok (i : sessionInit) : Prop :=
  (length (in_current i) = boxPubSize ∧ bytes_ok (in_current i)) ∧
  (length (in_next i) = boxPubSize ∧ bytes_ok (in_next i)) ∧
  is_u64 (in_keySeq i) ∧ is_u64 (in_seq i).

(** ** Properties *)

(** A node's identity: its ed25519 key, and the conversion of its two halves to
    curve25519 gives a key pair, as e2c documents. *)
Definition identity_ok `{Ed25519} `{Box} `{Sha512} (sk : bytes) : Prop :=
  priv_ok sk ∧ boxPriv_ok (edPriv_toBox sk) ∧ box_Public (edPriv_toBox sk) = edPub_toBox (ed_Public sk).

(** The keys that are drawn have the right form. *)
Definition rng_ok (rng : nat → bytes) : Prop := ∀ i, boxPriv_ok (rng i).

Lemma length_init_fields init : init_ok init → length (init_fields init) = 80%nat.
Proof.
  intros ([Hc _] & [Hn _] & _). unfold init_fields. rewrite !length_app, !length_be_bytes, Hc, Hn. done.
Qed.

Lemma init_fields_ok init : init_ok init → bytes_ok (init_fields init).
Proof. intros ([_ ?] & [_ ?] & _). unfold init_fields. solve_bytes. Qed.

(** Popping the next field of a message. *)
Lemma bytesPop_app n pre x post :
  length x = n → bytesPop (replicate n 0) (pre ++ x ++ post) (length pre) = Ok (x, (length pre + n)%nat).
Proof.
  intros Hx. unfold bytesPop. rewrite decide_True by (rewrite length_app; lia).
  rewrite drop_app_length. rewrite (copy_app (replicate n 0) x post), length_replicate by (by rewrite length_replicate). done.
Qed.

(** Popping a field that is there does not panic. *)
Lemma bytesPop_total n source offset :
  (offset + n <= length source)%nat →
  bytesPop (replicate n 0) source offset = Ok (take n (drop offset source), (offset + n)%nat).
Proof.
  intros Hl. unfold bytesPop. rewrite decide_True by lia. rewrite length_replicate. do 2 f_equal.
  unfold copy. rewrite length_replicate, (drop_ge (replicate n 0)), app_nil_r by (rewrite length_replicate, length_drop; lia). done.
Qed.

Section Init.
Context `{Ed25519} `{!Ed25519Laws} `{Box} `{!BoxLaws} `{Sha512}.

Lemma edSign_ok msg priv pre : priv_ok priv → length (edSign msg priv pre) = edSigSize.
Proof. intros Hp. unfold edSign. destruct (decide _); by rewrite length_copy, length_replicate. Qed.

Lemma edSign_bytes msg priv pre : priv_ok priv → bytes_ok (edSign msg priv pre).
Proof.
  intros [Hl Hok]. unfold edSign. destruct (decide _); apply bytes_ok_copy; auto with uqda;
    by apply ed_Sign_ok.
Qed.

Lemma edCheck_edSign msg priv pre : priv_ok priv → edCheck msg (edSign msg priv pre) (ed_Public priv) pre = true.
Proof.
  intros [Hl Hok]. unfold edCheck, edSign. destruct (decide _);
    (rewrite copy_full by (rewrite length_replicate; by apply ed_Sign_ok)); by apply ed_Verify_Sign.
Qed.

(** The message that [encrypt] makes, without its type. *)
Definition init_body (rng : nat → bytes) (gen : nat) (init : sessionInit) (from to : bytes) (auth : groupAuth) : bytes :=
  let fromPub := box_Public (rng gen) in
  let sig := edSign (fromPub ++ init_fields init) from (groupAuth_preimage auth) in
  fromPub ++ box_Seal (sig ++ init_fields init) (nonceForUint64 0) (getShared (edPub_toBox to) (rng gen)).

Lemma length_init_body rng gen init from to auth :
  rng_ok rng → priv_ok from → init_ok init → length (init_body rng gen init from to auth) = 192%nat.
Proof.
  intros Hr Hf Hi. unfold init_body. destruct (box_Public_ok _ (Hr gen)) as [Hp _].
  rewrite length_app, box_Seal_len, length_app, Hp, edSign_ok, length_init_fields by done. done.
Qed.

Lemma sessionInit_encrypt_body rng gen init from to auth :
  rng_ok rng → priv_ok from → init_ok init →
  sessionInit_encrypt rng gen init from to auth =
    Ok (sessionTypeInit :: init_body rng gen init from to auth).
Proof.
  intros Hr Hf Hi. pose proof (length_init_body rng gen init from to auth Hr Hf Hi) as Hlen.
  unfold sessionInit_encrypt, newBoxKeys, boxSeal. destruct (box_Public_ok _ (Hr gen)) as [Hp _].
  rewrite drop_app_length' by done. rewrite app_nil_l.
  unfold init_body in *. rewrite decide_True; [done|]. cbn [length]. by rewrite Hlen.
Qed.

Lemma sessionAck_encrypt_body rng gen init from to auth :
  rng_ok rng → priv_ok from → init_ok init →
  sessionAck_encrypt rng gen init from to auth =
    Ok (sessionTypeAck :: init_body rng gen init from to auth).
Proof. intros. unfold sessionAck_encrypt. by rewrite sessionInit_encrypt_body. Qed.

(** An init or ack that a node makes is read by its addressee, when both have the
    same group. *)
Lemma decrypt_body rng gen init from to auth t :
  rng_ok rng → priv_ok from → identity_ok to → init_ok init →
  sessionInit_decrypt (edPriv_toBox to) (ed_Public from)
    (t :: init_body rng gen init from (ed_Public to) auth) auth = Ok (Some init).
Proof.
  intros Hr Hf (Hto & Hbox & Heq) Hi. pose proof (length_init_body rng gen init from (ed_Public to) auth Hr Hf Hi) as Hlen.
  pose proof (length_init_fields init Hi) as Hif.
  unfold sessionInit_decrypt. unfold len at 1. cbn [length]. rewrite Hlen. cbn [negb Z.eqb].
  change (Z.of_nat 193 =? Z.of_nat sessionInitSize) with true. cbn [negb].
  destruct (box_Public_ok _ (Hr gen)) as [Hp _]. unfold init_body.
  set (payload := edSign _ _ _ ++ init_fields init).
  pose proof (bytesPop_app boxPubSize [t] _ (box_Seal payload (nonceForUint64 0)
    (getShared (edPub_toBox (ed_Public to)) (rng gen))) Hp) as Hpop. cbn [length app Nat.add] in Hpop.
  rewrite Hpop. clear Hpop. cbn [mbind res_bind].
  change (t :: box_Public (rng gen) ++ ?s) with ([t] ++ box_Public (rng gen) ++ s).
  replace (drop _ ([t] ++ _)) with (box_Seal payload (nonceForUint64 0) (getShared (edPub_toBox (ed_Public to)) (rng gen)))
    by (rewrite app_assoc, drop_app_length'; [done|rewrite length_app, Hp; done]).
  assert (bytes_ok payload) as Hpay by (apply bytes_ok_app_2; [by apply edSign_bytes|by apply init_fields_ok]).
  unfold boxOpen, getShared. rewrite box_shared, Heq, box_Open_Seal by done. unfold payload.
  pose proof (edSign_ok (box_Public (rng gen) ++ init_fields init) from (groupAuth_preimage auth) Hf) as Hsl.
  pose proof (bytesPop_app edSigSize [] _ (init_fields init) Hsl) as Hpop. cbn [length app Nat.add] in Hpop.
  rewrite Hpop. clear Hpop. cbn [mbind res_bind]. rewrite drop_app_length' by done. rewrite bytesPop_total by (rewrite length_app, Hsl, Hif; size_lia). cbn [mbind res_bind].
  rewrite bytesPop_total by (rewrite length_app, Hsl, Hif; size_lia). cbn [mbind res_bind].
  rewrite !decide_True by (rewrite ?length_drop, length_app, Hsl, Hif; size_lia).
  rewrite edCheck_edSign by done. do 2 f_equal.
  rewrite !drop_app_ge by (rewrite Hsl; size_lia). rewrite Hsl.
  destruct Hi as ([Hc Hcb] & [Hn Hnb] & Hk & Hs). destruct init as [c n k s]. unfold init_fields in *. cbn [in_current in_next in_keySeq in_seq] in *.
  change (edSigSize - edSigSize)%nat with 0%nat. change (edSigSize + boxPubSize - edSigSize)%nat with 32%nat.
  change (edSigSize + boxPubSize + boxPubSize - edSigSize)%nat with 64%nat.
  change (edSigSize + boxPubSize + boxPubSize + 8 - edSigSize)%nat with 72%nat. rewrite drop_0.
  f_equal.
  - by rewrite take_app_length'.
  - rewrite drop_app_length' by done. by rewrite take_app_length'.
  - rewrite app_assoc, drop_app_length' by (rewrite length_app, Hc, Hn; done).
    rewrite take_app_length' by (by rewrite length_be_bytes). by apply be_val_bytes_small.
  - rewrite !app_assoc, drop_app_length' by (rewrite !length_app, length_be_bytes, Hc, Hn; done).
    rewrite take_ge by (rewrite length_be_bytes; lia). by apply be_val_bytes_small.
Qed.

Lemma edCheck_verify msg sig pub pre : edCheck msg sig pub pre = ed_Verify pub (pre ++ msg) sig.
Proof.
  unfold edCheck. destruct (decide _) as [|Hn]; [done|]. destruct pre as [|b pre]; [done|].
  simpl in Hn. lia.
Qed.

(** Reading the fields of an opened payload loses nothing. *)
Lemma payload_fields payload : length payload = 144%nat → bytes_ok payload →
  let init := SessionInit (take 32 (drop 64 payload)) (take 32 (drop 96 payload))
    (be_val (take 8 (drop 128 payload))) (be_val (take 8 (drop 136 payload))) in
  init_ok init ∧ init_fields init = drop 64 payload.
Proof.
  intros Hl Hok init. assert (∀ n k, (n + k <= 144)%nat → length (take k (drop n payload)) = k) as Hlen.
  { intros n k Hnk. rewrite length_take, length_drop. lia. }
  assert (∀ n, (n + 8 <= 144)%nat → is_u64 (be_val (take 8 (drop n payload)))) as Hval.
  { intros n Hn. pose proof (be_val_bound (take 8 (drop n payload))) as Hb. unfold len in Hb.
    rewrite Hlen in Hb by lia. apply Hb. auto with uqda. }
  split; [split_and!; unfold init; cbn [in_current in_next in_keySeq in_seq];
    try (apply (Hlen _ 32%nat); lia); try (apply Hval; lia); auto with uqda|].
  unfold init_fields, init. cbn [in_current in_next in_keySeq in_seq].
  assert (∀ n, (n + 8 <= 144)%nat → be_bytes 8 (be_val (take 8 (drop n payload))) = take 8 (drop n payload)) as Hbe.
  { intros n Hn. rewrite <- (Hlen n 8%nat) at 1 by lia. apply be_bytes_val. auto with uqda. }
  rewrite !Hbe by lia. rewrite (take_ge (drop 136 payload)) by (rewrite length_drop; lia).
  replace (drop 136 payload) with (drop 8 (drop 128 payload)) by (by rewrite drop_drop).
  rewrite take_drop. replace (drop 128 payload) with (drop 32 (drop 96 payload)) by (by rewrite drop_drop).
  rewrite take_drop. replace (drop 96 payload) with (drop 32 (drop 64 payload)) by (by rewrite drop_drop).
  by rewrite take_drop.
Qed.

(** C18: session_init_authentic.  On any bytes the decoder of an init or ack does
    not panic, and what it accepts is a well-formed message that is signed, under
    the key of the node it is said to be from, over the secret of this node's
    group, the ephemeral key and all its fields. *)
Theorem session_init_authentic priv from data auth :
  ∃ r, sessionInit_decrypt priv from data auth = Ok r ∧
    ∀ init, r = Some init →
      init_ok init ∧ length data = sessionInitSize ∧
      ∃ sig, length sig = edSigSize ∧
        ed_Verify from (groupAuth_preimage auth ++ take boxPubSize (drop 1 data) ++ init_fields init) sig = true.
Proof.
  unfold sessionInit_decrypt. destruct (Z.eqb_spec (len data) (Z.of_nat sessionInitSize)) as [Hl|_];
    [|by exists None]. cbn [negb]. unfold len in Hl. apply Nat2Z.inj in Hl.
  rewrite bytesPop_total by (rewrite Hl; size_lia). cbn [mbind res_bind].
  destruct (boxOpen _ _ _) as [payload|] eqn:Hopen; [|by exists None].
  assert (length payload = 144%nat) as Hp.
  { apply box_Open_len in Hopen. rewrite length_drop, Hl in Hopen. size_lia. }
  apply box_Open_ok in Hopen. destruct (payload_fields payload Hp Hopen) as [Hok Hf].
  rewrite !bytesPop_total by (rewrite Hp; size_lia). cbn [mbind res_bind].
  rewrite bytesPop_total by (rewrite Hp; size_lia). cbn [mbind res_bind].
  rewrite bytesPop_total by (rewrite Hp; size_lia). cbn [mbind res_bind].
  rewrite !decide_True by (rewrite ?length_drop, Hp; size_lia).
  eexists. split; [reflexivity|]. intros init Hi.
  destruct (edCheck _ _ _ _) eqn:Hc; [|done]. injection Hi as <-. split; [exact Hok|]. split; [done|].
  rewrite edCheck_verify in Hc. exists (take edSigSize (drop 0 payload)). split.
  - rewrite length_take, length_drop, Hp. done.
  - match goal with |- context [init_fields ?i] => replace (init_fields i) with (drop 64 payload) by (symmetry; exact Hf) end.
    exact Hc.
Qed.

(** session_init_roundtrip.  An init or ack that a node makes for another one
    is accepted there under the sender's key and read back field by field, when
    the two have the same group secret. *)
Theorem session_init_roundtrip rng gen init from to auth data :
  rng_ok rng → priv_ok from → identity_ok to → init_ok init →
  sessionInit_encrypt rng gen init from (ed_Public to) auth = Ok data ∨
  sessionAck_encrypt rng gen init from (ed_Public to) auth = Ok data →
  length data = sessionInitSize ∧
  sessionInit_decrypt (edPriv_toBox to) (ed_Public from) data auth = Ok (Some init).
Proof.
  intros Hr Hf Hto Hi Hd. rewrite sessionInit_encrypt_body, sessionAck_encrypt_body in Hd by done.
  pose proof (length_init_body rng gen init from (ed_Public to) auth Hr Hf Hi) as Hlen.
  destruct Hd as [[= <-]|[= <-]]; (split; [cbn [length]; by rewrite Hlen|by apply decrypt_body]).
Qed.
End Init.

(** ** An instance

    A private key is its own public key up to the conversion of e2c, the key of
    two nodes is the byte-wise sum, and a box is the message behind the number of
    the nonce and a part of the key. *)
Module ToyBox.
Definition add_bytes (a b : bytes) : bytes := zip_with (λ x y, (x + y) mod 256) a b.

(** Sixteen bytes that depend on the nonce and the key. *)
Definition tag (n k : bytes) : bytes := take 16 (map u8 (drop 16 n ++ take 8 k) ++ replicate 16 0).

#[export] Instance toy_box : Box := {
  box_Public k := k;
  box_Precompute pub priv := add_bytes pub priv;
  box_Seal m n k := tag n k ++ m;
  box_Open c n k := if decide (take 16 c = tag n k ∧ bytes_ok (drop 16 c)) then Some (drop 16 c) else None;
}.

Lemma length_tag n k : length (tag n k) = 16%nat.
Proof. unfold tag. rewrite length_take, length_app, length_replicate. lia. Qed.

#[export] Instance toy_box_laws : BoxLaws.
Proof.
  split; simpl.
  - done.
  - intros a b _ _. unfold add_bytes. revert b. induction a as [|x a IH]; intros [|y b]; simpl; [done..|].
    by rewrite (Z.add_comm y x), IH.
  - intros m n k Hm. rewrite take_app_length', drop_app_length' by (by rewrite length_tag). by rewrite decide_True.
  - intros m n k. by rewrite length_app, length_tag.
  - intros m n k Hm. apply bytes_ok_app_2; [|done]. unfold tag. apply bytes_ok_take, bytes_ok_app_2.
    + apply Forall_fmap, Forall_true. intros x. by apply wrap_in_range.
    + auto with uqda.
  - intros c n k m Ho. destruct (decide _) as [[Ht _]|]; [|done]. injection Ho as <-.
    rewrite length_drop. apply (f_equal length) in Ht. rewrite length_take, length_tag in Ht. unfold boxOverhead. lia.
  - intros c n k m Ho. destruct (decide _) as [[_ Hok]|]; [|done]. by injection Ho as <-.
Qed.

(** The private half of an identity is the conversion of its public half. *)
#[export] Instance toy_sha512 : Sha512 := { sha512_Sum seed := Ed25519PublicKeyToCurve25519 seed }.
#[export] Instance toy_argon2 : Argon2 := { argon2_IDKey p s := p }.
End ToyBox.

Module SessionInitWitness.
Import ToySig ToyBox.

(** The private key of the node with the given first byte: seed and public key. *)
Definition identity (b : Z) : bytes := let k := b :: replicate 31 0 in k ++ k.

Definition keys1 (i : nat) : bytes := u8 (Z.of_nat i) :: replicate 31 3.

Lemma keys1_ok : rng_ok keys1.
Proof. intros i. split; [done|]. apply bytes_ok_cons_2; [by apply wrap_in_range|]. auto with uqda. Qed.

Lemma identity_box_ok b : 0 <= b < 256 → bool_decide (bytes_ok (edPriv_toBox (identity b))) = true →
  identity_ok (identity b).
Proof.
  intros Hb Hok%bool_decide_eq_true. split; [|split; [split; [|done]|]].
  - split; [done|]. unfold identity. apply bytes_ok_app_2; (apply bytes_ok_cons_2; [done|]); solve_bytes.
  - unfold edPriv_toBox. by rewrite length_copy.
  - done.
Qed.

Definition init1 : sessionInit := SessionInit (replicate 32 1) (replicate 32 2) 5 1700000000.
Definition auth1 : groupAuth := newGroupAuth [112; 119].

Definition data1 : bytes :=
  match sessionAck_encrypt keys1 4 init1 (identity 2) (ed_Public (identity 0)) auth1 with Ok d => d | _ => [] end.

Lemma session_init_roundtrip_witness :
  sessionAck_encrypt keys1 4 init1 (identity 2) (ed_Public (identity 0)) auth1 = Ok data1 ∧
  (length data1 = 193%nat ∧
   sessionInit_decrypt (edPriv_toBox (identity 0)) (ed_Public (identity 2)) data1 auth1 = Ok (Some init1)) ∧
  sessionInit_decrypt (edPriv_toBox (identity 0)) (ed_Public (identity 2)) data1 (newGroupAuth []) = Ok None.
Proof.
  assert (sessionAck_encrypt keys1 4 init1 (identity 2) (ed_Public (identity 0)) auth1 = Ok data1) as Hd
    by (vm_compute; reflexivity).
  split; [exact Hd|]. split; [|vm_compute; reflexivity].
  apply (session_init_roundtrip keys1 4 init1 (identity 2) (identity 0) auth1 data1).
  - exact keys1_ok.
  - apply (bool_decide_unpack _). vm_compute. exact I.
  - apply identity_box_ok; [lia|vm_compute; reflexivity].
  - split_and!; try reflexivity; apply (bool_decide_unpack _); vm_compute; exact I.
  - right. exact Hd.
Defined.
Lemma session_init_authentic_witness :
  sessionInit_decrypt (edPriv_toBox (identity 0)) (ed_Public (identity 2)) data1 auth1 = Ok (Some init1) ∧
  ∃ sig, length sig = edSigSize ∧
    ed_Verify (ed_Public (identity 2))
      (groupAuth_preimage auth1 ++ take boxPubSize (drop 1 data1) ++ init_fields init1) sig = true.
Proof.
  assert (sessionInit_decrypt (edPriv_toBox (identity 0)) (ed_Public (identity 2)) data1 auth1 = Ok (Some init1)) as Hd
    by (vm_compute; reflexivity).
  split; [exact Hd|].
  destruct (session_init_authentic (edPriv_toBox (identity 0)) (ed_Public (identity 2)) data1 auth1) as (r & Hr & Hs).
  apply Hs. congruence.
Defined.
End SessionInitWitness.
