(* ===== verification/Sessions.v ===== *)
(** * Sessions: end-to-end sessions between nodes
    (session.go, packetconn.go and network.go in third_party/ironwood/encrypted)

    A session manager keeps, per remote key, a session or a buffer with a packet
    that waits for one.  An operation of the manager's actor, with the operations
    of the session that it triggers, is one function from state to state; packets
    handed to the routing layer, packets handed to the reader and the keys and
    nonces of sealed boxes are its outputs.  The messages of a session come from
    the manager only, so they run in the order in which the manager sends them.
    Timers are the operations that they run: a timer that was stopped too late
    may still run its operation. *)

From S2P Require Import Prelude Binary Wire Address Crypto SessionInit.

Definition sessionTimeout : Z := 60 * 1000000000.
Definition sessionTrafficOverheadMin : Z := 1 + 1 + 1 + 1 + Z.of_nat boxOverhead + Z.of_nat boxPubSize.
Definition sessionTrafficOverhead : Z := sessionTrafficOverheadMin + 9 + 9 + 9.

(** ** Data *)

Record sessionInfo := SessionInfo {
  si_seq : Z;
  si_ed : bytes;
  si_remoteKeySeq : Z;
  si_current : bytes;
  si_next : bytes;
  si_localKeySeq : Z;
  si_recvPriv : bytes;
  si_recvPub : bytes;
  si_recvShared : bytes;
  si_recvNonce : Z;
  si_sendPriv : bytes;
  si_sendPub : bytes;
  si_sendShared : bytes;
  si_sendNonce : Z;
  si_nextPriv : bytes;
  si_nextPub : bytes;
  si_since : Z;
  si_rotated : option Z;     (* [None]: the zero time *)
  si_rx : Z;
  si_tx : Z;
  si_nextSendShared : bytes;
  si_nextSendNonce : Z;
  si_nextRecvShared : bytes;
  si_nextRecvNonce : Z;
  si_id : nat;               (* the identity of the object *)
}.

Record sessionBuffer := SessionBuffer {
  sb_data : bytes;
  sb_init : sessionInit;
  sb_currentPriv : bytes;
  sb_nextPriv : bytes;
  sb_id : nat;
}.

Record sessionManager := SessionManager {
  mg_sessions : gmap bytes sessionInfo;
  mg_buffers : gmap bytes sessionBuffer;
  mg_gen : nat;              (* how many keys were drawn *)
}.

(** The keys of the packet connection that owns the manager. *)
Record sessionKeys := SessionKeys { sk_Ed : bytes; sk_Box : bytes; sk_auth : groupAuth }.

Inductive sess_out :=
| SWrite (dest bs : bytes)          (* [network.PacketConn.WriteTo] *)
| SDeliver (from msg : bytes)       (* [netManager.recv] *)
| SSeal (priv : bytes) (nonce : Z). (* a box sealed with a private key *)

(** Assignments to groups of fields. *)
Definition set_own (recvPub recvPriv sendPub sendPriv nextPub nextPriv : bytes) (localKeySeq : Z) (i : sessionInfo) : sessionInfo :=
  SessionInfo (si_seq i) (si_ed i) (si_remoteKeySeq i) (si_current i) (si_next i) localKeySeq recvPriv recvPub
    (si_recvShared i) (si_recvNonce i) sendPriv sendPub (si_sendShared i) (si_sendNonce i) nextPriv nextPub
    (si_since i) (si_rotated i) (si_rx i) (si_tx i) (si_nextSendShared i) (si_nextSendNonce i)
    (si_nextRecvShared i) (si_nextRecvNonce i) (si_id i).

(** The remote side's keys. *)
Definition set_remote (current next : bytes) (remoteKeySeq : Z) (i : sessionInfo) : sessionInfo :=
  SessionInfo (si_seq i) (si_ed i) remoteKeySeq current next (si_localKeySeq i) (si_recvPriv i) (si_recvPub i)
    (si_recvShared i) (si_recvNonce i) (si_sendPriv i) (si_sendPub i) (si_sendShared i) (si_sendNonce i)
    (si_nextPriv i) (si_nextPub i) (si_since i) (si_rotated i) (si_rx i) (si_tx i) (si_nextSendShared i)
    (si_nextSendNonce i) (si_nextRecvShared i) (si_nextRecvNonce i) (si_id i).

(** The remote side's sequence number. *)
Definition set_seq (seq : Z) (i : sessionInfo) : sessionInfo :=
  SessionInfo seq (si_ed i) (si_remoteKeySeq i) (si_current i) (si_next i) (si_localKeySeq i) (si_recvPriv i)
    (si_recvPub i) (si_recvShared i) (si_recvNonce i) (si_sendPriv i) (si_sendPub i) (si_sendShared i)
    (si_sendNonce i) (si_nextPriv i) (si_nextPub i) (si_since i) (si_rotated i) (si_rx i) (si_tx i)
    (si_nextSendShared i) (si_nextSendNonce i) (si_nextRecvShared i) (si_nextRecvNonce i) (si_id i).

(** The four nonces. *)
Definition set_nonces (recvNonce sendNonce nextSendNonce nextRecvNonce : Z) (i : sessionInfo) : sessionInfo :=
  SessionInfo (si_seq i) (si_ed i) (si_remoteKeySeq i) (si_current i) (si_next i) (si_localKeySeq i) (si_recvPriv i)
    (si_recvPub i) (si_recvShared i) recvNonce (si_sendPriv i) (si_sendPub i) (si_sendShared i) sendNonce
    (si_nextPriv i) (si_nextPub i) (si_since i) (si_rotated i) (si_rx i) (si_tx i) (si_nextSendShared i)
    nextSendNonce (si_nextRecvShared i) nextRecvNonce (si_id i).

(** The four shared keys. *)
Definition set_shared (recvShared sendShared nextSendShared nextRecvShared : bytes) (i : sessionInfo) : sessionInfo :=
  SessionInfo (si_seq i) (si_ed i) (si_remoteKeySeq i) (si_current i) (si_next i) (si_localKeySeq i) (si_recvPriv i)
    (si_recvPub i) recvShared (si_recvNonce i) (si_sendPriv i) (si_sendPub i) sendShared (si_sendNonce i)
    (si_nextPriv i) (si_nextPub i) (si_since i) (si_rotated i) (si_rx i) (si_tx i) nextSendShared
    (si_nextSendNonce i) nextRecvShared (si_nextRecvNonce i) (si_id i).

(** The time of the last rotation. *)
Definition set_rotated (rotated : option Z) (i : sessionInfo) : sessionInfo :=
  SessionInfo (si_seq i) (si_ed i) (si_remoteKeySeq i) (si_current i) (si_next i) (si_localKeySeq i) (si_recvPriv i)
    (si_recvPub i) (si_recvShared i) (si_recvNonce i) (si_sendPriv i) (si_sendPub i) (si_sendShared i)
    (si_sendNonce i) (si_nextPriv i) (si_nextPub i) (si_since i) rotated (si_rx i) (si_tx i)
    (si_nextSendShared i) (si_nextSendNonce i) (si_nextRecvShared i) (si_nextRecvNonce i) (si_id i).

(** The traffic counters. *)
Definition set_traffic (rx tx : Z) (i : sessionInfo) : sessionInfo :=
  SessionInfo (si_seq i) (si_ed i) (si_remoteKeySeq i) (si_current i) (si_next i) (si_localKeySeq i) (si_recvPriv i)
    (si_recvPub i) (si_recvShared i) (si_recvNonce i) (si_sendPriv i) (si_sendPub i) (si_sendShared i)
    (si_sendNonce i) (si_nextPriv i) (si_nextPub i) (si_since i) (si_rotated i) rx tx (si_nextSendShared i)
    (si_nextSendNonce i) (si_nextRecvShared i) (si_nextRecvNonce i) (si_id i).

(** The three fields of the header of a traffic message and their length. *)
Definition traffic_header (bs : bytes) : option (Z * Z * Z * nat) :=
  let '(remoteKeySeq, rksLen) := Uvarint (drop 1 bs) in
  if rksLen <=? 0 then None
  else
    let offset := (1 + Z.to_nat rksLen)%nat in
    let '(localKeySeq, lksLen) := Uvarint (drop offset bs) in
    if lksLen <=? 0 then None
    else
      let offset := (offset + Z.to_nat lksLen)%nat in
      let '(nonce, nonceLen) := Uvarint (drop offset bs) in
      if nonceLen <=? 0 then None
      else Some (remoteKeySeq, localKeySeq, nonce, (offset + Z.to_nat nonceLen)%nat).

Section Session.
Context `{Ed25519} `{Box} (rng : nat → bytes) (pc : sessionKeys).

(** ** sessionInfo *)

(** [_fixShared]. *)
Definition _fixShared (recvNonce sendNonce : Z) (i : sessionInfo) : sessionInfo :=
  set_nonces recvNonce sendNonce 0 0
    (set_shared (getShared (si_current i) (si_recvPriv i)) (getShared (si_current i) (si_sendPriv i))
                (getShared (si_next i) (si_sendPriv i)) (getShared (si_next i) (si_recvPriv i)) i).

Definition newSession (now : Z) (gen : nat) (ed current next : bytes) (seq : Z) : sessionInfo * nat :=
  let '(recvPub, recvPriv) := newBoxKeys rng gen in
  let '(sendPub, sendPriv) := newBoxKeys rng (gen + 1) in
  let '(nextPub, nextPriv) := newBoxKeys rng (gen + 2) in
  let i := SessionInfo (u64 (seq - 1)) ed 0 current next 0 recvPriv recvPub [] 0 sendPriv sendPub [] 0
             nextPriv nextPub now None 0 0 [] 0 [] 0 gen in
  (_fixShared 0 0 i, (gen + 3)%nat).

(** Our own keys move up, with a new one at the end. *)
Definition advance (gen : nat) (i : sessionInfo) : sessionInfo * nat :=
  let '(nextPub, nextPriv) := newBoxKeys rng gen in
  (set_own (si_sendPub i) (si_sendPriv i) (si_nextPub i) (si_nextPriv i) nextPub nextPriv
     (u64 (si_localKeySeq i + 1)) i, S gen).

(** [sessionManager.sendInit] and [sendAck]: encrypt and send. *)
Definition sendInit (gen : nat) (dest : bytes) (init : sessionInit) : res () (nat * list sess_out) :=
  bs ← sessionInit_encrypt rng gen init (sk_Ed pc) dest (sk_auth pc);
  Ok (S gen, [SSeal (rng gen) 0; SWrite dest bs]).

Definition sendAck (gen : nat) (dest : bytes) (ack : sessionInit) : res () (nat * list sess_out) :=
  bs ← sessionAck_encrypt rng gen ack (sk_Ed pc) dest (sk_auth pc);
  Ok (S gen, [SSeal (rng gen) 0; SWrite dest bs]).

Definition _sendInit (now : Z) (gen : nat) (i : sessionInfo) : res () (nat * list sess_out) :=
  sendInit gen (si_ed i) (newSessionInit now (si_sendPub i) (si_nextPub i) (si_localKeySeq i)).

Definition _sendAck (now : Z) (gen : nat) (i : sessionInfo) : res () (nat * list sess_out) :=
  sendAck gen (si_ed i) (newSessionInit now (si_sendPub i) (si_nextPub i) (si_localKeySeq i)).

Definition _handleUpdate (gen : nat) (init : sessionInit) (i : sessionInfo) : sessionInfo * nat :=
  let i := set_seq (in_seq init) (set_remote (in_current init) (in_next init) (in_keySeq init) i) in
  let '(i, gen) := advance gen i in
  (_fixShared 0 (si_sendNonce i) i, gen).

Definition handleInit (now : Z) (gen : nat) (init : sessionInit) (i : sessionInfo) :
    res () (sessionInfo * nat * list sess_out) :=
  if in_seq init <=? si_seq i then Ok (i, gen, [])
  else
    let '(i, gen) := _handleUpdate gen init i in
    '(gen, out) ← _sendAck now gen i;
    Ok (i, gen, out).

Definition handleAck (gen : nat) (ack : sessionInit) (i : sessionInfo) : sessionInfo * nat :=
  if in_seq ack <=? si_seq i then (i, gen) else _handleUpdate gen ack i.

Definition doSend (gen : nat) (msg : bytes) (i : sessionInfo) : sessionInfo * nat * list sess_out :=
  let nonce := u64 (si_sendNonce i + 1) in
  let i := set_nonces (si_recvNonce i) nonce (si_nextSendNonce i) (si_nextRecvNonce i) i in
  let '(i, gen) := if nonce =? 0
                   then let '(i, gen) := advance gen i in (_fixShared 0 0 i, gen)
                   else (i, gen) in
  let bs := [sessionTypeTraffic] ++ uvarint (si_localKeySeq i) ++ uvarint (si_remoteKeySeq i) ++
            uvarint (si_sendNonce i) in
  let bs := boxSeal bs (si_nextPub i ++ msg) (si_sendNonce i) (si_sendShared i) in
  (set_traffic (si_rx i) (u64 (si_tx i + len msg)) i, gen, [SSeal (si_sendPriv i) (si_sendNonce i); SWrite (si_ed i) bs]).

(** The cases of [doRecv]: which of our keys and which of theirs a message is for. *)
Inductive recv_path := FromCurrentToRecv | FromNextToSend | FromNextToRecv.

Definition recv_case (i : sessionInfo) (remoteKeySeq localKeySeq : Z) : option recv_path :=
  let fromCurrent := remoteKeySeq =? si_remoteKeySeq i in
  let fromNext := remoteKeySeq =? u64 (si_remoteKeySeq i + 1) in
  let toRecv := u64 (localKeySeq + 1) =? si_localKeySeq i in
  let toSend := localKeySeq =? si_localKeySeq i in
  if fromCurrent && toRecv then Some FromCurrentToRecv
  else if fromNext && toSend then Some FromNextToSend
  else if fromNext && toRecv then Some FromNextToRecv
  else None.

Definition recv_nonce (i : sessionInfo) (p : recv_path) : Z :=
  match p with
  | FromCurrentToRecv => si_recvNonce i
  | FromNextToSend => si_nextSendNonce i
  | FromNextToRecv => si_nextRecvNonce i
  end.

Definition recv_shared (i : sessionInfo) (p : recv_path) : bytes :=
  match p with
  | FromCurrentToRecv => si_recvShared i
  | FromNextToSend => si_nextSendShared i
  | FromNextToRecv => si_nextRecvShared i
  end.

(** Whether the keys were not rotated in the last minute. *)
Definition may_rotate (now : Z) (i : sessionInfo) : bool :=
  match si_rotated i with None => true | Some t => sessionTimeout <? now - t end.

(** Rotation after a message from their next key. *)
Definition rotate (now : Z) (gen : nat) (nonce : Z) (innerKey : bytes) (i : sessionInfo) : sessionInfo * nat :=
  let i := set_remote (si_next i) innerKey (u64 (si_remoteKeySeq i + 1)) i in
  let '(i, gen) := advance gen i in
  (set_rotated (Some now) (_fixShared nonce 0 i), gen).

Definition onSuccess (now : Z) (gen : nat) (p : recv_path) (nonce : Z) (innerKey : bytes) (i : sessionInfo) :
    sessionInfo * nat :=
  match p with
  | FromCurrentToRecv => (set_nonces nonce (si_sendNonce i) (si_nextSendNonce i) (si_nextRecvNonce i) i, gen)
  | FromNextToSend =>
      let i := set_nonces (si_recvNonce i) (si_sendNonce i) nonce (si_nextRecvNonce i) i in
      if may_rotate now i then rotate now gen nonce innerKey i else (i, gen)
  | FromNextToRecv =>
      let i := set_nonces (si_recvNonce i) (si_sendNonce i) (si_nextSendNonce i) nonce i in
      if may_rotate now i then rotate now gen nonce innerKey i else (i, gen)
  end.

Definition doRecv (now : Z) (gen : nat) (msg : bytes) (i : sessionInfo) :
    res () (sessionInfo * nat * list sess_out) :=
  if (len msg <? sessionTrafficOverheadMin) || negb (nth 0 msg 0 =? sessionTypeTraffic) then Ok (i, gen, [])
  else
    match traffic_header msg with
    | None => Ok (i, gen, [])
    | Some (remoteKeySeq, localKeySeq, nonce, offset) =>
        match recv_case i remoteKeySeq localKeySeq with
        | None => '(gen, out) ← _sendInit now gen i; Ok (i, gen, out)
        | Some p =>
            if negb (recv_nonce i p <? nonce) then Ok (i, gen, [])
            else
              match boxOpen (drop offset msg) nonce (recv_shared i p) with
              | Some unboxed =>
                  let key := copy (replicate boxPubSize 0) unboxed in
                  if decide (length unboxed < boxPubSize)%nat then Panic   (* [unboxed[len(key):]] *)
                  else
                    let msg := drop boxPubSize unboxed in
                    let '(i', gen) := onSuccess now gen p nonce key i in
                    Ok (set_traffic (u64 (si_rx i' + len msg)) (si_tx i') i', gen, [SDeliver (si_ed i) msg])
              | None => '(gen, out) ← _sendInit now gen i; Ok (i, gen, out)
              end
        end
    end.

(** ** sessionManager *)

Definition put_session (i : sessionInfo) (gen : nat) (m : sessionManager) : sessionManager :=
  SessionManager (<[si_ed i := i]> (mg_sessions m)) (mg_buffers m) gen.

Definition _newSession (now : Z) (ed recv send : bytes) (seq : Z) (m : sessionManager) :
    sessionInfo * sessionManager :=
  let '(i, gen) := newSession now (mg_gen m) ed recv send seq in
  (i, put_session i gen m).

Definition _sessionForInit (now : Z) (pub : bytes) (init : sessionInit) (m : sessionManager) :
    sessionInfo * option sessionBuffer * sessionManager :=
  match mg_sessions m !! pub with
  | Some i => (i, None, m)
  | None =>
      let '(i, m) := _newSession now pub (in_current init) (in_next init) (in_seq init) m in
      match mg_buffers m !! pub with
      | None => (i, None, m)
      | Some buf =>
          let i := _fixShared 0 0
            (set_own (si_recvPub i) (si_recvPriv i) (in_current (sb_init buf)) (sb_currentPriv buf)
               (in_next (sb_init buf)) (sb_nextPriv buf) (si_localKeySeq i) i) in
          (i, Some buf, SessionManager (<[pub := i]> (mg_sessions m)) (delete pub (mg_buffers m)) (mg_gen m))
      end
  end.

(** The packet of a buffer is sent when its session is there ([buf.data] is nil
    for an empty packet). *)
Definition send_buffered (buf : option sessionBuffer) (i : sessionInfo) (m : sessionManager) :
    sessionManager * list sess_out :=
  match buf with
  | Some buf =>
      if bool_decide (sb_data buf = []) then (m, [])
      else let '(i, gen, out) := doSend (mg_gen m) (sb_data buf) i in (put_session i gen m, out)
  | None => (m, [])
  end.

Definition _handleInit (now : Z) (pub : bytes) (init : sessionInit) (m : sessionManager) :
    res () (sessionManager * list sess_out) :=
  let '(i, buf, m) := _sessionForInit now pub init m in
  '(i, gen, out) ← handleInit now (mg_gen m) init i;
  let m := put_session i gen m in
  let '(m, out2) := send_buffered buf i m in
  Ok (m, out ++ out2).

Definition _handleAck (now : Z) (pub : bytes) (ack : sessionInit) (m : sessionManager) :
    res () (sessionManager * list sess_out) :=
  let isOld := bool_decide (is_Some (mg_sessions m !! pub)) in
  let '(i, buf, m) := _sessionForInit now pub ack m in
  '(i, gen, out) ← (if isOld : bool then let '(i, gen) := handleAck (mg_gen m) ack i in Ok (i, gen, [])
                    else handleInit now (mg_gen m) ack i);
  let m := put_session i gen m in
  let '(m, out2) := send_buffered buf i m in
  Ok (m, out ++ out2).

Definition _handleTraffic (now : Z) (pub msg : bytes) (m : sessionManager) :
    res () (sessionManager * list sess_out) :=
  match mg_sessions m !! pub with
  | Some i =>
      '(i, gen, out) ← doRecv now (mg_gen m) msg i;
      Ok (put_session i gen m, out)
  | None =>
      let gen := mg_gen m in
      let init := newSessionInit now (newBoxKeys rng gen).1 (newBoxKeys rng (gen + 1)).1 0 in
      '(gen, out) ← sendInit (gen + 2) pub init;
      Ok (SessionManager (mg_sessions m) (mg_buffers m) gen, out)
  end.

Definition handleData (now : Z) (pub data : bytes) (m : sessionManager) : res () (sessionManager * list sess_out) :=
  match data with
  | [] => Ok (m, [])
  | t :: _ =>
      if t =? sessionTypeInit then
        init ← sessionInit_decrypt (sk_Box pc) pub data (sk_auth pc);
        match init with Some init => _handleInit now pub init m | None => Ok (m, []) end
      else if t =? sessionTypeAck then
        ack ← sessionInit_decrypt (sk_Box pc) pub data (sk_auth pc);
        match ack with Some ack => _handleAck now pub ack m | None => Ok (m, []) end
      else if t =? sessionTypeTraffic then _handleTraffic now pub data m
      else Ok (m, [])
  end.

Definition _bufferAndInit (now : Z) (toKey msg : bytes) (m : sessionManager) :
    res () (sessionManager * list sess_out) :=
  let '(buf, gen) :=
    match mg_buffers m !! toKey with
    | Some buf => (buf, mg_gen m)
    | None =>
        let gen := mg_gen m in
        let '(currentPub, currentPriv) := newBoxKeys rng gen in
        let '(nextPub, nextPriv) := newBoxKeys rng (gen + 1) in
        (SessionBuffer [] (newSessionInit now currentPub nextPub 0) currentPriv nextPriv gen, (gen + 2)%nat)
    end in
  let buf := SessionBuffer msg (sb_init buf) (sb_currentPriv buf) (sb_nextPriv buf) (sb_id buf) in
  '(gen, out) ← sendInit gen toKey (sb_init buf);
  Ok (SessionManager (mg_sessions m) (<[toKey := buf]> (mg_buffers m)) gen, out).

Definition session_writeTo (now : Z) (toKey msg : bytes) (m : sessionManager) :
    res () (sessionManager * list sess_out) :=
  match mg_sessions m !! toKey with
  | Some i =>
      let '(i, gen, out) := doSend (mg_gen m) msg i in
      Ok (put_session i gen m, out)
  | None => _bufferAndInit now toKey msg m
  end.

(** The timers of a session and of a buffer. *)
Definition session_expire (ed : bytes) (id : nat) (m : sessionManager) : sessionManager :=
  match mg_sessions m !! ed with
  | Some i => if decide (si_id i = id) then SessionManager (delete ed (mg_sessions m)) (mg_buffers m) (mg_gen m) else m
  | None => m
  end.

Definition buffer_expire (ed : bytes) (id : nat) (m : sessionManager) : sessionManager :=
  match mg_buffers m !! ed with
  | Some b => if decide (sb_id b = id) then SessionManager (mg_sessions m) (delete ed (mg_buffers m)) (mg_gen m) else m
  | None => m
  end.

Definition manager_init : sessionManager := SessionManager ∅ ∅ 0.

(** ** Histories *)

Inductive sess_event :=
| EvData (now : Z) (pub data : bytes)
| EvWriteTo (now : Z) (toKey msg : bytes)
| EvSessionTimer (ed : bytes) (id : nat)
| EvBufferTimer (ed : bytes) (id : nat).

Definition sess_step (e : sess_event) (m : sessionManager) : res () (sessionManager * list sess_out) :=
  match e with
  | EvData now pub data => handleData now pub data m
  | EvWriteTo now toKey msg => session_writeTo now toKey msg m
  | EvSessionTimer ed id => Ok (session_expire ed id m, [])
  | EvBufferTimer ed id => Ok (buffer_expire ed id m, [])
  end.

Fixpoint sess_run (es : list sess_event) (m : sessionManager) : res () (sessionManager * list sess_out) :=
  match es with
  | [] => Ok (m, [])
  | e :: es =>
      '(m, out) ← sess_step e m;
      '(m, out') ← sess_run es m;
      Ok (m, out ++ out')
  end.
End Session.

(** ** PacketConn and its reader *)

(** [PacketConn.MTU], from that of the routing layer. *)
Definition PacketConn_MTU (netMTU : Z) : Z := u64 (netMTU - sessionTrafficOverhead).

(** [PacketConn.WriteTo]: the number of bytes and the packet for the manager; an
    address that is not a key is [None]. *)
Definition PacketConn_WriteTo (closed : bool) (netMTU : Z) (p : bytes) (addr : option bytes) :
    res iw_error (Z * (bytes * bytes)) :=
  if closed then Err ErrClosed
  else
    match addr with
    | None => Err ErrBadAddress
    | Some destKey =>
        if negb (len destKey =? Z.of_nat edPubSize) then Err ErrBadAddress
        else if PacketConn_MTU netMTU <? u64 (len p) then Err ErrOversizedMessage
        else Ok (len p, (copy (replicate edPubSize 0) destKey, p))
    end.

(** [PacketConn.ReadFrom] on what the reader's channel holds: the number of bytes,
    the buffer and the sender. *)
Definition PacketConn_ReadFrom (p : bytes) (info : res iw_error (bytes * bytes)) : res iw_error (Z * bytes * bytes) :=
  '(data, from) ← info;
  let n := Z.min (len data) (len p) in
  Ok (n, copy p (take (Z.to_nat n) data), from).

Definition netBufferSize : Z := 128 * 1024.

(** One run of the loop of [netManager.read] on what the routing layer returned:
    whether the loop goes on, whether it closes the channel of closed connections,
    the error for the reader, and what the session manager gets. *)
Definition read_loop (isClosed alreadyClosed : bool) (packet : res iw_error (bytes * bytes)) :
    bool * bool * option iw_error * option (bytes * bytes) :=
  match packet with
  | Ok (buf, from) => (true, false, None, Some (copy (replicate edPubSize 0) from, buf))
  | Err e => (false, isClosed && negb alreadyClosed, Some e, None)
  | Panic => (false, false, None, None)
  end.

(** [Debug.GetSessions] of the sessions in the order of the range over the map. *)
Definition GetSessions (now : Z) (sessions : list (bytes * sessionInfo)) : list (bytes * Z * Z * Z) :=
  (λ '(key, i), (key, now - si_since i, si_rx i, si_tx i)) <$> sessions.

