(* ===== verification/SessionNonces.v ===== *)
(** * SessionNonces: what a session seals and accepts

    A box must never be sealed twice with one key and nonce, and a packet must not
    be delivered twice.  The first holds in every history of the session manager;
    the second holds between two handshakes of a session, and a theorem shows how a
    handshake can break it. *)

From S2P Require Import Prelude Binary Wire Address Crypto SessionInit Sessions.

(** ** Fresh nonces *)

(** The places of the manager where a private key waits to seal boxes: the
    sending and the next key of a session, the two keys of a buffer. *)
Inductive slot := SendOf (ed : bytes) | NextOf (ed : bytes) | BufCurrent (ed : bytes) | BufNext (ed : bytes).

#[export] Instance slot_eq_dec : EqDecision slot.
Proof. solve_decision. Defined.

Definition key_at (m : sessionManager) (sl : slot) : option bytes :=
  match sl with
  | SendOf ed => si_sendPriv <$> mg_sessions m !! ed
  | NextOf ed => si_nextPriv <$> mg_sessions m !! ed
  | BufCurrent ed => sb_currentPriv <$> mg_buffers m !! ed
  | BufNext ed => sb_nextPriv <$> mg_buffers m !! ed
  end.

(** The boxes of a list of outputs. *)
Definition seals (out : list sess_out) : list (bytes * Z) :=
  omap (λ o, match o with SSeal k n => Some (k, n) | _ => None end) out.

Lemma seals_app o1 o2 : seals (o1 ++ o2) = seals o1 ++ seals o2.
Proof. apply omap_app. Qed.

Section Nonces.
Context `{Ed25519} `{Box} (rng : nat → bytes) (pc : sessionKeys).

(** The first [G] keys that are drawn are different. *)
Context (G : nat) (Hrng : ∀ i j, (i < G)%nat → (j < G)%nat → rng i = rng j → i = j).

(** The keys are fresh, each in one place; those that are not yet in use sealed
    nothing, those in use only up to the nonce of their session. *)
Record nonce_core (m : sessionManager) (L : list (bytes * Z)) : Prop := {
  ni_drawn : ∀ sl k, key_at m sl = Some k → ∃ n, (n < mg_gen m)%nat ∧ k = rng n;
  ni_inj : ∀ sl sl' k, key_at m sl = Some k → key_at m sl' = Some k → sl = sl';
  ni_sealed : ∀ sl k n, key_at m sl = Some k → (k, n) ∈ L →
    ∃ ed i, sl = SendOf ed ∧ mg_sessions m !! ed = Some i ∧ n <= si_sendNonce i;
  ni_log : ∀ k n, (k, n) ∈ L → ∃ j, (j < mg_gen m)%nat ∧ k = rng j;
  ni_nodup : NoDup L;
}.

(** This holds while no more than [G] keys are drawn. *)
Record nonce_inv (m : sessionManager) (L : list (bytes * Z)) : Prop := {
  ni_ed : ∀ ed i, mg_sessions m !! ed = Some i → si_ed i = ed ∧ is_u64 (si_sendNonce i);
  ni_core : (mg_gen m <= G)%nat → nonce_core m L;
}.

(** A change of the manager that takes every key from an old place or draws it:
    a key that stays in use keeps its nonce, a key that starts to be used was not. *)
Lemma inv_transfer m m' L (orig : slot → slot + nat) :
  nonce_inv m L → (mg_gen m <= mg_gen m')%nat →
  (∀ ed i, mg_sessions m' !! ed = Some i → si_ed i = ed ∧ is_u64 (si_sendNonce i)) →
  (∀ sl k, key_at m' sl = Some k →
     match orig sl with
     | inl sl0 => key_at m sl0 = Some k ∧
         (sl0 = sl ∧ (∀ ed i i', sl = SendOf ed → mg_sessions m !! ed = Some i → mg_sessions m' !! ed = Some i' →
                       si_sendNonce i <= si_sendNonce i') ∨
          ∀ ed, sl0 ≠ SendOf ed)
     | inr n => k = rng n ∧ (mg_gen m <= n < mg_gen m')%nat
     end) →
  (∀ sl sl' k, key_at m' sl = Some k → key_at m' sl' = Some k → orig sl = orig sl' → sl = sl') →
  nonce_inv m' L.
Proof.
  intros Hinv0 Hg Hed Horig Hinj. split; [done|]. intros HG.
  pose proof (ni_core _ _ Hinv0 ltac:(lia)) as Hinv. split.
  - intros sl k Hk. specialize (Horig sl k Hk). destruct (orig sl) as [sl0|n].
    + destruct Horig as [Hk0 _]. destruct (ni_drawn _ _ Hinv _ _ Hk0) as (j & Hj & ->). exists j. split; [lia|done].
    + destruct Horig as [-> Hn]. exists n. split; [lia|done].
  - intros sl sl' k Hk Hk'. apply (Hinj sl sl' k Hk Hk').
    pose proof (Horig sl k Hk) as H1. pose proof (Horig sl' k Hk') as H2.
    destruct (orig sl) as [s1|n1], (orig sl') as [s2|n2].
    + f_equal. by apply (ni_inj _ _ Hinv _ _ k); [destruct H1|destruct H2].
    + destruct H1 as [H1 _], H2 as [-> H2]. destruct (ni_drawn _ _ Hinv _ _ H1) as (j & Hj & Hrj).
      apply Hrng in Hrj; lia.
    + destruct H2 as [H2 _], H1 as [-> H1]. destruct (ni_drawn _ _ Hinv _ _ H2) as (j & Hj & Hrj).
      apply Hrng in Hrj; lia.
    + destruct H1 as [-> Hb1], H2 as [Hr Hb2]. f_equal. apply Hrng; [lia|lia|done].
  - intros sl k n Hk HL. pose proof (Horig sl k Hk) as H1. destruct (orig sl) as [s1|n1].
    + destruct H1 as [Hk1 Hor]. destruct (ni_sealed _ _ Hinv _ _ _ Hk1 HL) as (ed & i & -> & Hi & Hn).
      destruct Hor as [[<- Hmono]|Hne]; [|by destruct (Hne ed)]. simpl in Hk.
      destruct (mg_sessions m' !! ed) as [i'|] eqn:Hi'; [|done]. exists ed, i'. split; [done|]. split; [done|].
      specialize (Hmono ed i i' eq_refl Hi Hi'). lia.
    + destruct H1 as [-> Hn1]. destruct (ni_log _ _ Hinv _ _ HL) as (j & Hj & Hrj). apply Hrng in Hrj; lia.
  - intros k n HL. destruct (ni_log _ _ Hinv _ _ HL) as (j & Hj & ->). exists j. split; [lia|done].
  - apply (ni_nodup _ _ Hinv).
Qed.

(** Sealing with the sending key of a session and the next nonce. *)
Lemma inv_seal m L ed i :
  nonce_inv m L → mg_sessions m !! ed = Some i →
  ((mg_gen m <= G)%nat → ∀ n, (si_sendPriv i, n) ∈ L → n < si_sendNonce i) →
  nonce_inv m (L ++ [(si_sendPriv i, si_sendNonce i)]).
Proof.
  intros Hinv0 Hi Hlt0. split; [apply Hinv0|]. intros HG. pose proof (ni_core _ _ Hinv0 HG) as Hinv.
  pose proof (Hlt0 HG) as Hlt. assert (key_at m (SendOf ed) = Some (si_sendPriv i)) as Hk by (simpl; by rewrite Hi).
  split; try apply Hinv.
  - intros sl k n Hsl [HL|HL]%elem_of_app; [by apply (ni_sealed _ _ Hinv sl k)|].
    apply list_elem_of_singleton in HL as [= -> ->].
    rewrite (ni_inj _ _ Hinv _ _ _ Hsl Hk). exists ed, i. split_and!; [done..|lia].
  - intros k n [HL|HL]%elem_of_app; [by apply (ni_log _ _ Hinv k n)|].
    apply list_elem_of_singleton in HL as [= -> ->]. apply (ni_drawn _ _ Hinv _ _ Hk).
  - apply NoDup_app. split; [apply (ni_nodup _ _ Hinv)|]. split; [|apply NoDup_singleton].
    intros [k n] HL [= -> ->]%list_elem_of_singleton. specialize (Hlt _ HL). lia.
Qed.

(** A message of the handshake is sealed once, with a key of its own. *)
Lemma inv_ephemeral m L :
  nonce_inv m L →
  nonce_inv (SessionManager (mg_sessions m) (mg_buffers m) (S (mg_gen m))) (L ++ [(rng (mg_gen m), 0)]).
Proof.
  intros Hinv0. split; [apply (ni_ed _ _ Hinv0)|]. simpl. intros HG.
  pose proof (ni_core _ _ Hinv0 ltac:(lia)) as Hinv. split; simpl.
  - intros sl k Hk. destruct (ni_drawn _ _ Hinv sl k Hk) as (j & Hj & ->). exists j. split; [lia|done].
  - apply (ni_inj _ _ Hinv).
  - intros sl k n Hsl [HL|HL]%elem_of_app; [by apply (ni_sealed _ _ Hinv sl k)|].
    apply list_elem_of_singleton in HL as [= -> ->].
    destruct (ni_drawn _ _ Hinv sl _ Hsl) as (j & Hj & Hrj). apply Hrng in Hrj; lia.
  - intros k n [HL|HL]%elem_of_app.
    + destruct (ni_log _ _ Hinv _ _ HL) as (j & Hj & ->). exists j. split; [lia|done].
    + apply list_elem_of_singleton in HL as [= -> ->]. exists (mg_gen m). split; [lia|done].
  - apply NoDup_app. split; [apply (ni_nodup _ _ Hinv)|]. split; [|apply NoDup_singleton].
    intros [k n] HL [= -> ->]%list_elem_of_singleton.
    destruct (ni_log _ _ Hinv _ _ HL) as (j & Hj & Hrj). apply Hrng in Hrj; lia.
Qed.

(** Where a key comes from when session [ed] moves its keys up, gets the keys of
    its buffer or is made. *)
Definition orig_advance (ed : bytes) (g : nat) (sl : slot) : slot + nat :=
  if decide (sl = SendOf ed) then inl (NextOf ed) else if decide (sl = NextOf ed) then inr g else inl sl.

Definition orig_fresh (sl1 sl2 : slot) (g1 g2 : nat) (sl : slot) : slot + nat :=
  if decide (sl = sl1) then inr g1 else if decide (sl = sl2) then inr g2 else inl sl.

Definition orig_buffer (ed : bytes) (sl : slot) : slot + nat :=
  if decide (sl = SendOf ed) then inl (BufCurrent ed) else if decide (sl = NextOf ed) then inl (BufNext ed) else inl sl.

(** A session is replaced by one with the same keys and no smaller nonce. *)
Lemma inv_update m L ed i i' g :
  nonce_inv m L → mg_sessions m !! ed = Some i → si_ed i' = ed →
  si_sendPriv i' = si_sendPriv i → si_nextPriv i' = si_nextPriv i →
  si_sendNonce i <= si_sendNonce i' → is_u64 (si_sendNonce i') → (mg_gen m <= g)%nat →
  nonce_inv (put_session i' g m) L.
Proof.
  intros Hinv Hi Hed Hs Hn Hle Hr Hg. apply (inv_transfer m _ L inl Hinv); unfold put_session; simpl; [done|..].
  - intros ed' j. rewrite Hed, lookup_insert_Some. intros [[<- <-]|[_ Hj]]; [done|]. by apply (ni_ed _ _ Hinv).
  - intros sl k Hk. split.
    + destruct sl as [ed'|ed'|ed'|ed']; simpl in *; try done; rewrite Hed in Hk;
        destruct (decide (ed' = ed)) as [->|Hne]; rewrite ?lookup_insert_eq, ?lookup_insert_ne in Hk by done; try done;
        rewrite Hi; simpl in *; congruence.
    + left. split; [done|]. intros ed' j j' _ Hj. rewrite Hed, lookup_insert_Some.
      intros [[<- <-]|[_ Hj']]; [by simplify_eq|]. simplify_eq. lia.
  - intros sl sl' k _ _ [= ->]. done.
Qed.

(** A session moves its keys up: the new sending key has sealed nothing. *)
Lemma inv_advance m L ed i i' :
  nonce_inv m L → mg_sessions m !! ed = Some i → si_ed i' = ed →
  si_sendPriv i' = si_nextPriv i → si_nextPriv i' = rng (mg_gen m) → is_u64 (si_sendNonce i') →
  nonce_inv (put_session i' (S (mg_gen m)) m) L ∧ ((mg_gen m <= G)%nat → ∀ n, (si_sendPriv i', n) ∉ L).
Proof.
  intros Hinv Hi Hed Hs Hn Hr. split.
  2: { intros HG n HL. rewrite Hs in HL.
       destruct (ni_sealed _ _ (ni_core _ _ Hinv HG) (NextOf ed) _ _ ltac:(simpl; by rewrite Hi) HL) as (e & j & ? & _). done. }
  apply (inv_transfer m _ L (orig_advance ed (mg_gen m)) Hinv); unfold put_session; simpl; [lia|..].
  - intros ed' j. rewrite Hed, lookup_insert_Some. intros [[<- <-]|[_ Hj]]; [done|]. by apply (ni_ed _ _ Hinv).
  - intros sl k Hk. unfold orig_advance. destruct (decide (sl = SendOf ed)) as [->|Hs1].
    { simpl in Hk. rewrite Hed, lookup_insert_eq in Hk. simpl in Hk. split; [simpl; rewrite Hi; simpl; congruence|].
      right. done. }
    destruct (decide (sl = NextOf ed)) as [->|Hs2].
    { simpl in Hk. rewrite Hed, lookup_insert_eq in Hk. simpl in Hk. split; [congruence|lia]. }
    assert (∀ ed', SendOf ed' = sl ∨ NextOf ed' = sl → ed ≠ ed') as Hne by (intros ed' [<-|<-] ->; done).
    split.
    + destruct sl as [ed'|ed'|ed'|ed']; simpl in *; try done; rewrite Hed, lookup_insert_ne in Hk by (apply Hne; auto); done.
    + left. split; [done|]. intros ed' j j' -> Hj. rewrite Hed, lookup_insert_ne by (apply Hne; by left).
      intros; simplify_eq; lia.
  - intros sl sl' k _ _. unfold orig_advance. repeat case_decide; intros; simplify_eq; try done; congruence.
Qed.

(** A session sends a packet. *)
Lemma doSend_inv m L ed i msg i' g out :
  nonce_inv m L → mg_sessions m !! ed = Some i → doSend rng (mg_gen m) msg i = (i', g, out) →
  nonce_inv (put_session i' g m) (L ++ seals out).
Proof.
  intros Hinv Hi. destruct (ni_ed _ _ Hinv _ _ Hi) as [Hed Hr]. unfold doSend.
  destruct (Z.eqb_spec (u64 (si_sendNonce i + 1)) 0) as [Hz|Hz]; intros [= <- <- <-]; cbn [seals omap list_omap].
  - match goal with |- nonce_inv (put_session ?j _ _) _ =>
      destruct (inv_advance m L ed i j Hinv Hi Hed eq_refl eq_refl ltac:(done)) as [Hinv' Hfresh];
      refine (inv_seal _ L ed j Hinv' _ _)
    end.
    + unfold put_session. simpl. rewrite Hed. apply lookup_insert_eq.
    + simpl. intros HG n HL. by destruct (Hfresh ltac:(lia) n HL).
  - assert (u64 (si_sendNonce i + 1) = si_sendNonce i + 1) as Hu.
    { unfold wrap, in_range in *. destruct (decide (si_sendNonce i + 1 = 2 ^ 64)) as [E|E]; [|apply Z.mod_small; lia].
      rewrite E, Z.mod_same in Hz by lia. done. }
    assert (is_u64 (u64 (si_sendNonce i + 1))) as Hu' by (by apply wrap_in_range).
    match goal with |- nonce_inv (put_session ?j _ _) _ =>
      refine (inv_seal _ L ed j (inv_update m L ed i j _ Hinv Hi Hed eq_refl eq_refl _ Hu' (le_n _)) _ _)
    end.
    + simpl. lia.
    + unfold put_session. simpl. rewrite Hed. apply lookup_insert_eq.
    + simpl. intros HG n HL. destruct (ni_sealed _ _ (ni_core _ _ Hinv HG) (SendOf ed) _ _ ltac:(simpl; by rewrite Hi) HL) as (e & j & [= <-] & Hj & Hn).
      simplify_eq. simpl. lia.
Qed.

(** Messages of the handshake. *)
Lemma sendInit_inv m L dest init g out :
  nonce_inv m L → sendInit rng pc (mg_gen m) dest init = Ok (g, out) →
  nonce_inv (SessionManager (mg_sessions m) (mg_buffers m) g) (L ++ seals out).
Proof.
  intros Hinv. unfold sendInit. destruct (sessionInit_encrypt _ _ _ _ _ _); [|done..].
  intros [= <- <-]. by apply inv_ephemeral.
Qed.

Lemma sendAck_inv m L dest init g out :
  nonce_inv m L → sendAck rng pc (mg_gen m) dest init = Ok (g, out) →
  nonce_inv (SessionManager (mg_sessions m) (mg_buffers m) g) (L ++ seals out).
Proof.
  intros Hinv. unfold sendAck. destruct (sessionAck_encrypt _ _ _ _ _ _); [|done..].
  intros [= <- <-]. by apply inv_ephemeral.
Qed.

Lemma inv_gen m L g :
  nonce_inv m L → (mg_gen m <= g)%nat → nonce_inv (SessionManager (mg_sessions m) (mg_buffers m) g) L.
Proof.
  intros Hinv Hg. apply (inv_transfer m _ L inl Hinv); simpl; [done|apply (ni_ed _ _ Hinv)|..].
  - intros sl k Hk. split; [done|]. left. split; [done|]. intros; simplify_eq; lia.
  - intros sl sl' k _ _ [= ->]. done.
Qed.

(** A session is stored unchanged. *)
Lemma inv_same m L ed i :
  nonce_inv m L → mg_sessions m !! ed = Some i → nonce_inv (put_session i (mg_gen m) m) (L ++ []).
Proof.
  intros Hinv Hi. destruct (ni_ed _ _ Hinv _ _ Hi) as [Hed Hr]. rewrite app_nil_r.
  by apply (inv_update m L ed i).
Qed.

Lemma handleUpdate_inv m L ed i init i' g :
  nonce_inv m L → mg_sessions m !! ed = Some i → _handleUpdate rng (mg_gen m) init i = (i', g) →
  nonce_inv (put_session i' g m) L.
Proof.
  intros Hinv Hi [= <- <-]. destruct (ni_ed _ _ Hinv _ _ Hi) as [Hed Hr]. by apply (inv_advance m L ed i).
Qed.

Lemma handleInit_inv m L ed i now init i' g out :
  nonce_inv m L → mg_sessions m !! ed = Some i → handleInit rng pc now (mg_gen m) init i = Ok (i', g, out) →
  nonce_inv (put_session i' g m) (L ++ seals out).
Proof.
  intros Hinv Hi. unfold handleInit. destruct (_ <=? _); [intros [= <- <- <-]; by apply (inv_same m L ed)|].
  destruct (_handleUpdate _ _ _ _) as [j g1] eqn:Hup. apply (handleUpdate_inv m L ed i) in Hup as Hinv'; [|done..].
  unfold _sendAck. destruct (sendAck _ _ _ _ _) as [[g2 o]| |] eqn:Hs; [|done..]. intros [= <- <- <-].
  by apply (sendAck_inv (put_session j g1 m) L _ _ _ _ Hinv' Hs).
Qed.

Lemma handleAck_inv m L ed i ack i' g :
  nonce_inv m L → mg_sessions m !! ed = Some i → handleAck rng (mg_gen m) ack i = (i', g) →
  nonce_inv (put_session i' g m) (L ++ []).
Proof.
  intros Hinv Hi. unfold handleAck. destruct (_ <=? _); [intros [= <- <-]; by apply (inv_same m L ed)|].
  rewrite app_nil_r. by apply (handleUpdate_inv m L ed).
Qed.

Lemma onSuccess_inv m L ed i now p nonce key i' g rx tx :
  nonce_inv m L → mg_sessions m !! ed = Some i → onSuccess rng now (mg_gen m) p nonce key i = (i', g) →
  nonce_inv (put_session (set_traffic rx tx i') g m) L.
Proof.
  intros Hinv Hi. destruct (ni_ed _ _ Hinv _ _ Hi) as [Hed Hr].
  destruct p; cbn [onSuccess]; [intros [= <- <-]; by apply (inv_update m L ed i)|..];
    (destruct (may_rotate _ _); intros [= <- <-]; [by apply (inv_advance m L ed i)|by apply (inv_update m L ed i)]).
Qed.

Lemma doRecv_inv m L ed i now msg i' g out :
  nonce_inv m L → mg_sessions m !! ed = Some i → doRecv rng pc now (mg_gen m) msg i = Ok (i', g, out) →
  nonce_inv (put_session i' g m) (L ++ seals out).
Proof.
  intros Hinv Hi. assert (∀ r g, _sendInit rng pc now (mg_gen m) i = Ok (g, r) →
    nonce_inv (put_session i g m) (L ++ seals r)) as Hsend.
  { intros r g1 Hs. pose proof (inv_same m L ed i Hinv Hi) as Hsame. rewrite app_nil_r in Hsame.
    by apply (sendInit_inv _ L _ _ _ _ Hsame Hs). }
  unfold doRecv. destruct (_ || _); [intros [= <- <- <-]; by apply (inv_same m L ed)|].
  destruct (traffic_header msg) as [[[[rks lks] nonce] off]|]; [|intros [= <- <- <-]; by apply (inv_same m L ed)].
  destruct (recv_case i rks lks) as [p|].
  2: { destruct (_sendInit _ _ _ _ _) as [[g1 o]| |]; [|done..]. intros [= <- <- <-]. by apply Hsend. }
  destruct (negb _); [intros [= <- <- <-]; by apply (inv_same m L ed)|].
  destruct (boxOpen _ _ _) as [unboxed|].
  2: { destruct (_sendInit _ _ _ _ _) as [[g1 o]| |]; [|done..]. intros [= <- <- <-]. by apply Hsend. }
  destruct (decide _); [done|]. destruct (onSuccess _ _ _ _ _ _ _) as [j g1] eqn:Hon. intros [= <- <- <-].
  cbn [seals omap list_omap]. rewrite app_nil_r. by eapply (onSuccess_inv m L ed i).
Qed.

(** Two places get new keys. *)
Lemma orig_fresh_inj sl1 sl2 g1 g2 sl sl' :
  g1 ≠ g2 → orig_fresh sl1 sl2 g1 g2 sl = orig_fresh sl1 sl2 g1 g2 sl' → sl = sl'.
Proof. intros Hg. unfold orig_fresh. repeat case_decide; intros; simplify_eq; done. Qed.

Lemma newSession_inv m L now pub cur nxt seq i m1 :
  nonce_inv m L → mg_sessions m !! pub = None → _newSession rng now pub cur nxt seq m = (i, m1) →
  nonce_inv m1 L ∧ mg_sessions m1 !! pub = Some i ∧ mg_buffers m1 = mg_buffers m ∧ si_ed i = pub ∧ si_sendNonce i = 0.
Proof.
  intros Hinv Hnone [= <- <-]. split; [|split; [by apply lookup_insert_eq|done]].
  apply (inv_transfer m _ L (orig_fresh (SendOf pub) (NextOf pub) (mg_gen m + 1) (mg_gen m + 2)) Hinv);
    unfold put_session; simpl; [lia|..].
  - intros ed j. rewrite lookup_insert_Some. intros [[<- <-]|[_ Hj]]; [done|]. by apply (ni_ed _ _ Hinv).
  - intros sl k Hk. unfold orig_fresh. destruct (decide (sl = SendOf pub)) as [->|Hs1].
    { simpl in Hk. rewrite lookup_insert_eq in Hk. injection Hk as <-. split; [done|lia]. }
    destruct (decide (sl = NextOf pub)) as [->|Hs2].
    { simpl in Hk. rewrite lookup_insert_eq in Hk. injection Hk as <-. split; [done|lia]. }
    assert (∀ ed', SendOf ed' = sl ∨ NextOf ed' = sl → pub ≠ ed') as Hne by (intros ed' [<-|<-] ->; done).
    split; [destruct sl; simpl in *; try done; rewrite lookup_insert_ne in Hk by (apply Hne; auto); done|].
    left. split; [done|]. intros ed' j j' -> Hj. rewrite lookup_insert_ne by (apply Hne; by left). intros; simplify_eq; lia.
  - intros sl sl' k _ _. apply orig_fresh_inj. lia.
Qed.

Lemma sessionForInit_inv m L now pub init i buf m1 :
  nonce_inv m L → _sessionForInit rng now pub init m = (i, buf, m1) →
  nonce_inv m1 L ∧ mg_sessions m1 !! pub = Some i.
Proof.
  intros Hinv. unfold _sessionForInit. destruct (mg_sessions m !! pub) as [i0|] eqn:Hs; [by intros [= <- <- <-]|].
  destruct (_newSession _ _ _ _ _ _ _) as [i0 m0] eqn:Hn.
  apply (newSession_inv m L) in Hn as (Hinv0 & Hs0 & Hb0 & Hed & Hz); [|done..].
  destruct (mg_buffers m0 !! pub) as [b|] eqn:Hb; [|by intros [= <- <- <-]]. intros [= <- <- <-].
  split; [|simpl; apply lookup_insert_eq].
  apply (inv_transfer m0 _ L (orig_buffer pub) Hinv0); simpl; [lia|..].
  - intros ed j. rewrite lookup_insert_Some. intros [[<- <-]|[_ Hj]]; [done|]. by apply (ni_ed _ _ Hinv0).
  - intros sl k Hk. unfold orig_buffer. destruct (decide (sl = SendOf pub)) as [->|Hs1].
    { simpl in Hk. rewrite lookup_insert_eq in Hk. split; [simpl; by rewrite Hb|by right]. }
    destruct (decide (sl = NextOf pub)) as [->|Hs2].
    { simpl in Hk. rewrite lookup_insert_eq in Hk. split; [simpl; by rewrite Hb|by right]. }
    assert (∀ ed', SendOf ed' = sl ∨ NextOf ed' = sl → pub ≠ ed') as Hne by (intros ed' [<-|<-] ->; done).
    split.
    + destruct sl as [e|e|e|e]; simpl in *; try (rewrite lookup_insert_ne in Hk by (apply Hne; auto); done);
        (destruct (decide (pub = e)) as [->|]; [by rewrite lookup_delete_eq in Hk|by rewrite lookup_delete_ne in Hk]).
    + left. split; [done|]. intros ed' j j' -> Hj. rewrite lookup_insert_ne by (apply Hne; by left). intros; simplify_eq; lia.
  - intros sl sl' k Hk Hk'. unfold orig_buffer.
    assert (∀ sl, sl = BufCurrent pub ∨ sl = BufNext pub → key_at (SessionManager
      (<[pub:=_fixShared 0 0 (set_own (si_recvPub i0) (si_recvPriv i0) (in_current (sb_init b)) (sb_currentPriv b)
        (in_next (sb_init b)) (sb_nextPriv b) (si_localKeySeq i0) i0)]> (mg_sessions m0))
      (delete pub (mg_buffers m0)) (mg_gen m0)) sl = None) as Hgone.
    { intros s [->| ->]; simpl; by rewrite lookup_delete_eq. }
    repeat case_decide; intros; simplify_eq; try done; rewrite Hgone in * by auto; done.
Qed.

Lemma send_buffered_inv m L pub buf i m1 out :
  nonce_inv m L → mg_sessions m !! pub = Some i → send_buffered rng buf i m = (m1, out) →
  nonce_inv m1 (L ++ seals out).
Proof.
  intros Hinv Hi. unfold send_buffered. destruct buf as [b|]; [|intros [= <- <-]; by rewrite app_nil_r].
  destruct (bool_decide _); [intros [= <- <-]; by rewrite app_nil_r|].
  destruct (doSend _ _ _ _) as [[j g] o] eqn:Hs. intros [= <- <-]. by apply (doSend_inv m L pub i _ _ _ _ Hinv Hi Hs).
Qed.

(** A handshake message was handled; the buffered packet follows. *)
Lemma answer_inv m L i g out buf m1 out2 :
  nonce_inv (put_session i g m) (L ++ seals out) → send_buffered rng buf i (put_session i g m) = (m1, out2) →
  nonce_inv m1 (L ++ seals (out ++ out2)).
Proof.
  intros Hinv Hs. rewrite seals_app, app_assoc.
  apply (send_buffered_inv _ _ (si_ed i) buf i m1 out2 Hinv); [apply lookup_insert_eq|done].
Qed.

Lemma handleData_inv m L now pub data m1 out :
  nonce_inv m L → handleData rng pc now pub data m = Ok (m1, out) → nonce_inv m1 (L ++ seals out).
Proof.
  intros Hinv. assert (Ok (E := ()) (m, []) = Ok (m1, out) → nonce_inv m1 (L ++ seals out)) as Hnil.
  { intros [= <- <-]. by rewrite app_nil_r. }
  unfold handleData. destruct data as [|t data]; [done|]. destruct (t =? sessionTypeInit).
  { destruct (sessionInit_decrypt _ _ _ _) as [[init|]| |]; [|done..]. cbn [mbind res_bind]. unfold _handleInit.
    destruct (_sessionForInit _ _ _ _ _) as [[i buf] m0] eqn:Hf.
    apply (sessionForInit_inv m L) in Hf as [Hinv0 Hi]; [|done].
    destruct (handleInit _ _ _ _ _ _) as [[[j g] o]| |] eqn:Hh; [|done..]. cbn [mbind res_bind].
    destruct (send_buffered _ _ _ _) as [m2 o2] eqn:Hb. intros [= <- <-].
    apply (answer_inv m0 L j g o buf); [by apply (handleInit_inv m0 L pub i now init)|done]. }
  destruct (t =? sessionTypeAck).
  { destruct (sessionInit_decrypt _ _ _ _) as [[ack|]| |]; [|done..]. cbn [mbind res_bind]. unfold _handleAck.
    destruct (_sessionForInit _ _ _ _ _) as [[i buf] m0] eqn:Hf.
    apply (sessionForInit_inv m L) in Hf as [Hinv0 Hi]; [|done]. destruct (bool_decide _).
    - destruct (handleAck _ _ _ _) as [j g] eqn:Hh. cbn [mbind res_bind].
      destruct (send_buffered _ _ _ _) as [m2 o2] eqn:Hb. intros [= <- <-].
      apply (answer_inv m0 L j g [] buf); [by apply (handleAck_inv m0 L pub i ack)|done].
    - destruct (handleInit _ _ _ _ _ _) as [[[j g] o]| |] eqn:Hh; [|done..]. cbn [mbind res_bind].
      destruct (send_buffered _ _ _ _) as [m2 o2] eqn:Hb. intros [= <- <-].
      apply (answer_inv m0 L j g o buf); [by apply (handleInit_inv m0 L pub i now ack)|done]. }
  destruct (t =? sessionTypeTraffic); [|done]. unfold _handleTraffic.
  destruct (mg_sessions m !! pub) as [i|] eqn:Hi.
  - destruct (doRecv _ _ _ _ _ _) as [[[j g] o]| |] eqn:Hr; [|done..]. intros [= <- <-].
    by apply (doRecv_inv m L pub i now (t :: data)).
  - destruct (sendInit _ _ _ _ _) as [[g o]| |] eqn:Hs; [|done..]. intros [= <- <-].
    apply (sendInit_inv (SessionManager (mg_sessions m) (mg_buffers m) (mg_gen m + 2)) L pub _ _ _) in Hs; [done|].
    apply inv_gen; [done|lia].
Qed.

(** The buffer of a key is replaced by one with the same keys, or made anew. *)
Lemma buffer_put_inv m L key b data g :
  nonce_inv m L → (mg_gen m <= g)%nat →
  (mg_buffers m !! key = Some b ∨
   mg_buffers m !! key = None ∧ sb_currentPriv b = rng (mg_gen m) ∧ sb_nextPriv b = rng (mg_gen m + 1) ∧
   g = (mg_gen m + 2)%nat) →
  nonce_inv (SessionManager (mg_sessions m)
    (<[key := SessionBuffer data (sb_init b) (sb_currentPriv b) (sb_nextPriv b) (sb_id b)]> (mg_buffers m)) g) L.
Proof.
  intros Hinv Hg [Hsome|(Hno & Hc & Hn & ->)].
  - apply (inv_transfer m _ L inl Hinv); simpl; [done|apply (ni_ed _ _ Hinv)| |by intros sl sl' k _ _ [= ->]].
    intros sl k Hk. split; [|left; split; [done|]; intros; simplify_eq; lia].
    destruct sl as [e|e|e|e]; simpl in *; try done; (destruct (decide (key = e)) as [->|];
      [rewrite lookup_insert_eq in Hk; by rewrite Hsome|by rewrite lookup_insert_ne in Hk]).
  - apply (inv_transfer m _ L (orig_fresh (BufCurrent key) (BufNext key) (mg_gen m) (mg_gen m + 1)) Hinv);
      simpl; [done|apply (ni_ed _ _ Hinv)| |intros sl sl' k _ _; apply orig_fresh_inj; lia].
    intros sl k Hk. unfold orig_fresh.
    destruct (decide (sl = BufCurrent key)) as [->|Hs1].
    { simpl in Hk. rewrite lookup_insert_eq in Hk. injection Hk as <-. split; [done|lia]. }
    destruct (decide (sl = BufNext key)) as [->|Hs2].
    { simpl in Hk. rewrite lookup_insert_eq in Hk. injection Hk as <-. split; [done|lia]. }
    split; [|left; split; [done|]; intros; simplify_eq; lia].
    destruct sl as [e|e|e|e]; simpl in *; try done; rewrite lookup_insert_ne in Hk by congruence; done.
Qed.

Lemma writeTo_inv m L now key msg m1 out :
  nonce_inv m L → session_writeTo rng pc now key msg m = Ok (m1, out) → nonce_inv m1 (L ++ seals out).
Proof.
  intros Hinv. unfold session_writeTo. destruct (mg_sessions m !! key) as [i|] eqn:Hi.
  { destruct (doSend _ _ _ _) as [[j g] o] eqn:Hs. intros [= <- <-]. by apply (doSend_inv m L key i msg). }
  unfold _bufferAndInit. destruct (mg_buffers m !! key) as [b|] eqn:Hb.
  - destruct (sendInit _ _ _ _ _) as [[g o]| |] eqn:Hs; [|done..]. intros [= <- <-].
    pose proof (buffer_put_inv m L key b msg (mg_gen m) Hinv (le_n _) (or_introl Hb)) as Hput.
    by apply (sendInit_inv _ L _ _ _ _ Hput) in Hs.
  - cbn [newBoxKeys]. destruct (sendInit _ _ _ _ _) as [[g o]| |] eqn:Hs; [|done..]. intros [= <- <-].
    match goal with |- nonce_inv (SessionManager _ (<[_ := SessionBuffer _ ?ini ?c ?n ?id]> _) _) _ =>
      pose proof (buffer_put_inv m L key (SessionBuffer [] ini c n id) msg (mg_gen m + 2) Hinv
        ltac:(lia) ltac:(by right)) as Hput
    end.
    by apply (sendInit_inv _ L _ _ _ _ Hput) in Hs.
Qed.

(** Dropping a session or a buffer. *)
Lemma drop_inv m L ss bs :
  nonce_inv m L → ss ⊆ mg_sessions m → bs ⊆ mg_buffers m → nonce_inv (SessionManager ss bs (mg_gen m)) L.
Proof.
  intros Hinv Hss Hbs. apply (inv_transfer m _ L inl Hinv); simpl; [done|..].
  - intros ed i Hi. eapply (ni_ed _ _ Hinv), lookup_weaken; done.
  - intros sl k Hk. split.
    + destruct sl as [e|e|e|e]; simpl in *; (apply fmap_Some in Hk as (x & Hx & ->);
        by erewrite lookup_weaken by done).
    + left. split; [done|]. intros ed i i' _ Hi Hi'. pose proof (lookup_weaken _ _ _ _ Hi' Hss). simplify_eq. lia.
  - intros sl sl' k _ _ [= ->]. done.
Qed.

Lemma sess_step_inv e m L m1 out :
  nonce_inv m L → sess_step rng pc e m = Ok (m1, out) → nonce_inv m1 (L ++ seals out).
Proof.
  intros Hinv. destruct e as [now pub data|now key msg|ed id|ed id]; simpl.
  - by apply handleData_inv.
  - by apply writeTo_inv.
  - intros [= <- <-]. rewrite app_nil_r. unfold session_expire. destruct (_ !! _); [|done].
    destruct (decide _); [|done]. apply drop_inv; [done|apply delete_subseteq|done].
  - intros [= <- <-]. rewrite app_nil_r. unfold buffer_expire. destruct (_ !! _); [|done].
    destruct (decide _); [|done]. apply drop_inv; [done|done|apply delete_subseteq].
Qed.

Lemma sess_run_inv es m L m1 out :
  nonce_inv m L → sess_run rng pc es m = Ok (m1, out) → nonce_inv m1 (L ++ seals out).
Proof.
  revert m L out. induction es as [|e es IH]; intros m L out Hinv; simpl; [intros [= <- <-]; by rewrite app_nil_r|].
  destruct (sess_step rng pc e m) as [[m0 o]| |] eqn:Hs; [|done..]. simpl.
  destruct (sess_run rng pc es m0) as [[m2 o2]| |] eqn:Hr; [|done..]. intros [= <- <-].
  rewrite seals_app, app_assoc. apply (IH m0 (L ++ seals o)); [|done]. by apply (sess_step_inv e m).
Qed.

Lemma nonce_inv_init : nonce_inv manager_init [].
Proof.
  split; [intros ed i; simpl; by rewrite lookup_empty|]. intros _. split; simpl.
  - intros [e|e|e|e] k; simpl; by rewrite lookup_empty.
  - intros [e|e|e|e] sl' k; simpl; by rewrite lookup_empty.
  - intros sl k n _ ?%not_elem_of_nil. done.
  - intros k n ?%not_elem_of_nil. done.
  - apply NoDup_nil_2.
Qed.
End Nonces.

(** C16: session_nonces_fresh.  In any history of packets from the network, packets
    to send and timers, when the keys that were drawn are different, no box is sealed twice with the
    same private key and nonce: neither traffic, also when a nonce overflows or a
    handshake intervenes, nor messages of the handshake. *)
Theorem session_nonces_fresh `{Ed25519} `{Box} rng pc es m out :
  sess_run rng pc es manager_init = Ok (m, out) →
  (∀ i j, (i < mg_gen m)%nat → (j < mg_gen m)%nat → rng i = rng j → i = j) → NoDup (seals out).
Proof.
  intros Hrun Hrng.
  pose proof (sess_run_inv rng pc (mg_gen m) Hrng es manager_init [] m out (nonce_inv_init rng (mg_gen m)) Hrun) as Hinv.
  apply (ni_nodup _ _ _ (ni_core _ _ _ _ Hinv (le_n _))).
Qed.

(** ** No packet twice *)

(** The traffic of a session between two handshakes. *)
Inductive traffic_event := TrSend (msg : bytes) | TrRecv (now : Z) (msg : bytes).

Definition delivers (out : list sess_out) : bool :=
  existsb (λ o, match o with SDeliver _ _ => true | _ => false end) out.

(** The key numbers and the nonce of a packet. *)
Definition traffic_label (msg : bytes) : list (Z * Z * Z) :=
  match traffic_header msg with Some (r, l, n, _) => [(r, l, n)] | None => [] end.

(** The last component: the labels of the packets that were delivered. *)
Fixpoint traffic_run `{Ed25519} `{Box} (rng : nat → bytes) (pc : sessionKeys)
    (es : list traffic_event) (i : sessionInfo) (gen : nat) : res () (sessionInfo * list (Z * Z * Z)) :=
  match es with
  | [] => Ok (i, [])
  | TrSend msg :: es => let '(i, gen, _) := doSend rng gen msg i in traffic_run rng pc es i gen
  | TrRecv now msg :: es =>
      '(i, gen, out) ← doRecv rng pc now gen msg i;
      '(i, log) ← traffic_run rng pc es i gen;
      Ok (i, (if delivers out then traffic_label msg else []) ++ log)
  end.

(** The packets that a session writes during such a run. *)
Definition written (out : list sess_out) : list bytes :=
  omap (λ o, match o with SWrite _ bs => Some bs | _ => None end) out.

Fixpoint traffic_sends `{Ed25519} `{Box} (rng : nat → bytes) (pc : sessionKeys)
    (es : list traffic_event) (i : sessionInfo) (gen : nat) : list bytes :=
  match es with
  | [] => []
  | TrSend msg :: es => let '(i, gen, out) := doSend rng gen msg i in written out ++ traffic_sends rng pc es i gen
  | TrRecv now msg :: es =>
      match doRecv rng pc now gen msg i with
      | Ok (i, gen, _) => traffic_sends rng pc es i gen
      | _ => []
      end
  end.

Section Replay.
Context `{Ed25519} `{Box} (rng : nat → bytes) (pc : sessionKeys).

(** The counters of a session stay in range during [n] more events. *)
Definition counters_ok (n : Z) (i : sessionInfo) : Prop :=
  1 <= si_localKeySeq i ∧ 0 <= si_remoteKeySeq i ∧ 0 <= si_sendNonce i ∧
  si_localKeySeq i + n < 2 ^ 64 ∧ si_remoteKeySeq i + n + 1 < 2 ^ 64 ∧ si_sendNonce i + n < 2 ^ 64.

(** What was delivered is covered by the nonces of the session. *)
Definition covered (i : sessionInfo) (log : list (Z * Z * Z)) : Prop :=
  ∀ r l n, (r, l, n) ∈ log →
    r <= si_remoteKeySeq i + 1 ∧ l <= si_localKeySeq i ∧
    (r = si_remoteKeySeq i → l + 1 = si_localKeySeq i → n <= si_recvNonce i) ∧
    (r = si_remoteKeySeq i + 1 → l = si_localKeySeq i → n <= si_nextSendNonce i) ∧
    (r = si_remoteKeySeq i + 1 → l + 1 = si_localKeySeq i → n <= si_nextRecvNonce i).

(** Where the numbers of an accepted packet stand. *)
Lemma recv_case_Some n i r l p :
  counters_ok n i → 0 < n → is_u64 r → is_u64 l → recv_case i r l = Some p →
  match p with
  | FromCurrentToRecv => r = si_remoteKeySeq i ∧ l + 1 = si_localKeySeq i
  | FromNextToSend => r = si_remoteKeySeq i + 1 ∧ l = si_localKeySeq i
  | FromNextToRecv => r = si_remoteKeySeq i + 1 ∧ l + 1 = si_localKeySeq i
  end.
Proof.
  intros (HL & HR & _ & HL' & HR' & _) Hn Hr Hl. unfold recv_case.
  rewrite (wrap_small 64 (si_remoteKeySeq i + 1)) by (unfold in_range; lia).
  assert (u64 (l + 1) = si_localKeySeq i → l + 1 = si_localKeySeq i) as Hw.
  { unfold wrap, in_range in *. destruct (decide (l + 1 = 2 ^ 64)) as [E|E]; [rewrite E, Z.mod_same by lia; lia|].
    rewrite Z.mod_small by lia. done. }
  destruct (Z.eqb_spec r (si_remoteKeySeq i)), (Z.eqb_spec r (si_remoteKeySeq i + 1)),
    (Z.eqb_spec (u64 (l + 1)) (si_localKeySeq i)), (Z.eqb_spec l (si_localKeySeq i)); intros [= <-]; auto.
Qed.

Lemma traffic_header_u64 msg r l n off :
  traffic_header msg = Some (r, l, n, off) → is_u64 r ∧ is_u64 l ∧ is_u64 n.
Proof.
  unfold traffic_header. destruct (Uvarint (drop 1 msg)) as [r' rl] eqn:Hr. destruct (Z.leb_spec rl 0); [done|].
  destruct (Uvarint (drop (1 + Z.to_nat rl) msg)) as [l' ll] eqn:Hl. destruct (Z.leb_spec ll 0); [done|].
  destruct (Uvarint (drop (1 + Z.to_nat rl + Z.to_nat ll) msg)) as [n' nl] eqn:Hn.
  destruct (Z.leb_spec nl 0); [done|]. intros [= <- <- <- <-].
  apply Uvarint_bound in Hr as [? _], Hl as [? _], Hn as [? _]; [done|lia..].
Qed.

(** What [doRecv] does: it leaves the session alone, or it accepts the packet. *)
Lemma doRecv_cases now g msg i i' g' out :
  doRecv rng pc now g msg i = Ok (i', g', out) →
  (i' = i ∧ delivers out = false) ∨
  ∃ r l n off p unboxed j, traffic_header msg = Some (r, l, n, off) ∧ recv_case i r l = Some p ∧
    recv_nonce i p < n ∧ boxOpen (drop off msg) n (recv_shared i p) = Some unboxed ∧
    (boxPubSize <= length unboxed)%nat ∧
    onSuccess rng now g p n (copy (replicate boxPubSize 0) unboxed) i = (j, g') ∧
    i' = set_traffic (u64 (si_rx j + len (drop boxPubSize unboxed))) (si_tx j) j ∧
    out = [SDeliver (si_ed i) (drop boxPubSize unboxed)].
Proof.
  assert (∀ g1 o, _sendInit rng pc now g i = Ok (g1, o) → delivers o = false) as Hsend.
  { intros g1 o. unfold _sendInit, sendInit. destruct (sessionInit_encrypt _ _ _ _ _ _); [|done..]. by intros [= <- <-]. }
  unfold doRecv. destruct (_ || _); [intros [= <- <- <-]; by left|].
  destruct (traffic_header msg) as [[[[r l] n] off]|]; [|intros [= <- <- <-]; by left].
  destruct (recv_case i r l) as [p|] eqn:Hp.
  2: { destruct (_sendInit _ _ _ _ _) as [[g1 o]| |] eqn:Hs; [|done..]. intros [= <- <- <-]. left. eauto. }
  destruct (Z.ltb_spec (recv_nonce i p) n) as [Hlt|]; cbn [negb]; [|intros [= <- <- <-]; by left].
  destruct (boxOpen _ _ _) as [unboxed|] eqn:Ho.
  2: { destruct (_sendInit _ _ _ _ _) as [[g1 o]| |] eqn:Hs; [|done..]. intros [= <- <- <-]. left. eauto. }
  destruct (decide _) as [|Hlen]; [done|]. destruct (onSuccess _ _ _ _ _ _ _) as [j g1] eqn:Hon.
  intros [= <- <- <-]. right. exists r, l, n, off, p, unboxed, j. split_and!; try done. lia.
Qed.

(** The counters after a packet was accepted. *)
Lemma onSuccess_counters n i now g p nonce key j g' :
  counters_ok (n + 1) i → 0 <= n → onSuccess rng now g p nonce key i = (j, g') → counters_ok n j.
Proof.
  intros (HL & HR & HN & HL' & HR' & HN') Hn. unfold counters_ok.
  destruct p; cbn [onSuccess]; [intros [= <- <-]; simpl; lia|..];
    (destruct (may_rotate _ _); intros [= <- <-]; simpl; [|lia]);
    rewrite !(wrap_small 64) by (unfold in_range; lia); lia.
Qed.

(** An accepted packet is new, and covered from then on, when the remote side uses
    one of our keys for each of its own. *)
Lemma onSuccess_covered m i now g p r l n key j g' log :
  counters_ok (m + 1) i → 0 <= m → is_u64 r → is_u64 l → covered i log →
  (∀ l' n', (r, l', n') ∈ log → l' = l) →
  recv_case i r l = Some p → recv_nonce i p < n → onSuccess rng now g p n key i = (j, g') →
  (r, l, n) ∉ log ∧ covered j (log ++ [(r, l, n)]).
Proof.
  intros Hc Hm Hr Hl Hcov Hone Hp Hlt Hon.
  pose proof (recv_case_Some (m + 1) i r l p Hc ltac:(lia) Hr Hl Hp) as Hnum.
  destruct Hc as (HL & HR & HN & HL' & HR' & HN'). split.
  { intros Hin. destruct (Hcov _ _ _ Hin) as (_ & _ & H1 & H2 & H3). destruct p; simpl in *; destruct Hnum; lia. }
  intros r0 l0 n0 [Hin|[= -> -> ->]%list_elem_of_singleton]%elem_of_app.
  - destruct (Hcov _ _ _ Hin) as (Hr0 & Hl0 & H1 & H2 & H3).
    assert (r0 = r → l0 = l) as Hsame by (intros ->; by apply (Hone l0 n0)).
    destruct p; cbn [onSuccess recv_nonce] in *;
      [injection Hon as <- <-; simpl; lia|..];
      (destruct (may_rotate _ _); injection Hon as <- <-; simpl;
        rewrite ?(wrap_small 64) by (unfold in_range; lia); lia).
  - destruct p; cbn [onSuccess recv_nonce] in *;
      [injection Hon as <- <-; simpl; lia|..];
      (destruct (may_rotate _ _); injection Hon as <- <-; simpl;
        rewrite ?(wrap_small 64) by (unfold in_range; lia); lia).
Qed.

Lemma doSend_keeps n i g msg i' g' out :
  counters_ok (n + 1) i → 0 <= n → doSend rng g msg i = (i', g', out) →
  counters_ok n i' ∧ ∀ log, covered i log → covered i' log.
Proof.
  intros (HL & HR & HN & HL' & HR' & HN') Hn. unfold doSend.
  rewrite (wrap_small 64 (si_sendNonce i + 1)) by (unfold in_range; lia).
  destruct (Z.eqb_spec (si_sendNonce i + 1) 0); [lia|]. intros [= <- <- <-]. unfold counters_ok. simpl.
  split; [lia|]. intros log Hcov r l k Hin. apply (Hcov r l k Hin).
Qed.

Lemma traffic_run_nodup es i g i' log0 log :
  counters_ok (len es) i → covered i log0 → NoDup log0 → traffic_run rng pc es i g = Ok (i', log) →
  (∀ r l n l' n', (r, l, n) ∈ log0 ++ log → (r, l', n') ∈ log0 ++ log → l = l') →
  NoDup (log0 ++ log).
Proof.
  revert i g log0 log. induction es as [|[msg|now msg] es IH]; intros i g log0 log Hc Hcov Hnd; cbn [traffic_run].
  { intros [= <- <-] _. by rewrite app_nil_r. }
  all: replace (len (_ :: es)) with (len es + 1) in Hc by (unfold len; simpl; lia);
    pose proof (len_nonneg es) as Hes.
  - destruct (doSend rng g msg i) as [[j g1] o] eqn:Hs. destruct (doSend_keeps (len es) i g msg j g1 o Hc Hes Hs) as [Hcj Hcovj].
    intros Hrun Hone. by apply (IH j g1); [..|done|done]; auto.
  - destruct (doRecv rng pc now g msg i) as [[[j g1] o]| |] eqn:Hd; [|done..]. cbn [mbind res_bind].
    destruct (traffic_run rng pc es j g1) as [[k log1]| |] eqn:Hr; [|done..]. cbn [mbind res_bind]. intros [= <- <-] Hone.
    apply doRecv_cases in Hd as [[-> Hnod]|(r & l & n & off & p & un & j0 & Hh & Hp & Hlt & _ & _ & Hon & -> & ->)].
    { rewrite Hnod in Hone |- *. apply (IH i g1 log0 log1); try done. unfold counters_ok in *. lia. }
    cbn [delivers existsb orb] in Hone |- *. unfold traffic_label in Hone |- *. rewrite Hh in Hone |- *.
    destruct (traffic_header_u64 _ _ _ _ _ Hh) as (Hr64 & Hl64 & _).
    destruct (onSuccess_covered (len es) i now g p r l n (copy (replicate boxPubSize 0) un) j0 g1 log0 Hc Hes Hr64 Hl64 Hcov) as [Hnew Hcov']; try done.
    { intros l' n' Hin. apply (Hone r l' n' l n); rewrite !elem_of_app, ?list_elem_of_singleton; auto. }
    rewrite app_assoc in Hone |- *. refine (IH _ g1 (log0 ++ [(r, l, n)]) log1 _ _ _ Hr Hone).
    + by apply (onSuccess_counters (len es) i now g p n _ j0 g1) in Hon.
    + done.
    + apply NoDup_app. split; [done|]. split; [|apply NoDup_singleton]. intros x Hx ->%list_elem_of_singleton. done.
Qed.

(** The numbers of the keys after a packet was accepted: both move up, or neither. *)
Lemma onSuccess_numbers n i now g p nonce key j g' :
  counters_ok (n + 1) i → 0 <= n → onSuccess rng now g p nonce key i = (j, g') →
  (si_localKeySeq j = si_localKeySeq i ∧ si_remoteKeySeq j = si_remoteKeySeq i) ∨ si_localKeySeq i < si_localKeySeq j.
Proof.
  intros (HL & HR & HN & HL' & HR' & HN') Hn.
  destruct p; cbn [onSuccess]; [intros [= <- <-]; by left|..];
    (destruct (may_rotate _ _); intros [= <- <-]; simpl; [|by left]); right;
    rewrite !(wrap_small 64) by (unfold in_range; lia); lia.
Qed.
End Replay.
