(* ===== verification/SessionPair.v ===== *)
(** * SessionPair: two sessions that face each other

    The two sessions of a pair of nodes rotate their keys as traffic goes back and
    forth.  Over a network that keeps the order of packets and may lose any of
    them, the pair refines a plain channel: every packet that arrives is accepted
    and its message delivered. *)

From S2P Require Import Prelude Binary Wire Address Crypto SessionInit Sessions SessionNonces.

(** ** The pair *)

(** One end: its random keys, its identity, its session and the packets that are
    on their way to it. *)
Record endpoint := Endpoint {
  ep_rng : nat → bytes;
  ep_keys : sessionKeys;
  ep_info : sessionInfo;
  ep_gen : nat;
  ep_in : list bytes;
}.

Definition written (out : list sess_out) : list bytes :=
  omap (λ o, match o with SWrite _ bs => Some bs | _ => None end) out.
Definition delivered (out : list sess_out) : list bytes :=
  omap (λ o, match o with SDeliver _ m => Some m | _ => None end) out.

Definition ep_put (i : sessionInfo) (g : nat) (ps : list bytes) (x : endpoint) : endpoint :=
  Endpoint (ep_rng x) (ep_keys x) i g ps.
Definition ep_push (ps : list bytes) (x : endpoint) : endpoint :=
  Endpoint (ep_rng x) (ep_keys x) (ep_info x) (ep_gen x) (ep_in x ++ ps).

Inductive pair_action := PaSend (msg : bytes) | PaArrive (now : Z) | PaLose (k : nat).

Section Pair.
Context `{Ed25519} `{Box}.

(** An action at one end: it sends a packet, the next packet arrives there, or one
    that was on its way to it is lost. *)
Definition ep_step (a : pair_action) (x y : endpoint) : res () (endpoint * endpoint * list bytes) :=
  match a with
  | PaSend msg =>
      let '(i, g, out) := doSend (ep_rng x) (ep_gen x) msg (ep_info x) in
      Ok (ep_put i g (ep_in x) x, ep_push (written out) y, [])
  | PaArrive now =>
      match ep_in x with
      | [] => Ok (x, y, [])
      | p :: ps =>
          '(i, g, out) ← doRecv (ep_rng x) (ep_keys x) now (ep_gen x) p (ep_info x);
          Ok (ep_put i g ps x, ep_push (written out) y, delivered out)
      end
  | PaLose k => Ok (ep_put (ep_info x) (ep_gen x) (delete k (ep_in x)) x, y, [])
  end.

(** A history of actions, each at the first ([true]) or the second end, and what
    is delivered where. *)
Fixpoint pair_run (es : list (bool * pair_action)) (x y : endpoint) :
    res () (endpoint * endpoint * list (bool * bytes)) :=
  match es with
  | [] => Ok (x, y, [])
  | (true, a) :: es =>
      '(x, y, out) ← ep_step a x y;
      '(x, y, outs) ← pair_run es x y;
      Ok (x, y, ((true,.) <$> out) ++ outs)
  | (false, a) :: es =>
      '(y, x, out) ← ep_step a y x;
      '(x, y, outs) ← pair_run es x y;
      Ok (x, y, ((false,.) <$> out) ++ outs)
  end.
End Pair.

(** ** The channel: messages on their way to each end *)

Definition ch_step (a : pair_action) (qx qy : list bytes) : list bytes * list bytes * list bytes :=
  match a with
  | PaSend msg => (qx, qy ++ [msg], [])
  | PaArrive _ => match qx with [] => ([], qy, []) | m :: qx => (qx, qy, [m]) end
  | PaLose k => (delete k qx, qy, [])
  end.

Fixpoint ch_run (es : list (bool * pair_action)) (qx qy : list bytes) : list (bool * bytes) :=
  match es with
  | [] => []
  | (true, a) :: es => let '(qx, qy, out) := ch_step a qx qy in ((true,.) <$> out) ++ ch_run es qx qy
  | (false, a) :: es => let '(qy, qx, out) := ch_step a qy qx in ((false,.) <$> out) ++ ch_run es qx qy
  end.

(** ** Packets *)

Section Packets.
Context `{Ed25519} `{!Ed25519Laws} `{Box} `{!BoxLaws}.

(** A packet: key numbers, nonce, shared key, inner key and message. *)
Definition packet (own remote nonce : Z) (shared inner msg : bytes) : bytes :=
  boxSeal ([sessionTypeTraffic] ++ uvarint own ++ uvarint remote ++ uvarint nonce) (inner ++ msg) nonce shared.

Lemma traffic_header_packet own remote nonce shared inner msg :
  is_u64 own → is_u64 remote → is_u64 nonce →
  ∃ off, traffic_header (packet own remote nonce shared inner msg) = Some (own, remote, nonce, off) ∧
    drop off (packet own remote nonce shared inner msg) = box_Seal (inner ++ msg) (nonceForUint64 nonce) shared.
Proof.
  intros Ho Hr Hn. unfold packet, boxSeal. set (c := box_Seal _ _ _).
  pose proof (uvarint_len own) as Lo. pose proof (uvarint_len remote) as Lr. pose proof (uvarint_len nonce) as Ln.
  rewrite <- !app_assoc. set (B := [sessionTypeTraffic] ++ _).
  assert (drop (1 + length (uvarint own)) B = uvarint remote ++ uvarint nonce ++ c) as D2
    by (unfold B; rewrite app_assoc; by apply drop_app_length').
  assert (drop (1 + length (uvarint own) + length (uvarint remote)) B = uvarint nonce ++ c) as D3
    by (rewrite <- drop_drop, D2; apply drop_app_length).
  exists (1 + length (uvarint own) + length (uvarint remote) + length (uvarint nonce))%nat.
  split; [|rewrite <- drop_drop, D3; apply drop_app_length].
  unfold traffic_header. change (drop 1 B) with (uvarint own ++ uvarint remote ++ uvarint nonce ++ c).
  rewrite Uvarint_uvarint by done. rewrite (proj2 (Z.leb_gt _ 0)) by lia. rewrite to_nat_len, D2.
  rewrite Uvarint_uvarint by done. rewrite (proj2 (Z.leb_gt _ 0)) by lia. rewrite to_nat_len, D3.
  rewrite Uvarint_uvarint by done. rewrite (proj2 (Z.leb_gt _ 0)) by lia. by rewrite to_nat_len.
Qed.

Lemma packet_len own remote nonce shared inner msg :
  length inner = boxPubSize → sessionTrafficOverheadMin <= len (packet own remote nonce shared inner msg).
Proof.
  intros Hi. unfold packet, boxSeal. rewrite !len_app.
  pose proof (uvarint_len own). pose proof (uvarint_len remote). pose proof (uvarint_len nonce).
  unfold len at 5. rewrite box_Seal_len, length_app, Hi. change (len [sessionTypeTraffic]) with 1.
  unfold sessionTrafficOverheadMin, boxOverhead, boxPubSize. lia.
Qed.

(** What the connection accepts fits the routing layer once it is sealed. *)
Lemma packet_fits own remote nonce shared inner msg netMTU dest r :
  sessionTrafficOverhead <= netMTU < 2 ^ 64 → length inner = boxPubSize → len msg < 2 ^ 64 →
  PacketConn_WriteTo false netMTU msg dest = Ok r → len (packet own remote nonce shared inner msg) <= netMTU.
Proof.
  intros HM Hi Hm. unfold PacketConn_WriteTo, PacketConn_MTU. destruct dest as [d|]; [|done].
  destruct (negb _); [done|]. pose proof (len_nonneg msg).
  assert (0 <= sessionTrafficOverhead) by done.
  rewrite !(wrap_small 64) by (unfold in_range; lia). destruct (Z.ltb_spec (netMTU - sessionTrafficOverhead) (len msg)); [done|].
  intros _. unfold packet, boxSeal. rewrite !len_app.
  pose proof (uvarint_len own). pose proof (uvarint_len remote). pose proof (uvarint_len nonce).
  unfold len at 5. rewrite box_Seal_len, length_app, Hi. change (len [sessionTypeTraffic]) with 1.
  unfold len, sessionTrafficOverhead, sessionTrafficOverheadMin, boxOverhead, boxPubSize in *. lia.
Qed.

(** A packet for one of the keys of a session is accepted. *)
Lemma doRecv_packet rng pc now g i own remote nonce shared inner msg p :
  is_u64 own → is_u64 remote → is_u64 nonce → length inner = boxPubSize → bytes_ok inner → bytes_ok msg →
  recv_case i own remote = Some p → recv_nonce i p < nonce → recv_shared i p = shared →
  doRecv rng pc now g (packet own remote nonce shared inner msg) i =
    let '(j, g') := onSuccess rng now g p nonce inner i in
    Ok (set_traffic (u64 (si_rx j + len msg)) (si_tx j) j, g', [SDeliver (si_ed i) msg]).
Proof.
  intros Ho Hr Hn Hil Hib Hm Hp Hlt Hs. unfold doRecv.
  destruct (traffic_header_packet own remote nonce shared inner msg Ho Hr Hn) as (off & Hh & Hd).
  pose proof (packet_len own remote nonce shared inner msg Hil) as Hlen.
  rewrite (proj2 (Z.ltb_ge _ _)) by done. rewrite Hh, Hp, Hd, Hs.
  assert (nth 0 (packet own remote nonce shared inner msg) 0 = sessionTypeTraffic) as -> by done.
  rewrite Z.eqb_refl, (proj2 (Z.ltb_lt _ _)) by done. cbn [orb negb].
  unfold boxOpen. rewrite box_Open_Seal by (by apply bytes_ok_app_2).
  rewrite decide_False by (rewrite length_app; lia).
  rewrite (copy_app (replicate boxPubSize 0) inner msg) by (by rewrite length_replicate).
  by rewrite drop_app_length' by done.
Qed.

(** The packet that a session sends while its nonce does not overflow. *)
Lemma doSend_packet rng g msg i :
  is_u64 (si_sendNonce i + 1) → 0 <= si_sendNonce i →
  let n := si_sendNonce i + 1 in
  doSend rng g msg i =
    (set_traffic (si_rx i) (u64 (si_tx i + len msg))
       (set_nonces (si_recvNonce i) n (si_nextSendNonce i) (si_nextRecvNonce i) i), g,
     [SSeal (si_sendPriv i) n;
      SWrite (si_ed i) (packet (si_localKeySeq i) (si_remoteKeySeq i) n (si_sendShared i) (si_nextPub i) msg)]).
Proof.
  intros Hn Hpos n. unfold doSend. rewrite (wrap_small 64 (si_sendNonce i + 1)) by done.
  destruct (Z.eqb_spec (si_sendNonce i + 1) 0); [lia|]. done.
Qed.

(** Packets on their way, with rising nonces between two bounds, and their
    messages. *)
Inductive flying (own remote : Z) (shared inner : bytes) : Z → list bytes → list bytes → Z → Prop :=
| fly_nil lo hi : lo <= hi → flying own remote shared inner lo [] [] hi
| fly_cons lo n m ps ms hi :
    lo < n → is_u64 n → bytes_ok m → flying own remote shared inner n ps ms hi →
    flying own remote shared inner lo (packet own remote n shared inner m :: ps) (m :: ms) hi.

Lemma fly_inv own remote shared inner lo ps ms hi :
  flying own remote shared inner lo ps ms hi →
  (ps = [] ∧ ms = []) ∨
  ∃ n m ps' ms', ps = packet own remote n shared inner m :: ps' ∧ ms = m :: ms' ∧
    lo < n ∧ is_u64 n ∧ bytes_ok m ∧ flying own remote shared inner n ps' ms' hi.
Proof. destruct 1 as [|? n m ps ms]; [by left|right]. by exists n, m, ps, ms. Qed.

Lemma fly_weaken own remote shared inner lo lo' ps ms hi :
  lo' <= lo → flying own remote shared inner lo ps ms hi → flying own remote shared inner lo' ps ms hi.
Proof. intros Hlo Hf. destruct Hf; constructor; try done; lia. Qed.

Lemma fly_snoc own remote shared inner lo ps ms hi m :
  is_u64 (hi + 1) → bytes_ok m → flying own remote shared inner lo ps ms hi →
  flying own remote shared inner lo (ps ++ [packet own remote (hi + 1) shared inner m]) (ms ++ [m]) (hi + 1).
Proof.
  intros Hu Hm Hf. induction Hf as [lo hi Hle|lo n m0 ps ms hi Hlo Hn Hm0 Hf IH]; simpl.
  - constructor; [lia|done|done|]. constructor. lia.
  - constructor; try done. by apply IH.
Qed.

Lemma fly_lose own remote shared inner lo ps ms hi k :
  flying own remote shared inner lo ps ms hi → flying own remote shared inner lo (delete k ps) (delete k ms) hi.
Proof.
  intros Hf. revert k. induction Hf as [lo hi Hle|lo n m0 ps ms hi Hlo Hn Hm0 Hf IH]; intros k; [by constructor|].
  destruct k as [|k]; simpl; [apply (fly_weaken _ _ _ _ n); [lia|done]|]. by constructor.
Qed.

Lemma fly_length own remote shared inner lo ps ms hi :
  flying own remote shared inner lo ps ms hi → length ps = length ms.
Proof. induction 1; simpl; congruence. Qed.

(** ** Sessions in step *)

(** The keys of a session belong together. *)
Record sess_wf (i : sessionInfo) : Prop := {
  wf_recv : si_recvPub i = box_Public (si_recvPriv i) ∧ boxPriv_ok (si_recvPriv i);
  wf_send : si_sendPub i = box_Public (si_sendPriv i) ∧ boxPriv_ok (si_sendPriv i);
  wf_next : si_nextPub i = box_Public (si_nextPriv i) ∧ boxPriv_ok (si_nextPriv i);
  wf_recvShared : si_recvShared i = getShared (si_current i) (si_recvPriv i);
  wf_sendShared : si_sendShared i = getShared (si_current i) (si_sendPriv i);
  wf_nextSendShared : si_nextSendShared i = getShared (si_next i) (si_sendPriv i);
}.

(** Of two sessions in step, [x] is behind: [y] has moved its keys up and [x] has
    not yet answered.  [x] still sends for the key [y] receives with; packets of
    [y] on their way were sealed before or after it moved. *)
Record behind (n : Z) (x y : endpoint) (qx qy : list bytes) : Prop := {
  bh_rng : rng_ok (ep_rng x) ∧ rng_ok (ep_rng y);
  bh_wf : sess_wf (ep_info x) ∧ sess_wf (ep_info y);
  bh_count : counters_ok n (ep_info x) ∧ counters_ok n (ep_info y);
  bh_seq1 : si_localKeySeq (ep_info x) = si_remoteKeySeq (ep_info y);
  bh_seq2 : si_remoteKeySeq (ep_info x) + 1 = si_localKeySeq (ep_info y);
  bh_send : si_current (ep_info y) = si_sendPub (ep_info x);
  bh_recv : si_recvPub (ep_info y) = si_current (ep_info x);
  bh_next : si_next (ep_info y) = si_nextPub (ep_info x);
  bh_ahead : si_next (ep_info x) = si_sendPub (ep_info y);
  bh_zero : si_nextSendNonce (ep_info y) = 0;
  bh_toy : flying (si_localKeySeq (ep_info x)) (si_remoteKeySeq (ep_info x)) (si_sendShared (ep_info x))
    (si_nextPub (ep_info x)) (si_recvNonce (ep_info y)) (ep_in y) qy (si_sendNonce (ep_info x));
  bh_tox : ∃ ps1 ms1 ps2 ms2 inner hi, ep_in x = ps1 ++ ps2 ∧ qx = ms1 ++ ms2 ∧
    (length inner = boxPubSize ∧ bytes_ok inner) ∧
    flying (si_remoteKeySeq (ep_info x)) (si_localKeySeq (ep_info x) - 1) (si_recvShared (ep_info x)) inner
      (si_recvNonce (ep_info x)) ps1 ms1 hi ∧
    flying (si_localKeySeq (ep_info y)) (si_remoteKeySeq (ep_info y)) (si_sendShared (ep_info y))
      (si_nextPub (ep_info y)) (si_nextSendNonce (ep_info x)) ps2 ms2 (si_sendNonce (ep_info y));
}.

Lemma counters_less n i : counters_ok (n + 1) i → counters_ok n i.
Proof. unfold counters_ok. lia. Qed.

(** The two ends compute the same keys. *)
Lemma behind_shared n x y qx qy :
  behind n x y qx qy →
  si_sendShared (ep_info x) = si_recvShared (ep_info y) ∧
  si_sendShared (ep_info y) = si_nextSendShared (ep_info x).
Proof.
  intros Hb. destruct (bh_wf _ _ _ _ _ Hb) as [Hx Hy]. destruct (wf_send _ Hx) as [Hxs Hxp].
  destruct (wf_send _ Hy) as [Hys Hyp]. destruct (wf_recv _ Hy) as [Hyr Hyrp]. split.
  - rewrite (wf_sendShared _ Hx), (wf_recvShared _ Hy), (bh_send _ _ _ _ _ Hb), <- (bh_recv _ _ _ _ _ Hb), Hyr, Hxs.
    by apply box_shared.
  - rewrite (wf_sendShared _ Hy), (wf_nextSendShared _ Hx), (bh_send _ _ _ _ _ Hb), (bh_ahead _ _ _ _ _ Hb), Hys, Hxs.
    by apply box_shared.
Qed.

Lemma pub_ok i : sess_wf i → length (si_nextPub i) = boxPubSize ∧ bytes_ok (si_nextPub i).
Proof. intros Hw. destruct (wf_next _ Hw) as [-> Hp]. by apply box_Public_ok. Qed.

(** What leaves the keys and counters of a session alone leaves it well-formed. *)
Lemma sess_wf_nonces a b c d rx tx i : sess_wf i → sess_wf (set_traffic rx tx (set_nonces a b c d i)).
Proof. intros []. by split. Qed.

(** The next nonce of a session that has events left. *)
Lemma next_nonce n i : counters_ok (n + 1) i → 0 <= n → is_u64 (si_sendNonce i + 1) ∧ 0 <= si_sendNonce i.
Proof. unfold counters_ok, in_range. lia. Qed.

Lemma send_behind n x y qx qy msg :
  behind (n + 1) x y qx qy → 0 <= n → bytes_ok msg →
  ∃ x' y', ep_step (PaSend msg) x y = Ok (x', y', []) ∧ behind n x' y' qx (qy ++ [msg]).
Proof.
  intros Hb Hn Hm. destruct (bh_count _ _ _ _ _ Hb) as [Hcx Hcy]. destruct (next_nonce n _ Hcx Hn) as [Hu Hp].
  cbn [ep_step]. rewrite doSend_packet by done. cbn [written omap list_omap].
  eexists _, _. split; [reflexivity|]. destruct Hb as [Hr [Hwx Hwy] _ ? ? ? ? ? ? ? Hty Htx].
  split; cbn [ep_put ep_push ep_info ep_in ep_rng]; try done.
  - split; [by apply sess_wf_nonces|done].
  - split; [|by apply counters_less]. unfold counters_ok in *. simpl. lia.
  - by apply fly_snoc.
Qed.

Lemma send_ahead n x y qx qy msg :
  behind (n + 1) x y qx qy → 0 <= n → bytes_ok msg →
  ∃ x' y', ep_step (PaSend msg) y x = Ok (y', x', []) ∧ behind n x' y' (qx ++ [msg]) qy.
Proof.
  intros Hb Hn Hm. destruct (bh_count _ _ _ _ _ Hb) as [Hcx Hcy]. destruct (next_nonce n _ Hcy Hn) as [Hu Hp].
  cbn [ep_step]. rewrite doSend_packet by done. cbn [written omap list_omap].
  eexists _, _. split; [reflexivity|]. destruct Hb as [Hr [Hwx Hwy] _ ? ? ? ? ? ? ? Hty Htx].
  split; cbn [ep_put ep_push ep_info ep_in ep_rng]; try done.
  - split; [done|by apply sess_wf_nonces].
  - split; [by apply counters_less|]. unfold counters_ok in *. simpl. lia.
  - destruct Htx as (ps1 & ms1 & ps2 & ms2 & inner & hi & -> & -> & Hin & Hold & Hnew).
    exists ps1, ms1, (ps2 ++ [packet (si_localKeySeq (ep_info y)) (si_remoteKeySeq (ep_info y))
      (si_sendNonce (ep_info y) + 1) (si_sendShared (ep_info y)) (si_nextPub (ep_info y)) msg]), (ms2 ++ [msg]), inner, hi.
    rewrite !app_assoc. split_and!; try done; try apply Hin. by apply fly_snoc.
Qed.

Lemma lose_behind n x y qx qy k :
  behind (n + 1) x y qx qy →
  ∃ x' y', ep_step (PaLose k) x y = Ok (x', y', []) ∧ behind n x' y' (delete k qx) qy.
Proof.
  intros Hb. eexists _, _. split; [reflexivity|].
  destruct Hb as [Hr Hw [Hcx Hcy] ? ? ? ? ? ? ? Hty Htx].
  split; cbn [ep_put ep_info ep_in ep_rng]; try done; [by split; apply counters_less|].
  destruct Htx as (ps1 & ms1 & ps2 & ms2 & inner & hi & -> & -> & Hin & Hold & Hnew).
  pose proof (fly_length _ _ _ _ _ _ _ _ Hold) as Hl. destruct (decide (k < length ps1)%nat) as [Hk|Hk].
  - exists (delete k ps1), (delete k ms1), ps2, ms2, inner, hi.
    rewrite !delete_take_drop, !take_app_le, !drop_app_le, <- !app_assoc by lia.
    split_and!; try done; try apply Hin. rewrite <- !delete_take_drop. by apply fly_lose.
  - exists ps1, ms1, (delete (k - length ps1)%nat ps2), (delete (k - length ps1)%nat ms2), inner, hi.
    rewrite (delete_take_drop (ps1 ++ ps2)), (delete_take_drop (ms1 ++ ms2)).
    rewrite !take_app_ge, !drop_app_ge, <- !app_assoc by lia. rewrite <- Hl.
    rewrite !(delete_take_drop _ (k - length ps1)). replace (S k - length ps1)%nat with (S (k - length ps1)) by lia.
    split_and!; try done; try apply Hin. rewrite <- !delete_take_drop. by apply fly_lose.
Qed.

Lemma lose_ahead n x y qx qy k :
  behind (n + 1) x y qx qy →
  ∃ x' y', ep_step (PaLose k) y x = Ok (y', x', []) ∧ behind n x' y' qx (delete k qy).
Proof.
  intros Hb. eexists _, _. split; [reflexivity|].
  destruct Hb as [Hr Hw [Hcx Hcy] ? ? ? ? ? ? ? Hty Htx].
  split; cbn [ep_put ep_info ep_in ep_rng]; try done; [by split; apply counters_less|]. by apply fly_lose.
Qed.

(** Which of its keys a session takes a packet for. *)
Lemma recv_case_current i own remote :
  own = si_remoteKeySeq i → remote + 1 = si_localKeySeq i → is_u64 (si_localKeySeq i) →
  recv_case i own remote = Some FromCurrentToRecv.
Proof. intros -> Hr Hu. unfold recv_case. by rewrite Hr, (wrap_small 64), !Z.eqb_refl. Qed.

Lemma recv_case_next i own remote :
  own = si_remoteKeySeq i + 1 → remote = si_localKeySeq i → is_u64 (si_remoteKeySeq i + 1) →
  recv_case i own remote = Some FromNextToSend.
Proof.
  intros -> -> Hu. unfold recv_case. rewrite (wrap_small 64 (si_remoteKeySeq i + 1)), !Z.eqb_refl by done.
  destruct (Z.eqb_spec (si_remoteKeySeq i + 1) (si_remoteKeySeq i)); [lia|done].
Qed.

Lemma counters_u64 n i : counters_ok (n + 1) i → 0 <= n →
  is_u64 (si_localKeySeq i) ∧ is_u64 (si_remoteKeySeq i) ∧ is_u64 (si_remoteKeySeq i + 1) ∧ is_u64 (si_localKeySeq i - 1).
Proof. unfold counters_ok, in_range. lia. Qed.

(** Nothing is on its way. *)
Lemma behind_less n x y qx qy : behind (n + 1) x y qx qy → behind n x y qx qy.
Proof. intros []. split; try done. destruct bh_count0. split; by apply counters_less. Qed.

Lemma arrive_ahead n x y qx qy now :
  behind (n + 1) x y qx qy → 0 <= n →
  ∃ x' y' qy' out, ep_step (PaArrive now) y x = Ok (y', x', out) ∧
    ch_step (PaArrive now) qy qx = (qy', qx, out) ∧ behind n x' y' qx qy'.
Proof.
  intros Hb Hn. destruct (behind_shared _ _ _ _ _ Hb) as [Hsh _]. pose proof (behind_less _ _ _ _ _ Hb) as Hless.
  cbn [ep_step ch_step].
  destruct Hb as [Hr [Hwx Hwy] [Hcx Hcy] Hs1 Hs2 ? ? ? ? Hz Hty Htx].
  destruct (pub_ok _ Hwx) as [Hpl Hpb].
  destruct (counters_u64 n _ Hcx Hn) as (Hlx & Hrx & _ & _). destruct (counters_u64 n _ Hcy Hn) as (Hly & _ & _ & _).
  apply fly_inv in Hty as [[Hin ->]|(k & m & ps & ms & Hin & -> & Hlo & Hk & Hm & Hty)]; rewrite Hin.
  { by exists x, y, [], []. }
  rewrite (doRecv_packet _ _ _ _ _ _ _ _ _ _ _ FromCurrentToRecv) by
    (try done; by apply recv_case_current).
  cbn [onSuccess mbind res_bind delivered written omap list_omap].
  eexists _, _, ms, [m]. split; [reflexivity|]. split; [done|].
  destruct Hless as [_ _ Hc _ _ _ _ _ _ _ _ _]. unfold counters_ok in Hc.
  split; cbn [ep_put ep_push ep_info ep_in ep_rng]; try done.
  - split; [done|by apply sess_wf_nonces].
  - by rewrite app_nil_r.
Qed.

(** A packet that was sealed before the other end moved its keys. *)
Lemma arrive_old n x y ms1 qy ps1 ps2 ms2 inner hi k m now :
  behind (n + 1) x y (m :: ms1 ++ ms2) qy → 0 <= n →
  let i := ep_info x in
  ep_in x = packet (si_remoteKeySeq i) (si_localKeySeq i - 1) k (si_recvShared i) inner m :: ps1 ++ ps2 →
  length inner = boxPubSize ∧ bytes_ok inner → si_recvNonce i < k → is_u64 k → bytes_ok m →
  flying (si_remoteKeySeq i) (si_localKeySeq i - 1) (si_recvShared i) inner k ps1 ms1 hi →
  flying (si_localKeySeq (ep_info y)) (si_remoteKeySeq (ep_info y)) (si_sendShared (ep_info y))
    (si_nextPub (ep_info y)) (si_nextSendNonce i) ps2 ms2 (si_sendNonce (ep_info y)) →
  ∃ x' y', ep_step (PaArrive now) x y = Ok (x', y', [m]) ∧ behind n x' y' (ms1 ++ ms2) qy.
Proof.
  intros Hb Hn i Hin [Hil Hib] Hlo Hk Hm Hold Hnew. subst i. pose proof (behind_less _ _ _ _ _ Hb) as Hless.
  destruct Hb as [Hr [Hwx Hwy] [Hcx Hcy] Hs1 Hs2 ? ? ? ? Hz Hty _].
  destruct (counters_u64 n _ Hcx Hn) as (Hlx & Hrx & _ & Hl1).
  cbn [ep_step]. rewrite Hin. rewrite (doRecv_packet _ _ _ _ _ _ _ _ _ _ _ FromCurrentToRecv) by
    (try done; apply recv_case_current; (done || lia)).
  cbn [onSuccess mbind res_bind delivered written omap list_omap].
  eexists _, _. split; [reflexivity|].
  destruct Hless as [_ _ Hc _ _ _ _ _ _ _ _ _]. unfold counters_ok in Hc.
  split; cbn [ep_put ep_push ep_info ep_in ep_rng]; try done.
  - split; [by apply sess_wf_nonces|done].
  - by rewrite app_nil_r.
  - by exists ps1, ms1, ps2, ms2, inner, hi.
Qed.

(** A rotated session is well-formed when its random keys are. *)
Lemma rotate_wf rng now g nonce inner i j g' rx tx :
  rng_ok rng → sess_wf i → rotate rng now g nonce inner i = (j, g') → sess_wf (set_traffic rx tx j).
Proof.
  intros Hr [Hre Hs Hn _ _ _] [= <- <-]. split; try done. split; [done|]. apply Hr.
Qed.

(** A packet that was sealed after the other end moved its keys: this end moves
    its own keys up, and is ahead, unless it did so a moment ago. *)
Lemma arrive_new n x y ms qy ps k m now :
  behind (n + 1) x y (m :: ms) qy → 0 <= n →
  let i := ep_info x in let j := ep_info y in
  ep_in x = packet (si_localKeySeq j) (si_remoteKeySeq j) k (si_sendShared j) (si_nextPub j) m :: ps →
  si_nextSendNonce i < k → is_u64 k → bytes_ok m →
  flying (si_localKeySeq j) (si_remoteKeySeq j) (si_sendShared j) (si_nextPub j) k ps ms (si_sendNonce j) →
  ∃ x' y', ep_step (PaArrive now) x y = Ok (x', y', [m]) ∧ (behind n x' y' ms qy ∨ behind n y' x' qy ms).
Proof.
  intros Hb Hn i j Hin Hlo Hk Hm Hnew. subst i j. pose proof (behind_less _ _ _ _ _ Hb) as Hless.
  destruct (behind_shared _ _ _ _ _ Hb) as [Hsh1 Hsh2].
  destruct Hb as [Hr [Hwx Hwy] [Hcx Hcy] Hs1 Hs2 ? Hrv ? ? Hz Hty (ps1 & ms1 & ps2 & ms2 & inner & hi & _ & _ & Hinner & Hold & _)].
  destruct (pub_ok _ Hwy) as [Hpl Hpb]. destruct (counters_u64 n _ Hcx Hn) as (Hlx & Hrx & Hrx1 & Hl1).
  destruct (counters_u64 n _ Hcy Hn) as (Hly & Hry & _ & _).
  assert (si_recvNonce (ep_info x) <= hi) as Hhi by (clear -Hold; induction Hold; lia).
  cbn [ep_step]. rewrite Hin. rewrite (doRecv_packet _ _ _ _ _ _ _ _ _ _ _ FromNextToSend) by
    (try done; by apply recv_case_next).
  cbn [onSuccess]. destruct (may_rotate _ _).
  - destruct (rotate _ _ _ _ _ _) as [i' g'] eqn:Hrot. pose proof Hrot as Hrw.
    apply (rotate_wf _ _ _ _ _ _ _ _ (u64 (si_rx i' + len m)) (si_tx i') (proj1 Hr)) in Hrw;
      [|by destruct Hwx]. injection Hrot as <- <-. cbn [mbind res_bind delivered written omap list_omap].
    eexists _, _. split; [reflexivity|]. right.
    split; cbn [ep_put ep_push ep_info ep_in ep_rng]; try done.
    + by destruct Hr.
    + split; [by apply counters_less|]. unfold counters_ok in *. simpl.
      rewrite !(wrap_small 64) by (unfold in_range; lia). lia.
    + simpl. by rewrite (wrap_small 64) by done.
    + simpl. rewrite (wrap_small 64); [by rewrite <- Hs1|]. unfold counters_ok, in_range in *. lia.
    + simpl. rewrite app_nil_r. exists (ep_in y), qy, [], [], (si_nextPub (ep_info x)), (si_sendNonce (ep_info x)).
      destruct (pub_ok _ Hwx). split_and!; try done; [by rewrite app_nil_r..| |].
      * rewrite <- Hs1, <- Hsh1. replace (si_localKeySeq (ep_info y) - 1) with (si_remoteKeySeq (ep_info x)) by lia. done.
      * rewrite Hz. constructor. lia.
  - cbn [mbind res_bind delivered written omap list_omap]. eexists _, _. split; [reflexivity|]. left.
    destruct Hless as [_ _ Hc _ _ _ _ _ _ _ _ _]. unfold counters_ok in Hc.
    split; cbn [ep_put ep_push ep_info ep_in ep_rng]; try done.
    + split; [by apply sess_wf_nonces|done].
    + by rewrite app_nil_r.
    + exists [], [], ps, ms, inner, hi. split_and!; try done; try apply Hinner. constructor. done.
Qed.

Lemma arrive_behind n x y qx qy now :
  behind (n + 1) x y qx qy → 0 <= n →
  ∃ x' y' qx' out, ep_step (PaArrive now) x y = Ok (x', y', out) ∧
    ch_step (PaArrive now) qx qy = (qx', qy, out) ∧ (behind n x' y' qx' qy ∨ behind n y' x' qy qx').
Proof.
  intros Hb Hn. destruct (bh_tox _ _ _ _ _ Hb) as (ps1 & ms1 & ps2 & ms2 & inner & hi & Hin & -> & Hinner & Hold & Hnew).
  apply fly_inv in Hold as [[-> ->]|(k & m & ps' & ms' & -> & -> & Hlo & Hk & Hm & Hold)].
  - apply fly_inv in Hnew as [[-> ->]|(k & m & ps' & ms' & -> & -> & Hlo & Hk & Hm & Hnew)].
    { exists x, y, [], []. cbn [ep_step]. rewrite Hin. split_and!; [done..|left]. by apply behind_less. }
    destruct (arrive_new n x y ms' qy ps' k m now) as (x' & y' & Hs & Hor); try done.
    by exists x', y', ms', [m].
  - destruct (arrive_old n x y ms' qy ps' ps2 ms2 inner hi k m now) as (x' & y' & Hs & Hbh); try done.
    exists x', y', (ms' ++ ms2), [m]. auto.
Qed.

(** Two sessions in step, with room for [n] more actions: one of them is behind. *)
Definition in_step (n : Z) (x y : endpoint) (qx qy : list bytes) : Prop :=
  behind n x y qx qy ∨ behind n y x qy qx.

Definition action_ok (a : pair_action) : Prop := match a with PaSend msg => bytes_ok msg | _ => True end.

Lemma ep_step_in_step n a x y qx qy :
  in_step (n + 1) x y qx qy → 0 <= n → action_ok a →
  ∃ x' y' qx' qy' out, ep_step a x y = Ok (x', y', out) ∧ ch_step a qx qy = (qx', qy', out) ∧
    in_step n x' y' qx' qy'.
Proof.
  intros Hst Hn Ha. unfold in_step. destruct a as [msg|now|k]; destruct Hst as [Hb|Hb].
  - destruct (send_behind n x y qx qy msg Hb Hn Ha) as (x' & y' & Hs & Hb'). exists x', y', qx, (qy ++ [msg]), []. auto.
  - destruct (send_ahead n y x qy qx msg Hb Hn Ha) as (x' & y' & Hs & Hb'). exists y', x', qx, (qy ++ [msg]), []. auto.
  - destruct (arrive_behind n x y qx qy now Hb Hn) as (x' & y' & qx' & out & Hs & Hc & Hb').
    exists x', y', qx', qy, out. auto.
  - destruct (arrive_ahead n y x qy qx now Hb Hn) as (x' & y' & qx' & out & Hs & Hc & Hb').
    exists y', x', qx', qy, out. auto.
  - destruct (lose_behind n x y qx qy k Hb) as (x' & y' & Hs & Hb'). exists x', y', (delete k qx), qy, []. auto.
  - destruct (lose_ahead n y x qy qx k Hb) as (x' & y' & Hs & Hb'). exists y', x', (delete k qx), qy, []. auto.
Qed.

Lemma in_step_sym n x y qx qy : in_step n x y qx qy → in_step n y x qy qx.
Proof. unfold in_step. tauto. Qed.

Lemma pair_run_channel es x y qx qy :
  in_step (len es) x y qx qy → Forall (λ e, action_ok e.2) es →
  ∃ x' y', pair_run es x y = Ok (x', y', ch_run es qx qy).
Proof.
  revert x y qx qy. induction es as [|[[] a] es IH]; intros x y qx qy Hst Hok; [by exists x, y|..];
    apply Forall_cons in Hok as [Ha Hok]; replace (len (_ :: es)) with (len es + 1) in Hst by (unfold len; simpl; lia);
    cbn [pair_run ch_run].
  - destruct (ep_step_in_step (len es) a x y qx qy Hst (len_nonneg _) Ha) as (x' & y' & qx' & qy' & out & -> & -> & Hst').
    destruct (IH _ _ _ _ Hst' Hok) as (x2 & y2 & Hr). exists x2, y2. cbn [mbind res_bind]. by rewrite Hr.
  - apply in_step_sym in Hst.
    destruct (ep_step_in_step (len es) a y x qy qx Hst (len_nonneg _) Ha) as (y' & x' & qy' & qx' & out & -> & -> & Hst').
    apply in_step_sym in Hst'. destruct (IH _ _ _ _ Hst' Hok) as (x2 & y2 & Hr). exists x2, y2.
    cbn [mbind res_bind]. by rewrite Hr.
Qed.

(** C14: session_refines_channel.  Two sessions in step refine a channel that may
    lose messages: in any interleaving of sending, arrival in order and loss, at
    any times, whatever rotations of keys this causes, every packet that arrives
    is accepted and delivers exactly the message that was sent with it. *)
Theorem session_refines_channel es x y :
  in_step (len es) x y [] [] → Forall (λ e, action_ok e.2) es →
  ∃ x' y', pair_run es x y = Ok (x', y', ch_run es [] []).
Proof. apply pair_run_channel. Qed.
End Packets.

(** ** No packet twice *)

Section Once.
Context `{Ed25519} `{Box} (rng : nat → bytes) (pc : sessionKeys).

Lemma doSend_label g msg i i' g' out bs r l n m :
  counters_ok (m + 1) i → 0 <= m → doSend rng g msg i = (i', g', out) → bs ∈ written out → (r, l, n) ∈ traffic_label bs →
  si_localKeySeq i' = si_localKeySeq i ∧ si_remoteKeySeq i' = si_remoteKeySeq i ∧
  r = si_localKeySeq i ∧ l = si_remoteKeySeq i.
Proof.
  intros (HL & HR & HN & HL' & HR' & HN') Hm. unfold doSend.
  rewrite (wrap_small 64 (si_sendNonce i + 1)) by (unfold in_range; lia).
  destruct (Z.eqb_spec (si_sendNonce i + 1) 0); [lia|]. intros [= <- <- <-]. simpl.
  intros ->%list_elem_of_singleton. unfold traffic_label.
  destruct (traffic_header_packet (si_localKeySeq i) (si_remoteKeySeq i) (si_sendNonce i + 1) (si_sendShared i) (si_nextPub i) msg)
    as (off & Hh & _); [unfold in_range; lia..|]. unfold packet in Hh. simpl in Hh. rewrite Hh.
  intros [= -> -> ->]%list_elem_of_singleton. done.
Qed.

Lemma doSend_numbers g msg i i' g' out m :
  counters_ok (m + 1) i → 0 <= m → doSend rng g msg i = (i', g', out) →
  si_localKeySeq i' = si_localKeySeq i ∧ si_remoteKeySeq i' = si_remoteKeySeq i.
Proof.
  intros (HL & HR & HN & HL' & HR' & HN') Hm. unfold doSend.
  rewrite (wrap_small 64 (si_sendNonce i + 1)) by (unfold in_range; lia).
  destruct (Z.eqb_spec (si_sendNonce i + 1) 0); [lia|]. by intros [= <- <- <-].
Qed.

(** A session uses one key of the other side with each of its own. *)
Lemma traffic_sends_paired es i g :
  counters_ok (len es) i →
  (∀ bs r l n, bs ∈ traffic_sends rng pc es i g → (r, l, n) ∈ traffic_label bs →
     si_localKeySeq i <= r ∧ (r = si_localKeySeq i → l = si_remoteKeySeq i)) ∧
  (∀ bs bs' r l n l' n', bs ∈ traffic_sends rng pc es i g → bs' ∈ traffic_sends rng pc es i g →
     (r, l, n) ∈ traffic_label bs → (r, l', n') ∈ traffic_label bs' → l = l').
Proof.
  revert i g. induction es as [|[msg|now msg] es IH]; intros i g Hc; cbn [traffic_sends].
  { split; intros *; by intros ?%not_elem_of_nil. }
  all: replace (len (_ :: es)) with (len es + 1) in Hc by (unfold len; simpl; lia); pose proof (len_nonneg es) as Hes.
  - destruct (doSend rng g msg i) as [[j g1] o] eqn:Hs.
    destruct (doSend_keeps rng (len es) i g msg j g1 o Hc Hes Hs) as [Hcj _].
    destruct (doSend_numbers g msg i j g1 o (len es) Hc Hes Hs) as [HL HR].
    destruct (IH j g1 Hcj) as [IH1 IH2]. rewrite HL, HR in IH1.
    assert (∀ bs r l n, bs ∈ written o → (r, l, n) ∈ traffic_label bs → r = si_localKeySeq i ∧ l = si_remoteKeySeq i) as Hnew.
    { intros bs r l n Hb Hl. by destruct (doSend_label g msg i j g1 o bs r l n (len es) Hc Hes Hs Hb Hl) as (_ & _ & ? & ?). }
    split.
    + intros bs r l n [Hb|Hb]%elem_of_app Hl; [|by eapply IH1]. destruct (Hnew _ _ _ _ Hb Hl) as [-> ->]. by split.
    + intros bs bs' r l n l' n' [Hb|Hb]%elem_of_app [Hb'|Hb']%elem_of_app Hl Hl'; [| | |by apply (IH2 bs bs' r l n l' n')].
      * destruct (Hnew _ _ _ _ Hb Hl) as [_ ->], (Hnew _ _ _ _ Hb' Hl') as [_ ->]. done.
      * destruct (Hnew _ _ _ _ Hb Hl) as [Hr Hlr], (IH1 _ _ _ _ Hb' Hl') as [_ Hx]. rewrite Hlr. symmetry. by apply Hx.
      * destruct (Hnew _ _ _ _ Hb' Hl') as [Hr Hlr], (IH1 _ _ _ _ Hb Hl) as [_ Hx]. rewrite Hlr. by apply Hx.
  - destruct (doRecv rng pc now g msg i) as [[[j g1] o]| |] eqn:Hd;
      [|split; intros *; by intros ?%not_elem_of_nil..].
    apply doRecv_cases in Hd as [[-> _]|(r & l & n & off & q & un & j0 & _ & _ & _ & _ & _ & Hon & -> & _)].
    { apply IH. unfold counters_ok in *. lia. }
    pose proof (onSuccess_counters rng (len es) i now g q n _ j0 g1 Hc Hes Hon) as Hcj.
    pose proof (onSuccess_numbers rng (len es) i now g q n _ j0 g1 Hc Hes Hon) as Hnum.
    match goal with |- context [traffic_sends rng pc es ?k g1] => destruct (IH k g1) as [IH1 IH2]; [done|] end.
    split; [|done]. intros bs r' l' n' Hb Hl. destruct (IH1 _ _ _ _ Hb Hl) as [H1 H2]. simpl in *. lia.
Qed.
End Once.

(** C17: session_traffic_once.  Between two handshakes of a session, when the
    packets that are delivered carry the numbers of packets that the session at
    the other end wrote, no packet is delivered twice, whatever else arrives,
    in whatever order and however often: the delivered packets have pairwise
    different key numbers and nonces.  The other end runs the same code: it
    may send and receive in any order, and move its keys up.  This holds while the counters of
    both ends do not overflow. *)
Theorem session_traffic_once `{Ed25519} `{Box} rng pc es i g i' log rngR pcR esR remote gR :
  counters_ok (len es) i → counters_ok (len esR) remote →
  traffic_run rng pc es i g = Ok (i', log) →
  (∀ label, label ∈ log → ∃ bs, bs ∈ traffic_sends rngR pcR esR remote gR ∧ label ∈ traffic_label bs) →
  NoDup log.
Proof.
  intros Hc HcR Hrun Hsent. destruct (traffic_sends_paired rngR pcR esR remote gR HcR) as [_ Hpair].
  apply (traffic_run_nodup rng pc es i g i' [] log Hc); [|apply NoDup_nil_2|done|].
  - by intros r l n ?%not_elem_of_nil.
  - intros r l n l' n' (bs & Hb & Hl)%Hsent (bs' & Hb' & Hl')%Hsent. by eapply (Hpair bs bs').
Qed.

(** ** The handshake *)

Section Establish.
Context `{Ed25519} `{!Ed25519Laws} `{Box} `{!BoxLaws} `{Sha512}.

(** A session with the given keys, fresh except for its sending nonce. *)
Record sess_is (i : sessionInfo) (ed : bytes) (seq remote local : Z) (current next recvPriv sendPriv nextPriv : bytes)
    (sendNonce : Z) : Prop := {
  is_wf : sess_wf i;
  is_ed : si_ed i = ed;
  is_seqs : si_seq i = seq ∧ si_remoteKeySeq i = remote ∧ si_localKeySeq i = local;
  is_remote : si_current i = current ∧ si_next i = next;
  is_own : si_recvPriv i = recvPriv ∧ si_sendPriv i = sendPriv ∧ si_nextPriv i = nextPriv;
  is_nonces : si_recvNonce i = 0 ∧ si_sendNonce i = sendNonce ∧ si_nextSendNonce i = 0;
  is_rotated : si_rotated i = None;
}.

(** The sequence number of a message is its time. *)
Lemma new_init_ok now rng c n k :
  rng_ok rng → is_u64 k →
  init_ok (newSessionInit now (box_Public (rng c)) (box_Public (rng n)) k).
Proof.
  intros Hr Hk. split_and!; try (by apply box_Public_ok); try done. by apply wrap_in_range.
Qed.

(** A first handshake message makes a session. *)
Lemma fresh_update rng now g pub init i0 g0 :
  rng_ok rng → init_ok init → 1 <= in_seq init →
  newSession rng now g pub (in_current init) (in_next init) (in_seq init) = (i0, g0) →
  (in_seq init <=? si_seq i0) = false ∧
  ∃ i, _handleUpdate rng g0 init i0 = (i, (g + 4)%nat) ∧
    sess_is i pub (in_seq init) (in_keySeq init) 1 (in_current init) (in_next init)
      (rng (g + 1)%nat) (rng (g + 2)%nat) (rng (g + 3)%nat) 0.
Proof.
  intros Hr (_ & _ & Hk & Hs) Hpos [= <- <-]. split.
  { simpl. rewrite (wrap_small 64) by (unfold in_range in *; lia). apply Z.leb_gt. lia. }
  eexists. split; [unfold _handleUpdate, advance; cbn [newBoxKeys]; f_equal; lia|].
  split; try done. split; try done; simpl; by rewrite <- ?Nat.add_assoc.
Qed.

(** A node: its key, its random keys and its group. *)
Context (auth : groupAuth).
Definition node_keys (sk : bytes) : sessionKeys := SessionKeys sk (edPriv_toBox sk) auth.

(** The message for a session in a given state. *)
Definition handshake_msg (t : Z) (rng : nat → bytes) (g : nat) (now : Z) (c n : bytes) (k : Z) (from to : bytes) : bytes :=
  t :: init_body rng g (newSessionInit now (box_Public c) (box_Public n) k) from (ed_Public to) auth.

Lemma sendAck_msg rng g now c n k from to :
  rng_ok rng → priv_ok from → boxPriv_ok c → boxPriv_ok n → is_u64 k →
  sendAck rng (node_keys from) g (ed_Public to) (newSessionInit now (box_Public c) (box_Public n) k) =
    Ok (S g, [SSeal (rng g) 0; SWrite (ed_Public to) (handshake_msg sessionTypeAck rng g now c n k from to)]).
Proof.
  intros Hr Hf Hc Hn Hk. unfold sendAck. cbn [sk_Ed sk_auth node_keys]. rewrite sessionAck_encrypt_body; [done..|].
  split_and!; try (by apply box_Public_ok); try done. by apply wrap_in_range.
Qed.

Lemma sendInit_msg rng g now c n k from to :
  rng_ok rng → priv_ok from → boxPriv_ok c → boxPriv_ok n → is_u64 k →
  sendInit rng (node_keys from) g (ed_Public to) (newSessionInit now (box_Public c) (box_Public n) k) =
    Ok (S g, [SSeal (rng g) 0; SWrite (ed_Public to) (handshake_msg sessionTypeInit rng g now c n k from to)]).
Proof.
  intros Hr Hf Hc Hn Hk. unfold sendInit. cbn [sk_Ed sk_auth node_keys]. rewrite sessionInit_encrypt_body; [done..|].
  split_and!; try (by apply box_Public_ok); try done. by apply wrap_in_range.
Qed.

(** The acknowledgement of a session. *)
Lemma sendAck_is rng g now i from to seq remote local cur nxt rp sp np sn :
  rng_ok rng → priv_ok from → is_u64 local →
  sess_is i (ed_Public to) seq remote local cur nxt rp sp np sn →
  _sendAck rng (node_keys from) now g i =
    Ok (S g, [SSeal (rng g) 0; SWrite (ed_Public to) (handshake_msg sessionTypeAck rng g now sp np local from to)]).
Proof.
  intros Hr Hf Hl [Hw Hed (_ & _ & Hloc) _ (_ & Hsp & Hnp) _ _]. unfold _sendAck. rewrite Hed, Hloc.
  destruct (wf_send _ Hw) as [-> Hs], (wf_next _ Hw) as [-> Hn]. rewrite Hsp, Hnp in *. by apply sendAck_msg.
Qed.

(** The first packet: a buffer and an init. *)
Lemma first_write rng now m from to msg :
  rng_ok rng → priv_ok from → mg_sessions m !! ed_Public to = None → mg_buffers m !! ed_Public to = None →
  let g := mg_gen m in
  ∃ b, sb_data b = msg ∧ sb_currentPriv b = rng g ∧ sb_nextPriv b = rng (g + 1)%nat ∧
    sb_init b = newSessionInit now (box_Public (rng g)) (box_Public (rng (g + 1)%nat)) 0 ∧
    session_writeTo rng (node_keys from) now (ed_Public to) msg m =
      Ok (SessionManager (mg_sessions m) (<[ed_Public to := b]> (mg_buffers m)) (g + 3),
          [SSeal (rng (g + 2)%nat) 0;
           SWrite (ed_Public to) (handshake_msg sessionTypeInit rng (g + 2) now (rng g) (rng (g + 1)%nat) 0 from to)]).
Proof.
  intros Hr Hf Hs Hb g. unfold session_writeTo, _bufferAndInit. rewrite Hs, Hb. cbn [newBoxKeys].
  cbn [sb_init sb_currentPriv sb_nextPriv sb_id]. rewrite (sendInit_msg rng (mg_gen m + 2)) by (try done; apply Hr).
  eexists (SessionBuffer _ _ _ _ _). cbn [mbind res_bind sb_data sb_currentPriv sb_nextPriv sb_init].
  split_and!; try reflexivity. f_equal. f_equal. f_equal. unfold g. lia.
Qed.

(** The answer of a node that had no session: a session and an ack. *)
Lemma answer_init rng now m me from gm rngf t1 cf nf :
  rng_ok rng → identity_ok me → rng_ok rngf → priv_ok from → boxPriv_ok cf → boxPriv_ok nf →
  mg_sessions m !! ed_Public from = None → mg_buffers m !! ed_Public from = None →
  1 <= u64 (t1 / 1000000000) →
  let g := mg_gen m in
  ∃ i, handleData rng (node_keys me) now (ed_Public from) (handshake_msg sessionTypeInit rngf gm t1 cf nf 0 from me) m =
      Ok (put_session i (g + 5) m,
          [SSeal (rng (g + 4)%nat) 0;
           SWrite (ed_Public from)
             (handshake_msg sessionTypeAck rng (g + 4) now (rng (g + 2)%nat) (rng (g + 3)%nat) 1 me from)]) ∧
    sess_is i (ed_Public from) (u64 (t1 / 1000000000)) 0 1 (box_Public cf) (box_Public nf)
      (rng (g + 1)%nat) (rng (g + 2)%nat) (rng (g + 3)%nat) 0.
Proof.
  intros Hr Hme Hrf Hf Hcf Hnf Hs Hb Hpos g. unfold handleData, handshake_msg.
  set (init := newSessionInit t1 (box_Public cf) (box_Public nf) 0).
  assert (init_ok init) as Hi.
  { split_and!; try (by apply box_Public_ok); try done. by apply wrap_in_range. }
  rewrite Z.eqb_refl. cbn [sk_Box sk_auth node_keys].
  rewrite decrypt_body by done. cbn [mbind res_bind]. unfold _handleInit, _sessionForInit, _newSession. rewrite Hs.
  destruct (newSession rng now (mg_gen m) (ed_Public from) (in_current init) (in_next init) (in_seq init)) as [i0 g0] eqn:Hns.
  destruct (fresh_update rng now (mg_gen m) (ed_Public from) init i0 g0 Hr Hi Hpos Hns) as (Hle & i & Hup & His).
  unfold put_session at 1. cbn [mg_buffers]. rewrite Hb. unfold handleInit.
  change (mg_gen (put_session i0 g0 m)) with g0. rewrite Hle, Hup.
  rewrite (sendAck_is rng _ now i me from _ _ 1 _ _ _ _ _ _ Hr (proj1 Hme) ltac:(done) His).
  exists i. split; [|exact His]. cbn [mbind res_bind send_buffered]. rewrite app_nil_r. unfold put_session. cbn [mg_sessions mg_buffers].
  injection Hns as <- _. cbn [si_ed _fixShared set_nonces set_shared]. rewrite (is_ed _ _ _ _ _ _ _ _ _ _ _ His).
  rewrite insert_insert_eq. do 2 f_equal. f_equal. unfold g. lia.
Qed.

(** A session that takes over the keys of a buffer. *)
Lemma buffer_update rng now g pub init b i0 g0 c n :
  rng_ok rng → init_ok init → 1 <= in_seq init → boxPriv_ok c → boxPriv_ok n →
  sb_currentPriv b = c → sb_nextPriv b = n → in_current (sb_init b) = box_Public c → in_next (sb_init b) = box_Public n →
  newSession rng now g pub (in_current init) (in_next init) (in_seq init) = (i0, g0) →
  let i1 := _fixShared 0 0 (set_own (si_recvPub i0) (si_recvPriv i0) (in_current (sb_init b)) (sb_currentPriv b)
              (in_next (sb_init b)) (sb_nextPriv b) (si_localKeySeq i0) i0) in
  g0 = (g + 3)%nat ∧ (in_seq init <=? si_seq i1) = false ∧
  ∃ i, _handleUpdate rng (g + 3) init i1 = (i, (g + 4)%nat) ∧
    sess_is i pub (in_seq init) (in_keySeq init) 1 (in_current init) (in_next init) c n (rng (g + 3)%nat) 0.
Proof.
  intros Hr (_ & _ & Hk & Hs) Hpos Hc Hn <- <- Hbc Hbn [= <- <-] i1. split; [done|]. split.
  { simpl. rewrite (wrap_small 64) by (unfold in_range in *; lia). apply Z.leb_gt. lia. }
  eexists. split; [unfold _handleUpdate, advance; cbn [newBoxKeys]; f_equal; lia|].
  split; try done. split; try done; simpl. by split; [|apply Hr].
Qed.

(** Sending the first packet of a session. *)
Lemma first_send rng g msg i ed seq remote local cur nxt rp sp np :
  sess_is i ed seq remote local cur nxt rp sp np 0 →
  ∃ i', doSend rng g msg i = (i', g, [SSeal sp 1; SWrite ed (packet local remote 1 (getShared cur sp) (box_Public np) msg)]) ∧
    sess_is i' ed seq remote local cur nxt rp sp np 1.
Proof.
  intros [Hw Hed (Hs & Hre & Hl) (Hc & Hn) (Hrp & Hsp & Hnp) (Hn1 & Hn2 & Hn3) Hro].
  eexists. rewrite doSend_packet by (rewrite Hn2; done). rewrite (wf_sendShared _ Hw), (proj1 (wf_next _ Hw)).
  rewrite Hed, Hn2, Hsp, Hnp, Hl, Hre, Hc. split; [reflexivity|]. split; try done. by apply sess_wf_nonces.
Qed.

(** The ack arrives at the node that waits: it acknowledges and sends its packet. *)
Lemma buffered_answer rng now m me from gm rngf t2 cf nf k b c n :
  rng_ok rng → identity_ok me → rng_ok rngf → priv_ok from → boxPriv_ok cf → boxPriv_ok nf → is_u64 k →
  boxPriv_ok c → boxPriv_ok n → mg_sessions m !! ed_Public from = None → mg_buffers m !! ed_Public from = Some b →
  sb_currentPriv b = c → sb_nextPriv b = n → in_current (sb_init b) = box_Public c → in_next (sb_init b) = box_Public n →
  sb_data b ≠ [] → 1 <= u64 (t2 / 1000000000) →
  let g := mg_gen m in let P := ed_Public from in
  ∃ m' i, handleData rng (node_keys me) now P (handshake_msg sessionTypeAck rngf gm t2 cf nf k from me) m =
      Ok (m', [SSeal (rng (g + 4)%nat) 0;
               SWrite P (handshake_msg sessionTypeAck rng (g + 4) now n (rng (g + 3)%nat) 1 me from);
               SSeal n 1; SWrite P (packet 1 k 1 (getShared (box_Public cf) n) (box_Public (rng (g + 3)%nat)) (sb_data b))]) ∧
    mg_sessions m' !! P = Some i ∧ mg_gen m' = (g + 5)%nat ∧
    sess_is i P (u64 (t2 / 1000000000)) k 1 (box_Public cf) (box_Public nf) c n (rng (g + 3)%nat) 1.
Proof.
  intros Hr Hme Hrf Hf Hcf Hnf Hk Hc Hn Hs Hb Hbc Hbn Hic Hin Hne Hpos g P. subst P. unfold handleData, handshake_msg.
  set (ack := newSessionInit t2 (box_Public cf) (box_Public nf) k).
  assert (init_ok ack) as Hi.
  { split_and!; try (by apply box_Public_ok); try done. by apply wrap_in_range. }
  change (sessionTypeAck =? sessionTypeInit) with false. rewrite Z.eqb_refl. cbn [sk_Box sk_auth node_keys].
  rewrite decrypt_body by done. cbn [mbind res_bind]. unfold _handleAck, _sessionForInit, _newSession. rewrite Hs.
  rewrite bool_decide_false by (by intros [? ?]).
  destruct (newSession rng now (mg_gen m) (ed_Public from) (in_current ack) (in_next ack) (in_seq ack)) as [i0 g0] eqn:Hns.
  destruct (buffer_update rng now (mg_gen m) (ed_Public from) ack b i0 g0 c n Hr Hi Hpos Hc Hn Hbc Hbn Hic Hin Hns)
    as (-> & Hle & i & Hup & His).
  change (mg_buffers (put_session i0 (mg_gen m + 3) m)) with (mg_buffers m). rewrite Hb. unfold handleInit. cbn [mg_gen put_session].
  rewrite Hle, Hup. rewrite (sendAck_is rng _ now i me from _ _ 1 _ _ _ _ _ _ Hr (proj1 Hme) ltac:(done) His).
  cbn [mbind res_bind send_buffered]. rewrite bool_decide_false by done. cbn [mg_gen put_session].
  destruct (first_send rng (S (mg_gen m + 4)) (sb_data b) i _ _ _ _ _ _ _ _ _ His) as (i' & -> & His').
  eexists _, i'. split; [reflexivity|]. unfold put_session. cbn [mg_sessions mg_gen].
  rewrite (is_ed _ _ _ _ _ _ _ _ _ _ _ His').
  split; [apply lookup_insert_eq|]. split; [unfold g; lia|exact His'].
Qed.

(** The last ack of the handshake: it is out of date within one second, and
    otherwise moves the keys on. *)
Lemma late_ack rng now m me from gm rngf t3 cf nf k i seq remote local cur nxt rp sp np sn :
  rng_ok rng → identity_ok me → rng_ok rngf → priv_ok from → boxPriv_ok cf → boxPriv_ok nf → is_u64 k →
  is_u64 (local + 1) → let P := ed_Public from in
  mg_sessions m !! P = Some i → sess_is i P seq remote local cur nxt rp sp np sn →
  ∃ m' i', handleData rng (node_keys me) now P (handshake_msg sessionTypeAck rngf gm t3 cf nf k from me) m = Ok (m', []) ∧
    mg_sessions m' !! P = Some i' ∧
    (i' = i ∨ ∃ np', sess_is i' P (u64 (t3 / 1000000000)) k (local + 1) (box_Public cf) (box_Public nf) sp np np' sn).
Proof.
  intros Hr Hme Hrf Hf Hcf Hnf Hk Hl P Hs His. subst P. unfold handleData, handshake_msg.
  set (ack := newSessionInit t3 (box_Public cf) (box_Public nf) k).
  assert (init_ok ack) as Hi.
  { split_and!; try (by apply box_Public_ok); try done. by apply wrap_in_range. }
  change (sessionTypeAck =? sessionTypeInit) with false. rewrite Z.eqb_refl. cbn [sk_Box sk_auth node_keys].
  rewrite decrypt_body by done. cbn [mbind res_bind]. unfold _handleAck, _sessionForInit. rewrite Hs.
  rewrite bool_decide_true by done. unfold handleAck.
  destruct His as [Hw Hed (Hseq & Hre & Hloc) (Hc & Hn) (Hrp & Hsp & Hnp) (Hn1 & Hn2 & Hn3) Hro].
  destruct (in_seq ack <=? si_seq i); cbn [mbind res_bind send_buffered app].
  - eexists _, i. split; [reflexivity|]. split; [|by left]. unfold put_session. simpl. by rewrite Hed, lookup_insert_eq.
  - unfold _handleUpdate, advance. cbn [newBoxKeys mbind res_bind app].
    eexists _, _. split; [reflexivity|]. split.
    { unfold put_session. cbn [mg_sessions si_ed _fixShared set_nonces set_shared set_own set_seq set_remote].
      rewrite Hed. apply lookup_insert_eq. }
    right. exists (rng (mg_gen m)). split; try done; simpl.
    + split; try done; simpl; [by apply Hw|by apply Hw|]. by split; [|apply Hr].
    + rewrite Hloc, (wrap_small 64 (local + 1)) by done. done.
Qed.

(** The first packet arrives, before or after the last ack took effect. *)
Lemma first_receive rng pc now g P i seq cur rp sp np n nA msg :
  rng_ok rng → boxPriv_ok n → boxPriv_ok nA → bytes_ok msg →
  (sess_is i P seq 0 1 cur (box_Public n) rp sp np 0 ∨
   ∃ seq' rest, sess_is i P seq' 1 2 (box_Public n) (box_Public nA) sp np rest 0) →
  ∃ j g', doRecv rng pc now g (packet 1 1 1 (getShared (box_Public sp) n) (box_Public nA) msg) i =
      Ok (j, g', [SDeliver P msg]) ∧
    sess_wf j ∧ si_ed j = P ∧ si_remoteKeySeq j = 1 ∧ si_localKeySeq j = 2 ∧ si_current j = box_Public n ∧
    si_next j = box_Public nA ∧ si_recvPriv j = sp ∧ si_sendPriv j = np ∧
    si_recvNonce j = 1 ∧ si_sendNonce j = 0 ∧ si_nextSendNonce j = 0.
Proof.
  intros Hr Hn HnA Hm Hi. destruct (box_Public_ok _ HnA) as [Hpl Hpb].
  destruct Hi as [[Hw Hed (_ & Hre & Hloc) (_ & Hnx) (Hrp & Hsp & Hnp) (Hn1 & Hn2 & Hn3) Hro]
                 |(seq' & rest & [Hw Hed (_ & Hre & Hloc) (Hc & Hnx) (Hrp & Hsp & Hnp) (Hn1 & Hn2 & Hn3) Hro])].
  - rewrite (doRecv_packet _ _ _ _ _ _ _ _ _ _ _ FromNextToSend); try done.
    2: { apply recv_case_next; by rewrite ?Hre, ?Hloc. }
    2: { cbn [recv_nonce]. rewrite Hn3. lia. }
    2: { cbn [recv_shared]. rewrite (wf_nextSendShared _ Hw), Hnx, Hsp. apply box_shared; [done|]. rewrite <- Hsp. apply Hw. }
    cbn [onSuccess]. unfold may_rotate. cbn [si_rotated set_nonces]. rewrite Hro, Hed.
    destruct (rotate _ _ _ _ _ _) as [i' g'] eqn:Hrot. pose proof Hrot as Hrw.
    apply (rotate_wf _ _ _ _ _ _ _ _ (u64 (si_rx i' + len msg)) (si_tx i') Hr) in Hrw; [|by destruct Hw].
    injection Hrot as <- <-. eexists _, _. split; [reflexivity|]. split; [exact Hrw|]. simpl.
    rewrite Hre, Hloc. by split_and!.
  - rewrite (doRecv_packet _ _ _ _ _ _ _ _ _ _ _ FromCurrentToRecv); try done.
    2: { apply recv_case_current; by rewrite ?Hre, ?Hloc. }
    2: { cbn [recv_nonce]. rewrite Hn1. lia. }
    2: { cbn [recv_shared]. rewrite (wf_recvShared _ Hw), Hc, Hrp. apply box_shared; [done|]. rewrite <- Hrp. apply Hw. }
    cbn [onSuccess]. rewrite Hed. eexists _, _. split; [reflexivity|]. simpl. split_and!; try done. by apply sess_wf_nonces.
Qed.

(** The state after the first packet is one of two sessions in step. *)
Lemma established_in_step k rngA rngB skA skB iA gA iB gB PA seqA cB nB c n nA :
  rng_ok rngA → rng_ok rngB → 0 <= k → k + 10 < 2 ^ 64 →
  sess_is iA PA seqA 1 1 (box_Public cB) (box_Public nB) c n nA 1 →
  sess_wf iB → si_remoteKeySeq iB = 1 → si_localKeySeq iB = 2 → si_current iB = box_Public n →
  si_next iB = box_Public nA → si_recvPriv iB = cB → si_sendPriv iB = nB →
  si_recvNonce iB = 1 → si_sendNonce iB = 0 → si_nextSendNonce iB = 0 →
  in_step k (Endpoint rngA skA iA gA []) (Endpoint rngB skB iB gB []) [] [].
Proof.
  intros HrA HrB Hk0 Hk [Hw Hed (_ & Hre & Hloc) (Hc & Hnx) (Hrp & Hsp & Hnp) (Hn1 & Hn2 & Hn3) Hro]
    HwB HreB HlocB HcB HnB HrpB HspB HnB1 HnB2 HnB3. left.
  destruct (wf_send _ Hw) as [Hs _], (wf_next _ Hw) as [Hn' _], (wf_recv _ HwB) as [HrB' _], (wf_send _ HwB) as [HsB _].
  split; cbn [ep_info ep_rng ep_in]; try done; try congruence.
  - unfold counters_ok. rewrite Hre, Hloc, Hn2, HreB, HlocB, HnB2. lia.
  - rewrite Hre, HlocB. done.
  - constructor. rewrite HnB1, Hn2. lia.
  - exists [], [], [], [], (si_nextPub iA), (si_recvNonce iA). rewrite Hn' at 1 2.
    destruct (box_Public_ok (si_nextPriv iA)) as [? ?]; [apply Hw|].
    split_and!; try done; constructor; [lia|]. rewrite Hn3, HnB2. lia.
Qed.
End Establish.

(** C15: session_establishes.  Two honest nodes of one group that have no session:
    the first packet that one of them writes is delivered to the other after init,
    ack and ack, whether or not the last ack is in the same second as the init,
    and leaves the two sessions in step, so that all that follows is delivered as
    well ([session_refines_channel]). *)
Theorem session_establishes `{Ed25519} `{!Ed25519Laws} `{Box} `{!BoxLaws} `{Sha512}
    auth rngA rngB skA skB mA mB msg t1 t2 t3 t4 t5 k :
  rng_ok rngA → rng_ok rngB → identity_ok skA → identity_ok skB →
  let KA := node_keys auth skA in let KB := node_keys auth skB in
  let PA := ed_Public skA in let PB := ed_Public skB in
  mg_sessions mA !! PB = None → mg_buffers mA !! PB = None →
  mg_sessions mB !! PA = None → mg_buffers mB !! PA = None →
  bytes_ok msg → msg ≠ [] → 1 <= u64 (t1 / 1000000000) → 1 <= u64 (t2 / 1000000000) →
  0 <= k → k + 10 < 2 ^ 64 →
  ∃ mA1 o1 p1 mB1 o2 p2 mA2 o3 p3 p4 mB2 mB3 iA iB,
    session_writeTo rngA KA t1 PB msg mA = Ok (mA1, o1) ∧ written o1 = [p1] ∧
    handleData rngB KB t2 PA p1 mB = Ok (mB1, o2) ∧ written o2 = [p2] ∧
    handleData rngA KA t3 PB p2 mA1 = Ok (mA2, o3) ∧ written o3 = [p3; p4] ∧
    handleData rngB KB t4 PA p3 mB1 = Ok (mB2, []) ∧
    handleData rngB KB t5 PA p4 mB2 = Ok (mB3, [SDeliver PA msg]) ∧
    mg_sessions mA2 !! PB = Some iA ∧ mg_sessions mB3 !! PA = Some iB ∧
    in_step k (Endpoint rngA KA iA (mg_gen mA2) []) (Endpoint rngB KB iB (mg_gen mB3) []) [] [].
Proof.
  intros HrA HrB HA HB KA KB PA PB HsA HbA HsB HbB Hm Hne Ht1 Ht2 Hk0 Hk. subst KA KB PA PB.
  destruct (first_write auth rngA t1 mA skA skB msg HrA (proj1 HA) HsA HbA) as (b & Hbd & Hbc & Hbn & Hbi & Hw).
  set (gA := mg_gen mA) in *.
  destruct (answer_init auth rngB t2 mB skB skA (gA + 2) rngA t1 (rngA gA) (rngA (gA + 1)%nat)) as (i1 & Ha & His1);
    try done; try apply HrA; [apply HA|].
  set (mA1 := SessionManager (mg_sessions mA) (<[ed_Public skB := b]> (mg_buffers mA)) (gA + 3)) in Hw.
  edestruct (buffered_answer auth rngA t3 mA1 skA skB (mg_gen mB + 4) rngB t2 (rngB (mg_gen mB + 2)%nat) (rngB (mg_gen mB + 3)%nat) 1 b
    (rngA gA) (rngA (gA + 1)%nat)) as (mA2 & iA & Hba & HsA2 & HgA2 & HisA);
    [exact HrA|exact HA|exact HrB|apply HB|apply HrB|apply HrB|split; reflexivity || discriminate|apply HrA|apply HrA|exact HsA|apply lookup_insert_eq
    |exact Hbc|exact Hbn|rewrite Hbi; reflexivity|rewrite Hbi; reflexivity|rewrite Hbd; exact Hne|exact Ht2|].
  edestruct (late_ack auth rngB t4 (put_session i1 (mg_gen mB + 5) mB) skB skA (mg_gen mA1 + 4) rngA t3
    (rngA (gA + 1)%nat) (rngA (mg_gen mA1 + 3)%nat) 1 i1 (u64 (t1 / 1000000000)) 0 1)
    as (mB2 & i2 & Hla & HsB2 & Hor); [exact HrB|exact HB|exact HrA|apply HA|apply HrA|apply HrA|split; reflexivity || discriminate|split; reflexivity || discriminate| |exact His1|].
  { unfold put_session. cbn [mg_sessions]. rewrite (is_ed _ _ _ _ _ _ _ _ _ _ _ His1). apply lookup_insert_eq. }
  edestruct (first_receive rngB (node_keys auth skB) t5 (mg_gen mB2) (ed_Public skA) i2) as (iB & gB' & Hrec & HwB & HedB & Hfacts);
    [exact HrB|apply (HrA (gA + 1)%nat)|apply HrA|exact Hm| |].
  { destruct Hor as [->|(np' & Hup)]; [left; exact His1|right; eexists _, _; exact Hup]. }
  eexists _, _, _, _, _, _, mA2, _, _, _, mB2, (put_session iB gB' mB2), iA, iB.
  split; [exact Hw|]. split; [reflexivity|]. split; [exact Ha|]. split; [reflexivity|].
  split; [exact Hba|]. split; [reflexivity|]. split; [exact Hla|]. split; [|split; [exact HsA2|split]].
  - unfold handleData, packet, boxSeal. cbn [app].
    change (sessionTypeTraffic =? sessionTypeInit) with false. change (sessionTypeTraffic =? sessionTypeAck) with false.
    rewrite Z.eqb_refl. unfold _handleTraffic. rewrite HsB2. unfold packet, boxSeal in Hrec. cbn [app] in Hrec.
    rewrite Hbd. cbn [mg_gen] in *. rewrite Hrec. done.
  - unfold put_session. cbn [mg_sessions]. rewrite HedB. apply lookup_insert_eq.
  - destruct Hfacts as (F1 & F2 & F3 & F4 & F5 & F6 & F7 & F8 & F9).
    by eapply (established_in_step k rngA rngB).
Qed.

(** ** Two nodes *)

Module SessionWitness.
Import ToySig ToyBox SessionInitWitness.

(** The random keys of the two nodes. *)
Definition keysA (i : nat) : bytes := [u8 (Z.of_nat i); 65] ++ replicate 30 0.
Definition keysB (i : nat) : bytes := [u8 (Z.of_nat i); 66] ++ replicate 30 0.

Lemma stream_ok c : is_byte c → rng_ok (λ i, [u8 (Z.of_nat i); c] ++ replicate 30 0).
Proof.
  intros Hc i. split; [done|]. apply bytes_ok_cons_2; [by apply wrap_in_range|]. apply bytes_ok_cons_2; [done|].
  auto with uqda.
Qed.

Definition skA : bytes := identity 2.
Definition skB : bytes := identity 0.
Definition second : Z := 1000000000.
Definition hello : bytes := [104; 105].

Lemma identities_ok : identity_ok skA ∧ identity_ok skB.
Proof. split; (apply identity_box_ok; [lia|vm_compute; reflexivity]). Qed.

Lemma session_establishes_witness :
  let KA := node_keys auth1 skA in let KB := node_keys auth1 skB in
  let PA := ed_Public skA in let PB := ed_Public skB in
  ∃ mA1 o1 p1 mB1 o2 p2 mA2 o3 p3 p4 mB2 mB3 iA iB,
    session_writeTo keysA KA (100 * second) PB hello manager_init = Ok (mA1, o1) ∧ written o1 = [p1] ∧
    handleData keysB KB (100 * second) PA p1 manager_init = Ok (mB1, o2) ∧ written o2 = [p2] ∧
    handleData keysA KA (101 * second) PB p2 mA1 = Ok (mA2, o3) ∧ written o3 = [p3; p4] ∧
    handleData keysB KB (101 * second) PA p3 mB1 = Ok (mB2, []) ∧
    handleData keysB KB (101 * second) PA p4 mB2 = Ok (mB3, [SDeliver PA hello]) ∧
    mg_sessions mA2 !! PB = Some iA ∧ mg_sessions mB3 !! PA = Some iB ∧
    in_step 1000 (Endpoint keysA KA iA (mg_gen mA2) []) (Endpoint keysB KB iB (mg_gen mB3) []) [] [].
Proof.
  apply (session_establishes auth1 keysA keysB skA skB manager_init manager_init hello).
  - by apply stream_ok.
  - by apply stream_ok.
  - apply identities_ok.
  - apply identities_ok.
  - reflexivity.
  - reflexivity.
  - reflexivity.
  - reflexivity.
  - apply (bool_decide_unpack _). vm_compute. exact I.
  - discriminate.
  - vm_compute. discriminate.
  - vm_compute. discriminate.
  - lia.
  - lia.
Defined.

(** The sessions of the two nodes after the first packet. *)
Definition infoA : sessionInfo :=
  _fixShared 0 1 (SessionInfo 100 (ed_Public skB) 1 (keysB 2) (keysB 3) 1 (keysA 0) (keysA 0) [] 0
    (keysA 1) (keysA 1) [] 0 (keysA 6) (keysA 6) 0 None 0 2 [] 0 [] 0 3).
Definition infoB : sessionInfo :=
  _fixShared 1 0 (SessionInfo 100 (ed_Public skA) 1 (keysA 1) (keysA 6) 2 (keysB 2) (keysB 2) [] 0
    (keysB 3) (keysB 3) [] 0 (keysB 5) (keysB 5) 0 (Some 0) 2 0 [] 0 [] 0 0).
Definition endA : endpoint := Endpoint keysA (node_keys auth1 skA) infoA 8 [].
Definition endB : endpoint := Endpoint keysB (node_keys auth1 skB) infoB 6 [].

Definition history1 : list (bool * pair_action) :=
  [(true, PaSend [1]); (true, PaSend [2]); (false, PaSend [3]); (false, PaArrive second);
   (true, PaArrive second); (true, PaSend [4]); (true, PaSend [5]); (false, PaLose 1);
   (false, PaArrive (2 * second)); (false, PaArrive (2 * second)); (false, PaSend [6]); (true, PaArrive (90 * second))].

Lemma session_refines_channel_witness :
  (∃ x' y', pair_run history1 endA endB = Ok (x', y', ch_run history1 [] [])) ∧
  ch_run history1 [] [] = [(false, [1]); (true, [3]); (false, [2]); (false, [5]); (true, [6])].
Proof.
  split; [|vm_compute; reflexivity].
  apply (session_refines_channel history1 endA endB).
  - apply (established_in_step _ keysA keysB _ _ _ _ _ _ (ed_Public skB) 100 (keysB 2) (keysB 3) (keysA 0) (keysA 1) (keysA 6));
      try reflexivity; try (by apply stream_ok); try (unfold len; simpl; lia); split; try reflexivity; split; try reflexivity;
      split; try reflexivity; apply (bool_decide_unpack _); vm_compute; exact I.
  - repeat constructor; simpl; apply (bool_decide_unpack _); vm_compute; exact I.
Defined.

(** Packets that the first node sends to the second. *)
Definition packetA (n : Z) (msg : bytes) : bytes := packet 1 1 n (getShared (keysB 2) (keysA 1)) (keysA 6) msg.

(** Received twice and out of order: the copies and the late packet are dropped. *)
Definition traffic1 : list traffic_event :=
  [TrRecv second (packetA 2 [7]); TrRecv second (packetA 2 [7]); TrSend [1]; TrRecv second (packetA 5 [8]);
   TrRecv second (packetA 3 [9]); TrRecv second (packetA 5 [8])].

(** What the first node sends meanwhile. *)
Definition sends1 : list traffic_event := [TrSend [6]; TrSend [7]; TrSend [9]; TrSend [1]; TrSend [8]].

Definition traffic1_end : sessionInfo :=
  match traffic_run keysB (node_keys auth1 skB) traffic1 infoB 6 with Ok (i, _) => i | _ => infoB end.

Lemma session_traffic_once_witness :
  traffic_run keysB (node_keys auth1 skB) traffic1 infoB 6 = Ok (traffic1_end, [(1, 1, 2); (1, 1, 5)]) ∧
  NoDup [(1, 1, 2); (1, 1, 5)].
Proof.
  assert (traffic_run keysB (node_keys auth1 skB) traffic1 infoB 6 = Ok (traffic1_end, [(1, 1, 2); (1, 1, 5)])) as Hrun
    by (vm_compute; reflexivity).
  split; [exact Hrun|].
  apply (session_traffic_once keysB (node_keys auth1 skB) traffic1 infoB 6 traffic1_end [(1, 1, 2); (1, 1, 5)]
    keysA (node_keys auth1 skA) sends1 infoA 8).
  - unfold counters_ok, len. simpl. lia.
  - unfold counters_ok, len. simpl. lia.
  - exact Hrun.
  - intros label Hl. assert (label ∈ mjoin (traffic_label <$> traffic_sends keysA (node_keys auth1 skA) sends1 infoA 8)) as Hin.
    { apply elem_of_cons in Hl as [->|[->|[]%not_elem_of_nil]%elem_of_cons];
        apply (bool_decide_unpack _); vm_compute; exact I. }
    apply list_elem_of_join in Hin as (ls & Hlab & (bs & -> & Hb)%list_elem_of_fmap). by exists bs.
Defined.

(** A node writes twice to one that does not answer, gets a stray packet from a
    third, and an answer after all. *)
Definition ackB : bytes :=
  handshake_msg auth1 sessionTypeAck keysB 4 (101 * second) (keysB 2) (keysB 3) 1 skB skA.
Definition events1 : list sess_event :=
  [EvWriteTo (100 * second) (ed_Public skB) [1]; EvWriteTo (100 * second) (ed_Public skB) [2];
   EvData (100 * second) (replicate 32 0) (packetA 1 [3]); EvData (101 * second) (ed_Public skB) ackB;
   EvWriteTo (102 * second) (ed_Public skB) [4]; EvSessionTimer (ed_Public skB) 7].

Definition events1_end : sessionManager * list sess_out :=
  match sess_run keysA (node_keys auth1 skA) events1 manager_init with Ok r => r | _ => (manager_init, []) end.

Lemma session_nonces_fresh_witness :
  sess_run keysA (node_keys auth1 skA) events1 manager_init = Ok (events1_end.1, events1_end.2) ∧
  seals events1_end.2 = [(keysA 2, 0); (keysA 3, 0); (keysA 6, 0); (keysA 11, 0); (keysA 1, 1); (keysA 1, 2)] ∧
  NoDup (seals events1_end.2).
Proof.
  assert (sess_run keysA (node_keys auth1 skA) events1 manager_init = Ok (events1_end.1, events1_end.2)) as Hrun
    by (vm_compute; reflexivity).
  split; [exact Hrun|]. split; [vm_compute; reflexivity|].
  apply (session_nonces_fresh keysA (node_keys auth1 skA) events1 events1_end.1 events1_end.2 Hrun).
  assert (mg_gen events1_end.1 = 12%nat) as -> by (vm_compute; reflexivity).
  intros i j Hi Hj [= Hij]. rewrite !(wrap_small 8) in Hij by (unfold in_range; lia). lia.
Defined.

(** ** What goes wrong *)

(** A packet [y] sent after it moved its keys, which [x] accepted without moving
    its own because it had done so in the last minute; an init of [y]; and the same
    packet again, which is delivered a second time: the update takes the keys of
    the first delivery into use as receiving keys, with the nonce reset to zero. *)
Definition rotatedA : sessionInfo := set_rotated (Some (100 * second)) infoA.
Definition packetB : bytes := packet 2 1 1 (getShared (keysA 1) (keysB 3)) (keysB 5) hello.
Definition initB : sessionInit := newSessionInit (120 * second) (si_sendPub infoB) (si_nextPub infoB) (si_localKeySeq infoB).

Theorem init_allows_replay :
  ∃ x1 x2 x3 g1 g2 g3 o,
    doSend keysB 6 hello infoB = (set_traffic 2 2 (set_nonces 1 1 0 0 infoB), 6%nat, [SSeal (keysB 3) 1; SWrite (ed_Public skA) packetB]) ∧
    doRecv keysA (node_keys auth1 skA) (110 * second) 8 packetB rotatedA = Ok (x1, g1, [SDeliver (ed_Public skB) hello]) ∧
    handleInit keysA (node_keys auth1 skA) (120 * second) g1 initB x1 = Ok (x2, g2, o) ∧
    doRecv keysA (node_keys auth1 skA) (121 * second) g2 packetB x2 = Ok (x3, g3, [SDeliver (ed_Public skB) hello]).
Proof.
  set (r1 := doRecv keysA (node_keys auth1 skA) (110 * second) 8 packetB rotatedA).
  assert (∃ x g, r1 = Ok (x, g, [SDeliver (ed_Public skB) hello]) ∧ g = 8%nat ∧
    x = set_traffic 2 2 (set_nonces 0 1 1 0 rotatedA)) as (x1 & g1 & H1 & -> & ->)
    by (eexists _, _; vm_compute; by split_and!).
  destruct (handleInit keysA (node_keys auth1 skA) (120 * second) 8 initB (set_traffic 2 2 (set_nonces 0 1 1 0 rotatedA)))
    as [[[x2 g2] o]| |] eqn:H2; [|vm_compute in H2; discriminate H2..].
  destruct (doRecv keysA (node_keys auth1 skA) (121 * second) g2 packetB x2) as [[[x3 g3] o3]| |] eqn:H3.
  - exists (set_traffic 2 2 (set_nonces 0 1 1 0 rotatedA)), x2, x3, 8%nat, g2, g3, o.
    split; [vm_compute; reflexivity|]. split; [exact H1|]. split; [exact H2|].
    revert H3. vm_compute in H2. injection H2 as <- <- <-. vm_compute. by intros [= <- <- <-].
  - vm_compute in H2. injection H2 as <- <- <-. vm_compute in H3. discriminate H3.
  - vm_compute in H2. injection H2 as <- <- <-. vm_compute in H3. discriminate H3.
Qed.

(** A number below 128 in ten bytes. *)
Definition long_varint (v : Z) : bytes := Z.lor v 128 :: replicate 8 128 ++ [0].

(** A peer with a session sends a box of five bytes behind numbers in their
    longest form: the length check passes, the box opens, and cutting off the
    inner key panics. *)
Definition short_packet : bytes :=
  boxSeal ([sessionTypeTraffic] ++ long_varint 1 ++ long_varint 1 ++ long_varint 2) [1; 2; 3; 4; 5] 2 (si_recvShared infoB).

Theorem short_box_panics :
  len short_packet = sessionTrafficOverheadMin ∧
  doRecv keysB (node_keys auth1 skB) second 6 short_packet infoB = Panic.
Proof. vm_compute. by split. Qed.
End SessionWitness.
