(* ===== verification/Peers.v ===== *)
(** * Peers: connections to neighbours
    (third_party/ironwood/network/peers.go)

    Framing and dispatch of the messages on one connection ([sendPacket],
    [handler], [_handlePacket] and the [_handle*] methods), the allocation of
    ports to neighbours ([addPeer], [removePeer]) and the keep-alive state
    machine ([peerMonitor]).  A call to the router is the packet handed over;
    [None] is a packet that only resets the monitor. *)

From S2P Require Import Prelude Binary Wire Address Crypto Messages Bloom.

(** The values that implement [wireEncodeable]. *)
Inductive packet (F : Type) :=
| PSigReq (req : routerSigReq)
| PSigRes (r : routerSigRes)
| PAnnounce (ann : routerAnnounce)
| PBloom (b : F)
| PPathLookup (l : pathLookup)
| PPathNotify (n : pathNotify)
| PPathBroken (b : pathBroken)
| PTraffic (tr : traffic).
Arguments PSigReq {F} _.
Arguments PSigRes {F} _.
Arguments PAnnounce {F} _.
Arguments PBloom {F} _.
Arguments PPathLookup {F} _.
Arguments PPathNotify {F} _.
Arguments PPathBroken {F} _.
Arguments PTraffic {F} _.

(** Errors that end the reader: of the protocol, or of reading the connection. *)
Inductive handler_error := ProtoError (e : iw_error) | ReadError.

(** The limit of [int] on a 64-bit platform. *)
Definition max_int : Z := 2 ^ 63 - 1.

Definition checkedPeerMessageSize (size limit : Z) : res iw_error Z :=
  if (limit <? size) || (max_int <? size) then Err ErrOversizedMessage else Ok size.

Section Framing.
Context {F : Type} `{BloomFilter F} `{Ed25519}.

Definition packet_type (p : packet F) : wirePacketType :=
  match p with
  | PSigReq _ => wireProtoSigReq
  | PSigRes _ => wireProtoSigRes
  | PAnnounce _ => wireProtoAnnounce
  | PBloom _ => wireProtoBloomFilter
  | PPathLookup _ => wireProtoPathLookup
  | PPathNotify _ => wireProtoPathNotify
  | PPathBroken _ => wireProtoPathBroken
  | PTraffic _ => wireTraffic
  end.

#[export] Instance packet_encodeable : WireEncodeable (packet F) := {
  wsize p := match p with
    | PSigReq req => routerSigReq_size req
    | PSigRes r => routerSigRes_size r
    | PAnnounce ann => routerAnnounce_size ann
    | PBloom b => bloom_size b
    | PPathLookup l => pathLookup_size l
    | PPathNotify n => pathNotify_size n
    | PPathBroken b => pathBroken_size b
    | PTraffic tr => traffic_size tr
    end;
  wencode out p := match p with
    | PSigReq req => routerSigReq_encode out req
    | PSigRes r => routerSigRes_encode out r
    | PAnnounce ann => routerAnnounce_encode out ann
    | PBloom b => bloom_encode out b
    | PPathLookup l => pathLookup_encode out l
    | PPathNotify n => pathNotify_encode out n
    | PPathBroken b => pathBroken_encode out b
    | PTraffic tr => traffic_encode out tr
    end;
}.

(** [sendPacket]: the bytes written to the connection, or [None] when the
    message is over the limit and is dropped. *)
Definition sendPacket (limit : Z) (p : packet F) : res iw_error (option bytes) :=
  let bufSize := u64 (wsize p + 1) in
  if limit <? bufSize then Ok None
  else
    let writeBuf := AppendUvarint [] bufSize in
    match wireEncode writeBuf (wireType_byte (packet_type p)) p with
    | Ok writeBuf => Ok (Some writeBuf)
    | _ => Panic
    end.

Definition handleSigReq (bs : bytes) : res iw_error (packet F) :=
  req ← routerSigReq_decode bs; Ok (PSigReq req).

Definition handleSigRes (self peerKey bs : bytes) : res iw_error (packet F) :=
  r ← routerSigRes_decode bs;
  ok ← routerSigRes_check r self peerKey;
  if negb ok then Err ErrBadMessage else Ok (PSigRes r).

Definition handleAnnounce (bs : bytes) : res iw_error (packet F) :=
  ann ← routerAnnounce_decode bs;
  ok ← routerAnnounce_check ann;
  if negb ok then Err ErrBadMessage else Ok (PAnnounce ann).

Definition peer_handleBloom (bs : bytes) : res iw_error (packet F) :=
  b ← bloom_decode bs; Ok (PBloom b).

Definition handlePathLookup (bs : bytes) : res iw_error (packet F) :=
  l ← pathLookup_decode bs; Ok (PPathLookup l).

Definition handlePathNotify (bs : bytes) : res iw_error (packet F) :=
  n ← pathNotify_decode bs; Ok (PPathNotify n).

Definition handlePathBroken (bs : bytes) : res iw_error (packet F) :=
  b ← pathBroken_decode bs; Ok (PPathBroken b).

Definition handleTraffic (bs : bytes) : res iw_error (packet F) :=
  tr ← traffic_decode bs; Ok (PTraffic tr).

(** [_handlePacket]; [self] is our key, [peerKey] the peer's. *)
Definition handlePacket (self peerKey bs : bytes) : res iw_error (option (packet F)) :=
  match bs with
  | [] => Err ErrEmptyMessage
  | b :: bs =>
      match wireType_of_byte b with
      | Some wireDummy => Ok None
      | Some wireKeepAlive => Ok None
      | Some wireProtoSigReq => p ← handleSigReq bs; Ok (Some p)
      | Some wireProtoSigRes => p ← handleSigRes self peerKey bs; Ok (Some p)
      | Some wireProtoAnnounce => p ← handleAnnounce bs; Ok (Some p)
      | Some wireProtoBloomFilter => p ← peer_handleBloom bs; Ok (Some p)
      | Some wireProtoPathLookup => p ← handlePathLookup bs; Ok (Some p)
      | Some wireProtoPathNotify => p ← handlePathNotify bs; Ok (Some p)
      | Some wireProtoPathBroken => p ← handlePathBroken bs; Ok (Some p)
      | Some wireTraffic => p ← handleTraffic bs; Ok (Some p)
      | None => Err ErrUnrecognizedMessage
      end
  end.

(** One iteration of the loop of [handler] on the bytes still to come from
    the connection: the packet handled and the bytes left. *)
Definition handler_step (self peerKey : bytes) (limit : Z) (rbuf : bytes) :
    res handler_error (option (packet F) * bytes) :=
  let '(usize, n) := Uvarint rbuf in
  if n <=? 0 then Err ReadError
  else
    let rbuf := drop (Z.to_nat n) rbuf in
    match checkedPeerMessageSize usize limit with
    | Err e => Err (ProtoError e)
    | Panic => Panic
    | Ok size =>
        if len rbuf <? size then Err ReadError
        else
          match handlePacket self peerKey (take (Z.to_nat size) rbuf) with
          | Ok o => Ok (o, drop (Z.to_nat size) rbuf)
          | Err e => Err (ProtoError e)
          | Panic => Panic
          end
    end.

(** The loop of [handler] on a connection that delivers [rbuf] and then ends:
    the packets handled in order and how the loop ended.  Every iteration
    reads at least one byte, so [length rbuf + 1] iterations are enough. *)
Fixpoint handler_loop (fuel : nat) (self peerKey : bytes) (limit : Z) (rbuf : bytes) :
    list (option (packet F)) * res handler_error False :=
  match fuel with
  | O => ([], Panic)
  | S fuel =>
      match handler_step self peerKey limit rbuf with
      | Ok (o, rbuf) =>
          let '(os, e) := handler_loop fuel self peerKey limit rbuf in (o :: os, e)
      | Err e => ([], Err e)
      | Panic => ([], Panic)
      end
  end.

Definition handler (self peerKey : bytes) (limit : Z) (rbuf : bytes) :=
  handler_loop (S (length rbuf)) self peerKey limit rbuf.
End Framing.

(** ** What a sender puts into a packet *)

Section Roundtrip.
Context {F : Type} `{BloomFilterLaws F} `{Ed25519Laws}.

Definition packet_payload (p : packet F) : bytes :=
  match p with
  | PSigReq req => routerSigReq_payload req
  | PSigRes r => routerSigRes_payload r
  | PAnnounce ann => routerAnnounce_payload ann
  | PBloom b => bloom_payload b
  | PPathLookup l => pathLookup_payload l
  | PPathNotify n => pathNotify_payload n
  | PPathBroken b => pathBroken_payload b
  | PTraffic tr => traffic_payload tr
  end.

(** Well-formed and, for signature responses and announcements, with signatures
    that verify: [dest] is the node that receives the packet, [src] the one that
    sends it. The signature in a path notification is not looked at here: only the
    node it is for checks it, in the pathfinder. *)
Definition packet_wf (dest src : bytes) (p : packet F) : Prop :=
  match p with
  | PSigReq req => routerSigReq_wf req
  | PSigRes r => routerSigRes_wf r ∧ routerSigRes_check r dest src = Ok true
  | PAnnounce ann => routerAnnounce_wf ann ∧ routerAnnounce_check ann = Ok true
  | PBloom _ => True
  | PPathLookup l => pathLookup_wf l
  | PPathNotify n => pathNotify_wf n
  | PPathBroken b => pathBroken_wf b
  | PTraffic tr => traffic_wf tr
  end.

Lemma packet_encode_eq out (p : packet F) : wencode out p = Ok (out ++ packet_payload p).
Proof.
  destruct p; simpl; first [apply routerSigReq_encode_eq | apply routerSigRes_encode_eq
    | apply routerAnnounce_encode_eq | apply bloom_encode_eq | apply pathLookup_encode_eq
    | apply pathNotify_encode_eq | apply pathBroken_encode_eq | apply traffic_encode_eq].
Qed.

Lemma packet_size_eq (p : packet F) : wsize p = len (packet_payload p).
Proof.
  destruct p; simpl; first [apply routerSigReq_size_eq | apply routerSigRes_size_eq
    | apply routerAnnounce_size_eq | apply bloom_size_eq | apply pathLookup_size_eq
    | apply pathNotify_size_eq | apply pathBroken_size_eq | apply traffic_size_eq].
Qed.

(** The bytes of one packet on the connection. *)
Definition frame (p : packet F) : bytes :=
  uvarint (len (packet_payload p) + 1) ++ wireType_byte (packet_type p) :: packet_payload p.

Lemma sendPacket_frame limit (p : packet F) :
  len (packet_payload p) + 1 < 2 ^ 64 →
  sendPacket limit p =
    if limit <? len (packet_payload p) + 1 then Ok None else Ok (Some (frame p)).
Proof.
  intros Hl. unfold sendPacket. rewrite packet_size_eq.
  pose proof (len_nonneg (packet_payload p)).
  rewrite wrap_small by (unfold in_range; lia).
  destruct (_ <? _); [done|]. unfold wireEncode. rewrite packet_encode_eq.
  unfold frame, AppendUvarint. by rewrite app_nil_l, <- app_assoc.
Qed.

Lemma handlePacket_payload self src (p : packet F) :
  packet_wf self src p →
  handlePacket self src (wireType_byte (packet_type p) :: packet_payload p) = Ok (Some p).
Proof.
  intros Hwf. unfold handlePacket. rewrite wireType_roundtrip.
  destruct p; simpl packet_type; cbn [packet_payload]; simpl in Hwf;
    unfold handleSigReq, handleSigRes, handleAnnounce, peer_handleBloom, handlePathLookup,
      handlePathNotify, handlePathBroken, handleTraffic.
  - by rewrite routerSigReq_decode_payload.
  - destruct Hwf as [Hwf Hc]. rewrite routerSigRes_decode_payload by done. cbn [mbind res_bind]. by rewrite Hc.
  - destruct Hwf as [Hwf Hc]. rewrite routerAnnounce_decode_payload by done. cbn [mbind res_bind]. by rewrite Hc.
  - by rewrite bloom_decode_payload.
  - by rewrite pathLookup_decode_payload.
  - by rewrite pathNotify_decode_payload.
  - by rewrite pathBroken_decode_payload.
  - by rewrite traffic_decode_payload.
Qed.

Lemma handler_step_frame self src limit (p : packet F) rest :
  packet_wf self src p → len (packet_payload p) + 1 <= limit → limit <= max_int →
  handler_step self src limit (frame p ++ rest) = Ok (Some p, rest).
Proof.
  intros Hwf Hl Hlim. unfold handler_step, frame. rewrite <- app_assoc.
  pose proof (len_nonneg (packet_payload p)). unfold max_int in Hlim.
  rewrite Uvarint_uvarint by (unfold in_range; lia).
  pose proof (uvarint_len (len (packet_payload p) + 1)).
  rewrite (proj2 (Z.leb_gt _ _)) by lia. rewrite to_nat_len, drop_app_length.
  unfold checkedPeerMessageSize, max_int. rewrite !(proj2 (Z.ltb_ge _ _)) by lia. cbn [orb].
  assert (len (packet_payload p) + 1 = len (wireType_byte (packet_type p) :: packet_payload p)) as Hlen
    by (unfold len; simpl length; lia).
  rewrite Hlen, len_app. pose proof (len_nonneg rest).
  rewrite (proj2 (Z.ltb_ge _ _)) by lia. rewrite to_nat_len.
  rewrite take_app_length, drop_app_length. by rewrite handlePacket_payload.
Qed.

Lemma handler_loop_frames fuel self src limit (ps : list (packet F)) :
  (length ps < fuel)%nat → limit <= max_int →
  Forall (λ p, packet_wf self src p ∧ len (packet_payload p) + 1 <= limit) ps →
  handler_loop fuel self src limit (concat (frame <$> ps)) = (Some <$> ps, Err ReadError).
Proof.
  revert fuel. induction ps as [|p ps IH]; intros [|fuel] Hf Hlim Hps; simpl in Hf; try lia; [done|].
  apply Forall_cons in Hps as [[Hwf Hl] Hps]. rewrite fmap_cons, List.concat_cons.
  cbn [handler_loop]. rewrite handler_step_frame by done. rewrite IH by (done || lia). done.
Qed.

Lemma frames_length (ps : list (packet F)) : (length ps <= length (concat (frame <$> ps)))%nat.
Proof.
  induction ps as [|p ps IH]; [simpl; lia|].
  rewrite fmap_cons, List.concat_cons, length_app. unfold frame at 1.
  rewrite length_app, !length_cons. lia.
Qed.

(** C1: peer_stream_roundtrip.  Whatever sequence of well-formed, correctly
    signed messages (of all eight kinds) one side writes on a connection, the
    other side's reader hands over exactly these messages, in order, and then
    waits for more; no encoder panics, and only messages over the configured
    limit are left out, by the sender. *)
Theorem peer_stream_roundtrip (self src : bytes) (limit : Z) (ps : list (packet F)) :
  limit <= max_int → Forall (packet_wf self src) ps →
  Forall (λ p, len (packet_payload p) + 1 < 2 ^ 64) ps →
  let sent := filter (λ p, wsize p + 1 <= limit) ps in
  (∀ p, p ∈ ps → sendPacket limit p = Ok (if decide (wsize p + 1 <= limit) then Some (frame p) else None)) ∧
  handler self src limit (concat (frame <$> sent)) = (Some <$> sent, Err ReadError).
Proof.
  intros Hlim Hps Hsz. split.
  - intros p Hp. pose proof (proj1 (Forall_forall _ _) Hsz p Hp) as Hl. simpl in Hl.
    rewrite sendPacket_frame by done. rewrite packet_size_eq.
    destruct (Z.ltb_spec limit (len (packet_payload p) + 1)), (decide _); (done || lia).
  - apply handler_loop_frames; [|done|].
    + pose proof (frames_length (filter (λ p, wsize p + 1 <= limit) ps)). lia.
    + apply Forall_forall. intros p [Hp Hin]%list_elem_of_filter.
      rewrite packet_size_eq in Hp. split; [|done]. by apply (proj1 (Forall_forall _ _) Hps).
Qed.
End Roundtrip.

(** ** The reader on arbitrary input *)

Section Safety.
Context {F : Type} `{BloomFilter F} `{Ed25519}.

Lemma bloom_decode_loop_no_panic idxs f0 f1 us data : bloom_decode_loop idxs f0 f1 us data ≠ Panic.
Proof.
  revert us data. induction idxs as [|idx idxs IH]; intros us data; [done|]. cbn [bloom_decode_loop].
  repeat case_match; (done || apply IH).
Qed.

Lemma bloom_decode_no_panic data : bloom_decode (F:=F) data ≠ Panic.
Proof. unfold bloom_decode. no_panic. apply bloom_decode_loop_no_panic. Qed.

#[local] Hint Resolve bloom_decode_no_panic : no_panic.

Lemma handlePacket_no_panic self peerKey bs : handlePacket (F:=F) self peerKey bs ≠ Panic.
Proof.
  unfold handlePacket. destruct bs as [|b bs]; [done|].
  unfold handleSigReq, handleSigRes, handleAnnounce, peer_handleBloom, handlePathLookup,
    handlePathNotify, handlePathBroken, handleTraffic.
  destruct (wireType_of_byte b) as [[]|]; no_panic.
Qed.

Lemma handlePacket_wf self peerKey bs p :
  handlePacket (F:=F) self peerKey bs = Ok (Some p) → packet_wf self peerKey p.
Proof.
  unfold handlePacket. destruct bs as [|b bs]; [done|].
  unfold handleSigReq, handleSigRes, handleAnnounce, peer_handleBloom, handlePathLookup,
    handlePathNotify, handlePathBroken, handleTraffic.
  destruct (wireType_of_byte b) as [[]|]; [done|done|..|done]; intros Hp.
  all: apply res_bind_Ok in Hp as (p' & Hp & [= ->]); apply res_bind_Ok in Hp as (m & Hm & Hp).
  - simplify_eq. by eapply routerSigReq_decode_wf.
  - apply res_bind_Ok in Hp as (ok & Hok & Hp). destruct ok; simplify_eq/=.
    split; [by eapply routerSigRes_decode_wf|done].
  - apply res_bind_Ok in Hp as (ok & Hok & Hp). destruct ok; simplify_eq/=.
    split; [by eapply routerAnnounce_decode_wf|done].
  - by simplify_eq.
  - simplify_eq. by eapply pathLookup_decode_wf.
  - simplify_eq. by eapply pathNotify_decode_wf.
  - simplify_eq. by eapply pathBroken_decode_wf.
  - simplify_eq. by eapply traffic_decode_wf.
Qed.

Lemma handler_step_spec self peerKey limit rbuf :
  match handler_step (F:=F) self peerKey limit rbuf with
  | Ok (o, rest) => (length rest < length rbuf)%nat ∧
      match o with Some p => packet_wf self peerKey p | None => True end
  | Err _ => True
  | Panic => False
  end.
Proof.
  unfold handler_step. destruct (Uvarint rbuf) as [usize n] eqn:Hu.
  destruct (Z.leb_spec n 0); [done|]. destruct (Uvarint_bound _ _ _ Hu) as [_ Hl]; [done|].
  unfold checkedPeerMessageSize. destruct (_ || _); [done|]. destruct (_ <? usize); [done|].
  destruct (handlePacket _ _ _) as [o|e|] eqn:Hp; [|done|by apply handlePacket_no_panic in Hp].
  split; [rewrite !length_drop; unfold len in Hl; lia|].
  destruct o; [|done]. by eapply handlePacket_wf.
Qed.

(** C2: peer_reader_safe.  On any bytes whatsoever from a connection the
    reader terminates with an error, never with a panic, and every message
    that it handed over before that was well-formed (key and signature
    lengths, integer ranges, zero-free paths). A signature response that it
    handed over verifies for this node and the neighbour, and an announcement
    carries valid signatures of its node and of its parent; path notifications are
    only parsed, their signature is left to the pathfinder of their destination. *)
Theorem peer_reader_safe (self peerKey : bytes) (limit : Z) (rbuf : bytes) :
  let '(os, e) := handler (F:=F) self peerKey limit rbuf in
  (∃ err, e = Err err) ∧
  Forall (λ o, match o with Some p => packet_wf self peerKey p | None => True end) os ∧
  (∀ r, Some (PSigRes r) ∈ os → routerSigRes_check r self peerKey = Ok true) ∧
  (∀ ann, Some (PAnnounce ann) ∈ os → routerAnnounce_check ann = Ok true).
Proof.
  assert (let '(os, e) := handler (F:=F) self peerKey limit rbuf in
    (∃ err, e = Err err) ∧ Forall (λ o, match o with Some p => packet_wf self peerKey p | None => True end) os) as Hr.
  { unfold handler. assert (length rbuf < S (length rbuf))%nat as Hf by lia.
    revert Hf. generalize (S (length rbuf)) as fuel. intros fuel. revert rbuf.
    induction fuel as [|fuel IH]; intros rbuf Hf; [lia|]. cbn [handler_loop].
    pose proof (handler_step_spec self peerKey limit rbuf) as Hs.
    destruct (handler_step _ _ _ _) as [[o rest]|e|]; [|split; [by eexists|constructor]|done].
    destruct Hs as [Hlt Ho]. specialize (IH rest ltac:(lia)).
    destruct (handler_loop _ _ _ _ _) as [os e]. destruct IH as [He Hos]. split; [done|]. by constructor. }
  destruct (handler _ _ _ _) as [os e]. destruct Hr as [He Hall]. rewrite Forall_forall in Hall.
  split_and!; [done|by rewrite Forall_forall|..]; intros x Hx%Hall; simpl in Hx; tauto.
Qed.

(** peer_reader_terminates.  The reader's loop ends on every finite input:
    each iteration consumes at least one byte, so it handles at most as many
    messages as there are bytes, and running it with any larger number of
    iterations gives the same result. *)
Theorem peer_reader_terminates (self peerKey : bytes) (limit : Z) (rbuf : bytes) (fuel : nat) :
  (length rbuf < fuel)%nat →
  handler_loop (F:=F) fuel self peerKey limit rbuf = handler self peerKey limit rbuf ∧
  (length (fst (handler (F:=F) self peerKey limit rbuf)) <= length rbuf)%nat.
Proof.
  assert (Hany : ∀ f1 f2 rbuf, (length rbuf < f1)%nat → (length rbuf < f2)%nat →
    handler_loop (F:=F) f1 self peerKey limit rbuf = handler_loop f2 self peerKey limit rbuf ∧
    (length (fst (handler_loop (F:=F) f1 self peerKey limit rbuf)) <= length rbuf)%nat).
  { intros f1. induction f1 as [|f1 IH]; intros [|f2] bs H1 H2; try lia. cbn [handler_loop].
    pose proof (handler_step_spec self peerKey limit bs) as Hs.
    destruct (handler_step _ _ _ _) as [[o rest]|e|]; [|split; [done|simpl; lia]|done].
    destruct Hs as [Hlt _]. destruct (IH f2 rest ltac:(lia) ltac:(lia)) as [<- Hle].
    destruct (handler_loop f1 _ _ _ _) as [os e]. simpl in *. split; [done|lia]. }
  intros Hf. unfold handler. destruct (Hany fuel (S (length rbuf)) rbuf Hf ltac:(lia)) as [-> _].
  split; [done|]. apply (Hany (S (length rbuf)) (S (length rbuf))); lia.
Qed.
End Safety.

(** ** Ports of the neighbours *)

(** [peers]: the ports in use, the connections of each neighbour and the
    counter of connections.  [ps_next] is the identity of the next [*peer]. *)
Record peers := Peers {
  ps_closed : bool;
  ps_ports : gset Z;
  ps_peers : gmap bytes (list peer);
  ps_order : Z;
  ps_next : nat;
}.

Definition peers_init : peers := Peers false ∅ ∅ 0 0.

(** The loop that looks for a free port from [idx] on.  At most [size ports]
    ports are taken, so [size ports + 1] iterations are enough. *)
Fixpoint allocPort_loop (fuel : nat) (ports : gset Z) (idx : Z) : option Z :=
  match fuel with
  | O => None
  | S fuel => if decide (idx ∈ ports) then allocPort_loop fuel ports (idx + 1) else Some idx
  end.

Definition allocPort (ports : gset Z) : Z :=
  default 0 (allocPort_loop (S (size ports)) ports 1).

Definition addPeer (ps : peers) (key : bytes) (prio : Z) : peers * res iw_error peer :=
  if ps_closed ps then (ps, Err ErrClosed)
  else
    let '(port, ports, kps) :=
      match ps_peers ps !! key with
      | Some keyPeers =>
          (match keyPeers with p :: _ => peer_port p | [] => 0 end, ps_ports ps, keyPeers)
      | None => let port := allocPort (ps_ports ps) in (port, {[port]} ∪ ps_ports ps, [])
      end in
    let p := Peer (ps_next ps) key port prio (ps_order ps) in
    (Peers false ports (<[key := kps ++ [p]]> (ps_peers ps)) (u64 (ps_order ps + 1)) (S (ps_next ps)), Ok p).

Definition removePeer (ps : peers) (p : peer) : peers * res iw_error () :=
  match ps_peers ps !! peer_key p with
  | Some kps =>
      if decide (p ∈ kps) then
        let kps' := filter (λ q, q ≠ p) kps in
        match kps' with
        | [] => (Peers (ps_closed ps) (ps_ports ps ∖ {[peer_port p]}) (delete (peer_key p) (ps_peers ps))
                   (ps_order ps) (ps_next ps), Ok ())
        | _ => (Peers (ps_closed ps) (ps_ports ps) (<[peer_key p := kps']> (ps_peers ps))
                   (ps_order ps) (ps_next ps), Ok ())
        end
      else (ps, Err ErrPeerNotFound)
  | None => (ps, Err ErrPeerNotFound)
  end.

(** A connection [p] that the state holds. *)
Definition connected (ps : peers) (p : peer) : Prop :=
  ∃ kps, ps_peers ps !! peer_key p = Some kps ∧ p ∈ kps.

Record peers_ok (ps : peers) : Prop := {
  po_entry : ∀ k kps, ps_peers ps !! k = Some kps →
    kps ≠ [] ∧ ∀ p, p ∈ kps → peer_key p = k ∧ (peer_id p < ps_next ps)%nat;
  po_ports : ∀ port, port ∈ ps_ports ps ↔ ∃ p, connected ps p ∧ peer_port p = port;
  po_positive : ∀ port, port ∈ ps_ports ps → 1 <= port;
  po_unique : ∀ p q, connected ps p → connected ps q →
    peer_port p = peer_port q ↔ peer_key p = peer_key q;
}.

(** The operations in any order. *)
Inductive peers_step : peers → peers → Prop :=
| step_add ps key prio : peers_step ps (fst (addPeer ps key prio))
| step_remove ps p : peers_step ps (fst (removePeer ps p))
| step_close ps : peers_step ps (Peers true (ps_ports ps) (ps_peers ps) (ps_order ps) (ps_next ps)).

Lemma allocPort_loop_Some fuel ports idx port :
  allocPort_loop fuel ports idx = Some port →
  idx <= port ∧ port ∉ ports ∧ ∀ q, idx <= q < port → q ∈ ports.
Proof.
  revert idx. induction fuel as [|fuel IH]; intros idx; simpl; [done|].
  destruct (decide _) as [Hin|Hin].
  - intros (Hle & Hnin & Hall)%IH. split_and!; [lia|done|]. intros q Hq.
    destruct (decide (q = idx)) as [->|]; [done|]. apply Hall. lia.
  - intros [= ->]. split_and!; [lia|done|]. lia.
Qed.

Lemma allocPort_loop_None fuel ports idx :
  allocPort_loop fuel ports idx = None → ∀ q, idx <= q < idx + Z.of_nat fuel → q ∈ ports.
Proof.
  revert idx. induction fuel as [|fuel IH]; intros idx; simpl; [lia|].
  destruct (decide _) as [Hin|]; [|done]. intros Hn q Hq.
  destruct (decide (q = idx)) as [->|]; [done|]. apply (IH (idx + 1)); [done|lia].
Qed.

Lemma allocPort_spec ports :
  1 <= allocPort ports ∧ allocPort ports ∉ ports ∧ ∀ q, 1 <= q < allocPort ports → q ∈ ports.
Proof.
  unfold allocPort. destruct (allocPort_loop _ _ _) as [port|] eqn:Hl.
  { by apply allocPort_loop_Some in Hl. }
  exfalso. pose proof (allocPort_loop_None _ _ _ Hl) as Hall.
  assert (list_to_set (seqZ 1 (Z.of_nat (S (size ports)))) ⊆ ports) as Hsub.
  { intros q Hq. apply elem_of_list_to_set, elem_of_seqZ in Hq. apply Hall. lia. }
  apply subseteq_size in Hsub. rewrite size_list_to_set in Hsub by apply NoDup_seqZ.
  rewrite length_seqZ in Hsub. lia.
Qed.

Lemma peers_init_ok : peers_ok peers_init.
Proof.
  split; simpl.
  - intros k kps. by rewrite lookup_empty.
  - intros port. split; [set_solver|]. intros (p & (kps & Hk & _) & _). simpl in Hk. by rewrite lookup_empty in Hk.
  - set_solver.
  - intros p q (kps & Hk & _). simpl in Hk. by rewrite lookup_empty in Hk.
Qed.

Lemma addPeer_peers ps key prio ps' p :
  addPeer ps key prio = (ps', Ok p) →
  ps_peers ps' = <[key := default [] (ps_peers ps !! key) ++ [p]]> (ps_peers ps) ∧ peer_key p = key.
Proof.
  unfold addPeer. destruct (ps_closed ps); [done|].
  destruct (ps_peers ps !! key); by intros [= <- <-].
Qed.

Lemma addPeer_connected ps key prio ps' p q :
  addPeer ps key prio = (ps', Ok p) → connected ps' q ↔ connected ps q ∨ q = p.
Proof.
  intros [Hps Hp]%addPeer_peers. unfold connected. rewrite Hps.
  destruct (decide (peer_key q = key)) as [Hq|Hq].
  - rewrite Hq, lookup_insert_eq.
    transitivity (q ∈ default [] (ps_peers ps !! key) ++ [p]); [naive_solver|].
    rewrite elem_of_app, list_elem_of_singleton.
    destruct (ps_peers ps !! key) as [l|]; simpl; [naive_solver|].
    rewrite elem_of_nil. naive_solver.
  - rewrite lookup_insert_ne by done. split; [naive_solver|]. intros [?|Heq]; [done|].
    by rewrite Heq in Hq.
Qed.

Lemma addPeer_closed ps key prio : ps_closed ps = true → addPeer ps key prio = (ps, Err ErrClosed).
Proof. unfold addPeer. by intros ->. Qed.

(** The new connection's fields, and its port. *)
Lemma addPeer_new ps key prio ps' p :
  peers_ok ps → addPeer ps key prio = (ps', Ok p) →
  peer_key p = key ∧ peer_id p = ps_next ps ∧ ps_next ps' = S (ps_next ps) ∧
  ((∃ q, connected ps q ∧ peer_key q = key ∧ peer_port p = peer_port q ∧ ps_ports ps' = ps_ports ps) ∨
   (ps_peers ps !! key = None ∧ peer_port p = allocPort (ps_ports ps) ∧
    ps_ports ps' = {[peer_port p]} ∪ ps_ports ps)).
Proof.
  intros [Hent _ _ _]. unfold addPeer. destruct (ps_closed ps); [done|].
  destruct (ps_peers ps !! key) as [kps|] eqn:Hk; intros [= <- <-]; simpl; split_and!; try done.
  - left. destruct (Hent key kps Hk) as [Hne Hkps]. destruct kps as [|q kps]; [done|].
    exists q. destruct (Hkps q) as [Hq _]; [by left|]. split_and!; try done.
    exists (q :: kps). rewrite Hq. split; [done|by left].
  - by right.
Qed.

Lemma addPeer_ok ps key prio : peers_ok ps → peers_ok (fst (addPeer ps key prio)).
Proof.
  intros Hok. destruct (addPeer ps key prio) as [ps' r] eqn:Ha. simpl.
  destruct r as [p|e|]; [|unfold addPeer in Ha; repeat case_match; by simplify_eq..].
  pose proof (λ q, addPeer_connected ps key prio ps' p q Ha) as Hc.
  destruct (addPeer_new ps key prio ps' p Hok Ha) as (Hkey & Hid & Hnext & Hport).
  pose proof (allocPort_spec (ps_ports ps)) as (Ha1 & Ha2 & _).
  destruct Hok as [Hent Hports Hpos Huniq].
  assert (∀ q, connected ps q → connected ps' q) as Hmono by (intros q; rewrite Hc; by left).
  split.
  - intros k kps Hk. rewrite (proj1 (addPeer_peers _ _ _ _ _ Ha)) in Hk.
    destruct (decide (k = key)) as [->|Hne].
    + rewrite lookup_insert_eq in Hk. injection Hk as <-. split; [by destruct (default [] _)|].
      intros q [Hq|Hq%list_elem_of_singleton]%elem_of_app; [|subst q; split; [done|lia]].
      destruct (ps_peers ps !! key) as [l|] eqn:Hl; simpl in Hq; [|by apply elem_of_nil in Hq].
      destruct (Hent key l Hl) as [_ Hq']. destruct (Hq' q Hq). split; [done|lia].
    + rewrite lookup_insert_ne in Hk by done. destruct (Hent k kps Hk) as [Hn Hall]. split; [done|].
      intros q Hq. destruct (Hall q Hq). split; [done|lia].
  - intros port. setoid_rewrite Hc. destruct Hport as [(q & Hq & _ & Hqp & ->)|(_ & _ & ->)].
    + rewrite Hports. split; [naive_solver|]. intros (p' & [Hp' | ->] & <-); [naive_solver|]. exists q. by rewrite Hqp.
    + rewrite elem_of_union, elem_of_singleton, Hports. naive_solver.
  - intros port. destruct Hport as [(q & _ & _ & _ & ->)|(_ & Hp & ->)]; [by apply Hpos|].
    rewrite elem_of_union, elem_of_singleton. intros [->|?]; [lia|by apply Hpos].
  - assert (∀ q, connected ps q → peer_port p = peer_port q ↔ key = peer_key q) as Hnew.
    { intros q Hq. destruct Hport as [(q' & Hq' & Hk' & -> & _)|(Hnone & Hp & _)].
      - rewrite (Huniq q' q Hq' Hq), Hk'. done.
      - split; intros Heq; exfalso.
        + apply Ha2. rewrite <- Hp, Heq. apply Hports. by exists q.
        + destruct Hq as (kps & Hkps & _). by rewrite <- Heq, Hnone in Hkps. }
    intros x y Hx Hy. apply Hc in Hx as [Hx | ->], Hy as [Hy | ->]; rewrite ?Hkey; try by apply Huniq.
    + pose proof (Hnew x Hx). split; intros; symmetry; naive_solver.
    + by apply Hnew.
    + done.
Qed.

Lemma removePeer_connected ps p q :
  peers_ok ps → connected (fst (removePeer ps p)) q ↔ connected ps q ∧ q ≠ p.
Proof.
  intros [Hent _ _ _]. unfold removePeer.
  assert (¬ connected ps p → connected ps q ↔ connected ps q ∧ q ≠ p) as Hno by naive_solver.
  destruct (ps_peers ps !! peer_key p) as [kps|] eqn:Hk;
    [|apply Hno; intros (kps & Hk' & _); by rewrite Hk in Hk'].
  destruct (decide (p ∈ kps)) as [Hin|Hin];
    [|apply Hno; intros (kps' & Hk' & Hin'); rewrite Hk in Hk'; by simplify_eq].
  unfold connected. assert (∀ q, q ∈ filter (λ q, q ≠ p) kps ↔ q ≠ p ∧ q ∈ kps) as Hf
    by (intros; rewrite list_elem_of_filter; done).
  destruct (filter _ kps) as [|x l]; simpl; specialize (Hf q);
    destruct (decide (peer_key q = peer_key p)) as [Hq|Hq].
  - rewrite Hq, Hk, lookup_delete_eq. rewrite elem_of_nil in Hf. naive_solver.
  - rewrite lookup_delete_ne by done. naive_solver.
  - rewrite Hq, Hk, lookup_insert_eq. naive_solver.
  - rewrite lookup_insert_ne by done. naive_solver.
Qed.

Lemma removePeer_ok ps p : peers_ok ps → peers_ok (fst (removePeer ps p)).
Proof.
  intros Hok. pose proof (λ q, removePeer_connected ps p q Hok) as Hc. revert Hc.
  unfold removePeer. destruct (ps_peers ps !! peer_key p) as [kps|] eqn:Hk; [|done].
  destruct (decide (p ∈ kps)) as [Hin|Hin]; [|done].
  assert (connected ps p) as Hp by (by exists kps).
  assert (∀ q, q ∈ filter (λ q, q ≠ p) kps → q ∈ kps) as Hsub
    by (intros q [_ ?]%list_elem_of_filter; done).
  assert (∀ q, q ∈ filter (λ q, q ≠ p) kps → q ≠ p) as Hsub'
    by (intros q [? _]%list_elem_of_filter; done).
  assert (∀ q, q ∈ kps → q ≠ p → q ∈ filter (λ q, q ≠ p) kps) as Hsup
    by (intros q ??; by rewrite list_elem_of_filter).
  destruct Hok as [Hent Hports Hpos Huniq].
  destruct (filter _ kps) as [|x l]; simpl; intros Hc; split; simpl.
  - intros k kps' Hk'. apply lookup_delete_Some in Hk' as [_ Hk']. by apply Hent.
  - intros port. rewrite elem_of_difference, elem_of_singleton, Hports. setoid_rewrite Hc. split.
    + intros [(q & Hq & <-) Hne]. exists q. split; [|done]. split; [done|]. by intros ->.
    + intros (q & [Hq Hqp] & <-). split; [by exists q|]. rewrite (Huniq q p) by done. intros Heq.
      destruct Hq as (kps' & Hk' & Hin'). rewrite Heq, Hk in Hk'. simplify_eq.
      by apply (elem_of_nil q), Hsup.
  - set_solver.
  - intros q q' Hq Hq'. apply Hc in Hq as [Hq _], Hq' as [Hq' _]. by apply Huniq.
  - intros k kps' Hk'. destruct (decide (k = peer_key p)) as [->|Hne].
    + rewrite lookup_insert_eq in Hk'. injection Hk' as <-. split; [done|]. intros q Hq.
      apply (Hent _ _ Hk). by apply Hsub.
    + rewrite lookup_insert_ne in Hk' by done. by apply Hent.
  - intros port. rewrite Hports. setoid_rewrite Hc. split.
    + intros (q & Hq & <-). destruct (decide (q = p)) as [->|]; [|by exists q].
      exists x. destruct (Hent _ _ Hk) as [_ Hx]. destruct (Hx x) as [Hxk _]; [apply Hsub; by left|].
      assert (connected ps x) as Hxc by (exists kps; rewrite Hxk; split; [done|apply Hsub; by left]).
      split_and!; [done|apply Hsub'; by left|]. by apply Huniq.
    + intros (q & [Hq _] & <-). by exists q.
  - done.
  - intros q q' Hq Hq'. apply Hc in Hq as [Hq _], Hq' as [Hq' _]. by apply Huniq.
Qed.

(** C26: peer_ports_invariant.  However connections are added and removed, in
    any order and also around a shutdown, two connections have the same port
    exactly when they lead to the same neighbour, the ports in use are those of
    the connections that are up, all at least 1, and no neighbour is recorded
    without a connection. *)
Theorem peer_ports_invariant ps :
  rtc peers_step peers_init ps → peers_ok ps.
Proof.
  intros Hr. assert (peers_ok peers_init) as Hi by apply peers_init_ok.
  induction Hr as [|? ? ? [ps key prio|ps p|ps] _ IH]; [done|..]; apply IH.
  - by apply addPeer_ok.
  - by apply removePeer_ok.
  - by destruct Hi as [He Hp Hpos Hu]; split.
Qed.

(** peer_port_lowest_free.  A neighbour that was not connected gets the
    smallest port that is not in use; one that was keeps its port. *)
Theorem peer_port_lowest_free ps key prio ps' p :
  peers_ok ps → addPeer ps key prio = (ps', Ok p) →
  match ps_peers ps !! key with
  | None => 1 <= peer_port p ∧ peer_port p ∉ ps_ports ps ∧ ∀ q, 1 <= q < peer_port p → q ∈ ps_ports ps
  | Some _ => ∃ q, connected ps q ∧ peer_key q = key ∧ peer_port p = peer_port q
  end.
Proof.
  intros Hok Ha. destruct (addPeer_new ps key prio ps' p Hok Ha) as (_ & _ & _ & Hport).
  destruct Hport as [(q & Hq & Hk & Hp & _)|(Hn & -> & _)].
  - destruct (ps_peers ps !! key) as [kps|] eqn:Hkey; [by exists q|].
    destruct Hq as (kps & Hkps & _). by rewrite Hk, Hkey in Hkps.
  - rewrite Hn. apply allocPort_spec.
Qed.

(** ** The keep-alive monitor *)

(** [peerMonitor]: whether the keep-alive timer is armed, the read deadline on
    the connection and whether the monitor has set one. *)
Record peerMonitor := PeerMonitor {
  mon_timer : bool;
  mon_readDeadline : option Z;
  mon_deadlined : bool;
}.

Definition monitor_init : peerMonitor := PeerMonitor false None false.

Definition is_data (t : wirePacketType) : bool :=
  match t with wireDummy | wireKeepAlive => false | _ => true end.

Definition monitor_sent (peerTimeout now : Z) (m : peerMonitor) (t : wirePacketType) : peerMonitor :=
  let m := PeerMonitor false (mon_readDeadline m) (mon_deadlined m) in
  if mon_deadlined m then m
  else match t with
       | wireDummy => m
       | wireKeepAlive => m
       | _ => PeerMonitor (mon_timer m) (Some (now + peerTimeout)) true
       end.

(** [closed]: whether the channel [done] is closed. *)
Definition monitor_recv (closed : bool) (m : peerMonitor) (t : wirePacketType) : peerMonitor :=
  let m := PeerMonitor (mon_timer m) None false in
  if mon_timer m then m
  else match t with
       | wireDummy => m
       | wireKeepAlive => m
       | _ => if closed then m else PeerMonitor true (mon_readDeadline m) (mon_deadlined m)
       end.

(** [keepAlive], run by the timer: the frame written, if any; writing it calls
    [sent]. *)
Definition monitor_keepAlive (peerTimeout now : Z) (closed : bool) (m : peerMonitor) :
    peerMonitor * option bytes :=
  if closed then (m, None)
  else (monitor_sent peerTimeout now m wireKeepAlive, Some [0x01; wireType_byte wireKeepAlive]).

(** What happens on a connection, with the time. *)
Inductive monitor_event :=
| EvSent (now : Z) (t : wirePacketType)
| EvRecv (now : Z) (t : wirePacketType)
| EvTimer (now : Z).

Definition monitor_step (peerTimeout : Z) (m : peerMonitor) (ev : monitor_event) : peerMonitor :=
  match ev with
  | EvSent now t => monitor_sent peerTimeout now m t
  | EvRecv _ t => monitor_recv false m t
  | EvTimer now => fst (monitor_keepAlive peerTimeout now false m)
  end.

(** On a trace with the latest event first: when the oldest message that the
    neighbour has not reacted to was sent. *)
Fixpoint unacked_since (tr : list monitor_event) : option Z :=
  match tr with
  | [] => None
  | EvRecv _ _ :: _ => None
  | EvSent now t :: tr =>
      match unacked_since tr with
      | Some since => Some since
      | None => if is_data t then Some now else None
      end
  | EvTimer _ :: tr => unacked_since tr
  end.

(** Whether the neighbour sent data that nothing was sent in answer to. *)
Fixpoint owes_answer (tr : list monitor_event) : bool :=
  match tr with
  | [] => false
  | EvRecv _ t :: tr => is_data t || owes_answer tr
  | EvSent _ _ :: _ => false
  | EvTimer _ :: _ => false
  end.

Lemma monitor_inv peerTimeout tr :
  let m := foldr (λ ev m, monitor_step peerTimeout m ev) monitor_init tr in
  mon_readDeadline m = (λ since, since + peerTimeout) <$> unacked_since tr ∧
  mon_deadlined m = bool_decide (is_Some (unacked_since tr)) ∧ mon_timer m = owes_answer tr.
Proof.
  induction tr as [|ev tr IH]; [done|]. simpl. destruct (foldr _ _ tr) as [timer rd dl].
  destruct IH as (Hr & Hd & Ht). simpl in Hr, Hd, Ht. subst.
  destruct ev as [now t|now t|now]; simpl; unfold monitor_sent, monitor_recv; simpl;
    destruct (unacked_since tr) as [since|]; simpl; try destruct (owes_answer tr);
    try destruct t; simpl; done.
Qed.

(** keepalive_monitor_correct.  On a connection that is up, after any
    history of packets sent and received and of timer expiries, a read deadline
    is set exactly when some message was sent that the neighbour has not
    reacted to, and it is the peer timeout after the oldest such message; the
    keep-alive timer is armed exactly when the neighbour sent data and nothing
    was sent since.  An expiring timer writes the frame that resets it. *)
Theorem keepalive_monitor_correct (peerTimeout : Z) (tr : list monitor_event) :
  let m := foldr (λ ev m, monitor_step peerTimeout m ev) monitor_init tr in
  mon_readDeadline m = (λ since, since + peerTimeout) <$> unacked_since tr ∧
  mon_deadlined m = bool_decide (is_Some (unacked_since tr)) ∧
  mon_timer m = owes_answer tr ∧
  ∀ now, monitor_keepAlive peerTimeout now false m =
    (monitor_sent peerTimeout now m wireKeepAlive, Some (uvarint 1 ++ [wireType_byte wireKeepAlive])).
Proof.
  cbv zeta. destruct (monitor_inv peerTimeout tr) as (Hr & Hd & Ht). by split_and!.
Qed.

(** ** Witnesses *)
Module PeersWitness.
Import ToySig ToyBloom.

Definition sk (b : Z) : bytes := replicate 64 b.
Definition parent_key : bytes := replicate 32 3.
Definition node_key : bytes := replicate 32 5.

Definition req : routerSigReq := RouterSigReq 1 77.
Definition sig_res : routerSigRes :=
  let r := RouterSigRes req 2 [] in
  match routerSigRes_bytesForSig r node_key parent_key with
  | Ok bs => RouterSigRes req 2 (privateKey_sign (sk 3) bs)
  | _ => r
  end.

Definition msgs : list (packet tfilter) :=
  [ PSigReq req; PSigRes sig_res; PBloom (bf_Add bf_New [1; 2; 3]);
    PTraffic (Traffic [1; 2] [300] parent_key node_key (2 ^ 64 - 1) [10; 20; 30]) ].

Lemma msgs_wf : Forall (packet_wf node_key parent_key) msgs.
Proof.
  unfold msgs. repeat constructor; try (by vm_compute);
    apply (bool_decide_unpack _); vm_compute; exact I.
Qed.

Lemma peer_stream_roundtrip_witness :
  (∃ bs, sendPacket 1048576 (PSigRes sig_res : packet tfilter) = Ok (Some bs)) ∧
  handler node_key parent_key 1048576 (concat (frame <$> msgs)) = (Some <$> msgs, Err ReadError).
Proof.
  assert (Forall (λ p : packet tfilter, len (packet_payload p) + 1 < 2 ^ 64) msgs) as Hsz.
  { unfold msgs. repeat constructor; vm_compute; reflexivity. }
  destruct (peer_stream_roundtrip node_key parent_key 1048576 msgs
    ltac:(vm_compute; discriminate) msgs_wf Hsz) as [Hs Hh].
  assert (filter (λ p : packet tfilter, wsize p + 1 <= 1048576) msgs = msgs) as Hf.
  { unfold msgs. rewrite !filter_cons_True by (vm_compute; discriminate). reflexivity. }
  rewrite Hf in Hh. split; [|exact Hh].
  eexists. rewrite Hs by (right; left). vm_compute. reflexivity.
Defined.

Lemma peer_reader_terminates_witness :
  handler_loop (F:=tfilter) 100 node_key parent_key 1048576 [1; 0; 1; 1; 200] =
    handler node_key parent_key 1048576 [1; 0; 1; 1; 200] ∧
  fst (handler (F:=tfilter) node_key parent_key 1048576 [1; 0; 1; 1; 200]) = [None; None].
Proof.
  destruct (peer_reader_terminates (F:=tfilter) node_key parent_key 1048576 [1; 0; 1; 1; 200] 100) as [H1 _]; [simpl; lia|].
  split; [exact H1|reflexivity].
Defined.

Definition two_peers : Peers.peers :=
  fst (addPeer (fst (addPeer (fst (addPeer peers_init parent_key 0)) node_key 1)) parent_key 2).

Lemma peer_ports_invariant_witness :
  peers_ok two_peers ∧ ps_ports two_peers = {[1; 2]}.
Proof.
  split; [|vm_compute; reflexivity]. apply (peer_ports_invariant two_peers).
  eapply rtc_r; [eapply rtc_r; [apply rtc_once|]|].
  - exact (step_add peers_init parent_key 0).
  - exact (step_add _ node_key 1).
  - exact (step_add _ parent_key 2).
Defined.

Lemma peer_port_lowest_free_witness :
  ∃ ps' p, addPeer two_peers (replicate 32 9) 0 = (ps', Ok p) ∧ 1 <= peer_port p ∧ peer_port p ∉ ps_ports two_peers.
Proof.
  eexists _, _. split; [reflexivity|].
  pose proof (peer_port_lowest_free two_peers (replicate 32 9) 0 _ _
    (addPeer_ok _ _ _ (addPeer_ok _ _ _ (addPeer_ok _ _ _ peers_init_ok))) eq_refl) as H.
  simpl in H. destruct H as (H1 & H2 & _). split; [exact H1|exact H2].
Defined.
End PeersWitness.
