(* ===== verification/PeerQueue.v ===== *)
(** * The sending side of a connection
    (third_party/ironwood/network/peers.go: sendDirect, sendQueued, _push, pop and
    the peerWriter)

    Two actors: the peer, which owns the queue and the flag [ready], and the
    writer, which owns the buffered writer and a counter.  Traffic is queued until
    the writer asks for more; messages of the protocol go to the writer directly.
    The messages in the writer's inbox and the pending calls of [pop] are part of
    the state, and a step runs one of them, so that every interleaving of the two
    actors with the outside is a sequence of steps. *)

From S2P Require Import Prelude Binary Wire GoHeap Address Crypto Messages PacketQueue Bloom Peers.

(** A message in the inbox of the writer: the body of [sendPacket], of the keep
    alive, the check at the end of [_write], the flush of [pop]. *)
Inductive writer_task (F : Type) :=
| WSend (p : packet F)
| WKeepAlive
| WCheck (seq : Z)
| WFlush.
Arguments WSend {F} p.
Arguments WKeepAlive {F}.
Arguments WCheck {F} seq.
Arguments WFlush {F}.

(** [cn_written] is what was given to the buffered writer, whose first
    [cn_flushed] bytes, at least, are on the connection. *)
Record conn (F : Type) := Conn {
  cn_queue : packetQueue;
  cn_ready : bool;
  cn_pops : nat;
  cn_inbox : list (writer_task F);
  cn_seq : Z;
  cn_written : bytes;
  cn_flushed : nat;
}.
Arguments Conn {F}.
Arguments cn_queue {F}.
Arguments cn_ready {F}.
Arguments cn_pops {F}.
Arguments cn_inbox {F}.
Arguments cn_seq {F}.
Arguments cn_written {F}.
Arguments cn_flushed {F}.

(** What happens to the connection from outside, and the steps of its actors. *)
Inductive conn_event (F : Type) :=
| EvDirect (p : packet F)
| EvKeepAlive
| EvQueued (now : Z) (p : pqPacket)
| EvWriter
| EvPop.
Arguments EvDirect {F} p.
Arguments EvKeepAlive {F}.
Arguments EvQueued {F} now p.
Arguments EvWriter {F}.
Arguments EvPop {F}.

Section Writer.
Context {F : Type} `{BloomFilter F} `{Ed25519}.
Context (limit : Z).

(** The message of a queued packet. *)
Definition pq_message (p : pqPacket) : packet F :=
  match p with
  | PqTraffic tr => PTraffic tr
  | PqLookup l => PPathLookup l
  | PqNotify n => PPathNotify n
  | PqBroken b => PPathBroken b
  end.

Definition conn_init : conn F := Conn empty_queue false 0 [] 0 [] 0.

(** A message for the writer, at the end of its inbox. *)
Definition act (t : writer_task F) (c : conn F) : conn F :=
  Conn (cn_queue c) (cn_ready c) (cn_pops c) (cn_inbox c ++ [t]) (cn_seq c) (cn_written c) (cn_flushed c).

Definition set_queue (q : packetQueue) (c : conn F) : conn F :=
  Conn q (cn_ready c) (cn_pops c) (cn_inbox c) (cn_seq c) (cn_written c) (cn_flushed c).

Definition set_ready (b : bool) (c : conn F) : conn F :=
  Conn (cn_queue c) b (cn_pops c) (cn_inbox c) (cn_seq c) (cn_written c) (cn_flushed c).

Definition set_pops (n : nat) (c : conn F) : conn F :=
  Conn (cn_queue c) (cn_ready c) n (cn_inbox c) (cn_seq c) (cn_written c) (cn_flushed c).

Definition set_inbox (l : list (writer_task F)) (c : conn F) : conn F :=
  Conn (cn_queue c) (cn_ready c) (cn_pops c) l (cn_seq c) (cn_written c) (cn_flushed c).

(** [for p.queue.size > peerMaxMessageSize { p.queue.drop() }] *)
Fixpoint drop_excess (fuel : nat) (q : packetQueue) : res iw_error packetQueue :=
  match fuel with
  | O => Ok q
  | S fuel =>
      if limit <? pq_size q then
        '(_, q) ← pq_drop q; drop_excess fuel q
      else Ok q
  end.

Definition peer_push (now : Z) (p : pqPacket) (c : conn F) : res iw_error (conn F) :=
  if cn_ready c then Ok (set_ready false (act (WSend (pq_message p)) c))
  else
    let q := pq_push now p (cn_queue c) in
    q ← drop_excess (S (pq_count q)) q;
    Ok (set_queue q c).

Definition peer_pop (c : conn F) : res iw_error (conn F) :=
  '(info, q) ← pq_pop (cn_queue c);
  let c := set_queue q c in
  match info with
  | Some info => Ok (act (WSend (pq_message (pi_packet info))) c)
  | None => Ok (act WFlush (set_ready true c))
  end.

Definition writer_write (bs : bytes) (c : conn F) : conn F :=
  let seq := u64 (cn_seq c + 1) in
  act (WCheck seq)
    (Conn (cn_queue c) (cn_ready c) (cn_pops c) (cn_inbox c) seq (cn_written c ++ bs) (cn_flushed c)).

Definition writer_run (t : writer_task F) (c : conn F) : res iw_error (conn F) :=
  match t with
  | WSend p =>
      out ← sendPacket limit p;
      match out with
      | None => Ok c
      | Some bs => Ok (writer_write bs c)
      end
  | WKeepAlive => Ok (writer_write [1; wireType_byte wireKeepAlive] c)
  | WCheck seq => Ok (if seq =? cn_seq c then set_pops (S (cn_pops c)) c else c)
  | WFlush =>
      Ok (Conn (cn_queue c) (cn_ready c) (cn_pops c) (cn_inbox c) (cn_seq c) (cn_written c) (length (cn_written c)))
  end.

(** A step of an actor with an empty inbox does nothing. *)
Definition connection_step (ev : conn_event F) (c : conn F) : res iw_error (conn F) :=
  match ev with
  | EvDirect p => Ok (act (WSend p) c)
  | EvKeepAlive => Ok (act WKeepAlive c)
  | EvQueued now p => peer_push now p c
  | EvWriter =>
      match cn_inbox c with
      | [] => Ok c
      | t :: l => writer_run t (set_inbox l c)
      end
  | EvPop =>
      match cn_pops c with
      | O => Ok c
      | S n => peer_pop (set_pops n c)
      end
  end.

Fixpoint conn_run (evs : list (conn_event F)) (c : conn F) : res iw_error (conn F) :=
  match evs with
  | [] => Ok c
  | ev :: evs => c ← connection_step ev c; conn_run evs c
  end.

(** ** The queue stays bounded *)

Context `{!BloomFilterLaws F}.

Definition fits (p : packet F) : Prop := wsize p + 1 <= limit.

Lemma wsize_message p : wsize (pq_message p) = pq_packet_size p.
Proof. by destruct p. Qed.

Lemma wireSizePath_pos path : 0 < wireSizePath path.
Proof.
  rewrite wireSizePath_len. unfold path_bytes. rewrite len_app.
  pose proof (len_nonneg (concat (uvarint <$> path))). pose proof (uvarint_len 0). lia.
Qed.

(** Every queued message has a path, so it is not empty. *)
Lemma pq_packet_size_pos p : 0 < pq_packet_size p.
Proof.
  assert (∀ u, 0 <= wireSizeUint u) as Hu by (intros u; apply len_nonneg).
  destruct p as [tr|l|n|b]; simpl.
  - pose proof (wireSizePath_pos (tr_path tr)). pose proof (wireSizePath_pos (tr_from tr)). unfold traffic_size.
    pose proof (len_nonneg (tr_source tr)). pose proof (len_nonneg (tr_dest tr)). pose proof (len_nonneg (tr_payload tr)).
    specialize (Hu (tr_watermark tr)). lia.
  - pose proof (wireSizePath_pos (lookup_from l)). unfold pathLookup_size.
    pose proof (len_nonneg (lookup_source l)). pose proof (len_nonneg (lookup_dest l)). lia.
  - pose proof (wireSizePath_pos (notify_path n)). pose proof (wireSizePath_pos (pni_path (notify_info n))).
    unfold pathNotify_size, pathNotifyInfo_size.
    pose proof (len_nonneg (notify_source n)). pose proof (len_nonneg (notify_dest n)).
    pose proof (len_nonneg (pni_sig (notify_info n))).
    pose proof (Hu (notify_watermark n)). specialize (Hu (pni_seq (notify_info n))). lia.
  - pose proof (wireSizePath_pos (broken_path b)). unfold pathBroken_size.
    pose proof (len_nonneg (broken_source b)). pose proof (len_nonneg (broken_dest b)).
    specialize (Hu (broken_watermark b)). lia.
Qed.

Lemma wsize_nonneg (p : packet F) : 0 <= wsize p.
Proof. rewrite packet_size_eq. apply len_nonneg. Qed.

Context (Hlimit : 0 <= limit <= max_int).

Lemma sendPacket_fits p : fits p → sendPacket limit p = Ok (Some (frame p)).
Proof.
  unfold fits. rewrite packet_size_eq. intros Hp. pose proof (len_nonneg (packet_payload p)).
  unfold max_int in Hlimit. rewrite sendPacket_frame by lia. rewrite (proj2 (Z.ltb_ge _ _)) by lia. done.
Qed.

Lemma takes_perm l i l' : takes l i l' → l ≡ₚ i :: l'.
Proof. intros (l1 & l2 & -> & -> & _). by rewrite Permutation_middle. Qed.

Lemma drop_excess_ok fuel q l : queue_rep q l → (length l < fuel)%nat →
  ∃ q' l' lost, drop_excess fuel q = Ok q' ∧ queue_rep q' l' ∧ total l' <= limit ∧ l ≡ₚ l' ++ lost ∧
    (total l <= limit → lost = []).
Proof.
  revert q l. induction fuel as [|fuel IH]; intros q l Hq Hl; [lia|]. simpl. rewrite (qr_size _ _ Hq).
  destruct (Z.ltb_spec limit (total l)) as [Hlt|Hge].
  2:{ exists q, l, []. by rewrite app_nil_r. }
  destruct (pq_drop_spec q l Hq) as (b & q1 & l1 & -> & Hq1 & Hs). cbn [mbind res_bind].
  destruct b; [|destruct Hs as [-> _]; simpl in Hlt; lia].
  destruct Hs as (i & Htk & _ & _). pose proof (takes_perm l i l1 Htk) as Hp.
  destruct (IH q1 l1 Hq1) as (q' & l' & lost & Hr & Hq' & Ht & Hl' & _).
  - apply Permutation_length in Hp. simpl in Hp. lia.
  - exists q', l', (i :: lost). split_and!; try done; [|lia]. rewrite Hp, Hl'. by rewrite Permutation_middle.
Qed.

(** ** The invariant *)

Definition task_ok (t : writer_task F) : Prop := match t with WSend p => fits p | _ => True end.

(** [clock] is not before the time of any packet that was queued. *)
Record conn_ok (clock : Z) (c : conn F) (l : list pqPacketInfo) : Prop := {
  co_queue : queue_rep (cn_queue c) l;
  co_bound : total l <= limit;
  co_clock : ∀ i, i ∈ l → pi_time i <= clock;
  co_fits : ∀ i, i ∈ l → fits (pq_message (pi_packet i));
  co_ready : cn_ready c = true → l = [];
  co_tasks : Forall task_ok (cn_inbox c);
}.

(** Something is under way that will ask for more traffic. *)
Definition busy (c : conn F) : Prop :=
  (0 < cn_pops c)%nat ∨ (∃ p, WSend p ∈ cn_inbox c) ∨ WKeepAlive ∈ cn_inbox c ∨ WCheck (cn_seq c) ∈ cn_inbox c.

Definition idle (c : conn F) : Prop :=
  cn_ready c = true ∧ (cn_flushed c = length (cn_written c) ∨ WFlush ∈ cn_inbox c).

(** What is left to do, in steps of the actors. *)
Definition weight (t : writer_task F) : nat :=
  match t with WSend _ | WKeepAlive => 4 | WCheck _ => 3 | WFlush => 1 end.

Definition work (c : conn F) : nat :=
  (3 * pq_count (cn_queue c) + 2 * cn_pops c + sum_list_with weight (cn_inbox c))%nat.

Definition clock_after (ev : conn_event F) (clock : Z) : Z := match ev with EvQueued now _ => now | _ => clock end.

(** The clock does not go back. *)
Fixpoint in_order (clock : Z) (evs : list (conn_event F)) : Prop :=
  match evs with
  | [] => True
  | ev :: evs => clock <= clock_after ev clock ∧ in_order (clock_after ev clock) evs
  end.

Definition event_fits (ev : conn_event F) : Prop :=
  match ev with
  | EvDirect p => fits p
  | EvQueued _ p => fits (pq_message p)
  | _ => True
  end.

(** ** Every step keeps the invariant and makes progress *)

Lemma act_ok clock t c l : conn_ok clock c l → task_ok t → conn_ok clock (act t c) l.
Proof. intros [] Ht. split; simpl; try done. apply Forall_app. split; [done|by apply Forall_singleton]. Qed.

Lemma pi_size_info now p : fits (pq_message p) → pi_size (info_of now p) = pq_packet_size p ∧ 0 < pq_packet_size p <= limit.
Proof.
  unfold fits. rewrite wsize_message. intros Hf. pose proof (pq_packet_size_pos p). split; [|lia].
  simpl. apply wrap_small. unfold in_range, max_int in *. lia.
Qed.

Lemma peer_push_ok clock now p c l :
  conn_ok clock c l → clock <= now → fits (pq_message p) →
  ∃ c' l', peer_push now p c = Ok c' ∧ conn_ok now c' l' ∧
    (if cn_ready c then c' = set_ready false (act (WSend (pq_message p)) c) else c' = set_queue (cn_queue c') c).
Proof.
  intros [Hq Hb Hc Hf Hr Ht] Hnow Hp. unfold peer_push. destruct (cn_ready c) eqn:Hrd.
  - rewrite (Hr eq_refl) in *. eexists _, []. split; [done|]. split; [|done].
    split; simpl; try done; try (by intros i ?%not_elem_of_nil).
    apply Forall_app. split; [done|by apply Forall_singleton].
  - destruct (pi_size_info now p Hp) as [Hs Hpos]. unfold max_int in Hlimit.
    assert (∀ i, i ∈ l → pi_time i <= now) as Hl by (intros i Hi; specialize (Hc i Hi); lia).
    pose proof (pq_push_spec now p (cn_queue c) l Hq Hl) as Hpush. cbv zeta in Hpush. fold (info_of now p) in Hpush.
    rewrite Hs in Hpush. specialize (Hpush ltac:(lia) ltac:(lia)).
    destruct (drop_excess_ok (S (pq_count (pq_push now p (cn_queue c)))) _ _ Hpush) as (q' & l' & lost & Hd & Hq' & Hb' & Hperm & _).
    { rewrite (queue_count _ _ Hpush). lia. }
    rewrite Hd. cbn [mbind res_bind]. eexists _, l'. split; [done|]. split; [|done].
    assert (∀ i, i ∈ l' → i ∈ l ∨ i = info_of now p) as Hin'.
    { intros i Hi. assert (i ∈ l ++ [info_of now p]) as Hin by (rewrite Hperm; apply elem_of_app; by left).
      by apply elem_of_app in Hin as [?|?%list_elem_of_singleton]; auto. }
    split; simpl; try done; try congruence.
    + intros i [Hi| ->]%Hin'; [by apply Hl|done].
    + intros i [Hi| ->]%Hin'; [by apply Hf|done].
Qed.

Lemma peer_pop_ok clock c l : conn_ok clock c l →
  ∃ c' l', peer_pop c = Ok c' ∧ conn_ok clock c' l' ∧ (work c' < work c + 2)%nat ∧
    cn_pops c' = cn_pops c ∧ cn_seq c' = cn_seq c ∧
    ((∃ p, cn_inbox c' = cn_inbox c ++ [WSend p]) ∨
     cn_inbox c' = cn_inbox c ++ [WFlush] ∧ cn_ready c' = true).
Proof.
  intros Hok. pose proof Hok as [Hq Hb Hc Hf Hr Ht]. unfold peer_pop.
  destruct (pq_pop_spec _ _ Hq) as (r & q' & l' & -> & Hq' & Hs). cbn [mbind res_bind].
  pose proof (queue_count _ _ Hq) as Hn. pose proof (queue_count _ _ Hq') as Hn'.
  destruct r as [i|].
  - destruct Hs as [Htk _]. destruct (takes_fewer _ _ _ _ Hq Htk) as [Hin Htot].
    assert (i ∈ l) as Hi by (destruct Htk as (m1 & m2 & -> & _); apply elem_of_app; right; by left).
    eexists _, l'. split; [done|]. split_and!; simpl; try done; [| |by left; eexists].
    + apply act_ok; [|by apply Hf]. split; simpl; try done; try lia; [intros j Hj; by apply Hc, Hin|intros j Hj; by apply Hf, Hin|].
      intros E. rewrite (Hr E) in Hi. by apply not_elem_of_nil in Hi.
    + unfold work, act. simpl. rewrite sum_list_with_app, Hn, Hn'. simpl.
      destruct Htk as (m1 & m2 & -> & -> & _). rewrite !length_app. simpl. lia.
  - destruct Hs as [-> ->]. eexists _, []. split; [done|]. split_and!; simpl; try done; [| |by right].
    + apply act_ok; [|done]. by split.
    + unfold work, act. simpl. rewrite sum_list_with_app, Hn, Hn'. simpl. lia.
Qed.

Lemma writer_run_ok clock t c l : conn_ok clock c l → task_ok t →
  ∃ c', writer_run t c = Ok c' ∧ conn_ok clock c' l ∧ (work c' < work c + weight t)%nat ∧
    cn_ready c' = cn_ready c ∧
    match t with
    | WSend _ | WKeepAlive => cn_inbox c' = cn_inbox c ++ [WCheck (cn_seq c')]
    | WCheck s => cn_inbox c' = cn_inbox c ∧ cn_seq c' = cn_seq c ∧ cn_flushed c' = cn_flushed c ∧
                  cn_written c' = cn_written c ∧ (cn_pops c <= cn_pops c')%nat ∧ (s = cn_seq c → 0 < cn_pops c')%nat
    | WFlush => cn_inbox c' = cn_inbox c ∧ cn_seq c' = cn_seq c ∧ cn_pops c' = cn_pops c ∧ cn_flushed c' = length (cn_written c')
    end.
Proof.
  intros Hok Ht. assert (∀ bs, conn_ok clock (writer_write bs c) l ∧ (work (writer_write bs c) < work c + 4)%nat) as Hw.
  { intros bs. split.
    - apply act_ok; [|done]. destruct Hok. by split.
    - unfold work, writer_write, act. simpl. rewrite sum_list_with_app. simpl. lia. }
  destruct t as [p| |s|]; simpl.
  - rewrite (sendPacket_fits p Ht). cbn [mbind res_bind]. eexists. split; [done|]. destruct (Hw (frame p)). done.
  - eexists. split; [done|]. destruct (Hw [1; wireType_byte wireKeepAlive]). done.
  - eexists. split; [done|]. destruct (Z.eqb_spec s (cn_seq c)); simpl; split_and!; try done; try lia.
    + destruct Hok. by split.
    + unfold work. simpl. lia.
  - eexists. split; [done|]. split_and!; simpl; try done.
    + destruct Hok. by split.
    + unfold work. simpl. lia.
Qed.

Definition settled (c : conn F) : Prop := busy c ∨ idle c.

(** What the writer did not run is still there. *)
Ltac still_there :=
  first [ left; left; by auto
        | left; right; left; eexists; eassumption
        | left; right; right; left; assumption
        | left; right; right; right; assumption
        | right; split; [assumption|]; left; by auto
        | right; split; [assumption|]; right; assumption ].

Lemma writer_settled t l c c' clock ls : cn_inbox c = t :: l → settled c → conn_ok clock c ls →
  writer_run t (set_inbox l c) = Ok c' → settled c'.
Proof.
  intros Hin Hs Hok Hrun. pose proof (co_tasks _ _ _ Hok) as Ht. rewrite Hin in Ht. inversion Ht as [|? ? Ht1 Ht2]; subst.
  destruct (writer_run_ok clock t (set_inbox l c) ls) as (c1 & Hr & _ & _ & Hrd & Hc); [destruct Hok; by split|done|].
  rewrite Hrun in Hr. injection Hr as <-. unfold settled, busy, idle in *. rewrite Hin in Hs.
  setoid_rewrite elem_of_cons in Hs. destruct t as [p| |s|]; simpl in *.
  1, 2: left; right; right; right; rewrite Hc; apply elem_of_app; right; by left.
  - destruct Hc as (Hi & Hq & Hf & Hw & Hle & Hp). rewrite Hi, Hq, Hf, Hw, Hrd.
    destruct Hs as [[Hs|[(p & [?|Hs])|[[?|Hs]|[[= E]|Hs]]]]|[Hr [Hs|[?|Hs]]]]; try discriminate;
      [left; left; lia|still_there..].
  - destruct Hc as (Hi & Hq & Hp & Hf). rewrite Hi, Hq, Hf, Hp, Hrd.
    destruct Hs as [[Hs|[(p & [?|Hs])|[[?|Hs]|[?|Hs]]]]|[Hr _]]; try discriminate; still_there.
Qed.

Lemma conn_step_ok clock ev c l :
  conn_ok clock c l → event_fits ev → clock <= clock_after ev clock →
  ∃ c' l', connection_step ev c = Ok c' ∧ conn_ok (clock_after ev clock) c' l' ∧ (settled c → settled c') ∧
    match ev with
    | EvWriter => cn_inbox c ≠ [] → (work c' < work c)%nat
    | EvPop => cn_pops c ≠ O → (work c' < work c)%nat
    | EvDirect _ => settled c'
    | _ => True
    end.
Proof.
  intros Hok Hf Hclk. destruct ev as [p| |now p| |]; simpl in *.
  - exists (act (WSend p) c), l. assert (settled (act (WSend p) c)) as Hs.
    { left. right. left. exists p. apply elem_of_app. right. by left. }
    split_and!; try done. by apply act_ok.
  - exists (act WKeepAlive c), l. split_and!; try done; [by apply act_ok|]. intros _.
    left. right. right. left. apply elem_of_app. right. by left.
  - destruct (peer_push_ok clock now p c l Hok Hclk Hf) as (c' & l' & Hr & Hok' & Hc). exists c', l'. split_and!; try done.
    destruct (cn_ready c) eqn:Hrd; rewrite Hc.
    + intros _. left. right. left. exists (pq_message p). apply elem_of_app. right. by left.
    + intros [Hb|[? _]]; [by left|congruence].
  - destruct (cn_inbox c) as [|t ts] eqn:Hin; [by exists c, l|].
    pose proof (co_tasks _ _ _ Hok) as Ht. rewrite Hin in Ht. inversion Ht as [|? ? Ht1 Ht2]; subst.
    destruct (writer_run_ok clock t (set_inbox ts c) l) as (c' & Hr & Hok' & Hw & _); [destruct Hok; by split|done|].
    exists c', l. split_and!; try done; [intros Hs; by eapply writer_settled|]. intros _.
    unfold work in *. rewrite Hin. simpl in *. lia.
  - destruct (cn_pops c) as [|n] eqn:Hn; [by exists c, l|].
    destruct (peer_pop_ok clock (set_pops n c) l) as (c' & l' & Hr & Hok' & Hw & Hp & Hq & Hc); [destruct Hok; by split|].
    exists c', l'. split_and!; try done; [|intros _; unfold work in *; simpl in *; lia]. intros _.
    destruct Hc as [(p & Hi)|[Hi Hrd]]; [left; right; left; exists p|right; split; [done|]; right];
      rewrite Hi; apply elem_of_app; right; by left.
Qed.

Lemma conn_run_ok evs clock c l :
  conn_ok clock c l → Forall event_fits evs → in_order clock evs →
  ∃ c' clock' l', conn_run evs c = Ok c' ∧ conn_ok clock' c' l' ∧ (settled c → settled c').
Proof.
  revert clock c l. induction evs as [|ev evs IH]; intros clock c l Hok Hf Ho; [by exists c, clock, l|].
  inversion Hf as [|? ? Hf1 Hf2]; subst. destruct Ho as [Ho1 Ho2].
  destruct (conn_step_ok clock ev c l Hok Hf1 Ho1) as (c1 & l1 & Hs & Hok1 & Hset & _).
  destruct (IH _ c1 l1 Hok1 Hf2 Ho2) as (c' & clock' & l' & Hr & Hok' & Hset').
  exists c', clock', l'. simpl. rewrite Hs. cbn [mbind res_bind]. split_and!; try done. by intros ?%Hset%Hset'.
Qed.

Lemma conn_init_ok clock : conn_ok clock conn_init [].
Proof.
  split; simpl; try done; try (by intros i ?%not_elem_of_nil); [apply queue_rep_empty|lia].
Qed.

(** C29: connection_drains.  After its first message of the protocol a connection
    never stalls, in any interleaving of messages, queued packets and steps of its
    two actors, when all messages fit: nothing panics, the waiting packets never
    have more bytes than the limit, every step of an actor reduces the work that
    is left, and when none is left, no packet waits, the next packet will be
    written at once, and all bytes are on the connection. *)
Theorem connection_drains p0 evs clock :
  Forall event_fits (EvDirect p0 :: evs) → in_order clock evs →
  ∃ c, conn_run (EvDirect p0 :: evs) conn_init = Ok c ∧ pq_size (cn_queue c) <= limit ∧
    (∀ ev, ev = EvWriter ∧ cn_inbox c ≠ [] ∨ ev = EvPop ∧ cn_pops c ≠ O →
       ∃ c', connection_step ev c = Ok c' ∧ (work c' < work c)%nat) ∧
    (cn_inbox c = [] → cn_pops c = O →
       pq_size (cn_queue c) = 0 ∧ cn_ready c = true ∧ cn_flushed c = length (cn_written c)).
Proof.
  intros Hf Ho. inversion Hf as [|? ? Hf1 Hf2]; subst.
  destruct (conn_step_ok clock (EvDirect p0) conn_init [] (conn_init_ok clock) Hf1) as (c0 & l0 & Hs0 & Hok0 & _ & Hset0); [simpl; lia|].
  destruct (conn_run_ok evs clock c0 l0 Hok0 Hf2 Ho) as (c & clock' & l & Hr & Hok & Hset).
  exists c. split; [injection Hs0 as <-; exact Hr|]. rewrite (qr_size _ _ (co_queue _ _ _ Hok)).
  split; [apply Hok|]. split.
  - intros ev Hev. destruct (conn_step_ok clock' ev c l Hok) as (c' & l' & Hs & _ & _ & Hw);
      [by destruct Hev as [[-> _]|[-> _]]|destruct Hev as [[-> _]|[-> _]]; simpl; lia|].
    exists c'. split; [done|]. destruct Hev as [[-> Hne]|[-> Hne]]; by apply Hw.
  - intros Hi Hp. destruct (Hset Hset0) as [Hb|[Hrd Hfl]]; unfold busy in *; rewrite ?Hi, ?Hp in *.
    + exfalso. destruct Hb as [?|[(p & Hb)|[Hb|Hb]]]; [lia|by apply not_elem_of_nil in Hb..].
    + rewrite (co_ready _ _ _ Hok Hrd). split_and!; try done. destruct Hfl as [?|Hfl]; [done|by apply not_elem_of_nil in Hfl].
Qed.
End Writer.

(** ** A message that does not fit

    [sendPacket] drops it without the check that asks for more traffic. *)
Section Stall.
Context {F : Type} `{BloomFilterLaws F} `{Ed25519Laws}.
Context (limit : Z).

Definition stalled (c : conn F) : Prop := cn_ready c = false ∧ cn_pops c = O ∧ cn_inbox c = [].

Definition from_queue (ev : conn_event F) : Prop :=
  match ev with EvDirect _ | EvKeepAlive => False | _ => True end.

Lemma stalled_run evs c c' : stalled c → Forall from_queue evs → conn_run limit evs c = Ok c' →
  stalled c' ∧ cn_written c' = cn_written c.
Proof.
  intros Hs Hf. revert c Hs. induction Hf as [|ev evs Hev Hf IH]; intros c Hs Hr.
  { injection Hr as <-. done. }
  simpl in Hr. apply res_bind_Ok in Hr as (c1 & Hst & Hr).
  assert (stalled c1 ∧ cn_written c1 = cn_written c) as [Hs1 Hw]; [|rewrite <- Hw; by apply (IH c1)].
  destruct Hs as (Hrd & Hp & Hi). destruct ev as [p| |now p| |]; simpl in *; try done.
  - unfold peer_push in Hst. rewrite Hrd in Hst. apply res_bind_Ok in Hst as (q & _ & Hst). injection Hst as <-. done.
  - rewrite Hi in Hst. injection Hst as <-. done.
  - rewrite Hp in Hst. injection Hst as <-. done.
Qed.

(** oversized_packet_stalls.  A queued packet that is over the limit, with its
    paths, reaches an idle writer, which drops it and does not ask for more: from
    then on, however many packets are queued, none is written until a message of
    the protocol or a keep-alive is. *)
Theorem oversized_packet_stalls now p evs c c' :
  cn_ready c = true → cn_pops c = O → cn_inbox c = [] →
  limit <= pq_packet_size p → pq_packet_size p + 1 < 2 ^ 64 →
  Forall from_queue evs → conn_run limit (EvQueued now p :: EvWriter :: evs) c = Ok c' →
  stalled c' ∧ cn_written c' = cn_written c.
Proof.
  intros Hrd Hp Hi Hbig Hsz Hf. cbn [conn_run connection_step mbind res_bind]. unfold peer_push. rewrite Hrd.
  cbn [mbind res_bind set_ready act cn_inbox]. rewrite Hi. cbn [app writer_run].
  rewrite sendPacket_frame by (rewrite <- packet_size_eq, wsize_message; lia).
  rewrite (proj2 (Z.ltb_lt _ _)) by (rewrite <- packet_size_eq, wsize_message; lia). cbn [mbind res_bind].
  intros Hr. apply stalled_run in Hr as [Hs Hw]; [done|by split|done].
Qed.
End Stall.

(** ** An instance *)
Module PeerQueueWitness.
Import ToySig ToyBloom PeersWitness QueueWitness.

Definition events1 : list (conn_event tfilter) :=
  [EvQueued 1 (packet kA kC 10); EvQueued 2 (packet kB kC 100); EvWriter; EvQueued 3 (packet kA kB 200); EvWriter;
   EvKeepAlive; EvPop; EvWriter; EvWriter; EvWriter; EvPop; EvWriter; EvWriter; EvPop; EvWriter; EvWriter; EvPop; EvWriter].

Definition summary (r : res iw_error (conn tfilter)) : option (nat * nat * nat * nat) :=
  match r with
  | Ok c => Some (length (cn_inbox c), cn_pops c, length (cn_written c), pq_count (cn_queue c))
  | _ => None
  end.

(** The three packets exceed the limit: the largest one is dropped. *)
Lemma events1_summary :
  summary (conn_run 400 (EvDirect (PSigReq req) :: events1) conn_init) = Some (0, 0, 255, 0)%nat.
Proof. vm_compute. reflexivity. Qed.

Lemma connection_drains_witness :
  ∃ c, conn_run 400 (EvDirect (PSigReq req) :: events1) conn_init = Ok c ∧
    cn_ready c = true ∧ cn_flushed c = length (cn_written c) ∧ length (cn_written c) = 255%nat.
Proof.
  destruct (connection_drains 400 ltac:(unfold max_int; lia) (PSigReq req) events1 0) as (c & Hr & _ & _ & Hend).
  - repeat constructor; apply Z.leb_le; vm_compute; reflexivity.
  - simpl. lia.
  - exists c. split; [exact Hr|]. pose proof events1_summary as Hs. rewrite Hr in Hs. injection Hs as Hi Hp Hw _.
    destruct (Hend (nil_length_inv _ Hi) Hp) as (_ & Hrd & Hfl). split; [exact Hrd|]. split; [exact Hfl|exact Hw].
Defined.

(** The packet of 500 bytes is dropped by the writer, the next one waits. *)
Lemma oversized_packet_stalls_witness :
  summary (conn_run 400 [EvQueued 1 (packet kA kB 500); EvWriter; EvQueued 2 (packet kA kB 10); EvPop; EvWriter]
      (Conn empty_queue true 0 [] 0 [] 0)) = Some (0, 0, 0, 1)%nat.
Proof. vm_compute. reflexivity. Qed.
End PeerQueueWitness.
