(* ===== verification/PacketConn.v ===== *)
(** * The packet connection of the routing layer
    (third_party/ironwood/network/packetconn.go, config.go and core.go)

    Writing, reading, closing and the handling of a connection; the receive queue
    with the channel of capacity one between its actor and the readers; the read
    deadline with its timers.  Waiting readers, pending messages of the actor and
    pending timers are part of the state. *)

From S2P Require Import Prelude Binary Wire GoHeap Address Crypto Messages PacketQueue Bloom Peers PeerQueue.

(** ** Settings *)

Record iw_config := IwConfig {
  ic_routerRefresh : Z;
  ic_routerTimeout : Z;
  ic_peerKeepAliveDelay : Z;
  ic_peerTimeout : Z;
  ic_peerMaxMessageSize : Z;
  ic_bloomTransform : bytes → bytes;
  ic_pathTimeout : Z;
  ic_pathThrottle : Z;
}.

Inductive iw_option :=
| WithRouterRefresh (d : Z)
| WithRouterTimeout (d : Z)
| WithPeerKeepAliveDelay (d : Z)
| WithPeerTimeout (d : Z)
| WithPeerMaxMessageSize (n : Z)
| WithBloomTransform (f : bytes → bytes)
| WithPathTimeout (d : Z)
| WithPathThrottle (d : Z).

Definition defaultMaxMessageSize : Z := 1048576.

(** Durations in nanoseconds. *)
Definition second : Z := 1000000000.

Definition configDefaults : iw_config :=
  IwConfig (240 * second) (300 * second) second (3 * second) defaultMaxMessageSize (λ key, key) (60 * second) second.

Definition apply_iw_option (c : iw_config) (o : iw_option) : iw_config :=
  let '(IwConfig a b d e f g h i) := c in
  match o with
  | WithRouterRefresh x => IwConfig x b d e f g h i
  | WithRouterTimeout x => IwConfig a x d e f g h i
  | WithPeerKeepAliveDelay x => IwConfig a b x e f g h i
  | WithPeerTimeout x => IwConfig a b d x f g h i
  | WithPeerMaxMessageSize x => IwConfig a b d e x g h i
  | WithBloomTransform x => IwConfig a b d e f x h i
  | WithPathTimeout x => IwConfig a b d e f g x i
  | WithPathThrottle x => IwConfig a b d e f g h x
  end.

(** [core.init]: the defaults first, so that later options win. *)
Definition iw_settings (opts : list iw_option) : iw_config := foldl apply_iw_option configDefaults opts.

(** ** Writing and reading *)

Definition net_MTU (limit : Z) : Z :=
  let tr := Traffic [] [] (replicate PublicKeySize 0) (replicate PublicKeySize 0) max_u64 [] in
  let overhead := u64 (u64 (traffic_size tr) + 1) in
  u64 (limit - overhead).

(** [WriteTo]: the number of bytes and the packet for the router; an address that
    is not of the routing layer is [None]. *)
Definition net_WriteTo (closed : bool) (limit : Z) (self p : bytes) (addr : option bytes) : res iw_error (Z * traffic) :=
  if closed then Err ErrClosed
  else
    match addr with
    | None => Err ErrBadAddress
    | Some dest =>
        if negb (len dest =? Z.of_nat PublicKeySize) then Err ErrBadAddress
        else if net_MTU limit <? u64 (len p) then Err ErrOversizedMessage
        else Ok (len p, Traffic [] [] self (copy (replicate PublicKeySize 0) dest) max_u64 p)
    end.

(** What [ReadFrom] does with a packet: the number of bytes, the buffer, the sender. *)
Definition net_ReadFrom (p : bytes) (tr : traffic) : Z * bytes * bytes :=
  (if len p <? len (tr_payload tr) then len p else len (tr_payload tr), copy p (tr_payload tr), tr_source tr).

(** ** The receive queue *)

(** [pn_requests] is the number of calls of [doPop] in the actor's inbox,
    [pn_waiting] that of the readers in the select of [ReadFrom]. *)
Record pconn := PConn {
  pn_recv : list traffic;
  pn_ready : Z;
  pn_queue : packetQueue;
  pn_closed : bool;
  pn_requests : nat;
  pn_waiting : nat;
}.

Inductive pconn_event :=
| PnArrive (now : Z) (tr : traffic)
| PnArriveClosed (now : Z) (tr : traffic)
| PnRead
| PnRequest
| PnRequestClosed
| PnTake
| PnTimeout
| PnClose.

(** An actor whose [select] has no ready case waits. *)
Inductive pconn_result := PnNext (c : pconn) (taken : option traffic) | PnBlocked | PnPanic.

Definition pconn_init : pconn := PConn [] 0 empty_queue false 0 0.

(** [drop] says that the [select] takes the case of the closed channel when the
    connection is closed and the packet could be sent as well. *)
Definition pconn_handleTraffic (limit : Z) (self : bytes) (now : Z) (tr : traffic) (drop : bool) (c : pconn) : pconn_result :=
  if negb (bool_decide (tr_dest tr = self)) then PnNext c None
  else if 0 <? pn_ready c then
    match pn_recv c with
    | [] =>
        if drop && pn_closed c then PnNext c None
        else PnNext (PConn [tr] (u64 (pn_ready c - 1)) (pn_queue c) (pn_closed c) (pn_requests c) (pn_waiting c)) None
    | _ => if pn_closed c then PnNext c None else PnBlocked
    end
  else
    let q := pq_push now (PqTraffic tr) (pn_queue c) in
    match drop_excess limit (S (pq_count q)) q with
    | Ok q => PnNext (PConn (pn_recv c) (pn_ready c) q (pn_closed c) (pn_requests c) (pn_waiting c)) None
    | _ => PnPanic
    end.

(** The body of [doPop]; the packets of this queue are all traffic. *)
Definition pconn_doPop (drop : bool) (c : pconn) : pconn_result :=
  match pq_pop (pn_queue c) with
  | Ok (Some info, q) =>
      match pi_packet info, pn_recv c with
      | PqTraffic tr, [] =>
          PnNext (PConn (if drop && pn_closed c then [] else [tr]) (pn_ready c) q (pn_closed c) (pn_requests c) (pn_waiting c)) None
      | PqTraffic _, _ =>
          if pn_closed c then PnNext (PConn (pn_recv c) (pn_ready c) q true (pn_requests c) (pn_waiting c)) None else PnPanic
      | _, _ => PnPanic
      end
  | Ok (None, q) =>
      PnNext (PConn (pn_recv c) (u64 (pn_ready c + 1)) q (pn_closed c) (pn_requests c) (pn_waiting c)) None
  | _ => PnPanic
  end.

Definition pconn_step (limit : Z) (self : bytes) (ev : pconn_event) (c : pconn) : pconn_result :=
  match ev with
  | PnArrive now tr => pconn_handleTraffic limit self now tr false c
  | PnArriveClosed now tr => pconn_handleTraffic limit self now tr true c
  | PnRead => PnNext (PConn (pn_recv c) (pn_ready c) (pn_queue c) (pn_closed c) (S (pn_requests c)) (S (pn_waiting c))) None
  | PnRequest =>
      match pn_requests c with
      | O => PnNext c None
      | S n => pconn_doPop false (PConn (pn_recv c) (pn_ready c) (pn_queue c) (pn_closed c) n (pn_waiting c))
      end
  | PnRequestClosed =>
      match pn_requests c with
      | O => PnNext c None
      | S n => pconn_doPop true (PConn (pn_recv c) (pn_ready c) (pn_queue c) (pn_closed c) n (pn_waiting c))
      end
  | PnTake =>
      match pn_waiting c, pn_recv c with
      | S n, tr :: l => PnNext (PConn l (pn_ready c) (pn_queue c) (pn_closed c) (pn_requests c) n) (Some tr)
      | _, _ => PnNext c None
      end
  | PnTimeout => PnNext (PConn (pn_recv c) (pn_ready c) (pn_queue c) (pn_closed c) (pn_requests c) (pred (pn_waiting c))) None
  | PnClose => PnNext (PConn (pn_recv c) (pn_ready c) (pn_queue c) true (pn_requests c) (pn_waiting c)) None
  end.

(** A run stops at the first step that panics or waits for ever. *)
Fixpoint pconn_run (limit : Z) (self : bytes) (evs : list pconn_event) (c : pconn) : pconn_result * list traffic :=
  match evs with
  | [] => (PnNext c None, [])
  | ev :: evs =>
      match pconn_step limit self ev c with
      | PnNext c taken => let '(r, l) := pconn_run limit self evs c in (r, option_list taken ++ l)
      | r => (r, [])
      end
  end.

(** ** One reader without a deadline *)

Section Reader.
Context (limit : Z) (self : bytes).
Context (Hlimit : 0 <= limit <= max_int).

Definition mine (tr : traffic) : list traffic := if decide (tr_dest tr = self) then [tr] else [].

(** What may happen: packets of this layer arrive, in the order of time; the only
    reader calls [ReadFrom] again after it returned, and leaves only when the
    connection was closed. *)
Definition pn_allowed (clock : Z) (c : pconn) (ev : pconn_event) : Prop :=
  match ev with
  | PnArrive now tr | PnArriveClosed now tr => clock <= now ∧ traffic_size tr <= limit
  | PnRead => pn_waiting c = O
  | PnTimeout => pn_closed c = true
  | _ => True
  end.

Definition pn_clock (ev : pconn_event) (clock : Z) : Z := match ev with PnArrive now _ | PnArriveClosed now _ => now | _ => clock end.
Definition pn_arrived (ev : pconn_event) : list traffic := match ev with PnArrive _ tr | PnArriveClosed _ tr => mine tr | _ => [] end.

(** [single clock arr taken c]: in state [c], packets [arr] arrived for this node
    and the packets [taken] were read. *)
Inductive single : Z → list traffic → list traffic → pconn → Prop :=
| single_init clock : single clock [] [] pconn_init
| single_step clock arr taken c ev c' t :
    single clock arr taken c → pn_allowed clock c ev → pconn_step limit self ev c = PnNext c' t →
    single (pn_clock ev clock) (arr ++ pn_arrived ev) (taken ++ option_list t) c'.

Definition is_traffic (i : pqPacketInfo) : Prop := ∃ tr, pi_packet i = PqTraffic tr.

Definition traffic_of (i : pqPacketInfo) : list traffic :=
  match pi_packet i with PqTraffic tr => [tr] | _ => [] end.

Record single_ok (clock : Z) (arr taken : list traffic) (c : pconn) (l : list pqPacketInfo) : Prop := {
  so_queue : queue_rep (pn_queue c) l;
  so_bound : total l <= limit;
  so_clock : ∀ i, i ∈ l → pi_time i <= clock;
  so_traffic : Forall is_traffic l;
  so_ready : 0 < pn_ready c → l = [];
  so_range : 0 <= pn_ready c < 2 ^ 64;
  so_tokens : pn_closed c = false →
    Z.of_nat (length (pn_recv c)) + pn_ready c + Z.of_nat (pn_requests c) = Z.of_nat (pn_waiting c) ∧ (pn_waiting c <= 1)%nat;
  so_once : ∃ lost, arr ≡ₚ taken ++ pn_recv c ++ (l ≫= traffic_of) ++ lost;
}.

Lemma single_init_ok clock : single_ok clock [] [] pconn_init [].
Proof.
  split; simpl; try done; try lia; try (by intros i ?%not_elem_of_nil).
  - apply queue_rep_empty.
  - by exists [].
Qed.

Lemma arrive_ok clock now arr taken c l tr drop :
  single_ok clock arr taken c l → clock <= now → traffic_size tr <= limit →
  ∃ c' l', pconn_handleTraffic limit self now tr drop c = PnNext c' None ∧ single_ok now (arr ++ mine tr) taken c' l'.
Proof.
  intros [Hq Hb Hc Ht Hr Hg Hk (lost & Ho)] Hnow Hsz. unfold pconn_handleTraffic, mine.
  assert (∀ i, i ∈ l → pi_time i <= now) as Hl by (intros i Hi; specialize (Hc i Hi); lia).
  destruct (decide (tr_dest tr = self)) as [E|E]; [rewrite bool_decide_true by done|rewrite bool_decide_false by done]; cbn [negb].
  2:{ exists c, l. split; [done|]. rewrite app_nil_r. split; try done. by exists lost. }
  destruct (Z.ltb_spec 0 (pn_ready c)) as [Hpos|Hzero].
  - rewrite (Hr Hpos) in *. destruct (pn_recv c) as [|x xs] eqn:Hrecv.
    + destruct (drop && pn_closed c) eqn:Hdrop.
      { apply andb_true_iff in Hdrop as [_ Hcl]. exists c, []. split; [done|]. split; try done; [congruence|].
        exists (lost ++ [tr]). simpl in Ho. rewrite Hrecv, Ho. simpl. by rewrite <- app_assoc. }
      eexists _, []. split; [done|]. assert (u64 (pn_ready c - 1) = pn_ready c - 1) as Hu by (apply u64_id; lia).
      split; simpl; rewrite ?Hu; try done; try lia.
      * intros Hcl. destruct (Hk Hcl). simpl in *. lia.
      * exists lost. simpl in Ho. rewrite Ho. rewrite <- app_assoc. simpl.
        by rewrite (Permutation_app_comm lost).
    + destruct (pn_closed c) eqn:Hcl; [|destruct (Hk eq_refl); simpl in *; lia].
      exists c, []. split; [done|]. split; try done; [congruence|]. exists (lost ++ [tr]).
      rewrite Hrecv, Ho. by rewrite <- !app_assoc.
  - pose proof (pq_packet_size_pos (PqTraffic tr)) as Hp. simpl in Hp. unfold max_int in Hlimit.
    assert (u64 (traffic_size tr) = traffic_size tr) as Hu by (apply u64_id; lia).
    pose proof (pq_push_spec now (PqTraffic tr) (pn_queue c) l Hq Hl) as Hpush. cbv zeta in Hpush. simpl in Hpush.
    rewrite Hu in Hpush. specialize (Hpush ltac:(lia) ltac:(lia)).
    destruct (drop_excess_ok limit Hlimit (S (pq_count (pq_push now (PqTraffic tr) (pn_queue c)))) _ _ Hpush)
      as (q' & l' & lost' & Hd & Hq' & Hb' & Hperm & _); [rewrite (queue_count _ _ Hpush); lia|].
    rewrite Hd. eexists _, l'. split; [done|].
    assert (Forall is_traffic (l ++ [PqPacketInfo (PqTraffic tr) (traffic_size tr) now])) as Hall.
    { apply Forall_app. split; [done|]. apply Forall_singleton. by exists tr. }
    rewrite Hperm in Hall. apply Forall_app in Hall as [Hall _].
    split; simpl; try done; try lia.
    + intros i Hi. assert (i ∈ l ++ [PqPacketInfo (PqTraffic tr) (traffic_size tr) now]) as Hin
        by (rewrite Hperm; apply elem_of_app; by left).
      apply elem_of_app in Hin as [Hin| ->%list_elem_of_singleton]; [by apply Hl|done].
    + exists ((lost' ≫= traffic_of) ++ lost).
      assert ((l ≫= traffic_of) ++ [tr] ≡ₚ (l' ≫= traffic_of) ++ (lost' ≫= traffic_of)) as Hbind.
      { rewrite <- bind_app, <- Hperm, bind_app. done. }
      rewrite Ho, (app_assoc (l' ≫= traffic_of)), <- Hbind. solve_Permutation.
Qed.

Lemma doPop_ok clock arr taken c l n drop :
  single_ok clock arr taken c l → pn_requests c = S n →
  ∃ c' l', pconn_doPop drop (PConn (pn_recv c) (pn_ready c) (pn_queue c) (pn_closed c) n (pn_waiting c)) = PnNext c' None ∧
    single_ok clock arr taken c' l'.
Proof.
  intros [Hq Hb Hc Ht Hr Hg Hk (lost & Ho)] Hn. unfold pconn_doPop. cbn [pn_queue pn_recv pn_ready pn_closed pn_requests pn_waiting].
  destruct (pq_pop_spec _ _ Hq) as (r & q' & l' & -> & Hq' & Hs). destruct r as [i|].
  - destruct Hs as [Htk _]. pose proof (takes_perm _ _ _ Htk) as Hp.
    destruct (takes_fewer _ _ _ _ Hq Htk) as [Hin Htot]. rewrite Hp in Ht. inversion Ht as [|? ? [tr Hi] Ht']; subst.
    assert (0 < pn_ready c → l' = []) as Hr' by (intros E; rewrite (Hr E) in Hp; by apply Permutation_nil_cons in Hp).
    assert (l ≫= traffic_of ≡ₚ tr :: (l' ≫= traffic_of)) as Hbind.
    { rewrite Hp. simpl. unfold traffic_of at 1. by rewrite Hi. }
    rewrite Hi. destruct (pn_recv c) as [|x xs] eqn:Hrecv.
    + destruct (drop && pn_closed c) eqn:Hdrop.
      { apply andb_true_iff in Hdrop as [_ Hcl]. eexists _, l'. split; [done|]. split; simpl; try done; try lia.
        - intros j Hj. by apply Hc, Hin.
        - congruence.
        - exists (tr :: lost). rewrite Ho, Hbind. simpl. solve_Permutation. }
      eexists _, l'. split; [done|]. split; simpl; try done; try lia.
      * intros j Hj. by apply Hc, Hin.
      * intros Hcl. destruct (Hk Hcl). rewrite Hn in *. simpl in *. lia.
      * exists lost. rewrite Ho, Hbind. simpl. by rewrite Permutation_middle.
    + destruct (pn_closed c) eqn:Hcl; [|destruct (Hk eq_refl); rewrite Hn in *; simpl in *; lia].
      eexists _, l'. split; [done|]. split; simpl; try done; try lia.
      * intros j Hj. by apply Hc, Hin.
      * exists (tr :: lost). rewrite Ho, Hbind. simpl. solve_Permutation.
  - destruct Hs as [-> ->]. eexists _, []. split; [done|].
    split; simpl; try done; try lia; [by apply wrap_in_range| |by exists lost].
    intros Hcl. destruct (Hk Hcl). rewrite Hn in *. rewrite u64_id by lia. lia.
Qed.

Lemma single_step_ok clock arr taken c l ev :
  single_ok clock arr taken c l → pn_allowed clock c ev →
  ∃ c' t l', pconn_step limit self ev c = PnNext c' t ∧
    single_ok (pn_clock ev clock) (arr ++ pn_arrived ev) (taken ++ option_list t) c' l'.
Proof.
  intros Hok Ha. pose proof Hok as [Hq Hb Hc Ht Hr Hg Hk (lost & Ho)].
  destruct ev as [now tr|now tr| | | | | |]; simpl in *; rewrite ?app_nil_r.
  - destruct Ha as [Hnow Hsz]. destruct (arrive_ok clock now arr taken c l tr false Hok Hnow Hsz) as (c' & l' & Hs & Hok').
    exists c', None, l'. simpl. by rewrite app_nil_r.
  - destruct Ha as [Hnow Hsz]. destruct (arrive_ok clock now arr taken c l tr true Hok Hnow Hsz) as (c' & l' & Hs & Hok').
    exists c', None, l'. simpl. by rewrite app_nil_r.
  - eexists _, None, l. split; [done|]. simpl. rewrite app_nil_r. split; simpl; try done; [|by exists lost].
    intros Hcl. destruct (Hk Hcl). rewrite Ha in *. lia.
  - destruct (pn_requests c) as [|n] eqn:Hn.
    + exists c, None, l. simpl. by rewrite app_nil_r.
    + destruct (doPop_ok clock arr taken c l n false Hok Hn) as (c' & l' & Hs & Hok'). exists c', None, l'. simpl.
      by rewrite app_nil_r.
  - destruct (pn_requests c) as [|n] eqn:Hn.
    + exists c, None, l. simpl. by rewrite app_nil_r.
    + destruct (doPop_ok clock arr taken c l n true Hok Hn) as (c' & l' & Hs & Hok'). exists c', None, l'. simpl.
      by rewrite app_nil_r.
  - destruct (pn_waiting c) as [|n] eqn:Hw; [exists c, None, l; simpl; by rewrite app_nil_r|].
    destruct (pn_recv c) as [|tr xs] eqn:Hrecv; [exists c, None, l; simpl; by rewrite app_nil_r|].
    eexists _, (Some tr), l. split; [done|]. split; simpl; try done.
    + intros Hcl. destruct (Hk Hcl). rewrite ?Hrecv, ?Hw in *. simpl in *. lia.
    + exists lost. rewrite Ho, <- app_assoc. done.
  - eexists _, None, l. split; [done|]. simpl. rewrite app_nil_r. split; simpl; try done; [congruence|by exists lost].
  - eexists _, None, l. split; [done|]. simpl. rewrite app_nil_r. split; simpl; try done. by exists lost.
Qed.

Lemma single_inv clock arr taken c : single clock arr taken c → ∃ l, single_ok clock arr taken c l.
Proof.
  induction 1 as [clock|clock arr taken c ev c' t _ [l IH] Ha Hs]; [exists []; apply single_init_ok|].
  destruct (single_step_ok clock arr taken c l ev IH Ha) as (c1 & t1 & l1 & Hs1 & Hok). rewrite Hs1 in Hs.
  injection Hs as -> ->. by exists l1.
Qed.

(** C30: one_reader_served.  With one reader that waits for its packet, as the node
    has, the receiving side never panics and its actor never blocks, in any
    interleaving with arriving packets and closing; every packet that is read,
    handed over or waiting arrived for this node, and each at most once; at most
    the limit waits; and a reader whose request was handled has a packet, or none
    waits and the next one will be handed over at once. *)
Theorem one_reader_served clock arr taken c :
  single clock arr taken c →
  (∀ ev, pn_allowed clock c ev → ∃ c' t, pconn_step limit self ev c = PnNext c' t) ∧
  pq_size (pn_queue c) <= limit ∧
  (∃ l lost, queue_rep (pn_queue c) l ∧ arr ≡ₚ taken ++ pn_recv c ++ (l ≫= traffic_of) ++ lost) ∧
  (pn_closed c = false → pn_waiting c = 1%nat → pn_requests c = O →
     pn_recv c ≠ [] ∨ pn_ready c = 1 ∧ pq_size (pn_queue c) = 0).
Proof.
  intros [l Hok]%single_inv. split_and!.
  - intros ev Ha. destruct (single_step_ok clock arr taken c l ev Hok Ha) as (c' & t & _ & Hs & _). by eexists _, _.
  - rewrite (qr_size _ _ (so_queue _ _ _ _ _ Hok)). apply Hok.
  - destruct (so_once _ _ _ _ _ Hok) as [lost Ho]. exists l, lost. split; [apply Hok|done].
  - intros Hcl Hw Hn. destruct (so_tokens _ _ _ _ _ Hok Hcl) as [Hk _]. rewrite Hw, Hn in Hk.
    destruct (pn_recv c) as [|x xs]; [right|by left]. simpl in Hk. split; [lia|].
    rewrite (qr_size _ _ (so_queue _ _ _ _ _ Hok)). rewrite (so_ready _ _ _ _ _ Hok) by lia. done.
Qed.
End Reader.

(** A packet at the MTU is accepted by [WriteTo], but its message does not fit once
    it has paths. *)
Lemma mtu_leaves_no_room limit self p dest n tr path from :
  0 <= limit <= max_int → net_WriteTo false limit self p (Some dest) = Ok (n, tr) →
  len p = net_MTU limit → length self = PublicKeySize → 0 <= net_MTU limit → 76 < limit →
  2 < wireSizePath path + wireSizePath from →
  limit < traffic_size (Traffic path from (tr_source tr) (tr_dest tr) (tr_watermark tr) (tr_payload tr)) + 1.
Proof.
  intros Hl Hw Hp Hs Hm H76 Hpath. unfold net_WriteTo in Hw.
  destruct (negb _); [done|]. destruct (_ <? _); [done|]. injection Hw as _ <-. unfold traffic_size.
  cbn [tr_path tr_from tr_source tr_dest tr_watermark tr_payload].
  assert (len self = 32) as -> by (unfold len; by rewrite Hs).
  match goal with |- context [len (copy ?z dest)] => replace (len (copy z dest)) with 32 by (unfold len; by rewrite length_copy) end.
  unfold max_int in Hl. rewrite Hp. change (wireSizeUint max_u64) with 10.
  assert (net_MTU limit = limit - 77) as ->; [|lia].
  unfold net_MTU. match goal with |- u64 (limit - ?x) = _ => change x with 77 end. apply u64_id. lia.
Qed.

(** ** The read deadline *)

(** Channels, once values and timers are numbered; [dl_done] are the once values
    that were used, [dl_closed] the closed channels and [dl_timers] the timers
    whose function may still run. *)
Record deadline := Deadline {
  dl_timer : option nat;
  dl_once : nat;
  dl_cancel : nat;
  dl_done : gset nat;
  dl_closed : gset nat;
  dl_timers : gmap nat (nat * nat);
  dl_fresh : nat;
}.

Definition newDeadline : deadline := Deadline None 0 1 ∅ ∅ ∅ 2.

(** [set]: [stopped] says whether the old timer could still be stopped. *)
Definition deadline_set (zero stopped : bool) (d : deadline) : deadline :=
  let timers := if bool_decide (dl_once d ∈ dl_done d) then dl_timers d
    else match dl_timer d with
         | Some k => if stopped then delete k (dl_timers d) else dl_timers d
         | None => dl_timers d
         end in
  let done := {[dl_once d]} ∪ dl_done d in
  let n := dl_fresh d in
  let cancel := if bool_decide (dl_cancel d ∈ dl_closed d) then n else dl_cancel d in
  let once := S n in
  if zero then Deadline (dl_timer d) once cancel done (dl_closed d) timers (n + 3)
  else Deadline (Some (n + 2)%nat) once cancel done (dl_closed d) (<[(n + 2)%nat := (once, cancel)]> timers) (n + 3).

(** The function of a timer; closing a closed channel panics. *)
Definition deadline_fire (k : nat) (d : deadline) : res iw_error deadline :=
  match dl_timers d !! k with
  | None => Ok d
  | Some (once, cancel) =>
      let timers := delete k (dl_timers d) in
      if bool_decide (once ∈ dl_done d) then
        Ok (Deadline (dl_timer d) (dl_once d) (dl_cancel d) (dl_done d) (dl_closed d) timers (dl_fresh d))
      else if bool_decide (cancel ∈ dl_closed d) then Panic
      else Ok (Deadline (dl_timer d) (dl_once d) (dl_cancel d) ({[once]} ∪ dl_done d) ({[cancel]} ∪ dl_closed d) timers (dl_fresh d))
  end.

(** Whether [getCancel] returns a closed channel. *)
Definition deadline_expired (d : deadline) : bool := bool_decide (dl_cancel d ∈ dl_closed d).

Inductive deadline_event := DlSet (zero stopped : bool) | DlFire (k : nat).

Fixpoint deadline_run (evs : list deadline_event) (d : deadline) : res iw_error deadline :=
  match evs with
  | [] => Ok d
  | DlSet zero stopped :: evs => deadline_run evs (deadline_set zero stopped d)
  | DlFire k :: evs => d ← deadline_fire k d; deadline_run evs d
  end.

(** What a deadline should do: the timer of the last [set], if its time was not
    zero, and whether it fired.  The [n]-th call of [set] makes the timer [3 n + 4]. *)
Record alarm := Alarm { al_armed : option nat; al_rang : bool; al_next : nat }.

Definition alarm_step (a : alarm) (ev : deadline_event) : alarm :=
  match ev with
  | DlSet zero _ => Alarm (if zero then None else Some (al_next a + 2)%nat) false (al_next a + 3)
  | DlFire k => if decide (al_armed a = Some k) then Alarm None true (al_next a) else a
  end.

Record deadline_ok (d : deadline) (a : alarm) : Prop := {
  do_next : dl_fresh d = al_next a;
  do_fresh : (dl_once d < dl_fresh d)%nat ∧ (dl_cancel d < dl_fresh d)%nat ∧
    (∀ x, x ∈ dl_done d → (x < dl_fresh d)%nat) ∧ (∀ x, x ∈ dl_closed d → (x < dl_fresh d)%nat) ∧
    (∀ k, is_Some (dl_timers d !! k) → (k < dl_fresh d)%nat);
  do_closed : dl_cancel d ∈ dl_closed d ↔ dl_once d ∈ dl_done d;
  do_rang : dl_once d ∈ dl_done d ↔ al_rang a = true;
  do_timers : ∀ k once cancel, dl_timers d !! k = Some (once, cancel) →
    once ∈ dl_done d ∨ (once = dl_once d ∧ cancel = dl_cancel d ∧ al_armed a = Some k);
  do_armed : ∀ k, al_armed a = Some k → dl_timers d !! k = Some (dl_once d, dl_cancel d) ∧ dl_once d ∉ dl_done d;
}.

Lemma deadline_set_ok zero stopped d a : deadline_ok d a →
  deadline_ok (deadline_set zero stopped d) (alarm_step a (DlSet zero stopped)).
Proof.
  intros [Hn (Ho & Hc & Hd & Hcl & Ht) Hx Hr Htm Ha]. unfold deadline_set.
  set (timers := if bool_decide (dl_once d ∈ dl_done d) then _ else _).
  assert (∀ k v, timers !! k = Some v → dl_timers d !! k = Some v) as Hsub.
  { intros k v. subst timers. repeat case_match; try done. intros [_ ?]%lookup_delete_Some. done. }
  assert (∀ k once cancel, timers !! k = Some (once, cancel) → once ∈ {[dl_once d]} ∪ dl_done d ∧ (k < dl_fresh d)%nat) as Hold.
  { intros k once cancel Hk%Hsub. split; [|apply Ht; by eexists].
    destruct (Htm k once cancel Hk) as [?|[-> _]]; set_solver. }
  set (cancel := if bool_decide (dl_cancel d ∈ dl_closed d) then dl_fresh d else dl_cancel d).
  assert (cancel ∉ dl_closed d ∧ (cancel <= dl_fresh d)%nat) as [Hcn Hcf].
  { subst cancel. case_bool_decide; [split; [intros ?%Hcl; lia|lia]|split; [done|lia]]. }
  assert (S (dl_fresh d) ∉ {[dl_once d]} ∪ dl_done d) as Hon.
  { intros [E%elem_of_singleton|E%Hd]%elem_of_union; lia. }
  destruct zero; split; cbn [dl_timer dl_once dl_cancel dl_done dl_closed dl_timers dl_fresh alarm_step al_armed al_rang al_next];
    try (by rewrite Hn); try (split_and!; try lia); try done.
  all: try (intros x [E%elem_of_singleton|E%Hd]%elem_of_union; lia).
  all: try (intros x ?%Hcl; lia).
  - intros k [v Hk%Hsub]. assert (k < dl_fresh d)%nat by (apply Ht; by eexists). lia.
  - intros k once cancel' Hk. left. by apply (Hold k once cancel').
  - intros k [v Hk]. apply lookup_insert_Some in Hk as [[<- _]|[_ Hk%Hsub]]; [lia|].
    assert (k < dl_fresh d)%nat by (apply Ht; by eexists). lia.
  - intros k once cancel' Hk. apply lookup_insert_Some in Hk as [[<- [= <- <-]]|[_ Hk]].
    + right. split_and!; try done. by rewrite Hn.
    + left. by apply (Hold k once cancel').
  - intros k [= <-]. rewrite <- Hn. split; [by rewrite lookup_insert_eq|done].
Qed.

Lemma deadline_fire_ok k d a : deadline_ok d a →
  ∃ d', deadline_fire k d = Ok d' ∧ deadline_ok d' (alarm_step a (DlFire k)).
Proof.
  intros [Hn (Ho & Hc & Hd & Hcl & Ht) Hx Hr Htm Ha]. unfold deadline_fire, alarm_step.
  destruct (dl_timers d !! k) as [[once cancel]|] eqn:Hk.
  2:{ exists d. split; [done|]. rewrite decide_False; [by split|]. intros [E _]%Ha. congruence. }
  destruct (Htm k once cancel Hk) as [Hdone|(-> & -> & Harm)].
  - rewrite bool_decide_true by done. eexists. split; [done|]. rewrite decide_False.
    2:{ intros [E Hnot]%Ha. rewrite Hk in E. injection E as -> ->. done. }
    split; cbn [dl_timer dl_once dl_cancel dl_done dl_closed dl_timers dl_fresh]; try done.
    + split_and!; try done. intros j [v [_ Hj]%lookup_delete_Some]. apply Ht. by eexists.
    + intros j o c [_ Hj]%lookup_delete_Some. by apply Htm.
    + intros j Hj. destruct (Ha j Hj) as [E Hnot]. split; [|done]. rewrite lookup_delete_ne; [done|].
      intros ->. rewrite Hk in E. injection E as -> ->. done.
  - destruct (Ha k Harm) as [_ Hnot]. rewrite bool_decide_false by done. rewrite bool_decide_false by (by rewrite Hx).
    eexists. split; [done|]. rewrite decide_True by done.
    split; cbn [dl_timer dl_once dl_cancel dl_done dl_closed dl_timers dl_fresh al_armed al_rang al_next]; try done.
    + split_and!; try done.
      * intros x [E%elem_of_singleton|E%Hd]%elem_of_union; lia.
      * intros x [E%elem_of_singleton|E%Hcl]%elem_of_union; lia.
      * intros j [v [_ Hj]%lookup_delete_Some]. apply Ht. by eexists.
    + set_solver.
    + set_solver.
    + intros j o c [Hne Hj]%lookup_delete_Some. destruct (Htm j o c Hj) as [?|(-> & -> & Harm')]; [set_solver|congruence].
Qed.

(** deadline_exact.  Over any history of [set] and of timers that fire, also late
    ones that could not be stopped any more, no channel is closed twice, and the
    channel that [getCancel] returns is closed exactly when the timer of the last
    call of [set] fired. *)
Theorem deadline_exact evs :
  ∃ d, deadline_run evs newDeadline = Ok d ∧
    deadline_expired d = al_rang (foldl alarm_step (Alarm None false 2) evs).
Proof.
  assert (∀ evs d a, deadline_ok d a → ∃ d', deadline_run evs d = Ok d' ∧ deadline_ok d' (foldl alarm_step a evs)) as Hgen.
  { clear evs. induction evs as [|[zero stopped|k] evs IH]; intros d a Hok; [by exists d|..]; simpl.
    - by apply IH, deadline_set_ok.
    - destruct (deadline_fire_ok k d a Hok) as (d' & -> & Hok'). by apply IH. }
  destruct (Hgen evs newDeadline (Alarm None false 2)) as (d & Hr & Hok).
  { split; cbn [newDeadline dl_timer dl_once dl_cancel dl_done dl_closed dl_timers dl_fresh al_armed al_rang al_next]; try done.
    split_and!; try lia; try set_solver. intros k [v Hk]. by rewrite lookup_empty in Hk. }
  exists d. split; [done|]. unfold deadline_expired. apply Bool.eq_iff_eq_true.
  rewrite bool_decide_eq_true, (do_closed _ _ Hok). apply Hok.
Qed.

(** ** Connections *)

(** [HandleConn] up to the call of the connection's handler. *)
Definition net_HandleConn (self key : bytes) (prio : Z) (ps : peers) : peers * res iw_error peer :=
  if negb (len key =? Z.of_nat PublicKeySize) then (ps, Err ErrBadKey)
  else
    let pk := copy (replicate PublicKeySize 0) key in
    if bool_decide (self = pk) then (ps, Err ErrBadKey) else addPeer ps pk prio.

(** What it does after the handler returned [err]. *)
Definition net_HandleConn_end (p : peer) (err : iw_error) (ps : peers) : peers * iw_error :=
  let '(ps, e) := removePeer ps p in
  (ps, match e with Err e => e | _ => err end).

(** [Close]: the connections that are closed. *)
Definition net_Close (ps : peers) : res iw_error (peers * list peer) :=
  if ps_closed ps then Err ErrClosed
  else Ok (Peers true (ps_ports ps) (ps_peers ps) (ps_order ps) (ps_next ps), map_to_list (ps_peers ps) ≫= snd).

(** A node never connects to itself, and not after it was closed. *)
Lemma handleConn_refuses self key prio ps ps' p :
  net_HandleConn self key prio ps = (ps', Ok p) →
  length key = PublicKeySize ∧ key ≠ self ∧ peer_key p = key ∧ ps_closed ps = false.
Proof.
  unfold net_HandleConn. destruct (Z.eqb_spec (len key) (Z.of_nat PublicKeySize)) as [Hl|]; [|done]. cbn [negb].
  assert (length key = PublicKeySize) as Hk by (unfold len in Hl; lia).
  replace (copy (replicate PublicKeySize 0) key) with key.
  2:{ unfold copy. rewrite length_replicate, take_ge, drop_ge by (rewrite ?length_replicate; lia). by rewrite app_nil_r. }
  case_bool_decide as He; [done|]. unfold addPeer. destruct (ps_closed ps); [done|].
  intros Ha. split_and!; try done; destruct (ps_peers ps !! key); simplify_eq; done.
Qed.

(** ** Instances *)
Module PacketConnWitness.
Import QueueWitness.

Definition tr1 : traffic := Traffic [] [] kB kA 0 [1; 2; 3].
Definition tr2 : traffic := Traffic [] [] kC kA 0 [4].
Definition evs1 : list pconn_event := [PnRead; PnRequest; PnArrive 5 tr1; PnArrive 6 tr2; PnTake; PnRead; PnRequest].

Fixpoint all_allowed (clock : Z) (c : pconn) (evs : list pconn_event) : Prop :=
  match evs with
  | [] => True
  | ev :: evs =>
      pn_allowed 1000 clock c ev ∧
      match pconn_step 1000 kA ev c with PnNext c _ => all_allowed (pn_clock ev clock) c evs | _ => True end
  end.

Lemma pconn_run_single evs clock arr taken c l c' :
  single 1000 kA clock arr taken c → pconn_run 1000 kA evs c = (PnNext c' None, l) → all_allowed clock c evs →
  ∃ arr', single 1000 kA (foldl (λ clock ev, pn_clock ev clock) clock evs) arr' (taken ++ l) c'.
Proof.
  revert clock arr taken c l. induction evs as [|ev evs IH]; intros clock arr taken c l Hs Hr Hok.
  { simpl in Hr. injection Hr as -> <-. rewrite app_nil_r. eauto. }
  destruct Hok as [Ha Hok]. simpl in Hr. destruct (pconn_step 1000 kA ev c) as [c1 t| |] eqn:Hst; try done.
  destruct (pconn_run 1000 kA evs c1) as [r1 l1] eqn:Hr1. injection Hr as -> <-.
  rewrite app_assoc. eapply (IH _ _ _ c1); [by econstructor|done|done].
Qed.

Definition end1 : pconn := PConn [tr2] 0 empty_queue false 0 1.

Lemma one_reader_served_witness :
  ∃ arr, single 1000 kA 6 arr [tr1] end1 ∧ ∃ c' t, pconn_step 1000 kA (PnArrive 9 tr1) end1 = PnNext c' t.
Proof.
  destruct (pconn_run_single evs1 0 [] [] pconn_init [tr1] end1) as (arr & Hs).
  - constructor.
  - vm_compute. reflexivity.
  - vm_compute. repeat split; congruence.
  - exists arr. split; [exact Hs|].
    destruct (one_reader_served 1000 kA ltac:(unfold max_int; lia) 6 arr [tr1] end1 Hs) as (Hnext & _).
    apply (Hnext (PnArrive 9 tr1)). vm_compute. split; congruence.
Defined.

(** two_readers_panic.  Two concurrent calls of [ReadFrom]: when two packets wait,
    the second request finds the channel full and the actor panics. *)
Lemma two_readers_panic :
  pconn_run 1000 kA [PnArrive 1 tr1; PnArrive 2 tr2; PnRead; PnRead; PnRequest; PnRequest] pconn_init = (PnPanic, []).
Proof. vm_compute. reflexivity. Qed.

(** read_deadline_panics.  A reader that leaves at its deadline leaves its request
    behind: the next packet goes to the channel for it, and the request of the next
    read finds the channel full when another packet waits. *)
Lemma read_deadline_panics :
  pconn_run 1000 kA [PnRead; PnRequest; PnTimeout; PnArrive 1 tr1; PnArrive 2 tr2; PnRead; PnRequest] pconn_init =
    (PnPanic, []).
Proof. vm_compute. reflexivity. Qed.
End PacketConnWitness.
