(* ===== verification/Handshake.v ===== *)
(** * Handshake: the metadata exchange at the start of a connection
    (src/core/version.go)

    The metadata message, its decoder and the confirmation message.  The keyed
    hash is a parameter; [ed25519.Verify] panics on a key of the wrong length,
    as its documentation says, and the model keeps that. *)

From S2P Require Import Prelude Binary Wire Address Crypto Messages.

(** [blake2b.New512(key)] followed by writes and [Sum(nil)]: the hash of the
    concatenated writes, or [None] when the key is rejected. *)
Class Blake2b := { b2_sum512 : bytes → bytes → option bytes }.

Inductive handshake_error :=
| ErrHandshakeInvalidPreamble | ErrHandshakeInvalidLength | ErrHandshakeInvalidPassword
| ErrHandshakeHashFailure | ErrHandshakeIncorrectPassword | ErrHandshakeInvalidSignature
| ErrHandshakeInvalidConfirmation
| ErrRead        (* io.ReadFull failed *)
| ErrRand        (* rand.Read failed *)
| ErrHashKey.    (* blake2b.New512 failed *)

#[export] Instance handshake_error_eq_dec : EqDecision handshake_error.
Proof. solve_decision. Defined.

Record version_metadata := VersionMetadata {
  vm_majorVer : Z;
  vm_minorVer : Z;
  vm_publicKey : bytes;
  vm_priority : Z;
  vm_nonce : bytes;
  vm_capabilities : Z;
  vm_transcriptSignature : bytes;
  vm_wire : bytes;
}.

#[export] Instance version_metadata_eq_dec : EqDecision version_metadata.
Proof. solve_decision. Defined.

Definition ProtocolVersionMajor : Z := 0.
Definition ProtocolVersionMinor : Z := 5.

Definition metaVersionMajor : Z := 0.
Definition metaVersionMinor : Z := 1.
Definition metaPublicKey : Z := 2.
Definition metaPriority : Z := 3.
Definition metaNonce : Z := 4.
Definition metaCapabilities : Z := 5.
Definition metaTranscriptSignature : Z := 6.

Definition capabilityHandshakeConfirmation : Z := 1.

(** "meta", "conf" and the domain separation strings. *)
Definition meta_magic : bytes := [109; 101; 116; 97].
Definition conf_magic : bytes := [99; 111; 110; 102].
Definition handshakeDomain : bytes :=
  [85; 81; 68; 65; 45; 72; 65; 78; 68; 83; 72; 65; 75; 69; 45; 86; 49; 0].
Definition confirmationDomain : bytes :=
  [85; 81; 68; 65; 45; 67; 79; 78; 70; 73; 82; 77; 45; 86; 49; 0].

Definition nonceSize : nat := 32.
Definition confirmationSize : nat := 4 + SignatureSize.

(** The zero value of the struct. *)
Definition version_zero : version_metadata :=
  VersionMetadata 0 0 [] 0 (replicate nonceSize 0) 0 [] [].

Definition version_getBaseMetadata : version_metadata :=
  VersionMetadata ProtocolVersionMajor ProtocolVersionMinor [] 0 (replicate nonceSize 0) 0 [] [].

Definition supportsHandshakeConfirmation (m : version_metadata) : bool :=
  negb (Z.land (vm_capabilities m) capabilityHandshakeConfirmation =? 0).

(** [check]. *)
Definition version_check (m : version_metadata) : bool :=
  if negb (vm_majorVer m =? ProtocolVersionMajor) then false
  else if negb (vm_minorVer m =? ProtocolVersionMinor) then false
  else if negb (len (vm_publicKey m) =? Z.of_nat PublicKeySize) then false
  else if supportsHandshakeConfirmation m && bool_decide (vm_nonce m = replicate (length (vm_nonce m)) 0)
  then false
  else true.

(** [bytes.Compare(a, b) > 0]. *)
Fixpoint bytes_gt (a b : bytes) : bool :=
  match a, b with
  | x :: a, y :: b => if y <? x then true else if x <? y then false else bytes_gt a b
  | _ :: _, [] => true
  | [], _ => false
  end.

(** [binary.BigEndian.AppendUint16]. *)
Definition append16 (bs : bytes) (x : Z) : bytes := bs ++ be_bytes 2 x.

Section Handshake.
Context `{Blake2b} `{Ed25519}.

(** [ed25519.Verify], with its panic on a key of the wrong length. *)
Definition verify (key message sig : bytes) : res handshake_error bool :=
  if negb (len key =? Z.of_nat PublicKeySize) then Panic else Ok (ed_Verify key message sig).

Definition legacyHandshakeHash (password publicKey : bytes) : res handshake_error bytes :=
  or_err ErrHashKey (b2_sum512 password publicKey).

Definition handshakeHash (password payload : bytes) : res handshake_error bytes :=
  or_err ErrHashKey (b2_sum512 password (handshakeDomain ++ payload)).

(** [encode]; [rnd] is what [rand.Read] delivers.  The result is the message
    and the updated metadata. *)
Definition version_encode (m : version_metadata) (rnd : option bytes) (privateKey password : bytes) :
    res handshake_error (bytes * version_metadata) :=
  nonce ← or_err ErrRand rnd;
  let bs := meta_magic in
  let bs := bs ++ [0; 0] in
  let bs := append16 (append16 (append16 bs metaVersionMajor) 2) (vm_majorVer m) in
  let bs := append16 (append16 (append16 bs metaVersionMinor) 2) (vm_minorVer m) in
  let bs := append16 (append16 bs metaPublicKey) (Z.of_nat PublicKeySize) ++ vm_publicKey m in
  let bs := append16 (append16 bs metaPriority) 1 ++ [vm_priority m] in
  let bs := append16 (append16 bs metaNonce) (u16 (len nonce)) ++ nonce in
  let capabilities := capabilityHandshakeConfirmation in
  let bs := append16 (append16 bs metaCapabilities) 4 ++ be_bytes 4 capabilities in
  hash ← handshakeHash password (drop 6 bs);
  let transcriptSignature := ed_Sign privateKey hash in
  let bs := append16 (append16 bs metaTranscriptSignature) (u16 (len transcriptSignature))
              ++ transcriptSignature in
  legacyHash ← legacyHandshakeHash password (vm_publicKey m);
  let bs := bs ++ ed_Sign privateKey legacyHash in
  let bs := take 4 bs ++ be_bytes 2 (u16 (len bs - 6)) ++ drop 6 bs in
  Ok (bs, VersionMetadata (vm_majorVer m) (vm_minorVer m) (vm_publicKey m) (vm_priority m) nonce
            capabilities transcriptSignature bs).

(** The [switch] of the decoder on one field; [signed] is [signedFields]. *)
Definition decode_field (allFields : bytes) (offset : nat) (op : Z) (field : bytes)
    (m : version_metadata) (signed : option bytes) :
    res handshake_error (version_metadata * option bytes) :=
  let '(VersionMetadata maj min pk prio nonce caps tsig wire) := m in
  if op =? metaVersionMajor then
    if negb (len field =? 2) then Err ErrHandshakeInvalidLength
    else Ok (VersionMetadata (be_val field) min pk prio nonce caps tsig wire, signed)
  else if op =? metaVersionMinor then
    if negb (len field =? 2) then Err ErrHandshakeInvalidLength
    else Ok (VersionMetadata maj (be_val field) pk prio nonce caps tsig wire, signed)
  else if op =? metaPublicKey then
    if negb (len field =? Z.of_nat PublicKeySize) then Err ErrHandshakeInvalidLength
    else Ok (VersionMetadata maj min field prio nonce caps tsig wire, signed)
  else if op =? metaPriority then
    if negb (len field =? 1) then Err ErrHandshakeInvalidLength
    else Ok (VersionMetadata maj min pk (nth 0 field 0) nonce caps tsig wire, signed)
  else if op =? metaNonce then
    if negb (len field =? len nonce) then Err ErrHandshakeInvalidLength
    else Ok (VersionMetadata maj min pk prio (copy nonce field) caps tsig wire, signed)
  else if op =? metaCapabilities then
    if negb (len field =? 4) then Err ErrHandshakeInvalidLength
    else Ok (VersionMetadata maj min pk prio nonce (be_val field) tsig wire, signed)
  else if op =? metaTranscriptSignature then
    if negb (len field =? Z.of_nat SignatureSize) || bool_decide (is_Some signed)
    then Err ErrHandshakeInvalidLength
    else Ok (VersionMetadata maj min pk prio nonce caps field wire,
             (* appending no bytes to a nil slice leaves it nil *)
             match take offset allFields with [] => None | fs => Some fs end)
  else Ok (m, signed).

(** The loop over the fields; each iteration consumes at least four bytes. *)
Fixpoint decode_fields (fuel : nat) (allFields : bytes) (offset : nat) (bs : bytes)
    (m : version_metadata) (signed : option bytes) :
    res handshake_error (version_metadata * option bytes) :=
  match fuel with
  | O => Panic
  | S fuel =>
      if len bs <? 4 then
        if negb (len bs =? 0) then Err ErrHandshakeInvalidLength else Ok (m, signed)
      else if bool_decide (is_Some signed) then Err ErrHandshakeInvalidLength
      else
        let op := be_val (take 2 bs) in
        let oplen := be_val (take 2 (drop 2 bs)) in
        let bs := drop 4 bs in
        if len bs <? oplen then Err ErrHandshakeInvalidLength
        else
          let field := take (Z.to_nat oplen) bs in
          '(m, signed) ← decode_field allFields offset op field m signed;
          decode_fields fuel allFields (offset + 4 + Z.to_nat oplen) (drop (Z.to_nat oplen) bs) m signed
  end.

(** A Go error that is not passed on but replaced by another. *)
Definition replace_err {A} (e : handshake_error) (r : res handshake_error A) : res handshake_error A :=
  match r with Err _ => Err e | _ => r end.

(** [decode], reading from the bytes [r] that the connection delivers: the
    metadata and the bytes left. *)
Definition version_decode (m : version_metadata) (r password : bytes) :
    res handshake_error (version_metadata * bytes) :=
  '(bh, r) ← or_err ErrRead (wireChopSlice 6 r);
  if negb (bool_decide (take 4 bh = meta_magic)) then Err ErrHandshakeInvalidPreamble
  else
    let hl := be_val (drop 4 bh) in
    if hl <? Z.of_nat SignatureSize then Err ErrHandshakeInvalidLength
    else
      '(bs, r) ← or_err ErrRead (wireChopSlice (Z.to_nat hl) r);
      let m := VersionMetadata (vm_majorVer m) (vm_minorVer m) (vm_publicKey m) (vm_priority m)
                 (vm_nonce m) (vm_capabilities m) (vm_transcriptSignature m) (bh ++ bs) in
      let sig := drop (length bs - SignatureSize) bs in
      let bs := take (length bs - SignatureSize) bs in
      '(m, signed) ← decode_fields (S (length bs)) bs 0 bs m None;
      if negb (len (vm_publicKey m) =? Z.of_nat PublicKeySize) then Err ErrHandshakeInvalidLength
      else
        legacyHash ← replace_err ErrHandshakeInvalidPassword (legacyHandshakeHash password (vm_publicKey m));
        ok ← verify (vm_publicKey m) legacyHash sig;
        if negb ok then Err ErrHandshakeInvalidSignature
        else if supportsHandshakeConfirmation m then
          match signed with
          | None => Err ErrHandshakeInvalidSignature
          | Some signedFields =>
              if negb (len (vm_transcriptSignature m) =? Z.of_nat SignatureSize)
              then Err ErrHandshakeInvalidSignature
              else
                hash ← replace_err ErrHandshakeInvalidPassword (handshakeHash password signedFields);
                ok ← verify (vm_publicKey m) hash (vm_transcriptSignature m);
                if negb ok then Err ErrHandshakeInvalidSignature else Ok (m, r)
          end
        else Ok (m, r).

Definition confirmationHash (password : bytes) (local remote : version_metadata) :
    res handshake_error bytes :=
  if (len (vm_wire local) =? 0) || (len (vm_wire remote) =? 0) then Err ErrHandshakeInvalidConfirmation
  else
    let '(first, second) :=
      if bytes_gt (vm_publicKey local) (vm_publicKey remote) then (remote, local) else (local, remote) in
    or_err ErrHashKey (b2_sum512 password (confirmationDomain ++ vm_wire first ++ vm_wire second)).

Definition encodeConfirmation (privateKey password : bytes) (local remote : version_metadata) :
    res handshake_error bytes :=
  hash ← confirmationHash password local remote;
  Ok (conf_magic ++ ed_Sign privateKey hash).

Definition decodeConfirmation (r publicKey password : bytes) (local remote : version_metadata) :
    res handshake_error bytes :=
  if negb (len publicKey =? Z.of_nat PublicKeySize) then Err ErrHandshakeInvalidConfirmation
  else
    '(bs, r) ← or_err ErrRead (wireChopSlice confirmationSize r);
    if negb (bool_decide (take 4 bs = conf_magic)) then Err ErrHandshakeInvalidConfirmation
    else
      hash ← confirmationHash password local remote;
      ok ← verify publicKey hash (drop 4 bs);
      if negb ok then Err ErrHandshakeInvalidConfirmation else Ok r.
End Handshake.

(** ** The encoding of honest metadata *)

Lemma bytes_gt_asym a b : bytes_gt a b = true → bytes_gt b a = false.
Proof.
  revert b. induction a as [|x a IH]; intros [|y b]; simpl; try done.
  destruct (Z.ltb_spec y x), (Z.ltb_spec x y); (done || lia || apply IH).
Qed.

Lemma bytes_gt_total a b : bytes_gt a b = false → bytes_gt b a = false → a = b.
Proof.
  revert b. induction a as [|x a IH]; intros [|y b]; simpl; try done.
  destruct (Z.ltb_spec y x), (Z.ltb_spec x y); try done. intros. f_equal; [lia|by apply IH].
Qed.

(** A type-length-value field. *)
Definition tlv (op : Z) (field : bytes) : bytes := be_bytes 2 op ++ be_bytes 2 (len field) ++ field.

Definition signed_fields (m : version_metadata) (nonce : bytes) : bytes :=
  tlv metaVersionMajor (be_bytes 2 (vm_majorVer m)) ++ tlv metaVersionMinor (be_bytes 2 (vm_minorVer m)) ++
  tlv metaPublicKey (vm_publicKey m) ++ tlv metaPriority [vm_priority m] ++
  tlv metaNonce nonce ++ tlv metaCapabilities (be_bytes 4 capabilityHandshakeConfirmation).

(** Metadata that a node sends. *)
Definition metadata_ok (m : version_metadata) : Prop :=
  is_u16 (vm_majorVer m) ∧ is_u16 (vm_minorVer m) ∧ length (vm_publicKey m) = PublicKeySize ∧
  is_byte (vm_priority m).

Section HandshakeLaws.
Context `{Blake2b} `{Ed25519Laws}.

Lemma length_tlv op field : length (tlv op field) = (4 + length field)%nat.
Proof. unfold tlv. rewrite !length_app, !length_be_bytes. lia. Qed.

Lemma length_signed_fields m nonce :
  metadata_ok m → length nonce = nonceSize → length (signed_fields m nonce) = 97%nat.
Proof.
  intros (_ & _ & Hk & _) Hn. unfold signed_fields.
  rewrite !length_app, !length_tlv, !length_be_bytes, Hk, Hn. done.
Qed.

(** The message: header, fields, transcript signature, legacy signature. *)
Definition handshake_bytes (fields tsig lsig : bytes) : bytes :=
  meta_magic ++ be_bytes 2 (len (fields ++ tlv metaTranscriptSignature tsig ++ lsig)) ++
  fields ++ tlv metaTranscriptSignature tsig ++ lsig.

Lemma version_encode_eq m nonce sk password hash lhash :
  metadata_ok m → length nonce = nonceSize → priv_ok sk →
  b2_sum512 password (handshakeDomain ++ signed_fields m nonce) = Some hash →
  b2_sum512 password (vm_publicKey m) = Some lhash →
  let bs := handshake_bytes (signed_fields m nonce) (ed_Sign sk hash) (ed_Sign sk lhash) in
  version_encode m (Some nonce) sk password =
    Ok (bs, VersionMetadata (vm_majorVer m) (vm_minorVer m) (vm_publicKey m) (vm_priority m) nonce
              capabilityHandshakeConfirmation (ed_Sign sk hash) bs).
Proof.
  intros Hm Hn [Hsk Hskb] Hh Hlh bs. unfold version_encode. cbn [or_err mbind res_bind].
  destruct (ed_Sign_ok sk hash Hsk Hskb) as [Hs1 _], (ed_Sign_ok sk lhash Hsk Hskb) as [Hs2 _].
  assert (u16 (len nonce) = len nonce) as -> by (unfold len; rewrite Hn; done).
  unfold append16. cbv zeta.
  match goal with |- context [handshakeHash _ (drop 6 ?x)] =>
    assert (x = meta_magic ++ [0; 0] ++ signed_fields m nonce) as Hd
      by (unfold signed_fields, tlv, len; rewrite !length_be_bytes; rewrite <- !app_assoc;
          destruct Hm as (_ & _ & Hk & _); rewrite Hk; done) end.
  rewrite Hd. unfold handshakeHash.
  change (drop 6 (meta_magic ++ [0; 0] ++ signed_fields m nonce)) with (signed_fields m nonce).
  rewrite Hh. cbn [or_err mbind res_bind].
  unfold legacyHandshakeHash. rewrite Hlh. cbn [or_err mbind res_bind].
  assert (u16 (len (ed_Sign sk hash)) = len (ed_Sign sk hash)) as -> by (unfold len; rewrite Hs1; done).
  rewrite <- !app_assoc.
  match goal with |- context [take 4 ?x] => assert (u16 (len x - 6) =
    len (signed_fields m nonce ++ tlv metaTranscriptSignature (ed_Sign sk hash) ++ ed_Sign sk lhash)) as -> end.
  { unfold len. rewrite !length_app, !length_tlv, !length_be_bytes, length_signed_fields, Hs1, Hs2 by done. reflexivity. }
  subst bs. unfold handshake_bytes, tlv. rewrite <- !app_assoc. reflexivity.
Qed.

(** ** Decoding the fields *)

Lemma decode_fields_step fuel all off op field rest m :
  is_u16 op → len field < 2 ^ 16 →
  decode_fields (S fuel) all off (tlv op field ++ rest) m None =
    '(m, signed) ← decode_field all off op field m None;
    decode_fields fuel all (off + 4 + length field) rest m signed.
Proof.
  intros Hop Hlen. pose proof (len_nonneg field). cbn [decode_fields].
  assert (length (tlv op field ++ rest) = 4 + length field + length rest)%nat as Hl
    by (by rewrite length_app, length_tlv).
  rewrite (proj2 (Z.ltb_ge (len (tlv op field ++ rest)) 4)) by (unfold len; lia).
  rewrite (bool_decide_false (is_Some None)) by apply is_Some_None.
  unfold tlv. rewrite <- !app_assoc.
  rewrite (take_app_length' (be_bytes 2 op)) by (by rewrite length_be_bytes).
  rewrite (drop_app_length' (be_bytes 2 op) _ 2) by (by rewrite length_be_bytes).
  rewrite take_app_length' by (by rewrite length_be_bytes).
  rewrite !be_val_bytes_small by (done || (unfold in_range; lia)).
  assert (drop 4 (be_bytes 2 op ++ be_bytes 2 (len field) ++ field ++ rest) = field ++ rest) as ->
    by (rewrite app_assoc; apply drop_app_length'; by rewrite length_app, !length_be_bytes).
  rewrite len_app, (proj2 (Z.ltb_ge _ _)) by (pose proof (len_nonneg rest); lia).
  rewrite to_nat_len, take_app_length, drop_app_length. done.
Qed.

(** The effect of each known field of the right length. *)
Lemma df_major all off f maj min pk prio nonce caps tsig wire :
  length f = 2%nat →
  decode_field all off metaVersionMajor f (VersionMetadata maj min pk prio nonce caps tsig wire) None =
    Ok (VersionMetadata (be_val f) min pk prio nonce caps tsig wire, None).
Proof. intros Hf. unfold decode_field, len. rewrite Hf. done. Qed.

Lemma df_minor all off f maj min pk prio nonce caps tsig wire :
  length f = 2%nat →
  decode_field all off metaVersionMinor f (VersionMetadata maj min pk prio nonce caps tsig wire) None =
    Ok (VersionMetadata maj (be_val f) pk prio nonce caps tsig wire, None).
Proof. intros Hf. unfold decode_field, len. rewrite Hf. done. Qed.

Lemma df_key all off f maj min pk prio nonce caps tsig wire :
  length f = PublicKeySize →
  decode_field all off metaPublicKey f (VersionMetadata maj min pk prio nonce caps tsig wire) None =
    Ok (VersionMetadata maj min f prio nonce caps tsig wire, None).
Proof. intros Hf. unfold decode_field, len. rewrite Hf. done. Qed.

Lemma df_prio all off f maj min pk prio nonce caps tsig wire :
  length f = 1%nat →
  decode_field all off metaPriority f (VersionMetadata maj min pk prio nonce caps tsig wire) None =
    Ok (VersionMetadata maj min pk (nth 0 f 0) nonce caps tsig wire, None).
Proof. intros Hf. unfold decode_field, len. rewrite Hf. done. Qed.

Lemma df_nonce all off f maj min pk prio nonce caps tsig wire :
  length f = length nonce →
  decode_field all off metaNonce f (VersionMetadata maj min pk prio nonce caps tsig wire) None =
    Ok (VersionMetadata maj min pk prio (copy nonce f) caps tsig wire, None).
Proof. intros Hf. unfold decode_field, len. rewrite Hf. simpl. by rewrite Z.eqb_refl. Qed.

Lemma df_caps all off f maj min pk prio nonce caps tsig wire :
  length f = 4%nat →
  decode_field all off metaCapabilities f (VersionMetadata maj min pk prio nonce caps tsig wire) None =
    Ok (VersionMetadata maj min pk prio nonce (be_val f) tsig wire, None).
Proof. intros Hf. unfold decode_field, len. rewrite Hf. done. Qed.

Lemma df_sig all off f maj min pk prio nonce caps tsig wire :
  length f = SignatureSize →
  decode_field all off metaTranscriptSignature f (VersionMetadata maj min pk prio nonce caps tsig wire) None =
    Ok (VersionMetadata maj min pk prio nonce caps f wire,
        match take off all with [] => None | fs => Some fs end).
Proof. intros Hf. unfold decode_field, len. rewrite Hf. done. Qed.

(** The fields of honest metadata, read back with the signature that follows. *)
Lemma decode_fields_honest fuel m nonce tsig wire :
  metadata_ok m → length nonce = nonceSize → length tsig = SignatureSize → (7 < fuel)%nat →
  let fields := signed_fields m nonce ++ tlv metaTranscriptSignature tsig in
  decode_fields fuel fields 0 fields
    (VersionMetadata 0 0 [] 0 (replicate nonceSize 0) 0 [] wire) None =
  Ok (VersionMetadata (vm_majorVer m) (vm_minorVer m) (vm_publicKey m) (vm_priority m) nonce
        capabilityHandshakeConfirmation tsig wire, Some (signed_fields m nonce)).
Proof.
  intros Hm Hn Hs Hf fields. pose proof (length_signed_fields m nonce Hm Hn) as Hsf.
  do 8 (destruct fuel as [|fuel]; [lia|]).
  assert (fields = tlv metaVersionMajor (be_bytes 2 (vm_majorVer m)) ++
    tlv metaVersionMinor (be_bytes 2 (vm_minorVer m)) ++ tlv metaPublicKey (vm_publicKey m) ++
    tlv metaPriority [vm_priority m] ++ tlv metaNonce nonce ++
    tlv metaCapabilities (be_bytes 4 capabilityHandshakeConfirmation) ++
    tlv metaTranscriptSignature tsig ++ []) as Hfs
    by (subst fields; unfold signed_fields; rewrite <- !app_assoc, app_nil_r; done).
  assert (take 97 fields = signed_fields m nonce) as Htake by (subst fields; by apply take_app_length').
  rewrite Hfs at 2. destruct Hm as (Hmaj & Hmin & Hk & Hp).
  assert (Hlk : len (vm_publicKey m) = 32) by (unfold len; by rewrite Hk).
  assert (Hln : len nonce = 32) by (unfold len; by rewrite Hn).
  assert (Hls : len tsig = 64) by (unfold len; by rewrite Hs).
  rewrite decode_fields_step, df_major by done. cbn [mbind res_bind].
  rewrite decode_fields_step, df_minor by done. cbn [mbind res_bind].
  rewrite decode_fields_step, df_key by (done || by rewrite Hlk). cbn [mbind res_bind].
  rewrite decode_fields_step, df_prio by done. cbn [mbind res_bind].
  rewrite decode_fields_step, df_nonce by (done || by rewrite Hln). cbn [mbind res_bind].
  rewrite decode_fields_step, df_caps by done. cbn [mbind res_bind].
  rewrite decode_fields_step, df_sig by (done || by rewrite Hls). cbn [mbind res_bind].
  rewrite !length_be_bytes, Hk, Hn. change (take _ fields) with (take 97 fields). rewrite Htake.
  rewrite !be_val_bytes_small by done. rewrite copy_full by (by rewrite length_replicate).
  destruct (signed_fields m nonce); done.
Qed.

Lemma ed_verify_sign sk hash :
  priv_ok sk → verify (ed_Public sk) hash (ed_Sign sk hash) = Ok true.
Proof.
  intros [Hl Hb]. destruct (ed_Public_ok sk Hl Hb) as [Hk _]. unfold verify, len. rewrite Hk.
  simpl. by rewrite ed_Verify_Sign.
Qed.

(** The decoder on a message whose parts have their lengths. *)
Lemma version_decode_bytes m nonce sk password hash lhash rest :
  metadata_ok m → length nonce = nonceSize → priv_ok sk → vm_publicKey m = ed_Public sk →
  b2_sum512 password (handshakeDomain ++ signed_fields m nonce) = Some hash →
  b2_sum512 password (vm_publicKey m) = Some lhash →
  let bs := handshake_bytes (signed_fields m nonce) (ed_Sign sk hash) (ed_Sign sk lhash) in
  version_decode version_zero (bs ++ rest) password =
    Ok (VersionMetadata (vm_majorVer m) (vm_minorVer m) (vm_publicKey m) (vm_priority m) nonce
          capabilityHandshakeConfirmation (ed_Sign sk hash) bs, rest).
Proof.
  intros Hm Hn Hsk Hpk Hh Hlh bs.
  destruct (ed_Sign_ok sk hash (proj1 Hsk) (proj2 Hsk)) as [Hs1 _].
  destruct (ed_Sign_ok sk lhash (proj1 Hsk) (proj2 Hsk)) as [Hs2 _].
  set (fields := signed_fields m nonce ++ tlv metaTranscriptSignature (ed_Sign sk hash)).
  assert (length fields = 165%nat) as Hlf
    by (subst fields; rewrite length_app, length_signed_fields, length_tlv, Hs1 by done; done).
  assert (bs = (meta_magic ++ be_bytes 2 (len (fields ++ ed_Sign sk lhash))) ++ fields ++ ed_Sign sk lhash)
    as Hbs by (subst bs fields; unfold handshake_bytes; rewrite <- !app_assoc; done).
  assert (len (fields ++ ed_Sign sk lhash) = 229) as Hlen
    by (unfold len; rewrite length_app, Hlf, Hs2; done).
  unfold version_decode. rewrite Hbs at 1. rewrite <- app_assoc.
  rewrite wireChopSlice_app by (by rewrite length_app, length_be_bytes). cbn [or_err mbind res_bind].
  rewrite take_app_length' by done. rewrite drop_app_length' by done.
  rewrite bool_decide_true by done. cbn [negb]. rewrite Hlen. cbn [be_bytes].
  change (be_val [u8 (Z.shiftr 229 (8 * Z.of_nat 1)); u8 (Z.shiftr 229 (8 * Z.of_nat 0))]) with 229.
  cbn [Z.ltb Z.compare Pos.compare Pos.compare_cont Z.of_nat SignatureSize].
  change (Z.to_nat 229) with 229%nat.
  rewrite wireChopSlice_app by (unfold len in Hlen; lia). cbn [or_err mbind res_bind].
  replace (length (fields ++ ed_Sign sk lhash) - SignatureSize)%nat with (length fields)
    by (rewrite length_app, Hs2; lia).
  rewrite take_app_length, drop_app_length.
  cbn [version_zero vm_majorVer vm_minorVer vm_publicKey vm_priority vm_nonce vm_capabilities
    vm_transcriptSignature].
  unfold fields at 2 3 4. rewrite decode_fields_honest; [|done|done|done|fold fields; lia].
  cbn [mbind res_bind vm_publicKey].
  assert (len (vm_publicKey m) =? Z.of_nat PublicKeySize = true) as ->
    by (destruct Hm as (_ & _ & Hk & _); unfold len; rewrite Hk; done).
  cbn [negb]. unfold legacyHandshakeHash. rewrite Hlh. cbn [or_err replace_err mbind res_bind].
  rewrite Hpk, ed_verify_sign by done. cbn [mbind res_bind negb].
  change (supportsHandshakeConfirmation _) with true. cbn iota.
  cbn [vm_transcriptSignature]. unfold len. rewrite Hs1.
  rewrite Z.eqb_refl. cbn [negb]. unfold handshakeHash. rewrite Hh.
  cbn [or_err replace_err mbind res_bind]. rewrite ed_verify_sign by done. cbn [mbind res_bind negb].
  do 3 f_equal. rewrite Hbs, Hlen. by rewrite app_assoc.
Qed.

(** C9: handshake_roundtrip.  The metadata message that a node produces for its
    own key is accepted by a peer with the same password: the peer reads back
    exactly the sender's metadata (versions, key, priority, nonce,
    capabilities, transcript signature, message) and stops at the end of the
    message; the version check then passes for the current version and a
    nonzero nonce. *)
Theorem handshake_roundtrip m nonce sk password hash lhash rest :
  metadata_ok m → length nonce = nonceSize → priv_ok sk → vm_publicKey m = ed_Public sk →
  b2_sum512 password (handshakeDomain ++ signed_fields m nonce) = Some hash →
  b2_sum512 password (vm_publicKey m) = Some lhash →
  ∃ bs m', version_encode m (Some nonce) sk password = Ok (bs, m') ∧
    version_decode version_zero (bs ++ rest) password = Ok (m', rest) ∧
    (vm_majorVer m', vm_minorVer m', vm_publicKey m', vm_priority m', vm_nonce m', vm_wire m') =
      (vm_majorVer m, vm_minorVer m, vm_publicKey m, vm_priority m, nonce, bs) ∧
    (vm_majorVer m = ProtocolVersionMajor → vm_minorVer m = ProtocolVersionMinor →
     nonce ≠ replicate nonceSize 0 → version_check m' = true).
Proof.
  intros Hm Hn Hsk Hpk Hh Hlh. eexists _, _.
  split; [by apply version_encode_eq|]. split; [by apply version_decode_bytes|].
  split; [done|]. intros Hmaj Hmin Hnz. unfold version_check. simpl. rewrite Hmaj, Hmin.
  destruct Hm as (_ & _ & Hk & _). unfold len. rewrite Hk, Hn. cbn [negb Z.eqb].
  rewrite bool_decide_false by done. done.
Qed.

Lemma confirmationHash_sym password a b :
  vm_publicKey a ≠ vm_publicKey b → confirmationHash password a b = confirmationHash password b a.
Proof.
  intros Hne. unfold confirmationHash. rewrite orb_comm.
  destruct (bytes_gt (vm_publicKey a) (vm_publicKey b)) eqn:Hab.
  - by rewrite (bytes_gt_asym _ _ Hab).
  - destruct (bytes_gt (vm_publicKey b) (vm_publicKey a)) eqn:Hba; [done|].
    by destruct Hne; apply bytes_gt_total.
Qed.

Lemma confirmation_accepted sk password (a b : version_metadata) hash rest :
  priv_ok sk → vm_publicKey a = ed_Public sk → vm_publicKey a ≠ vm_publicKey b →
  confirmationHash password a b = Ok hash →
  ∃ bs, encodeConfirmation sk password a b = Ok bs ∧ length bs = confirmationSize ∧
    decodeConfirmation (bs ++ rest) (vm_publicKey a) password b a = Ok rest.
Proof.
  intros Hsk Hpk Hne Hh. destruct (ed_Sign_ok sk hash (proj1 Hsk) (proj2 Hsk)) as [Hs _].
  exists (conf_magic ++ ed_Sign sk hash).
  assert (length (conf_magic ++ ed_Sign sk hash) = confirmationSize) as Hl
    by (by rewrite length_app, Hs).
  unfold encodeConfirmation, decodeConfirmation. rewrite <- (confirmationHash_sym _ _ _ Hne), Hh.
  split; [done|]. split; [done|].
  assert (len (vm_publicKey a) =? Z.of_nat PublicKeySize = true) as ->.
  { rewrite Hpk. destruct (ed_Public_ok sk (proj1 Hsk) (proj2 Hsk)) as [Hk _]. unfold len. by rewrite Hk. }
  cbn [negb]. rewrite wireChopSlice_app by done. cbn [or_err mbind res_bind].
  rewrite take_app_length' by done. rewrite drop_app_length' by done.
  rewrite bool_decide_true by done. cbn [negb mbind res_bind].
  rewrite Hpk, ed_verify_sign by done. done.
Qed.

(** confirmation_agreement.  The two sides of a connection, each with its
    own metadata as local and the other's as remote, compute the same
    confirmation hash as long as their keys differ, so the confirmation that
    one side signs is accepted by the other, which reads no further. *)
Theorem confirmation_agreement sk password (a b : version_metadata) hash rest :
  priv_ok sk → vm_publicKey a = ed_Public sk → vm_publicKey a ≠ vm_publicKey b →
  confirmationHash password a b = Ok hash →
  ∃ bs, encodeConfirmation sk password a b = Ok bs ∧ length bs = confirmationSize ∧
    decodeConfirmation (bs ++ rest) (vm_publicKey a) password b a = Ok rest.
Proof. apply confirmation_accepted. Qed.
End HandshakeLaws.

(** ** The decoder on arbitrary input *)

Section HandshakeSafety.
Context `{Blake2b} `{Ed25519}.

(** What [decode_fields] keeps: the fields read so far, and for the transcript
    signature that it covers everything before it. *)
Definition fields_inv (all : bytes) (off : nat) (m : version_metadata) (signed : option bytes) : Prop :=
  match signed with
  | None => True
  | Some fs => ∃ hdr, length hdr = 4%nat ∧ take off all = fs ++ hdr ++ vm_transcriptSignature m
  end.

Lemma decode_field_spec all off op field m m' signed :
  decode_field all off op field m None = Ok (m', signed) →
  vm_wire m' = vm_wire m ∧
  (signed = None ∨ (signed = Some (take off all) ∧ vm_transcriptSignature m' = field)).
Proof.
  destruct m. unfold decode_field. intros Hd.
  repeat (case_match; simplify_eq/=; try (by split; [|left])); (split; [done|]); auto.
Qed.

Lemma decode_field_no_panic all off op field m signed : decode_field all off op field m signed ≠ Panic.
Proof. destruct m. unfold decode_field. repeat case_match; done. Qed.

Lemma decode_fields_spec fuel all off bs m signed :
  (length bs < fuel)%nat → (off <= length all)%nat → bs = drop off all → fields_inv all off m signed →
  match decode_fields fuel all off bs m signed with
  | Ok (m', signed') => vm_wire m' = vm_wire m ∧ fields_inv all (length all) m' signed'
  | Err _ => True
  | Panic => False
  end.
Proof.
  revert off bs m signed. induction fuel as [|fuel IH]; intros off bs m signed Hf Hoff Hbs Hinv; [lia|].
  assert (length bs = length all - off)%nat as Hlb by (subst bs; apply length_drop).
  cbn [decode_fields]. destruct (Z.ltb_spec (len bs) 4) as [Hlt|Hge].
  { destruct (Z.eqb_spec (len bs) 0) as [Hz|]; [|done]. cbn [negb]. split; [done|].
    unfold len in Hz. by replace (length all) with off by lia. }
  destruct signed as [fs|]; [by rewrite bool_decide_true by (by eexists)|].
  rewrite (bool_decide_false (is_Some None)) by apply is_Some_None.
  set (oplen := Z.to_nat (be_val (take 2 (drop 2 bs)))).
  destruct (Z.ltb_spec (len (drop 4 bs)) (be_val (take 2 (drop 2 bs)))) as [|Hop]; [done|].
  assert (4 + oplen <= length bs)%nat as Hle.
  { unfold len in Hop, Hge. rewrite length_drop in Hop. subst oplen. lia. }
  destruct (decode_field _ _ _ _ _ _) as [[m1 signed1]|e|] eqn:Hd;
    [|done|by apply decode_field_no_panic in Hd].
  cbn [mbind res_bind]. apply decode_field_spec in Hd as [Hw Hs].
  assert (fields_inv all (off + 4 + oplen) m1 signed1) as Hinv1.
  { destruct Hs as [->|[-> Ht]]; [done|]. exists (take 4 bs).
    split; [rewrite length_take; lia|]. rewrite Ht. subst bs.
    rewrite app_assoc, take_take_drop, drop_drop, take_take_drop. done. }
  specialize (IH (off + 4 + oplen)%nat (drop oplen (drop 4 bs)) m1 signed1
    ltac:(rewrite !length_drop; lia) ltac:(lia)
    ltac:(subst bs; rewrite !drop_drop; f_equal; lia) Hinv1).
  fold oplen. destruct (decode_fields _ _ _ _ _ _) as [[m' signed']|e|]; [|done|done].
  destruct IH as [Hw' Hi']. by rewrite Hw'.
Qed.

(** The transcript signature covers all the fields before it, and is the last. *)
Definition transcript_authentic (password : bytes) (m : version_metadata) (fields : bytes) : Prop :=
  ∃ signed op hash, fields = signed ++ op ++ vm_transcriptSignature m ∧ length op = 4%nat ∧
    length (vm_transcriptSignature m) = SignatureSize ∧
    b2_sum512 password (handshakeDomain ++ signed) = Some hash ∧
    ed_Verify (vm_publicKey m) hash (vm_transcriptSignature m) = true.

(** The message of [m] is a header, the fields and a signature of the key. *)
Definition handshake_authentic (password : bytes) (m : version_metadata) : Prop :=
  length (vm_publicKey m) = PublicKeySize ∧
  ∃ hdr fields sig lhash, vm_wire m = hdr ++ fields ++ sig ∧ length hdr = 6%nat ∧
    length sig = SignatureSize ∧ b2_sum512 password (vm_publicKey m) = Some lhash ∧
    ed_Verify (vm_publicKey m) lhash sig = true ∧
    (supportsHandshakeConfirmation m = true → transcript_authentic password m fields).

Lemma version_decode_spec (r password : bytes) :
  match version_decode version_zero r password with
  | Ok (m, r') => r = vm_wire m ++ r' ∧ handshake_authentic password m
  | Err _ => True
  | Panic => False
  end.
Proof.
  unfold version_decode.
  destruct (wireChopSlice 6 r) as [[bh r1]|] eqn:H6; cbn [or_err mbind res_bind]; [|done].
  pose proof (wireChopSlice_Some _ _ _ _ H6) as L6. apply wireChopSlice_split in H6.
  destruct (negb _); [done|]. destruct (Z.ltb_spec (be_val (drop 4 bh)) (Z.of_nat SignatureSize)); [done|].
  destruct (wireChopSlice _ r1) as [[bs r2]|] eqn:Hb; cbn [or_err mbind res_bind]; [|done].
  pose proof (wireChopSlice_Some _ _ _ _ Hb) as Lb. apply wireChopSlice_split in Hb.
  set (fields := take (length bs - SignatureSize) bs).
  match goal with |- context [decode_fields ?f ?a ?o ?b ?m0 ?s] =>
    pose proof (decode_fields_spec f a o b m0 s ltac:(lia) ltac:(lia) eq_refl I) as Hd;
    destruct (decode_fields f a o b m0 s) as [[m signed]|e|] end; cbn [mbind res_bind]; [|done|done].
  destruct Hd as [Hw Hinv]. simpl in Hw.
  destruct (Z.eqb_spec (len (vm_publicKey m)) (Z.of_nat PublicKeySize)) as [Hk|]; cbn [negb]; [|done].
  assert (Hv : ∀ h s, verify (vm_publicKey m) h s = Ok (ed_Verify (vm_publicKey m) h s))
    by (intros; unfold verify; by rewrite Hk, Z.eqb_refl).
  unfold legacyHandshakeHash. destruct (b2_sum512 password (vm_publicKey m)) as [lhash|] eqn:Hlh;
    cbn [or_err replace_err mbind res_bind]; [|done].
  rewrite Hv. cbn [mbind res_bind]. destruct (ed_Verify _ lhash _) eqn:Hver; cbn [negb]; [|done].
  assert (Hmain : (supportsHandshakeConfirmation m = true → transcript_authentic password m fields) →
    r = vm_wire m ++ r2 ∧ handshake_authentic password m).
  { intros Hsup. split; [by rewrite Hw, H6, Hb, app_assoc|]. split; [unfold len in Hk; lia|].
    exists bh, fields, (drop (length bs - SignatureSize) bs), lhash.
    split_and!; try done; [subst fields; by rewrite Hw, take_drop|]. rewrite length_drop. lia. }
  destruct (supportsHandshakeConfirmation m) eqn:Hsup; [|by apply Hmain].
  destruct signed as [signed|]; [|done].
  destruct (Z.eqb_spec (len (vm_transcriptSignature m)) (Z.of_nat SignatureSize)) as [Ht|]; cbn [negb]; [|done].
  unfold handshakeHash. destruct (b2_sum512 password (handshakeDomain ++ signed)) as [hash|] eqn:Hh;
    cbn [or_err replace_err mbind res_bind]; [|done].
  rewrite Hv. cbn [mbind res_bind]. destruct (ed_Verify _ hash _) eqn:Hver2; cbn [negb]; [|done].
  apply Hmain. intros _. destruct Hinv as (op & Hop & Hall). exists signed, op, hash.
  rewrite take_ge in Hall by lia. split_and!; try done. unfold len in Ht. lia.
Qed.

(** C8: handshake_decode_safe.  On any bytes from the network the handshake
    decoder never panics.  If it accepts, it has consumed exactly the message,
    the sender's key has 32 bytes and signed the keyed hash of that key; and
    when the sender announces confirmation support, the transcript signature
    verifies, under the same password, over all the fields of the message
    before it, and no field follows it. *)
Theorem handshake_decode_safe (r password : bytes) :
  match version_decode version_zero r password with
  | Ok (m, r') => r = vm_wire m ++ r' ∧ handshake_authentic password m
  | Err _ => True
  | Panic => False
  end.
Proof. exact (version_decode_spec r password). Qed.
End HandshakeSafety.

(** ** Witnesses *)
Module HandshakeWitness.
Import ToySig.

#[export] Instance toy_blake2b : Blake2b := {
  b2_sum512 key data :=
    if (64 <? len key) then None else Some (be_bytes 64 (checksum (key ++ [0] ++ data)));
}.

Definition sk (b : Z) : bytes := replicate 64 b.
Definition meta_of (b : Z) : version_metadata :=
  VersionMetadata ProtocolVersionMajor ProtocolVersionMinor (replicate 32 b) 7 (replicate nonceSize 0) 0 [] [].
Definition nonce_of (b : Z) : bytes := replicate nonceSize (b + 1).
Definition pw : bytes := [115; 101; 99].

Lemma sk_ok b : is_byte b → priv_ok (sk b).
Proof. intros Hb. split; [done|]. by apply bytes_ok_replicate. Qed.

Lemma handshake_roundtrip_witness :
  ∃ bs m', version_encode (meta_of 3) (Some (nonce_of 3)) (sk 3) pw = Ok (bs, m') ∧
    version_decode version_zero (bs ++ [1; 2; 3]) pw = Ok (m', [1; 2; 3]) ∧ version_check m' = true.
Proof.
  destruct (handshake_roundtrip (meta_of 3) (nonce_of 3) (sk 3) pw
    (be_bytes 64 (checksum (pw ++ [0] ++ handshakeDomain ++ signed_fields (meta_of 3) (nonce_of 3))))
    (be_bytes 64 (checksum (pw ++ [0] ++ vm_publicKey (meta_of 3)))) [1; 2; 3])
    as (bs & m' & He & Hd & _ & Hc).
  - split_and!; done.
  - done.
  - by apply sk_ok.
  - reflexivity.
  - reflexivity.
  - reflexivity.
  - exists bs, m'. split_and!; [exact He|exact Hd|]. apply Hc; done.
Defined.

Definition peer_meta (b : Z) : version_metadata :=
  match version_encode (meta_of b) (Some (nonce_of b)) (sk b) pw with
  | Ok (_, m) => m
  | _ => version_zero
  end.

Lemma confirmation_agreement_witness :
  ∃ bs, encodeConfirmation (sk 3) pw (peer_meta 3) (peer_meta 5) = Ok bs ∧ length bs = confirmationSize ∧
    decodeConfirmation (bs ++ []) (vm_publicKey (peer_meta 3)) pw (peer_meta 5) (peer_meta 3) = Ok [].
Proof.
  apply (confirmation_agreement (sk 3) pw (peer_meta 3) (peer_meta 5)
    (be_bytes 64 (checksum (pw ++ [0] ++ confirmationDomain ++ vm_wire (peer_meta 3) ++ vm_wire (peer_meta 5)))) []).
  - by apply sk_ok.
  - reflexivity.
  - done.
  - vm_compute. reflexivity.
Defined.
End HandshakeWitness.
