(* ===== verification/KeyStore.v ===== *)
(** * KeyStore: IPv6 packets between the TUN side and the network
    (src/ipv6rwc/ipv6rwc.go, src/ipv6rwc/icmpv6.go)

    The key store maps addresses and subnets to node keys, buffers one packet
    per unknown destination while the key is looked up, and filters packets in
    both directions.  Pointers to [keyInfo] and [buffer] values carry an
    identity, because the timer callbacks compare them.  Each critical section
    of the code (under [k.mutex]) is one operation; the packets and lookups that
    leave the node are the outputs of the operation. *)

From S2P Require Import Prelude Binary Wire Address.

(** ** ICMPv6 messages *)

Record ipv6_Header := Ipv6Header {
  h_Version : Z;
  h_TrafficClass : Z;
  h_FlowLabel : Z;
  h_PayloadLen : Z;
  h_NextHeader : Z;
  h_HopLimit : Z;
  h_Src : bytes;
  h_Dst : bytes;
}.

Definition ipv6Header_Marshal (h : ipv6_Header) : bytes :=
  [Z.lor (u8 (Z.shiftl (u8 (h_Version h)) 4)) (Z.shiftr (u8 (h_TrafficClass h)) 4);
   Z.lor (u8 (Z.shiftl (u8 (h_TrafficClass h)) 4)) (u8 (Z.shiftr (h_FlowLabel h) 16));
   u8 (Z.shiftr (h_FlowLabel h) 8);
   u8 (h_FlowLabel h)] ++
  be_bytes 2 (u16 (h_PayloadLen h)) ++
  [u8 (h_NextHeader h); u8 (h_HopLimit h)] ++
  copy (replicate 16 0) (h_Src h) ++ copy (replicate 16 0) (h_Dst h).

(** [icmp.Message.Marshal] with the pseudo header of source and destination,
    for a Packet Too Big body of an MTU and the start of the packet. *)
Class IcmpMarshal := {
  icmp_PacketTooBig : bytes → bytes → Z → bytes → option bytes;
}.

Definition ipv6_HeaderLen : nat := 40.

Definition CreateICMPv6 `{IcmpMarshal} (dst src : bytes) (mtu : Z) (data : bytes) : option bytes :=
  icmpMessageBuf ← icmp_PacketTooBig src dst mtu data;
  let ipv6Header := Ipv6Header 6 0 0 (len icmpMessageBuf) 58 255 src dst in
  let ipv6HeaderBuf := ipv6Header_Marshal ipv6Header in
  Some (copy (replicate ipv6_HeaderLen 0) ipv6HeaderBuf ++
        copy (replicate (length icmpMessageBuf) 0) icmpMessageBuf).

(** ** The state *)

Record keyInfo := KeyInfo {
  ki_id : nat;             (* identity of the pointer *)
  ki_key : bytes;
  ki_address : bytes;
  ki_subnet : bytes;
}.

#[export] Instance keyInfo_eq_dec : EqDecision keyInfo.
Proof. solve_decision. Defined.

Record buffer := Buffer { buf_id : nat; buf_packet : bytes }.

(** What a pending [time.AfterFunc] does when it runs. *)
Inductive timer_callback :=
| ExpireInfo (info : keyInfo)
| ExpireAddrBuffer (addr : bytes) (buf : nat)
| ExpireSubnetBuffer (subnet : bytes) (buf : nat).

#[export] Instance timer_callback_eq_dec : EqDecision timer_callback.
Proof. solve_decision. Defined.

Record keyStore := KeyStore_ {
  ks_address : bytes;
  ks_subnet : bytes;
  ks_keyToInfo : gmap bytes keyInfo;
  ks_addrToInfo : gmap bytes keyInfo;
  ks_addrBuffer : gmap bytes buffer;
  ks_subnetToInfo : gmap bytes keyInfo;
  ks_subnetBuffer : gmap bytes buffer;
  ks_mtu : Z;
  ks_next : nat;                          (* next pointer identity *)
  ks_timers : list timer_callback;        (* armed timers *)
  ks_running : list timer_callback;       (* expired, callback not yet in the mutex *)
}.

(** Calls into the core. *)
Inductive ks_output :=
| WriteTo (bs key : bytes)
| SendLookup (partial : bytes).

Definition ks_init (publicKey : bytes) : option keyStore :=
  a ← AddrForKey publicKey;
  s ← SubnetForKey publicKey;
  Some (KeyStore_ a s ∅ ∅ ∅ ∅ ∅ 1280 0 [] []).

(** [resetTimeout]: the armed timer of the entry, if any, is stopped. *)
Definition resetTimeout (k : keyStore) (info : keyInfo) : keyStore :=
  KeyStore_ (ks_address k) (ks_subnet k) (ks_keyToInfo k) (ks_addrToInfo k) (ks_addrBuffer k)
    (ks_subnetToInfo k) (ks_subnetBuffer k) (ks_mtu k) (ks_next k)
    (ExpireInfo info :: filter (λ t, t ≠ ExpireInfo info) (ks_timers k)) (ks_running k).

Definition sendToAddress (k : keyStore) (addr bs : bytes) : keyStore * list ks_output :=
  match ks_addrToInfo k !! addr with
  | Some info => (resetTimeout k info, [WriteTo bs (ki_key info)])
  | None =>
      let id := match ks_addrBuffer k !! addr with Some buf => buf_id buf | None => ks_next k end in
      let next := match ks_addrBuffer k !! addr with Some _ => ks_next k | None => S (ks_next k) end in
      let cb := ExpireAddrBuffer addr id in
      (KeyStore_ (ks_address k) (ks_subnet k) (ks_keyToInfo k) (ks_addrToInfo k)
         (<[addr := Buffer id bs]> (ks_addrBuffer k)) (ks_subnetToInfo k) (ks_subnetBuffer k)
         (ks_mtu k) next (cb :: filter (λ t, t ≠ cb) (ks_timers k)) (ks_running k),
       [SendLookup (Address_GetKey addr)])
  end.

Definition sendToSubnet (k : keyStore) (subnet bs : bytes) : keyStore * list ks_output :=
  match ks_subnetToInfo k !! subnet with
  | Some info => (resetTimeout k info, [WriteTo bs (ki_key info)])
  | None =>
      let id := match ks_subnetBuffer k !! subnet with Some buf => buf_id buf | None => ks_next k end in
      let next := match ks_subnetBuffer k !! subnet with Some _ => ks_next k | None => S (ks_next k) end in
      let cb := ExpireSubnetBuffer subnet id in
      (KeyStore_ (ks_address k) (ks_subnet k) (ks_keyToInfo k) (ks_addrToInfo k) (ks_addrBuffer k)
         (ks_subnetToInfo k) (<[subnet := Buffer id bs]> (ks_subnetBuffer k))
         (ks_mtu k) next (cb :: filter (λ t, t ≠ cb) (ks_timers k)) (ks_running k),
       [SendLookup (Subnet_GetKey subnet)])
  end.

(** The new entry of [update] for a key that is not known: the maps, the
    packets that were waiting, and their removal from the buffers. *)
Definition update_new (k : keyStore) (info : keyInfo) : keyStore * list bytes :=
  let p1 := match ks_addrBuffer k !! ki_address info with Some buf => [buf_packet buf] | None => [] end in
  let p2 := match ks_subnetBuffer k !! ki_subnet info with Some buf => [buf_packet buf] | None => [] end in
  (KeyStore_ (ks_address k) (ks_subnet k)
     (<[ki_key info := info]> (ks_keyToInfo k))
     (<[ki_address info := info]> (ks_addrToInfo k))
     (delete (ki_address info) (ks_addrBuffer k))
     (<[ki_subnet info := info]> (ks_subnetToInfo k))
     (delete (ki_subnet info) (ks_subnetBuffer k))
     (ks_mtu k) (S (ks_next k)) (ks_timers k) (ks_running k),
   p1 ++ p2).

(** [update]; the key is copied into a 32-byte array, so its address and
    subnet exist ([update_info_wf]). *)
Definition update_info (k : keyStore) (kArray : bytes) : keyInfo :=
  KeyInfo (ks_next k) kArray (default [] (AddrForKey kArray)) (default [] (SubnetForKey kArray)).

Definition update (k : keyStore) (key : bytes) : keyStore * list ks_output * keyInfo :=
  let kArray := copy (replicate PublicKeySize 0) key in
  match ks_keyToInfo k !! kArray with
  | Some info => (resetTimeout k info, [], info)
  | None =>
      let info := update_info k kArray in
      let '(k, packets) := update_new k info in
      (resetTimeout k info, (λ packet, WriteTo packet (ki_key info)) <$> packets, info)
  end.

Inductive writePC_error :=
| EmptyPacket | NotIPv6 | UndersizedPacket (n : Z) | IncorrectSource (src : bytes) | InvalidDestination.

(** The address fields of a packet, copied into fixed-size arrays. *)
Definition src_addr (bs : bytes) : bytes := copy (replicate 16 0) (drop 8 bs).
Definition dst_addr (bs : bytes) : bytes := copy (replicate 16 0) (drop 24 bs).
Definition src_subnet (bs : bytes) : bytes := copy (replicate 8 0) (drop 8 bs).
Definition dst_subnet (bs : bytes) : bytes := copy (replicate 8 0) (drop 24 bs).

Definition writePC (k : keyStore) (bs : bytes) : keyStore * list ks_output * res writePC_error Z :=
  if len bs =? 0 then (k, [], Err EmptyPacket)
  else if negb (Z.land (nth 0 bs 0) 0xf0 =? 0x60) then (k, [], Err NotIPv6)
  else if len bs <? 40 then (k, [], Err (UndersizedPacket (len bs)))
  else if negb (bool_decide (src_addr bs = ks_address k)) && negb (bool_decide (src_subnet bs = ks_subnet k))
  then (k, [], Err (IncorrectSource (src_addr bs)))
  else if Address_IsValid (dst_addr bs) then
    let '(k, out) := sendToAddress k (dst_addr bs) bs in (k, out, Ok (len bs))
  else if Subnet_IsValid (dst_subnet bs) then
    let '(k, out) := sendToSubnet k (dst_subnet bs) bs in (k, out, Ok (len bs))
  else (k, [], Err InvalidDestination).

(** One iteration of the loop of [readPC] on a packet [bs] received from
    [from]: [Some] is the packet delivered to the reader, [None] a [continue]. *)
Definition readPC_step `{IcmpMarshal} (k : keyStore) (bs from : bytes) :
    keyStore * list ks_output * option bytes :=
  if len bs =? 0 then (k, [], None)
  else if negb (Z.land (nth 0 bs 0) 0xf0 =? 0x60) then (k, [], None)
  else if len bs <? 40 then (k, [], None)
  else if ks_mtu k <? len bs then
    let buf := copy (replicate 512 0) bs in
    let cn := Nat.min 512 (length bs) in
    match CreateICMPv6 (take 16 (drop 8 buf)) (take 16 (drop 24 buf)) (ks_mtu k) (take cn buf) with
    | Some packet => let '(k, out, _) := writePC k packet in (k, out, None)
    | None => (k, [], None)
    end
  else if negb (bool_decide (dst_addr bs = ks_address k)) && negb (bool_decide (dst_subnet bs = ks_subnet k))
  then (k, [], None)
  else
    let '(k, out, info) := update k from in
    if negb (bool_decide (src_addr bs = ki_address info)) && negb (bool_decide (src_subnet bs = ki_subnet info))
    then (k, out, None)
    else (k, out, Some bs).

(** [SetMTU]; [maxMTU] is the limit of the core. *)
Definition SetMTU (maxMTU : Z) (k : keyStore) (mtu : Z) : keyStore :=
  let mtu := if maxMTU <? mtu then maxMTU else mtu in
  let mtu := if mtu <? 1280 then 1280 else mtu in
  KeyStore_ (ks_address k) (ks_subnet k) (ks_keyToInfo k) (ks_addrToInfo k) (ks_addrBuffer k)
    (ks_subnetToInfo k) (ks_subnetBuffer k) mtu (ks_next k) (ks_timers k) (ks_running k).

(** Deleting an entry only when it still holds the same pointer. *)
Definition delete_if {A} (same : A → bool) (i : bytes) (m : gmap bytes A) : gmap bytes A :=
  match m !! i with
  | Some x => if same x then delete i m else m
  | None => m
  end.

(** The body of a timer callback. *)
Definition run_callback (k : keyStore) (t : timer_callback) : keyStore :=
  match t with
  | ExpireInfo info =>
      KeyStore_ (ks_address k) (ks_subnet k)
        (delete_if (λ nfo, bool_decide (nfo = info)) (ki_key info) (ks_keyToInfo k))
        (delete_if (λ nfo, bool_decide (nfo = info)) (ki_address info) (ks_addrToInfo k))
        (ks_addrBuffer k)
        (delete_if (λ nfo, bool_decide (nfo = info)) (ki_subnet info) (ks_subnetToInfo k))
        (ks_subnetBuffer k) (ks_mtu k) (ks_next k) (ks_timers k) (ks_running k)
  | ExpireAddrBuffer addr id =>
      KeyStore_ (ks_address k) (ks_subnet k) (ks_keyToInfo k) (ks_addrToInfo k)
        (delete_if (λ b, buf_id b =? id)%nat addr (ks_addrBuffer k))
        (ks_subnetToInfo k) (ks_subnetBuffer k) (ks_mtu k) (ks_next k) (ks_timers k) (ks_running k)
  | ExpireSubnetBuffer subnet id =>
      KeyStore_ (ks_address k) (ks_subnet k) (ks_keyToInfo k) (ks_addrToInfo k) (ks_addrBuffer k)
        (ks_subnetToInfo k) (delete_if (λ b, buf_id b =? id)%nat subnet (ks_subnetBuffer k))
        (ks_mtu k) (ks_next k) (ks_timers k) (ks_running k)
  end.

(** A timer expires: its callback waits for the mutex and can no longer be
    stopped.  The callback runs. *)
Definition timer_fire (k : keyStore) (t : timer_callback) : keyStore :=
  KeyStore_ (ks_address k) (ks_subnet k) (ks_keyToInfo k) (ks_addrToInfo k) (ks_addrBuffer k)
    (ks_subnetToInfo k) (ks_subnetBuffer k) (ks_mtu k) (ks_next k)
    (filter (λ u, u ≠ t) (ks_timers k)) (t :: ks_running k).

Definition timer_run (k : keyStore) (t : timer_callback) : keyStore :=
  let k := run_callback k t in
  KeyStore_ (ks_address k) (ks_subnet k) (ks_keyToInfo k) (ks_addrToInfo k) (ks_addrBuffer k)
    (ks_subnetToInfo k) (ks_subnetBuffer k) (ks_mtu k) (ks_next k) (ks_timers k)
    (filter (λ u, u ≠ t) (ks_running k)).

(** ** Interleavings: the operations of all goroutines and timers, in any order *)

Inductive ks_step `{IcmpMarshal} : keyStore → list ks_output → keyStore → Prop :=
| ks_write k bs k' out r : writePC k bs = (k', out, r) → ks_step k out k'
| ks_notify k key k' out info : update k key = (k', out, info) → ks_step k out k'
| ks_read k bs from k' out d : readPC_step k bs from = (k', out, d) → ks_step k out k'
| ks_setMTU k maxMTU mtu : ks_step k [] (SetMTU maxMTU k mtu)
| ks_fire k t : t ∈ ks_timers k → ks_step k [] (timer_fire k t)
| ks_run k t : t ∈ ks_running k → ks_step k [] (timer_run k t).

Inductive ks_trace `{IcmpMarshal} : keyStore → list ks_output → keyStore → Prop :=
| trace_nil k : ks_trace k [] k
| trace_step k out k' outs k'' : ks_step k out k' → ks_trace k' outs k'' → ks_trace k (out ++ outs) k''.

(** [readPC] on the packets that [ReadFrom] returns: how many bytes were copied
    into [p], the new contents of [p] and the packets not yet read; [None] when
    the packets run out first and the call waits. *)
Fixpoint readPC `{IcmpMarshal} (k : keyStore) (incoming : list (bytes * bytes)) (p : bytes) :
    keyStore * list ks_output * option (Z * bytes * list (bytes * bytes)) :=
  match incoming with
  | [] => (k, [], None)
  | (bs, from) :: incoming =>
      let '(k, out, d) := readPC_step k bs from in
      match d with
      | Some bs => (k, out, Some (Z.min (len p) (len bs), copy p bs, incoming))
      | None => let '(k, out', r) := readPC k incoming p in (k, out ++ out', r)
      end
  end.

(** ** The invariant *)

(** An IPv6 packet with a source of this node. *)
Definition pkt_ours (addr subnet bs : bytes) : Prop :=
  40 <= len bs ∧ Z.land (nth 0 bs 0) 0xf0 = 0x60 ∧ (src_addr bs = addr ∨ src_subnet bs = subnet).

Definition info_wf (i : keyInfo) : Prop :=
  length (ki_key i) = PublicKeySize ∧ AddrForKey (ki_key i) = Some (ki_address i) ∧
  SubnetForKey (ki_key i) = Some (ki_subnet i).

Record ks_ok (addr subnet : bytes) (k : keyStore) : Prop := {
  ko_self : ks_address k = addr ∧ ks_subnet k = subnet;
  ko_keys : ∀ key i, ks_keyToInfo k !! key = Some i → info_wf i ∧ ki_key i = key;
  ko_addrs : ∀ a i, ks_addrToInfo k !! a = Some i → info_wf i ∧ ki_address i = a;
  ko_subnets : ∀ s i, ks_subnetToInfo k !! s = Some i → info_wf i ∧ ki_subnet i = s;
  ko_addrBuffer : ∀ a b, ks_addrBuffer k !! a = Some b →
    pkt_ours addr subnet (buf_packet b) ∧ dst_addr (buf_packet b) = a;
  ko_subnetBuffer : ∀ s b, ks_subnetBuffer k !! s = Some b →
    pkt_ours addr subnet (buf_packet b) ∧ dst_subnet (buf_packet b) = s;
  ko_mtu : 1280 <= ks_mtu k;
}.

(** What may leave the node. *)
Definition out_ok (addr subnet : bytes) (o : ks_output) : Prop :=
  match o with
  | WriteTo bs key =>
      pkt_ours addr subnet bs ∧ length key = PublicKeySize ∧
      (AddrForKey key = Some (dst_addr bs) ∨ SubnetForKey key = Some (dst_subnet bs))
  | SendLookup partial =>
      (∃ a, Address_IsValid a = true ∧ partial = Address_GetKey a) ∨
      (∃ s, Subnet_IsValid s = true ∧ partial = Subnet_GetKey s)
  end.

(** The bool conditions of the code, as propositions. *)
Lemma neither_dec {A B} `{EqDecision A, EqDecision B} (a a' : A) (b b' : B) :
  negb (bool_decide (a = a')) && negb (bool_decide (b = b')) = false ↔ a = a' ∨ b = b'.
Proof. repeat case_bool_decide; naive_solver. Qed.

Lemma delete_if_lookup {A} (same : A → bool) (i : bytes) (m : gmap bytes A) (j : bytes) (x : A) :
  delete_if same i m !! j = Some x → m !! j = Some x.
Proof.
  unfold delete_if. destruct (m !! i) as [y|]; [|done]. destruct (same y); [|done].
  by intros [_ ?]%lookup_delete_Some.
Qed.

Lemma ks_init_ok publicKey k :
  ks_init publicKey = Some k → ks_ok (ks_address k) (ks_subnet k) k.
Proof.
  unfold ks_init. destruct (AddrForKey publicKey); simpl; [|done].
  destruct (SubnetForKey publicKey); simpl; [|done]. intros. simplify_eq.
  split; simpl; try done; intros ??; by rewrite lookup_empty.
Qed.

Section Invariant.
Context (addr subnet : bytes).

Lemma resetTimeout_ok k info : ks_ok addr subnet k → ks_ok addr subnet (resetTimeout k info).
Proof. intros []. by split. Qed.

Lemma insert_lookup_case {A} (i : bytes) (x : A) (m : gmap bytes A) (j : bytes) (y : A) (P : bytes → A → Prop) :
  P i x → (∀ j y, m !! j = Some y → P j y) → <[i := x]> m !! j = Some y → P j y.
Proof. intros Hx Hm [[<- <-]|[_ Hj]]%lookup_insert_Some; auto. Qed.

Lemma delete_lookup_case {A} (i : bytes) (m : gmap bytes A) (j : bytes) (y : A) (P : bytes → A → Prop) :
  (∀ j y, m !! j = Some y → P j y) → delete i m !! j = Some y → P j y.
Proof. intros Hm [_ Hj]%lookup_delete_Some; auto. Qed.

Lemma sendToAddress_ok k bs k' out :
  ks_ok addr subnet k → pkt_ours addr subnet bs → Address_IsValid (dst_addr bs) = true →
  sendToAddress k (dst_addr bs) bs = (k', out) → ks_ok addr subnet k' ∧ Forall (out_ok addr subnet) out.
Proof.
  intros Hk Hbs Hv. unfold sendToAddress. destruct (ks_addrToInfo k !! dst_addr bs) as [info|] eqn:Hi.
  - intros [= <- <-]. split; [by apply resetTimeout_ok|]. constructor; [|done].
    destruct (ko_addrs _ _ _ Hk _ _ Hi) as [(Hl & Ha & _) Hd]. simpl. rewrite Ha, Hd. auto.
  - intros [= <- <-]. split; [|constructor; [left; by eexists|done]]. destruct Hk. split; simpl; try done.
    intros a b. by apply (insert_lookup_case _ _ _ _ _
      (λ a b, pkt_ours addr subnet (buf_packet b) ∧ dst_addr (buf_packet b) = a)).
Qed.

Lemma sendToSubnet_ok k bs k' out :
  ks_ok addr subnet k → pkt_ours addr subnet bs → Subnet_IsValid (dst_subnet bs) = true →
  sendToSubnet k (dst_subnet bs) bs = (k', out) → ks_ok addr subnet k' ∧ Forall (out_ok addr subnet) out.
Proof.
  intros Hk Hbs Hv. unfold sendToSubnet. destruct (ks_subnetToInfo k !! dst_subnet bs) as [info|] eqn:Hi.
  - intros [= <- <-]. split; [by apply resetTimeout_ok|]. constructor; [|done].
    destruct (ko_subnets _ _ _ Hk _ _ Hi) as [(Hl & _ & Ha) Hd]. simpl. rewrite Ha, Hd. auto.
  - intros [= <- <-]. split; [|constructor; [right; by eexists|done]]. destruct Hk. split; simpl; try done.
    intros a b. by apply (insert_lookup_case _ _ _ _ _
      (λ a b, pkt_ours addr subnet (buf_packet b) ∧ dst_subnet (buf_packet b) = a)).
Qed.

Lemma writePC_ok k bs k' out r :
  ks_ok addr subnet k → writePC k bs = (k', out, r) →
  ks_ok addr subnet k' ∧ Forall (out_ok addr subnet) out.
Proof.
  intros Hk. pose proof (ko_self _ _ _ Hk) as [Ha Hs]. unfold writePC.
  destruct (len bs =? 0); [by intros [= <- <- _]|].
  destruct (Z.eqb_spec (Z.land (nth 0 bs 0) 0xf0) 0x60) as [Hv|]; cbn [negb]; [|by intros [= <- <- _]].
  destruct (Z.ltb_spec (len bs) 40); [by intros [= <- <- _]|].
  destruct (_ && _) eqn:Hsrc; [by intros [= <- <- _]|]. apply neither_dec in Hsrc.
  assert (pkt_ours addr subnet bs) as Hbs by (split_and!; [lia|done|]; by rewrite <- Ha, <- Hs).
  destruct (Address_IsValid (dst_addr bs)) eqn:HA.
  { destruct (sendToAddress _ _ _) as [k1 o1] eqn:Hsend. intros [= <- <- _]. by eapply sendToAddress_ok. }
  destruct (Subnet_IsValid (dst_subnet bs)) eqn:HS; [|by intros [= <- <- _]].
  destruct (sendToSubnet _ _ _) as [k1 o1] eqn:Hsend. intros [= <- <- _]. by eapply sendToSubnet_ok.
Qed.

Lemma update_info_wf k key : info_wf (update_info k (copy (replicate PublicKeySize 0) key)).
Proof.
  assert (length (copy (replicate PublicKeySize 0) key) = PublicKeySize) as Hl
    by (by rewrite length_copy, length_replicate).
  unfold update_info. set (kArray := copy _ key) in *.
  assert (∃ a s, AddrForKey kArray = Some a ∧ SubnetForKey kArray = Some s) as (a & s & Ha & Hs).
  { unfold SubnetForKey, AddrForKey. rewrite Hl. simpl. by eexists _, _. }
  split_and!; simpl; [done|..]; by rewrite ?Ha, ?Hs.
Qed.

Lemma update_new_ok k info k' packets :
  ks_ok addr subnet k → info_wf info → update_new k info = (k', packets) →
  ks_ok addr subnet k' ∧ Forall (λ p, out_ok addr subnet (WriteTo p (ki_key info))) packets.
Proof.
  intros [Hself Hkeys Haddrs Hsubs Hab Hsb Hmtu] Hi [= <- <-]. pose proof Hi as (Hl & Ha & Hs). split.
  - split; simpl; try done.
    + intros key i. by apply (insert_lookup_case _ _ _ _ _ (λ key i, info_wf i ∧ ki_key i = key)).
    + intros a i. by apply (insert_lookup_case _ _ _ _ _ (λ a i, info_wf i ∧ ki_address i = a)).
    + intros s i. by apply (insert_lookup_case _ _ _ _ _ (λ s i, info_wf i ∧ ki_subnet i = s)).
    + intros a b. apply (delete_lookup_case _ _ _ _
        (λ a b, pkt_ours addr subnet (buf_packet b) ∧ dst_addr (buf_packet b) = a)). done.
    + intros s b. apply (delete_lookup_case _ _ _ _
        (λ s b, pkt_ours addr subnet (buf_packet b) ∧ dst_subnet (buf_packet b) = s)). done.
  - apply Forall_app_2.
    + destruct (ks_addrBuffer k !! _) as [b|] eqn:Hb; [|done]. apply Hab in Hb as [Hp Hd].
      constructor; [|done]. simpl. rewrite Ha, Hd. auto.
    + destruct (ks_subnetBuffer k !! _) as [b|] eqn:Hb; [|done]. apply Hsb in Hb as [Hp Hd].
      constructor; [|done]. simpl. rewrite Hs, Hd. auto.
Qed.

Lemma update_ok k key k' out info :
  ks_ok addr subnet k → update k key = (k', out, info) →
  ks_ok addr subnet k' ∧ Forall (out_ok addr subnet) out ∧ info_wf info ∧
  ki_key info = copy (replicate PublicKeySize 0) key.
Proof.
  intros Hk. unfold update. destruct (ks_keyToInfo k !! _) as [i|] eqn:Hi.
  - intros [= <- <- <-]. destruct (ko_keys _ _ _ Hk _ _ Hi). split; [by apply resetTimeout_ok|done].
  - destruct (update_new _ _) as [k1 packets] eqn:Hn. intros [= <- <- <-].
    destruct (update_new_ok _ _ _ _ Hk (update_info_wf k key) Hn) as [Hk1 Hout].
    split; [by apply resetTimeout_ok|]. split; [|split; [apply update_info_wf|done]].
    apply Forall_fmap. exact Hout.
Qed.

Lemma readPC_step_ok `{IcmpMarshal} k bs from k' out d :
  ks_ok addr subnet k → readPC_step k bs from = (k', out, d) →
  ks_ok addr subnet k' ∧ Forall (out_ok addr subnet) out.
Proof.
  intros Hk. unfold readPC_step.
  destruct (_ =? 0); [by intros [= <- <- _]|]. destruct (negb _); [by intros [= <- <- _]|].
  destruct (_ <? 40); [by intros [= <- <- _]|]. destruct (_ <? _).
  { destruct (CreateICMPv6 _ _ _ _) as [packet|]; [|by intros [= <- <- _]].
    destruct (writePC k packet) as [[k1 o1] r1] eqn:Hw. intros [= <- <- _]. by eapply writePC_ok. }
  destruct (_ && _); [by intros [= <- <- _]|]. destruct (update k from) as [[k1 o1] info] eqn:Hu.
  destruct (update_ok _ _ _ _ _ Hk Hu) as (Hk1 & Ho1 & _).
  destruct (_ && _); by intros [= <- <- _].
Qed.

Lemma run_callback_ok k t : ks_ok addr subnet k → ks_ok addr subnet (run_callback k t).
Proof.
  intros [Hself Hkeys Haddrs Hsubs Hab Hsb Hmtu].
  destruct t; split; simpl; try done; intros ?? ?%delete_if_lookup; auto.
Qed.

Lemma ks_step_ok `{IcmpMarshal} k out k' :
  ks_ok addr subnet k → ks_step k out k' → ks_ok addr subnet k' ∧ Forall (out_ok addr subnet) out.
Proof.
  intros Hk Hstep. destruct Hstep as [k bs k' out r H1|k key k' out i H1|k bs from k' out d H1|k mm mtu|k t|k t].
  - by eapply writePC_ok.
  - by destruct (update_ok _ _ _ _ _ Hk H1) as (? & ? & _).
  - by eapply readPC_step_ok.
  - split; [|done]. destruct Hk. split; simpl; try done.
    destruct (mm <? mtu); [destruct (Z.ltb_spec mm 1280)|destruct (Z.ltb_spec mtu 1280)]; lia.
  - split; [|done]. destruct Hk. by split.
  - split; [|done]. pose proof (run_callback_ok k t Hk) as []. by split.
Qed.
End Invariant.

(** ** Properties *)

Section Properties.
Context `{IcmpMarshal}.

Lemma ks_trace_ok addr subnet k outs k' :
  ks_ok addr subnet k → ks_trace k outs k' → ks_ok addr subnet k' ∧ Forall (out_ok addr subnet) outs.
Proof.
  intros Hk Ht. induction Ht as [k|k out k' outs k'' Hs _ IH]; [done|].
  destruct (ks_step_ok _ _ _ _ _ Hk Hs) as [Hk' Ho]. destruct (IH Hk') as [Hk'' Hos].
  split; [done|]. by apply Forall_app_2.
Qed.

Lemma ks_init_self publicKey k :
  ks_init publicKey = Some k →
  AddrForKey publicKey = Some (ks_address k) ∧ SubnetForKey publicKey = Some (ks_subnet k).
Proof.
  unfold ks_init. destruct (AddrForKey publicKey); simpl; [|done].
  destruct (SubnetForKey publicKey); simpl; [|done]. by intros [= <-].
Qed.

(** C3: keystore_only_reaches_owner.  From the start of a node, through any
    interleaving of packets from the TUN side, packets from the network, path
    notifications, MTU changes and timer callbacks (also callbacks that were
    already waiting when their timer was stopped), every packet that the node
    sends carries the node's own address or subnet as its source and goes to a
    key that owns the packet's destination address or subnet, and every lookup
    is for a valid address or subnet. *)
Theorem keystore_only_reaches_owner publicKey k0 outs k :
  ks_init publicKey = Some k0 → ks_trace k0 outs k →
  Forall (out_ok (ks_address k0) (ks_subnet k0)) outs ∧ ks_ok (ks_address k0) (ks_subnet k0) k.
Proof.
  intros H0 Ht. destruct (ks_trace_ok _ _ _ _ _ (ks_init_ok _ _ H0) Ht) as [Hk Ho]. done.
Qed.

Lemma readPC_step_Some addr subnet k bs from k' out d :
  ks_ok addr subnet k → readPC_step k bs from = (k', out, Some d) →
  d = bs ∧ 40 <= len bs <= ks_mtu k ∧ Z.land (nth 0 bs 0) 0xf0 = 0x60 ∧
  (dst_addr bs = addr ∨ dst_subnet bs = subnet) ∧
  (AddrForKey (copy (replicate PublicKeySize 0) from) = Some (src_addr bs) ∨
   SubnetForKey (copy (replicate PublicKeySize 0) from) = Some (src_subnet bs)).
Proof.
  intros Hk. pose proof (ko_self _ _ _ Hk) as [Ha Hs]. unfold readPC_step.
  destruct (_ =? 0); [done|].
  destruct (Z.eqb_spec (Z.land (nth 0 bs 0) 0xf0) 0x60) as [Hv|]; cbn [negb]; [|done].
  destruct (Z.ltb_spec (len bs) 40); [done|]. destruct (Z.ltb_spec (ks_mtu k) (len bs)).
  { destruct (CreateICMPv6 _ _ _ _) as [packet|]; [|done]. by destruct (writePC k packet) as [[? ?] ?]. }
  destruct (negb _ && negb _) eqn:Hdst; [done|]. apply neither_dec in Hdst. rewrite Ha, Hs in Hdst.
  destruct (update k from) as [[k1 o1] info] eqn:Hu.
  destruct (update_ok _ _ _ _ _ _ _ Hk Hu) as (_ & _ & (_ & Hia & His) & Hkey). rewrite <- Hkey.
  destruct (negb (bool_decide (src_addr bs = _)) && _) eqn:Hsrc; [done|]. apply neither_dec in Hsrc.
  intros [= <- <- <-]. split_and!; try done. rewrite Hia, His.
  destruct Hsrc as [-> | ->]; auto.
Qed.

(** C4: readPC_delivers_authentic.  A packet that reaches the TUN side was sent
    by the key that owns its source address or subnet, is addressed to this
    node, is an IPv6 packet with a full header and respects the MTU; it is
    delivered unchanged.  In between any number of packets were dropped. *)
Theorem readPC_delivers_authentic addr subnet k incoming p k' out n p' rest :
  ks_ok addr subnet k → readPC k incoming p = (k', out, Some (n, p', rest)) →
  ∃ dropped bs from, incoming = dropped ++ (bs, from) :: rest ∧
    p' = copy p bs ∧ n = Z.min (len p) (len bs) ∧ 40 <= len bs ∧ Z.land (nth 0 bs 0) 0xf0 = 0x60 ∧
    (dst_addr bs = addr ∨ dst_subnet bs = subnet) ∧
    (AddrForKey (copy (replicate PublicKeySize 0) from) = Some (src_addr bs) ∨
     SubnetForKey (copy (replicate PublicKeySize 0) from) = Some (src_subnet bs)).
Proof.
  revert k k' out. induction incoming as [|[bs from] incoming IH]; intros k k' out Hk Hr; [done|].
  cbn [readPC] in Hr. destruct (readPC_step k bs from) as [[k1 o1] [d|]] eqn:Hs.
  - destruct (readPC_step_Some _ _ _ _ _ _ _ _ Hk Hs) as (-> & Hl & Hv & Hd & Hsrc).
    injection Hr as <- <- <- <- <-. exists [], bs, from. split_and!; done || lia.
  - destruct (readPC k1 incoming p) as [[k2 o2] r2] eqn:Hr2. injection Hr as <- <- ->.
    destruct (readPC_step_ok _ _ _ _ _ _ _ _ Hk Hs) as [Hk1 _].
    destruct (IH _ _ _ Hk1 Hr2) as (dropped & bs' & from' & -> & Hrest).
    exists ((bs, from) :: dropped), bs', from'. done.
Qed.

(** C5: tunnel_end_to_end.  Two nodes: whatever packet the key store of node A
    hands to the network for node B's key, in any history, is delivered by the
    key store of node B, in any of its states, to B's TUN side, provided it fits
    B's MTU: the two filters agree. *)
Theorem tunnel_end_to_end keyA keyB kA0 outsA kA kB0 outsB kB bs :
  length keyA = PublicKeySize →
  ks_init keyA = Some kA0 → ks_trace kA0 outsA kA → WriteTo bs keyB ∈ outsA →
  ks_init keyB = Some kB0 → ks_trace kB0 outsB kB → len bs <= ks_mtu kB →
  ∃ kB' out, readPC_step kB bs keyA = (kB', out, Some bs).
Proof.
  intros HlA HA0 HAt Hout HB0 HBt Hmtu.
  destruct (ks_init_self _ _ HA0) as [HaA HsA], (ks_init_self _ _ HB0) as [HaB HsB].
  destruct (ks_trace_ok _ _ _ _ _ (ks_init_ok _ _ HA0) HAt) as [_ HoutsA].
  destruct (ks_trace_ok _ _ _ _ _ (ks_init_ok _ _ HB0) HBt) as [HkB _].
  pose proof (proj1 (Forall_forall _ _) HoutsA _ Hout) as ((Hlen & Hv & Hsrc) & _ & Hdst).
  pose proof (ko_self _ _ _ HkB) as [Ha Hs].
  unfold readPC_step. rewrite (proj2 (Z.eqb_neq _ _)) by lia. rewrite Hv. cbn [Z.eqb Pos.eqb negb].
  rewrite !(proj2 (Z.ltb_ge _ _)) by lia.
  rewrite (proj2 (neither_dec _ _ _ _)) by (rewrite Ha, Hs; rewrite HaB, HsB in Hdst; destruct Hdst as [[=]|[=]]; auto).
  destruct (update kB keyA) as [[k1 o1] info] eqn:Hu.
  destruct (update_ok _ _ _ _ _ _ _ HkB Hu) as (_ & _ & (_ & Hia & His) & Hkey).
  rewrite copy_full in Hkey by (by rewrite length_replicate). rewrite Hkey in Hia, His.
  rewrite (proj2 (neither_dec _ _ _ _)); [by eexists _, _|].
  rewrite Hia in HaA. rewrite His in HsA. injection HaA as ->. injection HsA as ->. done.
Qed.

(** The packet that [CreateICMPv6] builds. *)
Lemma CreateICMPv6_spec dst src mtu data m :
  length src = 16%nat → length dst = 16%nat → icmp_PacketTooBig src dst mtu data = Some m →
  ∃ p, CreateICMPv6 dst src mtu data = Some p ∧ len p = 40 + len m ∧
    Z.land (nth 0 p 0) 0xf0 = 0x60 ∧ src_addr p = src ∧ dst_addr p = dst ∧ drop 40 p = m.
Proof.
  intros Hs Hd Hm. unfold CreateICMPv6. rewrite Hm. cbn [mbind option_bind].
  assert (∃ h, length h = 8%nat ∧ Z.land (nth 0 h 0) 0xf0 = 0x60 ∧
    ipv6Header_Marshal (Ipv6Header 6 0 0 (len m) 58 255 src dst) = h ++ src ++ dst) as (h & Hh & Hn & Heq).
  { unfold ipv6Header_Marshal. simpl h_Src. simpl h_Dst.
    rewrite !copy_full by (by rewrite length_replicate). 
    exists ([0x60; 0; 0; 0] ++ be_bytes 2 (u16 (len m)) ++ [58; 255]).
    split_and!; [by rewrite !length_app, length_be_bytes|done|].
    rewrite <- !app_assoc. reflexivity. }
  rewrite Heq. rewrite (copy_full _ (h ++ src ++ dst)) by (rewrite !length_app, length_replicate, Hh, Hs, Hd; done).
  rewrite copy_full by (by rewrite length_replicate). eexists. split; [done|].
  rewrite <- !app_assoc. split_and!.
  - unfold len. rewrite !length_app. lia.
  - by rewrite app_nth1 by lia.
  - unfold src_addr. rewrite drop_app_length' by done. by apply copy_app; rewrite length_replicate.
  - unfold dst_addr. rewrite (app_assoc h), drop_app_length' by (rewrite length_app; lia).
    by apply copy_app; rewrite length_replicate.
  - rewrite (app_assoc src), (app_assoc h), drop_app_length'; [done|]. rewrite !length_app. lia.
Qed.

(** packet_too_big_reply.  A packet over the MTU that is addressed to this
    node is not delivered; the node answers it with the ICMPv6 message built for
    its MTU and the start of the packet, from the packet's destination to the
    packet's source, and hands it to the key known for that address. *)
Theorem packet_too_big_reply k bs from info m :
  let data := take 512 bs in
  40 <= len bs → ks_mtu k < len bs → Z.land (nth 0 bs 0) 0xf0 = 0x60 →
  dst_addr bs = ks_address k → Address_IsValid (src_addr bs) = true →
  ks_addrToInfo k !! src_addr bs = Some info →
  icmp_PacketTooBig (dst_addr bs) (src_addr bs) (ks_mtu k) data = Some m →
  ∃ k' p, readPC_step k bs from = (k', [WriteTo p (ki_key info)], None) ∧
    src_addr p = dst_addr bs ∧ dst_addr p = src_addr bs ∧ drop 40 p = m.
Proof.
  intros data Hlen Hmtu Hv Hdst Hval Hinfo Hm. unfold readPC_step.
  rewrite (proj2 (Z.eqb_neq _ _)) by lia. rewrite Hv. cbn [Z.eqb Pos.eqb negb].
  rewrite (proj2 (Z.ltb_ge _ _)) by lia. rewrite (proj2 (Z.ltb_lt _ _)) by lia.
  set (buf := copy (replicate 512 0) bs).
  assert (∀ n, (n <= 24)%nat → take 16 (drop n buf) = copy (replicate 16 0) (drop n bs)) as Hfield.
  { intros n Hn. apply (nth_ext _ _ 0 0).
    - rewrite length_copy, length_take, length_drop, length_replicate. subst buf.
      rewrite length_copy, length_replicate. lia.
    - intros i Hi. rewrite length_take in Hi. unfold len in Hlen.
      rewrite length_drop in Hi. rewrite nth_lookup, lookup_take_lt, lookup_drop, <- nth_lookup by lia.
      subst buf. rewrite !nth_copy, !length_replicate, length_drop.
      rewrite !decide_True by lia. by rewrite !nth_lookup, lookup_drop. }
  assert (take (512 `min` length bs) buf = data) as ->.
  { subst buf data. unfold copy. rewrite length_replicate.
    rewrite take_app_le by (rewrite length_take; lia). rewrite take_take.
    destruct (decide (512 <= length bs)%nat); [f_equal; lia|]. by rewrite !take_ge by lia. }
  rewrite !Hfield by lia. change (copy (replicate 16 0) (drop 8 bs)) with (src_addr bs).
  change (copy (replicate 16 0) (drop 24 bs)) with (dst_addr bs).
  destruct (CreateICMPv6_spec (src_addr bs) (dst_addr bs) (ks_mtu k) data m)
    as (p & -> & Hpl & Hpv & Hps & Hpd & Hpm);
    [unfold dst_addr; by rewrite length_copy, length_replicate|unfold src_addr; by rewrite length_copy, length_replicate|done|].
  pose proof (len_nonneg m). unfold writePC. rewrite (proj2 (Z.eqb_neq _ _)) by lia.
  rewrite Hpv. cbn [Z.eqb Pos.eqb negb]. rewrite (proj2 (Z.ltb_ge _ _)) by lia.
  rewrite Hps, Hdst, bool_decide_true by done. cbn [negb andb].
  rewrite Hpd, Hval. unfold sendToAddress. rewrite Hinfo. eexists _, p. split; [reflexivity|]. split_and!; congruence.
Qed.

(** buffered_packet_delivered.  A packet for an address whose key is not
    known yet is kept while the key is looked up: when the path notification
    for a key with that address arrives, the packet goes to that key (the last
    one, if several were written), and the address is known from then on. *)
Theorem buffered_packet_delivered k bs key k1 out1 n :
  length key = PublicKeySize → AddrForKey key = Some (dst_addr bs) →
  ks_addrToInfo k !! dst_addr bs = None → ks_keyToInfo k !! key = None →
  writePC k bs = (k1, out1, Ok n) →
  out1 = [SendLookup (Address_GetKey (dst_addr bs))] ∧
  ∃ k2 out2 info, update k1 key = (k2, out2, info) ∧ WriteTo bs key ∈ out2 ∧
    ks_addrToInfo k2 !! dst_addr bs = Some info ∧ ki_key info = key.
Proof.
  intros Hl Ha Hna Hnk Hw.
  assert (Address_IsValid (dst_addr bs) = true) as Hv.
  { by apply (AddrForKey_IsValid key). }
  assert (k1 = fst (sendToAddress k (dst_addr bs) bs) ∧ out1 = snd (sendToAddress k (dst_addr bs) bs)) as [-> ->].
  { unfold writePC in Hw. rewrite Hv in Hw. repeat (case_match; simplify_eq/=; try done). }
  clear Hw. unfold sendToAddress. rewrite Hna. simpl. split; [done|].
  unfold update. rewrite copy_full by (by rewrite length_replicate). simpl. rewrite Hnk.
  unfold update_info, update_new. simpl. rewrite Ha. simpl. rewrite lookup_insert_eq. simpl.
  eexists _, _, _. split; [reflexivity|]. simpl. rewrite lookup_insert_eq. split_and!; [by left|done|done].
Qed.
End Properties.

(** ** Witnesses *)
Module KeyStoreWitness.

(** A marshaller that returns type, code, an empty checksum, the MTU and the data. *)
#[export] Instance toy_icmp : IcmpMarshal := {
  icmp_PacketTooBig src dst mtu data := Some ([2; 0; 0; 0] ++ be_bytes 4 mtu ++ data);
}.

Definition keyA : bytes := sample_key.
Definition keyB : bytes := replicate 32 0x55.
Definition addrA : bytes := default [] (AddrForKey keyA).
Definition addrB : bytes := default [] (AddrForKey keyB).
Definition storeA : keyStore := default (KeyStore_ [] [] ∅ ∅ ∅ ∅ ∅ 0 0 [] []) (ks_init keyA).
Definition storeB : keyStore := default (KeyStore_ [] [] ∅ ∅ ∅ ∅ ∅ 0 0 [] []) (ks_init keyB).

(** An IPv6 packet from A to B with a short payload. *)
Definition packet (payload : bytes) : bytes :=
  [0x60; 0; 0; 0; 0; 0; 59; 64] ++ addrA ++ addrB ++ payload.

Definition a1 : keyStore := fst (fst (writePC storeA (packet [1; 2; 3]))).
Definition a2 : keyStore := fst (fst (update a1 keyB)).

Lemma trace_A : ks_trace storeA [SendLookup (Address_GetKey addrB); WriteTo (packet [1; 2; 3]) keyB] a2.
Proof.
  apply (trace_step _ [SendLookup (Address_GetKey addrB)] a1 [WriteTo (packet [1; 2; 3]) keyB]).
  - eapply (ks_write _ (packet [1; 2; 3])). vm_compute. reflexivity.
  - apply (trace_step _ [WriteTo (packet [1; 2; 3]) keyB] a2 []); [|apply trace_nil].
    eapply (ks_notify _ keyB). vm_compute. reflexivity.
Qed.

Lemma keystore_only_reaches_owner_witness :
  Forall (out_ok (ks_address storeA) (ks_subnet storeA))
    [SendLookup (Address_GetKey addrB); WriteTo (packet [1; 2; 3]) keyB].
Proof.
  refine (proj1 (keystore_only_reaches_owner keyA storeA _ a2 _ trace_A)). vm_compute. reflexivity.
Defined.

Lemma readPC_delivers_authentic_witness :
  ∃ k' out, readPC storeB [(packet [7], keyB); (packet [1; 2; 3], keyA)] (replicate 43 0) =
              (k', out, Some (43, packet [1; 2; 3], [])) ∧
    ∃ dropped bs from, [(packet [7], keyB); (packet [1; 2; 3], keyA)] = dropped ++ [(bs, from)] ∧
      (AddrForKey (copy (replicate PublicKeySize 0) from) = Some (src_addr bs) ∨
       SubnetForKey (copy (replicate PublicKeySize 0) from) = Some (src_subnet bs)).
Proof.
  pose (r := readPC storeB [(packet [7], keyB); (packet [1; 2; 3], keyA)] (replicate 43 0)).
  exists (fst (fst r)), (snd (fst r)). split; [vm_compute; reflexivity|].
  destruct (readPC_delivers_authentic (ks_address storeB) (ks_subnet storeB) storeB
    [(packet [7], keyB); (packet [1; 2; 3], keyA)] (replicate 43 0) (fst (fst r)) (snd (fst r)) 43
    (packet [1; 2; 3]) [])
    as (dropped & bs & from & Hin & _ & _ & _ & _ & _ & Hs).
  - apply (ks_init_ok keyB). vm_compute. reflexivity.
  - vm_compute. reflexivity.
  - exists dropped, bs, from. split; [exact Hin|exact Hs].
Defined.

Lemma tunnel_end_to_end_witness :
  ∃ k' out, readPC_step storeB (packet [1; 2; 3]) keyA = (k', out, Some (packet [1; 2; 3])).
Proof.
  apply (tunnel_end_to_end keyA keyB storeA
    [SendLookup (Address_GetKey addrB); WriteTo (packet [1; 2; 3]) keyB] a2 storeB [] storeB (packet [1; 2; 3])).
  - reflexivity.
  - vm_compute. reflexivity.
  - exact trace_A.
  - right. left.
  - vm_compute. reflexivity.
  - apply trace_nil.
  - vm_compute. discriminate.
Defined.

Lemma buffered_packet_delivered_witness :
  ∃ k2 out2 info, update a1 keyB = (k2, out2, info) ∧ WriteTo (packet [1; 2; 3]) keyB ∈ out2.
Proof.
  destruct (buffered_packet_delivered storeA (packet [1; 2; 3]) keyB a1
    [SendLookup (Address_GetKey addrB)] 43) as (_ & k2 & out2 & info & Hu & Hin & _).
  - reflexivity.
  - vm_compute. reflexivity.
  - vm_compute. reflexivity.
  - vm_compute. reflexivity.
  - vm_compute. reflexivity.
  - exists k2, out2, info. split; [exact Hu|exact Hin].
Defined.

(** B knows A's key, and A sends a packet over the MTU of 1280. *)
Definition b1 : keyStore := fst (fst (update storeB keyA)).
Definition big : bytes := packet (replicate 1300 9).

Lemma packet_too_big_reply_witness :
  ∃ k' p, readPC_step b1 big keyA = (k', [WriteTo p keyA], None) ∧ dst_addr p = addrA.
Proof.
  destruct (packet_too_big_reply b1 big keyA (KeyInfo 0 keyA addrA (default [] (SubnetForKey keyA)))
    ([2; 0; 0; 0] ++ be_bytes 4 1280 ++ take 512 big)) as (k' & p & Hr & _ & Hd & _).
  - vm_compute. discriminate.
  - vm_compute. reflexivity.
  - vm_compute. reflexivity.
  - vm_compute. reflexivity.
  - vm_compute. reflexivity.
  - vm_compute. reflexivity.
  - reflexivity.
  - exists k', p. split; [exact Hr|]. rewrite Hd. vm_compute. reflexivity.
Defined.
End KeyStoreWitness.
