(* ===== verification/Discovery.v ===== *)
(** * From an address to its owner (src/core/core.go, src/ipv6rwc/ipv6rwc.go)

    The key store and path discovery together: a packet for an address whose
    owner is not known makes the key store ask the routing layer for the part of
    the key that the address shows; the lookup finds the owner, the core passes
    its key to the key store, and the packet is sent to it. *)

From S2P Require Import Prelude Binary Wire GoHeap Address Crypto Messages PacketQueue Bloom Tree Router Routing Pathfinder KeyStore.

(** [SetPathNotify] stores the function that [doPathNotify] calls for a key that
    was found; both run in the core's actor. *)
Record path_notifier (A : Type) := PathNotifier { pn_callback : option (bytes → A → A) }.
Arguments PathNotifier {A} _.
Arguments pn_callback {A} _.

Definition SetPathNotify {A} (notify : bytes → A → A) (c : path_notifier A) : path_notifier A := PathNotifier (Some notify).

Definition doPathNotify {A} (c : path_notifier A) (key : bytes) (a : A) : A :=
  match pn_callback c with
  | Some notify => notify key a
  | None => a
  end.

(** The function that the key store registers; its packets are the output. *)
Definition ks_pathNotify (key : bytes) (st : keyStore * list ks_output) : keyStore * list ks_output :=
  let '(k, out, _) := update (fst st) key in (k, snd st ++ out).

Definition ks_notifier : path_notifier (keyStore * list ks_output) := SetPathNotify ks_pathNotify (PathNotifier None).

(** ** A packet that waits for the owner of its destination *)

(** The packet [bs] is for the address of [d], or for an address in its subnet. *)
Definition for_node (d bs : bytes) : Prop :=
  AddrForKey d = Some (dst_addr bs) ∨ Address_IsValid (dst_addr bs) = false ∧ SubnetForKey d = Some (dst_subnet bs).

(** The key store knows neither [d] nor its address nor its subnet. *)
Definition not_known (k : keyStore) (d bs : bytes) : Prop :=
  ks_keyToInfo k !! d = None ∧ ks_addrToInfo k !! dst_addr bs = None ∧ ks_subnetToInfo k !! dst_subnet bs = None.

(** The key of the lookup has the subnet of the owner, and the packet goes to the
    owner when its key is found. *)
Lemma waiting_packet k bs d k1 out n :
  key_ok d → for_node d bs → not_known k d bs → writePC k bs = (k1, out, Ok n) →
  ∃ partial, out = [SendLookup partial] ∧ key_ok partial ∧ keyXform partial = keyXform d ∧
    WriteTo bs d ∈ snd (doPathNotify ks_notifier d (k1, [])).
Proof.
  intros Hk Hfor (Hnk & Hna & Hns) Hw. pose proof (proj1 Hk) as Hl. destruct Hfor as [Ha|[Hv Hs]].
  - exists (Address_GetKey (dst_addr bs)). pose proof (AddrForKey_canonical d _ Hk Ha) as Hc.
    destruct (buffered_packet_delivered k bs d k1 out n Hl Ha Hna Hnk Hw) as (-> & k2 & out2 & info & Hu & Hin & _).
    split; [done|]. split; [destruct Hc as (? & ? & _); by apply Address_GetKey_bits|].
    split; [by apply address_lookup_matches_node|]. unfold doPathNotify, ks_notifier, ks_pathNotify. simpl. by rewrite Hu.
  - exists (Subnet_GetKey (dst_subnet bs)). destruct (Subnet_roundtrip d _ Hk Hs) as (_ & _ & Hp & Hkey & Hr).
    assert (Subnet_IsValid (dst_subnet bs) = true) as Hval.
    { unfold Subnet_IsValid. simpl. by rewrite Hp. }
    assert (k1 = fst (sendToSubnet k (dst_subnet bs) bs) ∧ out = snd (sendToSubnet k (dst_subnet bs) bs)) as [-> ->].
    { unfold writePC in Hw. rewrite Hv, Hval in Hw. repeat (case_match; simplify_eq/=; try done). }
    clear Hw. unfold sendToSubnet. rewrite Hns. simpl. split; [done|]. split; [done|].
    split; [by rewrite !(keyXform_eq _ (dst_subnet bs))|].
    unfold doPathNotify, ks_notifier, ks_pathNotify, update. cbn [pn_callback SetPathNotify fst].
    rewrite copy_full by (by rewrite length_replicate). simpl. rewrite Hnk. unfold update_info, update_new. simpl. rewrite Hs. simpl. rewrite lookup_insert_eq.
    apply list_elem_of_fmap. exists bs. split; [done|]. apply elem_of_app. right. by left.
Qed.

(** ** The whole way *)

Section AddressDiscovery.
Context {F : Type} `{BloomFilterLaws F} `{Ed25519Laws}.
Context (pathThrottle : Z).
Context (net : bytes → router F) (pfs : bytes → pathfinder) (sks : bytes → bytes).
Context (orders : bytes → list peer → list peer) (times : bytes → Z).
Context (infos : gmap bytes routerInfo) (root : bytes).

Abbreviation network := (discovery_ok keyXform net pfs sks orders infos root).
Abbreviation dist d n := (distTo infos (coords infos d) n).
Abbreviation node_step n now ev := (pf_step (sks n) n keyXform pathThrottle now (orders n) ev).

Lemma xKey_keyXform k : key_ok k → pf_xKey keyXform k = keyXform k.
Proof.
  intros Hk. destruct (SubnetForKey_total k Hk) as [s Hs]. destruct (Subnet_roundtrip k s Hk Hs) as (_ & _ & _ & [Hl _] & _).
  unfold pf_xKey. rewrite (keyXform_eq k s Hs), copy_full; [done|]. by rewrite length_replicate.
Qed.

Lemma node_key n : network → is_Some (infos !! n) → key_ok n.
Proof. intros Hdc Hn. destruct (dc_node _ _ _ _ _ _ _ Hdc n Hn) as ([Hl Hok] & -> & _). by apply ed_Public_ok. Qed.

(** C11: address_discovery_delivers.  In a network whose tree and filters have
    settled, a packet that a node writes for an address (or an address in the
    subnet) of another node, of which it knows nothing, reaches that node: the key
    store keeps the packet and asks for the key; the lookup arrives at the owner of
    the address, which answers; the answer arrives, the path is stored, and the
    key store is told the owner's key and sends the packet to it; and every packet
    that is then sent to that key is delivered to the owner. *)
Theorem address_discovery_delivers s d bs k k1 out n now fuel :
  network → is_Some (infos !! s) → is_Some (infos !! d) → SubnetForKey s ≠ SubnetForKey d →
  for_node d bs → not_known k d bs → writePC k bs = (k1, out, Ok n) →
  (∀ key, pf_xKey keyXform key = pf_xKey keyXform d → pf_paths (pfs s) !! key = None) →
  pf_rumors (pfs s) !! pf_xKey keyXform d = None →
  dist s d < max_u64 → dist d s < max_u64 → dist s d <= Z.of_nat fuel → dist d s < Z.of_nat fuel →
  ∃ partial, out = [SendLookup partial] ∧
  let lk := PathLookup s partial (coords infos s) in
  ∃ st1 out1 from, node_step s (times s) (PfSendLookup partial) (net s, pfs s) = Ok ((), st1, out1) ∧
    arrives keyXform pathThrottle net pfs sks orders times s out1 lk from d ∧
  ∃ st2 out2 p ntf, node_step d (times d) (PfLookup (Peer 0 from 0 0 0) lk) (net d, pfs d) = Ok ((), st2, out2) ∧
    ONotify p ntf ∈ out2 ∧
  ∃ ntf' st3, route_notify keyXform pathThrottle net pfs sks orders times fuel (peer_key p) ntf = Some (s, ntf') ∧
    node_step s now (PfNotify ntf') st1 = Ok ((), st3, [OFound d]) ∧
    WriteTo bs d ∈ snd (doPathNotify ks_notifier d (k1, [])) ∧
  ∀ tr later, tr_dest tr = d → tr_watermark tr = max_u64 →
    ∃ st4 tr' w, node_step s later (PfSend tr) st3 = Ok ((), st4, [OSelf tr']) ∧ tr_payload tr' = tr_payload tr ∧
      route net orders fuel s tr' = Some (d, set_watermark w tr').
Proof.
  intros Hdc Hs Hd Hsub Hfor Hnk Hw Hnp Hnr Hsd Hds Hf1 Hf2.
  pose proof (node_key s Hdc Hs) as Hks. pose proof (node_key d Hdc Hd) as Hkd.
  destruct (waiting_packet k bs d k1 out n Hkd Hfor Hnk Hw) as (partial & -> & Hkp & Hxp & Hsent).
  exists partial. split; [done|].
  assert (pf_xKey keyXform partial = pf_xKey keyXform d) as Hx by (by rewrite !xKey_keyXform).
  assert (pf_xKey keyXform s ≠ pf_xKey keyXform d) as Hxs.
  { rewrite !xKey_keyXform by done. by rewrite (proj1 (keyXform_same_subnet s d Hks Hkd)). }
  destruct (lookup_finds keyXform pathThrottle net pfs sks orders times infos root s partial d now fuel Hdc Hs Hd Hxs Hx
    (proj1 Hkp) (Hnp _ Hx) (Hnp _ eq_refl) Hnr Hsd Hf1)
    as (st1 & out1 & from & H1' & Harr & st2 & out2 & p & ntf & H2' & Hin & ntf' & st3 & Hroute & H3' & Hi3 & info & Hinfo & Hpath).
  exists st1, out1, from. split; [done|]. split; [done|]. exists st2, out2, p, ntf. split; [done|]. split; [done|].
  exists ntf', st3. split; [done|]. split; [done|]. split; [done|]. intros tr later Htd Htw.
  destruct (send_known keyXform pathThrottle sks orders infos s d st3 info tr later Hi3 Hinfo Hpath Htd) as [st4 H4'].
  destruct (route_delivers net orders infos root s d (with_paths (coords infos d) (coords infos s) tr) fuel
    (dc_net _ _ _ _ _ _ _ Hdc) Hs Hd) as (w & Hdel); [done|done|simpl; lia|done|].
  by exists st4, (with_paths (coords infos d) (coords infos s) tr), w.
Qed.
End AddressDiscovery.

Module DiscoveryWitness.
Import TreeWitness RoutingWitness ToySig ToyBloom PathfinderWitness.

Lemma discoveryX : discovery_ok keyXform (netT keyXform) pfD skD (λ _, id) infos4 nR.
Proof. apply discoveryT. intros d [i Hd]. four Hd; vm_compute; reflexivity. Qed.

(** An IPv6 packet from [nS] to [nB]. *)
Definition store0 : keyStore := default (KeyStore_ [] [] ∅ ∅ ∅ ∅ ∅ 0 0 [] []) (ks_init nS).
Definition addr_of (key : bytes) : bytes := default [] (AddrForKey key).
Definition packetSB : bytes := [0x60; 0; 0; 0; 0; 0; 59; 64] ++ addr_of nS ++ addr_of nB ++ [1; 2; 3].
Definition store1 : keyStore := fst (fst (writePC store0 packetSB)).

Lemma address_discovery_delivers_witness :
  ∃ partial, [SendLookup (Address_GetKey (addr_of nB))] = [SendLookup partial] ∧
    WriteTo packetSB nB ∈ snd (doPathNotify ks_notifier nB (store1, [])).
Proof.
  destruct (address_discovery_delivers sec (netT keyXform) pfD skD (λ _, id) (λ _, sec) infos4 nR nS nB packetSB
    store0 store1 [SendLookup (Address_GetKey (addr_of nB))] 43 (2 * sec) 4)
    as (partial & Hp & _ & _ & _ & _ & _ & _ & _ & _ & _ & _ & _ & _ & _ & _ & _ & Hw & _).
  - exact discoveryX.
  - by eexists.
  - by eexists.
  - by_eval.
  - left. vm_compute. reflexivity.
  - split_and!; reflexivity.
  - vm_compute. reflexivity.
  - intros key _. reflexivity.
  - reflexivity.
  - vm_compute; reflexivity.
  - vm_compute; reflexivity.
  - by_eval.
  - vm_compute; reflexivity.
  - exists partial. split; [exact Hp|exact Hw].
Defined.
End DiscoveryWitness.
