(* ===== verification/Links.v ===== *)
(** * Links: peering connections
    (src/core/link.go, verifyTLSPeerIdentity of src/core/tls.go)

    The options of a peering URI, the back-off between connection attempts, the
    handler that runs the handshake and decides whether a connection is handed
    to the router, and the table of links with the operations that change it.
    The goroutines that run these operations are in LinkTable.v. *)

From S2P Require Import Prelude Binary Wire Address Crypto Messages Handshake.
From Stdlib Require Import Ascii.

Open Scope string_scope.
Open Scope list_scope.
Open Scope Z_scope.

(** ** Parsing of option values (encoding/hex, strconv) *)

Definition hex_digit (c : ascii) : option Z :=
  let n := Z.of_nat (nat_of_ascii c) in
  if (48 <=? n) && (n <=? 57) then Some (n - 48)
  else if (97 <=? n) && (n <=? 102) then Some (n - 87)
  else if (65 <=? n) && (n <=? 70) then Some (n - 55)
  else None.

(** [hex.DecodeString]; [None] is an invalid character or an odd length. *)
Fixpoint hex_DecodeString (s : string) : option bytes :=
  match s with
  | EmptyString => Some []
  | String c (String d s) =>
      hi ← hex_digit c; lo ← hex_digit d; rest ← hex_DecodeString s; Some (16 * hi + lo :: rest)
  | String _ EmptyString => None
  end.

Fixpoint parse_digits (acc : Z) (s : string) : option Z :=
  match s with
  | EmptyString => Some acc
  | String c s =>
      let n := Z.of_nat (nat_of_ascii c) in
      if (48 <=? n) && (n <=? 57) then parse_digits (10 * acc + (n - 48)) s else None
  end.

(** [strconv.ParseUint(s, 10, bits)]. *)
Definition ParseUint (bits : Z) (s : string) : option Z :=
  match s with
  | EmptyString => None
  | _ => n ← parse_digits 0 s; if n <? 2 ^ bits then Some n else None
  end.

Definition lower_ascii (c : ascii) : ascii :=
  let n := nat_of_ascii c in
  if ((65 <=? n) && (n <=? 90))%nat then ascii_of_nat (n + 32) else c.

(** [strings.ToLower] on the ASCII characters of a URI scheme. *)
Fixpoint ToLower (s : string) : string :=
  match s with
  | EmptyString => EmptyString
  | String c s => String (lower_ascii c) (ToLower s)
  end.

Definition upper_ascii (c : ascii) : ascii :=
  let n := nat_of_ascii c in
  if ((97 <=? n) && (n <=? 122))%nat then ascii_of_nat (n - 32) else c.

(** [strings.ToUpper] on the same. *)
Fixpoint ToUpper (s : string) : string :=
  match s with
  | EmptyString => EmptyString
  | String c s => String (upper_ascii c) (ToUpper s)
  end.

(** The bytes of a Go string. *)
Definition string_bytes (s : string) : bytes :=
  (λ c, Z.of_nat (nat_of_ascii c)) <$> String.list_ascii_of_string s.

(** What the sources use of [time.ParseDuration], [net.ParseIP] (whether a
    string is an IP literal) and [net.SplitHostPort] (the host). *)
Class NetLib := {
  ParseDuration : string → option Z;
  is_IP : string → bool;
  SplitHost : string → option string;
}.

(** The parts of a [*url.URL] that the link layer reads; [u_base] is its
    string without the query, which identifies the peering. *)
Record url := Url {
  u_scheme : string;
  u_host : string;
  u_query : string → list string;
  u_base : string;
}.

(** [u.Query().Get(key)]. *)
Definition query_get (u : url) (key : string) : string :=
  match u_query u key with v :: _ => v | [] => "" end.

(** ** Link options *)

Inductive linkType := linkTypePersistent | linkTypeEphemeral | linkTypeIncoming.

#[export] Instance linkType_eq_dec : EqDecision linkType.
Proof. solve_decision. Defined.

Inductive linkError :=
| ErrLinkAlreadyConfigured | ErrLinkNotConfigured | ErrLinkPriorityInvalid | ErrLinkPinnedKeyInvalid
| ErrLinkPasswordInvalid | ErrLinkSecurityInvalid | ErrLinkUnrecognisedSchema | ErrLinkMaxBackoffInvalid
| ErrLinkSNINotSupported | ErrLinkNoSuitableIPs | ErrLinkToSelf.

Inductive linkProtocol := linkTCP | linkTLS | linkSOCKS | linkUNIX | linkQUIC | linkWS | linkWSS.

Definition dialerFor (u : url) : res linkError linkProtocol :=
  let s := ToLower (u_scheme u) in
  if String.eqb s "tcp" then Ok linkTCP
  else if String.eqb s "tls" then Ok linkTLS
  else if String.eqb s "socks" || String.eqb s "sockstls" then Ok linkSOCKS
  else if String.eqb s "unix" then Ok linkUNIX
  else if String.eqb s "quic" then Ok linkQUIC
  else if String.eqb s "ws" then Ok linkWS
  else if String.eqb s "wss" then Ok linkWSS
  else Err ErrLinkUnrecognisedSchema.

(** The protocols that can listen. *)
Definition listenerFor (u : url) : res linkError linkProtocol :=
  let s := ToLower (u_scheme u) in
  if String.eqb s "tcp" then Ok linkTCP
  else if String.eqb s "tls" then Ok linkTLS
  else if String.eqb s "unix" then Ok linkUNIX
  else if String.eqb s "quic" then Ok linkQUIC
  else if String.eqb s "ws" then Ok linkWS
  else if String.eqb s "wss" then Ok linkWSS
  else Err ErrLinkUnrecognisedSchema.

Definition Second : Z := 1000000000.
Definition defaultBackoffLimit : Z := Z.shiftl Second 12.
Definition minimumBackoffLimit : Z := Second * 5.
Definition blake2b_Size : Z := 64.

(** [pinnedEd25519Keys] is the set of pinned keys, [] when there are none. *)
Record linkOptions := LinkOptions {
  opt_pinnedEd25519Keys : list bytes;
  opt_priority : Z;
  opt_tlsSNI : string;
  opt_password : bytes;
  opt_requireSecure : bool;
  opt_maxBackoff : Z;
}.

(** The pins: each value is decoded and copied into a 32-byte array. *)
Fixpoint parse_pins (keys : list string) (pins : list bytes) : res linkError (list bytes) :=
  match keys with
  | [] => Ok pins
  | pubkey :: keys =>
      match hex_DecodeString pubkey with
      | None => Err ErrLinkPinnedKeyInvalid
      | Some sigPub => parse_pins keys (pins ++ [copy (replicate PublicKeySize 0) sigPub])
      end
  end.

Definition parse_priority (p : string) : res linkError Z :=
  if String.eqb p "" then Ok 0 else or_err ErrLinkPriorityInvalid (ParseUint 8 p).

Definition parse_password (p : string) : res linkError bytes :=
  if String.eqb p "" then Ok []
  else if blake2b_Size <? Z.of_nat (String.length p) then Err ErrLinkPasswordInvalid
  else Ok (string_bytes p).

Definition parse_secure (p : string) : res linkError bool :=
  if String.eqb p "" then Ok false
  else if String.eqb p "required" then Ok true
  else if String.eqb p "opportunistic" then Ok false
  else Err ErrLinkSecurityInvalid.

Definition parse_backoff `{NetLib} (p : string) : res linkError Z :=
  if String.eqb p "" then Ok defaultBackoffLimit
  else match ParseDuration p with
       | Some d => if d <? minimumBackoffLimit then Err ErrLinkMaxBackoffInvalid else Ok d
       | None => Err ErrLinkMaxBackoffInvalid
       end.

Definition parse_sni `{NetLib} (u : url) : string :=
  let sni := query_get u "sni" in
  let s := if negb (String.eqb sni "") && negb (is_IP sni) then sni else "" in
  if String.eqb s "" then
    match SplitHost (u_host u) with
    | Some host => if is_IP host then "" else host
    | None => ""
    end
  else s.

(** The options that [add] collects from the URI. *)
Definition add_options `{NetLib} (u : url) : res linkError linkOptions :=
  pins ← parse_pins (u_query u "key") [];
  priority ← parse_priority (query_get u "priority");
  password ← parse_password (query_get u "password");
  secure ← parse_secure (query_get u "secure");
  maxBackoff ← parse_backoff (query_get u "maxbackoff");
  Ok (LinkOptions pins priority (parse_sni u) password secure maxBackoff).

(** The options of a listener. *)
Definition listen_options (u : url) : res linkError linkOptions :=
  priority ← parse_priority (query_get u "priority");
  password ← parse_password (query_get u "password");
  secure ← parse_secure (query_get u "secure");
  Ok (LinkOptions [] priority "" password secure 0).

(** ** Back-off *)

(** Signed 64-bit arithmetic of [time.Duration]. *)
Definition int64 (z : Z) : Z := (z + 2 ^ 63) mod 2 ^ 64 - 2 ^ 63.

(** [backoffNow]: the new counter, and how long to wait; [None] waits until the
    link is kicked. *)
Definition backoffNow (maxBackoff backoff : Z) : Z * option Z :=
  let backoff := if (0 <=? backoff) && (backoff <? 32) then backoff + 1 else backoff in
  if backoff <? 0 then (backoff, None)
  else
    let duration := int64 (Z.shiftl Second backoff) in
    (backoff, Some (if maxBackoff <? duration then maxBackoff else duration)).

(** ** The handler of a connection *)

(** The parts of the core that the handler reads. *)
Record link_core := LinkCore {
  lc_secret : bytes;
  lc_public : bytes;
  lc_allowedPublicKeys : list bytes;
}.

(** The certificates of a direct TLS connection: the Ed25519 key of each, or
    [None] for a certificate with another kind of key. *)
Inductive transport := PlainTransport | TLSTransport (certs : list (option bytes)).

Definition verifyTLSPeerIdentity (conn : transport) (expected : bytes) : bool :=
  match conn with
  | PlainTransport => true
  | TLSTransport [Some peerKey] => bool_decide (peerKey = expected)
  | TLSTransport _ => false
  end.

(** Where an operation on the connection can fail. *)
Inductive io_point := FailDeadline | FailWriteMeta | FailWriteConfirmation | FailClearDeadline.

#[export] Instance io_point_eq_dec : EqDecision io_point.
Proof. solve_decision. Defined.

Inductive handler_err :=
| GenerateHandshake (e : handshake_error)
| ConnError (p : io_point)
| DecodeHandshake (e : handshake_error)
| IncompatibleVersion (major minor : Z)
| LinkToSelf
| GenerateConfirmation (e : handshake_error)
| VerifyConfirmation (e : handshake_error)
| NoTranscriptHandshake
| TransportIdentity
| PinnedKeyMismatch
| NotInAllowedPublicKeys.

Section Handler.
Context `{Blake2b} `{Ed25519}.

(** Fail at [p] if the connection does, otherwise go on. *)
Definition io {A} (fail : option io_point) (p : io_point) (k : res handler_err A) : res handler_err A :=
  if bool_decide (fail = Some p) then Err (ConnError p) else k.

Definition wrap_err {A} (f : handshake_error → handler_err) (r : res handshake_error A) : res handler_err A :=
  match r with Ok a => Ok a | Err e => Err (f e) | Panic => Panic end.

(** Whether a key passes the pins and the list of allowed keys. *)
Definition check_pinned (pinned : list bytes) (key : bytes) : bool :=
  match pinned with
  | [] => true
  | _ => bool_decide (copy (replicate PublicKeySize 0) key ∈ pinned)
  end.

Definition check_allowed (lt : linkType) (local : bool) (allowed : list bytes) (key : bytes) : bool :=
  if negb local then
    let isallowed := match allowed with [] => true | _ => bool_decide (key ∈ allowed) end in
    negb (bool_decide (lt = linkTypeIncoming) && negb isallowed)
  else true.

(** [handler] on a connection that delivers the bytes [r]: the identity and the
    priority given to [HandleConn], with the bytes not consumed yet, or the
    error.  [rnd] is the random nonce. *)
Definition link_handler (c : link_core) (lt : linkType) (options : linkOptions) (conn : transport)
    (local : bool) (fail : option io_point) (rnd : option bytes) (r : bytes) :
    res handler_err (bytes * Z * bytes) :=
  let base := version_getBaseMetadata in
  let localMeta := VersionMetadata (vm_majorVer base) (vm_minorVer base) (lc_public c)
                     (opt_priority options) (vm_nonce base) (vm_capabilities base) [] [] in
  '(metaBytes, localMeta) ←
    wrap_err GenerateHandshake (version_encode localMeta rnd (lc_secret c) (opt_password options));
  io fail FailDeadline (io fail FailWriteMeta (
    '(remoteMeta, r) ← wrap_err DecodeHandshake (version_decode version_zero r (opt_password options));
    if negb (version_check remoteMeta)
    then Err (IncompatibleVersion (vm_majorVer remoteMeta) (vm_minorVer remoteMeta))
    else if bool_decide (vm_publicKey remoteMeta = lc_public c) then Err LinkToSelf
    else
      r ← (if supportsHandshakeConfirmation remoteMeta then
             confirmation ← wrap_err GenerateConfirmation
               (encodeConfirmation (lc_secret c) (opt_password options) localMeta remoteMeta);
             io fail FailWriteConfirmation (
               wrap_err VerifyConfirmation
                 (decodeConfirmation r (vm_publicKey remoteMeta) (opt_password options) localMeta remoteMeta))
           else if opt_requireSecure options then Err NoTranscriptHandshake
           else Ok r);
      if negb (verifyTLSPeerIdentity conn (vm_publicKey remoteMeta)) then Err TransportIdentity
      else io fail FailClearDeadline (
        if negb (check_pinned (opt_pinnedEd25519Keys options) (vm_publicKey remoteMeta))
        then Err PinnedKeyMismatch
        else if negb (check_allowed lt local (lc_allowedPublicKeys c) (vm_publicKey remoteMeta))
        then Err NotInAllowedPublicKeys
        else
          let priority := opt_priority options in
          let priority := if priority <? vm_priority remoteMeta then vm_priority remoteMeta else priority in
          Ok (vm_publicKey remoteMeta, priority, r)))).

(** The bytes that the handler writes when nothing fails: the metadata, and the
    confirmation once the remote metadata [remote] is known. *)
Definition link_hello (c : link_core) (options : linkOptions) (rnd : option bytes) :
    res handshake_error (bytes * version_metadata) :=
  version_encode
    (VersionMetadata ProtocolVersionMajor ProtocolVersionMinor (lc_public c)
       (opt_priority options) (replicate nonceSize 0) 0 [] [])
    rnd (lc_secret c) (opt_password options).
End Handler.

(** ** What the handler guarantees about the connections it accepts *)

Section HandlerSafety.
Context `{Blake2b} `{Ed25519}.

Lemma io_Ok {A} fail p (k : res handler_err A) a : io fail p k = Ok a → k = Ok a.
Proof. unfold io. by case_bool_decide. Qed.

Lemma wrap_err_Ok {A} f (r : res handshake_error A) a : wrap_err f r = Ok a → r = Ok a.
Proof. destruct r; simpl; naive_solver. Qed.

(** A confirmation that was accepted: the remote key signed the hash of both
    metadata messages. *)
Definition confirmed (password : bytes) (localMeta remoteMeta : version_metadata) : Prop :=
  ∃ hash sig, confirmationHash password localMeta remoteMeta = Ok hash ∧
    ed_Verify (vm_publicKey remoteMeta) hash sig = true.

Lemma decodeConfirmation_Ok r key password a b r' :
  decodeConfirmation r key password a b = Ok r' →
  ∃ hash sig, confirmationHash password a b = Ok hash ∧ ed_Verify key hash sig = true.
Proof.
  unfold decodeConfirmation. destruct (negb _); [done|].
  destruct (wireChopSlice _ r) as [[bs rest]|]; cbn [or_err mbind res_bind]; [|done].
  destruct (negb (bool_decide _)); [done|].
  destruct (confirmationHash password a b) as [hash|e|] eqn:Hh; cbn [mbind res_bind]; [|done|done].
  unfold verify. destruct (negb _); cbn [mbind res_bind]; [done|].
  destruct (ed_Verify key hash (drop 4 bs)) eqn:Hv; [|done]. intros _. by exists hash, (drop 4 bs).
Qed.

Lemma check_pinned_true pinned key :
  length key = PublicKeySize → check_pinned pinned key = true → pinned = [] ∨ key ∈ pinned.
Proof.
  intros Hl. unfold check_pinned. destruct pinned as [|p ps]; [by left|].
  rewrite copy_full by (by rewrite length_replicate). rewrite bool_decide_eq_true. by right.
Qed.

Lemma check_allowed_true lt local allowed key :
  check_allowed lt local allowed key = true →
  lt ≠ linkTypeIncoming ∨ local = true ∨ allowed = [] ∨ key ∈ allowed.
Proof.
  unfold check_allowed. destruct local; simpl; [auto|].
  destruct allowed as [|a allowed]; [auto|]. rewrite negb_true_iff, andb_false_iff.
  rewrite bool_decide_eq_false, negb_false_iff, bool_decide_eq_true. naive_solver.
Qed.

(** C6: link_handler_gate.  A connection is handed to the router only after
    every check of the handler: the identity signed the handshake under the
    link's password, with the current protocol version, and is not this node;
    it signed the transcript of both metadata messages, including this side's
    fresh nonce, if it announced support for that, and it must have when the
    link requires it; the certificate of a direct TLS transport carries the
    same key; the key is pinned if there are pins, and allowed if the
    connection is incoming, not local and there is an allow list.  The priority
    is the larger of the two sides'. *)
Theorem link_handler_gate c lt options conn local fail rnd r key prio rest :
  link_handler c lt options conn local fail rnd r = Ok (key, prio, rest) →
  ∃ metaBytes localMeta remoteMeta,
    link_hello c options rnd = Ok (metaBytes, localMeta) ∧
    vm_publicKey remoteMeta = key ∧ handshake_authentic (opt_password options) remoteMeta ∧
    version_check remoteMeta = true ∧ key ≠ lc_public c ∧
    (supportsHandshakeConfirmation remoteMeta = true → confirmed (opt_password options) localMeta remoteMeta) ∧
    (opt_requireSecure options = true → supportsHandshakeConfirmation remoteMeta = true) ∧
    verifyTLSPeerIdentity conn key = true ∧
    (opt_pinnedEd25519Keys options = [] ∨ key ∈ opt_pinnedEd25519Keys options) ∧
    (lt ≠ linkTypeIncoming ∨ local = true ∨ lc_allowedPublicKeys c = [] ∨ key ∈ lc_allowedPublicKeys c) ∧
    prio = Z.max (opt_priority options) (vm_priority remoteMeta).
Proof.
  unfold link_handler. intros Hh. apply res_bind_Ok in Hh as ([metaBytes localMeta] & He & Hh).
  apply wrap_err_Ok in He. apply io_Ok, io_Ok in Hh.
  apply res_bind_Ok in Hh as ([m r1] & Hd & Hh). apply wrap_err_Ok in Hd.
  pose proof (version_decode_spec r (opt_password options)) as Hspec. rewrite Hd in Hspec.
  destruct Hspec as [_ Hauth]. exists metaBytes, localMeta, m.
  destruct (version_check m) eqn:Hc; cbn [negb] in Hh; [|done].
  case_bool_decide as Hself; [done|].
  apply res_bind_Ok in Hh as (r2 & Hconf & Hh).
  destruct (verifyTLSPeerIdentity conn (vm_publicKey m)) eqn:Htls; cbn [negb] in Hh; [|done].
  apply io_Ok in Hh.
  destruct (check_pinned _ _) eqn:Hpin; cbn [negb] in Hh; [|done].
  destruct (check_allowed _ _ _ _) eqn:Hall; cbn [negb] in Hh; [|done].
  injection Hh as <- <- <-.
  assert (supportsHandshakeConfirmation m = true → confirmed (opt_password options) localMeta m) as Hcf.
  { intros Hs. rewrite Hs in Hconf. apply res_bind_Ok in Hconf as (cf & _ & Hconf).
    apply io_Ok, wrap_err_Ok, decodeConfirmation_Ok in Hconf. exact Hconf. }
  assert (opt_requireSecure options = true → supportsHandshakeConfirmation m = true) as Hsec.
  { intros Hr. destruct (supportsHandshakeConfirmation m); [done|]. by rewrite Hr in Hconf. }
  split_and!; try done.
  - apply check_pinned_true; [|done]. by destruct Hauth.
  - by apply check_allowed_true in Hall.
  - destruct (Z.ltb_spec (opt_priority options) (vm_priority m)); lia.
Qed.
End HandlerSafety.

(** ** Two honest nodes complete the handshake *)

Section HandlerLiveness.
Context `{Blake2b} `{Ed25519Laws}.

(** A node with its key pair and the options of its end of the link. *)
Definition honest (c : link_core) (options : linkOptions) (nonce : bytes) : Prop :=
  priv_ok (lc_secret c) ∧ lc_public c = ed_Public (lc_secret c) ∧ is_byte (opt_priority options) ∧
  length nonce = nonceSize ∧ nonce ≠ replicate nonceSize 0.

Lemma hello_roundtrip c options nonce :
  honest c options nonce → (∀ d, ∃ h, b2_sum512 (opt_password options) d = Some h) →
  ∃ bs m, link_hello c options (Some nonce) = Ok (bs, m) ∧ vm_publicKey m = lc_public c ∧
    vm_priority m = opt_priority options ∧ version_check m = true ∧
    supportsHandshakeConfirmation m = true ∧ len (vm_wire m) ≠ 0 ∧
    ∀ rest, version_decode version_zero (bs ++ rest) (opt_password options) = Ok (m, rest).
Proof.
  intros (Hsk & Hpk & Hprio & Hn & Hnz) Hb2. unfold link_hello.
  set (m0 := VersionMetadata _ _ _ _ _ _ _ _).
  assert (metadata_ok m0) as Hm0.
  { split_and!; try done. simpl. rewrite Hpk. by apply ed_Public_ok; apply Hsk. }
  destruct (Hb2 (handshakeDomain ++ signed_fields m0 nonce)) as [hash Hh].
  destruct (Hb2 (vm_publicKey m0)) as [lhash Hlh].
  eexists _, _. split; [by apply version_encode_eq|]. split_and!; try done.
  - unfold version_check. simpl. destruct Hm0 as (_ & _ & Hk & _). simpl in Hk. unfold len.
    rewrite Hk, Hn. cbn [negb Z.eqb]. rewrite bool_decide_false by done. done.
  - intros rest. by apply version_decode_bytes.
Qed.

(** One side, given a metadata message and a confirmation that it accepts. *)
Lemma link_handler_accepts c lt o conn local n bs m r1 mr r2 rest conf :
  link_hello c o (Some n) = Ok (bs, m) →
  version_decode version_zero r1 (opt_password o) = Ok (mr, r2) → version_check mr = true →
  vm_publicKey mr ≠ lc_public c → supportsHandshakeConfirmation mr = true →
  encodeConfirmation (lc_secret c) (opt_password o) m mr = Ok conf →
  decodeConfirmation r2 (vm_publicKey mr) (opt_password o) m mr = Ok rest →
  verifyTLSPeerIdentity conn (vm_publicKey mr) = true →
  check_pinned (opt_pinnedEd25519Keys o) (vm_publicKey mr) = true →
  check_allowed lt local (lc_allowedPublicKeys c) (vm_publicKey mr) = true →
  link_handler c lt o conn local None (Some n) r1 =
    Ok (vm_publicKey mr, Z.max (opt_priority o) (vm_priority mr), rest).
Proof.
  intros He Hd Hc Hne Hs Hg Hcf Ht Hp Ha. unfold link_handler, link_hello in *.
  cbn [vm_majorVer vm_minorVer vm_nonce vm_capabilities version_getBaseMetadata].
  rewrite He. cbn [wrap_err mbind res_bind]. unfold io. rewrite !bool_decide_false by done.
  rewrite Hd. cbn [wrap_err mbind res_bind]. rewrite Hc. cbn [negb].
  rewrite bool_decide_false by done. rewrite Hs, Hg. cbn [wrap_err mbind res_bind].
  rewrite Hcf. cbn [wrap_err mbind res_bind]. rewrite Ht, Hp, Ha. cbn [negb].
  destruct (Z.ltb_spec (opt_priority o) (vm_priority mr)); repeat f_equal; lia.
Qed.

(** What a node sees of the other end's transport: nothing to verify, or over
    direct TLS the one certificate that the other node makes from its key. *)
Definition presents (conn : transport) (key : bytes) : Prop :=
  match conn with PlainTransport => True | TLSTransport certs => certs = [Some key] end.

Lemma presents_verified conn key : presents conn key → verifyTLSPeerIdentity conn key = true.
Proof. destruct conn as [|certs]; [done|]. simpl. intros ->. by apply bool_decide_eq_true. Qed.

(** C7: link_handshake_completes.  Two honest nodes with different keys, the
    same link password and policies that admit each other complete the
    handshake, over direct TLS with the certificates of their keys or over any
    other transport: given what the other side sends, each handler hands the
    connection to the router under the other's key, both with the same
    priority, and leaves the bytes that follow for it. *)
Theorem link_handshake_completes c1 c2 o1 o2 conn1 conn2 n1 n2 lt1 lt2 local1 local2 rest1 rest2 :
  honest c1 o1 n1 → honest c2 o2 n2 → lc_public c1 ≠ lc_public c2 →
  opt_password o1 = opt_password o2 → (∀ d, ∃ h, b2_sum512 (opt_password o1) d = Some h) →
  presents conn1 (lc_public c2) → presents conn2 (lc_public c1) →
  check_pinned (opt_pinnedEd25519Keys o1) (lc_public c2) = true →
  check_pinned (opt_pinnedEd25519Keys o2) (lc_public c1) = true →
  check_allowed lt1 local1 (lc_allowedPublicKeys c1) (lc_public c2) = true →
  check_allowed lt2 local2 (lc_allowedPublicKeys c2) (lc_public c1) = true →
  ∃ hello1 m1 hello2 m2 conf1 conf2,
    link_hello c1 o1 (Some n1) = Ok (hello1, m1) ∧ link_hello c2 o2 (Some n2) = Ok (hello2, m2) ∧
    encodeConfirmation (lc_secret c1) (opt_password o1) m1 m2 = Ok conf1 ∧
    encodeConfirmation (lc_secret c2) (opt_password o2) m2 m1 = Ok conf2 ∧
    link_handler c1 lt1 o1 conn1 local1 None (Some n1) (hello2 ++ conf2 ++ rest1) =
      Ok (lc_public c2, Z.max (opt_priority o1) (opt_priority o2), rest1) ∧
    link_handler c2 lt2 o2 conn2 local2 None (Some n2) (hello1 ++ conf1 ++ rest2) =
      Ok (lc_public c1, Z.max (opt_priority o1) (opt_priority o2), rest2).
Proof.
  intros Hh1 Hh2 Hne Hpw Hb2 Ht1 Ht2 Hp1 Hp2 Ha1 Ha2.
  apply presents_verified in Ht1, Ht2.
  destruct (hello_roundtrip c1 o1 n1 Hh1 Hb2) as (hello1 & m1 & E1 & K1 & P1 & C1 & S1 & W1 & D1).
  destruct (hello_roundtrip c2 o2 n2 Hh2 ltac:(by rewrite <- Hpw)) as (hello2 & m2 & E2 & K2 & P2 & C2 & S2 & W2 & D2).
  assert (vm_publicKey m1 ≠ vm_publicKey m2) as Hkne by (by rewrite K1, K2).
  assert (∃ hash, confirmationHash (opt_password o1) m1 m2 = Ok hash) as [hash Hhash].
  { unfold confirmationHash. rewrite !(proj2 (Z.eqb_neq _ _)) by done. cbn [orb].
    destruct (if bytes_gt _ _ then _ else _) as [f s].
    destruct (Hb2 (confirmationDomain ++ vm_wire f ++ vm_wire s)) as [h ->]. by eexists. }
  assert (confirmationHash (opt_password o2) m2 m1 = Ok hash) as Hhash'
    by (rewrite <- Hpw, <- confirmationHash_sym; done).
  destruct Hh1 as (Hsk1 & Hpk1 & _), Hh2 as (Hsk2 & Hpk2 & _).
  destruct (confirmation_accepted (lc_secret c1) (opt_password o1) m1 m2 hash rest2)
    as (conf1 & G1 & _ & A1); [done|by rewrite K1|done|done|].
  destruct (confirmation_accepted (lc_secret c2) (opt_password o2) m2 m1 hash rest1)
    as (conf2 & G2 & _ & A2); [done|by rewrite K2|done|done|].
  exists hello1, m1, hello2, m2, conf1, conf2. split_and!; try done.
  - rewrite <- K2, <- P2. eapply link_handler_accepts; [done|by rewrite Hpw|done|congruence|done|done|
      by rewrite Hpw|by rewrite K2|by rewrite K2|by rewrite K2].
  - rewrite <- K1, <- P1, Z.max_comm. eapply link_handler_accepts; [done|by rewrite <- Hpw|done|congruence|done|done|
      by rewrite <- Hpw|by rewrite K1|by rewrite K1|by rewrite K1].
Qed.
End HandlerLiveness.

(** ** Back-off *)

(** The counter and the wait after a number of consecutive failures. *)
Definition backoff_after (maxBackoff : Z) (n : nat) : Z * option Z :=
  Nat.iter n (λ st, backoffNow maxBackoff (fst st)) (0, None).

Lemma backoff_after_S maxBackoff n :
  backoff_after maxBackoff (S n) = backoffNow maxBackoff (fst (backoff_after maxBackoff n)).
Proof. reflexivity. Qed.

Lemma backoffNow_nonneg maxBackoff b :
  0 <= b <= 32 →
  backoffNow maxBackoff b =
    (Z.min (b + 1) 32, Some (Z.min maxBackoff (Second * 2 ^ Z.min (b + 1) 32))).
Proof.
  intros Hb. unfold backoffNow.
  assert ((if (0 <=? b) && (b <? 32) then b + 1 else b) = Z.min (b + 1) 32) as ->.
  { destruct (Z.leb_spec 0 b); [|lia]. destruct (Z.ltb_spec b 32); simpl; lia. }
  set (e := Z.min (b + 1) 32). assert (1 <= e <= 32) as He by (subst e; lia). clearbody e.
  rewrite (proj2 (Z.ltb_ge _ _)) by lia. rewrite Z.shiftl_mul_pow2 by lia.
  assert (0 < Second * 2 ^ e < 2 ^ 63) as Hr.
  { unfold Second. assert (2 ^ 1 <= 2 ^ e) by (apply Z.pow_le_mono_r; lia).
    assert (2 ^ e <= 2 ^ 32) by (apply Z.pow_le_mono_r; lia). lia. }
  unfold int64. rewrite Z.mod_small by lia.
  replace (Second * 2 ^ e + 2 ^ 63 - 2 ^ 63) with (Second * 2 ^ e) by lia.
  do 2 f_equal. destruct (Z.ltb_spec maxBackoff (Second * 2 ^ e)); lia.
Qed.

(** C28: backoff_exponential.  After [n + 1] consecutive failures a persistent
    link waits [2^(n+1)] seconds, with the exponent stopping at 32, but at most
    the link's limit; the shift never leaves the signed 64-bit range, and the
    wait is at least two seconds for every limit that the options accept.  A
    counter that was set to -1, after a connection to the node itself, stays
    there: the link waits until it is kicked. *)
Theorem backoff_exponential (maxBackoff : Z) (n : nat) :
  minimumBackoffLimit <= maxBackoff →
  (∃ wait, backoff_after maxBackoff (S n) = (Z.min (Z.of_nat n + 1) 32, Some wait) ∧
     wait = Z.min maxBackoff (Second * 2 ^ Z.min (Z.of_nat n + 1) 32) ∧ 2 * Second <= wait) ∧
  backoffNow maxBackoff (-1) = (-1, None).
Proof.
  intros Hmax. split; [|done].
  assert (fst (backoff_after maxBackoff n) = Z.min (Z.of_nat n) 32) as Hfst.
  { clear Hmax. induction n as [|n IH]; [done|].
    rewrite backoff_after_S, IH, backoffNow_nonneg by lia. simpl fst. lia. }
  rewrite backoff_after_S, Hfst, backoffNow_nonneg by lia.
  assert (Z.min (Z.min (Z.of_nat n) 32 + 1) 32 = Z.min (Z.of_nat n + 1) 32) as -> by lia.
  eexists. split; [done|]. split; [done|].
  assert (2 ^ 1 <= 2 ^ Z.min (Z.of_nat n + 1) 32) by (apply Z.pow_le_mono_r; lia).
  unfold minimumBackoffLimit, Second in *. lia.
Qed.

Lemma backoff_exponential_witness :
  (∃ wait, backoff_after defaultBackoffLimit 14 = (Z.min (Z.of_nat 13 + 1) 32, Some wait) ∧
     wait = Z.min defaultBackoffLimit (Second * 2 ^ Z.min (Z.of_nat 13 + 1) 32) ∧ 2 * Second <= wait) ∧
  backoffNow defaultBackoffLimit (-1) = (-1, None).
Proof. apply (backoff_exponential defaultBackoffLimit 13). vm_compute. discriminate. Defined.

(** ** The table of links *)

(** [linkInfo]: the URI without its query, and the source interface. *)
Definition linkInfo : Type := string * string.

(** [link]: [ln_ctx] is the context, whether it was cancelled; a link that an
    accepted connection made has neither a context nor its cancel function.
    [ln_conn] is the identity of the connection, [ln_err] whether the last
    attempt left an error. *)
Record link := Link {
  ln_linkType : linkType;
  ln_linkProto : string;
  ln_ctx : option bool;
  ln_conn : option nat;
  ln_err : bool;
}.

(** The links actor: the table, the [*link] values by their identity, and the
    connections that were closed. *)
Record links := Links_ {
  ls_links : gmap linkInfo nat;
  ls_store : gmap nat link;
  ls_next : nat;
  ls_closed : list nat;
}.

Definition links_init : links := Links_ ∅ ∅ 0 [].

Definition set_link (ls : links) (id : nat) (s : link) : links :=
  Links_ (ls_links ls) (<[id := s]> (ls_store ls)) (ls_next ls) (ls_closed ls).

(** [Close] of a connection. *)
Definition close_conn (ls : links) (conn : nat) : links :=
  Links_ (ls_links ls) (ls_store ls) (ls_next ls) (conn :: ls_closed ls).

Section Table.
Context `{NetLib}.

(** [add] up to the start of the goroutine: the new state and the link that is
    kicked, if any. *)
Definition links_add (ls : links) (u : url) (sintf : string) (lt : linkType) :
    links * option nat * res linkError nat :=
  match dialerFor u with
  | Err e => (ls, None, Err e)
  | Panic => (ls, None, Panic)
  | Ok _ =>
      let info := (u_base u, sintf) in
      match add_options u with
      | Err e => (ls, None, Err e)
      | Panic => (ls, None, Panic)
      | Ok _ =>
          match ls_links ls !! info with
          | Some id => (ls, Some id, Err ErrLinkAlreadyConfigured)
          | None =>
              let id := ls_next ls in
              (Links_ (<[info := id]> (ls_links ls))
                 (<[id := Link lt (ToUpper (u_scheme u)) (Some false) None false]> (ls_store ls)) (S id) (ls_closed ls),
               None, Ok id)
          end
      end
  end.

(** [remove]: cancel the link and close its connection, whose error is the
    transport's.  The cancel function of a link that an accepted connection
    made is nil, and calling it panics. *)
Definition links_remove (ls : links) (u : url) (sintf : string) : links * res linkError () :=
  match ls_links ls !! (u_base u, sintf) ≫= (λ id, pair id <$> ls_store ls !! id) with
  | Some (id, s) =>
      match ln_ctx s with
      | None => (ls, Panic)
      | Some _ =>
          let ls := set_link ls id (Link (ln_linkType s) (ln_linkProto s) (Some true) (ln_conn s) (ln_err s)) in
          match ln_conn s with
          | Some c => (close_conn ls c, Ok ())
          | None => (ls, Ok ())
          end
      end
  | None => (ls, Err ErrLinkNotConfigured)
  end.

(** The deferred function of the goroutines: drop the entry if it is still ours. *)
Definition link_exit (ls : links) (info : linkInfo) (id : nat) : links :=
  if decide (ls_links ls !! info = Some id)
  then Links_ (delete info (ls_links ls)) (ls_store ls) (ls_next ls) (ls_closed ls)
  else ls.

(** A dial attempt failed: [true] when the goroutine goes on to back off,
    [false] when it leaves. *)
Definition link_dial_failed (ls : links) (id : nat) (s : link) : links * bool :=
  if bool_decide (ln_linkType s = linkTypePersistent)
  then (set_link ls id (Link (ln_linkType s) (ln_linkProto s) (ln_ctx s) None true), true)
  else (ls, false).

(** A dial attempt succeeded: [true] when the handler runs on the connection,
    [false] when the goroutine leaves.  The connection is recorded either way. *)
Definition link_dialed (ls : links) (id : nat) (s : link) (conn : nat) : links * bool :=
  let ls := set_link ls id (Link (ln_linkType s) (ln_linkProto s) (ln_ctx s) (Some conn) false) in
  match ln_conn s with
  | Some _ => (ls, false)
  | None => (ls, true)
  end.

(** The state after the handler of an outgoing link returned and the connection
    was closed: [true] when the goroutine goes on to back off. *)
Definition link_handler_done (ls : links) (id : nat) (s : link) : links * bool :=
  (set_link ls id (Link (ln_linkType s) (ln_linkProto s) (ln_ctx s) None true),
   bool_decide (ln_linkType s = linkTypePersistent)).

(** A connection was accepted: the link that holds the state, and whether the
    handler runs. *)
Definition accept_begin (ls : links) (info : linkInfo) (proto : string) (conn : nat) :
    links * nat * bool :=
  match ls_links ls !! info ≫= (λ id, pair id <$> ls_store ls !! id) with
  | Some (id, s) =>
      match ln_conn s with
      | Some _ => (ls, id, false)
      | None => (set_link ls id (Link (ln_linkType s) (ln_linkProto s) (ln_ctx s) (Some conn) false), id, true)
      end
  | None =>
      let id := ls_next ls in
      (Links_ (<[info := id]> (ls_links ls))
         (<[id := Link linkTypeIncoming proto None (Some conn) false]> (ls_store ls)) (S id) (ls_closed ls),
       id, true)
  end.

(** The deferred functions of the goroutine of an accepted connection: drop the
    entry, then close the connection. *)
Definition accept_end (ls : links) (info : linkInfo) (id conn : nat) : links :=
  close_conn (link_exit ls info id) conn.

(** What [listen] does with the socket: it binds it, and registers it when the
    options are valid.  [bound] is the result of the protocol's [listen]; [Err None]
    passes its error on. *)
Inductive listener_event := ListenerBound (l : nat) | ListenerRegistered (l : nat) | ListenerClosed (l : nat).

Definition links_listen (u : url) (bound : option nat) : list listener_event * res (option linkError) nat :=
  match listenerFor u with
  | Err e => ([], Err (Some e))
  | Panic => ([], Panic)
  | Ok _ =>
      match bound with
      | None => ([], Err None)
      | Some l =>
          match listen_options u with
          | Ok _ => ([ListenerBound l; ListenerRegistered l], Ok l)
          | Err e => ([ListenerBound l], Err (Some e))
          | Panic => ([ListenerBound l], Panic)
          end
      end
  end.

(** [shutdown]: every connection of the table is closed. *)
Definition links_shutdown (ls : links) : links :=
  Links_ (ls_links ls) (ls_store ls) (ls_next ls)
    (omap (λ '(_, id), ls_store ls !! id ≫= ln_conn) (map_to_list (ls_links ls)) ++ ls_closed ls).
End Table.

(** ** Properties of the table *)

Section TableLaws.
Context `{NetLib}.

(** duplicate_peer_rejected.  Adding a peer whose URI and interface are
    already in the table changes nothing, kicks the existing link so that it
    reconnects at once, and reports that the peer is already configured; after
    a peer is removed from the table it can be added again. *)
Theorem duplicate_peer_rejected ls u sintf lt options proto :
  dialerFor u = Ok proto → add_options u = Ok options →
  match ls_links ls !! (u_base u, sintf) with
  | Some id => links_add ls u sintf lt = (ls, Some id, Err ErrLinkAlreadyConfigured) ∧
      ∃ ls', links_add (link_exit ls (u_base u, sintf) id) u sintf lt = (ls', None, Ok (ls_next ls))
  | None => ∃ ls', links_add ls u sintf lt = (ls', None, Ok (ls_next ls)) ∧
      ls_links ls' !! (u_base u, sintf) = Some (ls_next ls) ∧
      ls_store ls' !! ls_next ls = Some (Link lt (ToUpper (u_scheme u)) (Some false) None false)
  end.
Proof.
  intros Hd Ho. unfold links_add. rewrite Hd, Ho. destruct (ls_links ls !! _) as [id|] eqn:Hl.
  - split; [done|]. unfold link_exit. rewrite decide_True by done. simpl. rewrite lookup_delete_eq. by eexists.
  - eexists. split; [done|]. simpl. by rewrite !lookup_insert_eq.
Qed.

(** duplicate_accept_drops_live_link.  When a second incoming connection
    maps to the same entry as a link that is connected, it is refused; but the
    deferred clean-up of its goroutine removes the entry of the live link, whose
    connection stays open: the table no longer shows it, and removing the peer
    then fails. *)
Theorem duplicate_accept_drops_live_link ls (info : linkInfo) proto id s c conn u :
  ls_links ls !! info = Some id → ls_store ls !! id = Some s → ln_conn s = Some c →
  c ∉ ls_closed ls → c ≠ conn → (u_base u, snd info) = info →
  accept_begin ls info proto conn = (ls, id, false) ∧
  let ls' := accept_end ls info id conn in
  ls_links ls' !! info = None ∧ ls_store ls' !! id = Some s ∧ c ∉ ls_closed ls' ∧
  snd (links_remove ls' u (snd info)) = Err ErrLinkNotConfigured.
Proof.
  intros Hl Hs Hc Hopen Hne Hu. split.
  - unfold accept_begin. rewrite Hl. simpl. rewrite Hs. simpl. by rewrite Hc.
  - unfold accept_end, link_exit, close_conn. simpl. rewrite decide_True by done. simpl.
    split_and!; [apply lookup_delete_eq|done|set_solver|].
    unfold links_remove. simpl.
    assert (delete info (ls_links ls) !! (u_base u, snd info) = None) as Hnone
      by (rewrite Hu; apply lookup_delete_eq).
    rewrite Hnone. done.
Qed.

(** remove_accepted_link_panics.  Removing a peer by the URI under which an
    accepted connection is listed calls the cancel function of its link, which
    is nil: the links actor panics, and with it the process ends. *)
Theorem remove_accepted_link_panics (ls : links) u sintf proto conn :
  ls_links ls !! (u_base u, sintf) = None →
  let ls' := fst (fst (accept_begin ls (u_base u, sintf) proto conn)) in
  snd (links_remove ls' u sintf) = Panic.
Proof.
  intros Hn ls'. subst ls'. unfold accept_begin.
  assert ((ls_links ls !! ((u_base u, sintf) : linkInfo)) = None) as -> by exact Hn.
  unfold links_remove. cbn. rewrite lookup_insert_eq. cbn. by rewrite lookup_insert_eq.
Qed.

(** listener_leaks_on_bad_options.  [listen] binds the socket before it
    reads the options of the URI; when an option is invalid it returns the
    error without closing the socket. *)
Theorem listener_leaks_on_bad_options u l proto e :
  listenerFor u = Ok proto → listen_options u = Err e →
  links_listen u (Some l) = ([ListenerBound l], Err (Some e)).
Proof. intros Hp Ho. unfold links_listen. by rewrite Hp, Ho. Qed.
End TableLaws.

(** ** Witnesses *)
Module LinksWitness.
Import ToySig HandshakeWitness.

#[export] Instance toy_netlib : NetLib := {
  ParseDuration s := if String.eqb s "10s" then Some (10 * Second) else None;
  is_IP s := String.eqb s "192.0.2.1";
  SplitHost s := Some s;
}.

Definition core_of (b : Z) (allowed : list bytes) : link_core :=
  LinkCore (HandshakeWitness.sk b) (replicate 32 b) allowed.
Definition opts (prio : Z) (pins : list bytes) (secure : bool) : linkOptions :=
  LinkOptions pins prio "" pw secure defaultBackoffLimit.
Definition c1 : link_core := core_of 3 [].
Definition c2 : link_core := core_of 5 [replicate 32 3].
Definition o1 : linkOptions := opts 1 [replicate 32 5] true.
Definition o2 : linkOptions := opts 4 [] true.

Lemma honest_of b allowed prio pins secure :
  is_byte b → is_byte prio → honest (core_of b allowed) (opts prio pins secure) (replicate nonceSize 9).
Proof. intros Hb Hp. split_and!; try done. by apply sk_ok. Qed.

Lemma pw_accepted d : ∃ h, b2_sum512 (opt_password o1) d = Some h.
Proof. by eexists. Qed.

(** What node 2 sends to node 1. *)
Definition flight2 : bytes :=
  match link_hello c1 o1 (Some (replicate nonceSize 9)), link_hello c2 o2 (Some (replicate nonceSize 9)) with
  | Ok (_, m1), Ok (h2, m2) =>
      match encodeConfirmation (lc_secret c2) pw m2 m1 with Ok cf => h2 ++ cf ++ [1; 2] | _ => [] end
  | _, _ => []
  end.

Lemma link_handshake_completes_witness :
  ∃ hello1 m1 hello2 m2 conf1 conf2,
    link_hello c1 o1 (Some (replicate nonceSize 9)) = Ok (hello1, m1) ∧
    link_hello c2 o2 (Some (replicate nonceSize 9)) = Ok (hello2, m2) ∧
    encodeConfirmation (lc_secret c1) (opt_password o1) m1 m2 = Ok conf1 ∧
    encodeConfirmation (lc_secret c2) (opt_password o2) m2 m1 = Ok conf2 ∧
    link_handler c1 linkTypePersistent o1 (TLSTransport [Some (replicate 32 5)]) false None (Some (replicate nonceSize 9))
      (hello2 ++ conf2 ++ [1; 2]) = Ok (lc_public c2, Z.max (opt_priority o1) (opt_priority o2), [1; 2]) ∧
    link_handler c2 linkTypeIncoming o2 (TLSTransport [Some (replicate 32 3)]) false None (Some (replicate nonceSize 9))
      (hello1 ++ conf1 ++ [3]) = Ok (lc_public c1, Z.max (opt_priority o1) (opt_priority o2), [3]).
Proof.
  apply (link_handshake_completes c1 c2 o1 o2 (TLSTransport [Some (replicate 32 5)])
    (TLSTransport [Some (replicate 32 3)]) (replicate nonceSize 9) (replicate nonceSize 9)
    linkTypePersistent linkTypeIncoming false false [1; 2] [3]).
  - by apply honest_of.
  - by apply honest_of.
  - done.
  - reflexivity.
  - exact pw_accepted.
  - reflexivity.
  - reflexivity.
  - vm_compute. reflexivity.
  - vm_compute. reflexivity.
  - vm_compute. reflexivity.
  - vm_compute. reflexivity.
Defined.

Lemma link_handler_gate_witness :
  link_handler c1 linkTypePersistent o1 PlainTransport false None (Some (replicate nonceSize 9)) flight2 =
    Ok (replicate 32 5, 4, [1; 2]) ∧
  ∃ metaBytes localMeta remoteMeta,
    link_hello c1 o1 (Some (replicate nonceSize 9)) = Ok (metaBytes, localMeta) ∧
    vm_publicKey remoteMeta = replicate 32 5 ∧ confirmed pw localMeta remoteMeta.
Proof.
  assert (link_handler c1 linkTypePersistent o1 PlainTransport false None (Some (replicate nonceSize 9)) flight2 =
    Ok (replicate 32 5, 4, [1; 2])) as Hh by (vm_compute; reflexivity).
  split; [exact Hh|].
  destruct (link_handler_gate c1 linkTypePersistent o1 PlainTransport false None
    (Some (replicate nonceSize 9)) flight2 (replicate 32 5) 4 [1; 2] Hh)
    as (mb & lm & rm & H1 & H2 & _ & _ & _ & H3 & H4 & _).
  exists mb, lm, rm. split_and!; [exact H1|exact H2|]. apply H3, H4. reflexivity.
Defined.

Definition peer_url : url :=
  Url "tls" "peer.example:1234" (λ k, if String.eqb k "priority" then ["7"] else []) "tls://peer.example:1234".

Definition bad_url : url :=
  Url "tcp" "[::]:0" (λ k, if String.eqb k "priority" then ["256"] else []) "tcp://[::]:0".

Definition one_link : links := fst (fst (links_add links_init peer_url "eth0" linkTypePersistent)).

Lemma duplicate_peer_rejected_witness :
  links_add one_link peer_url "eth0" linkTypePersistent = (one_link, Some 0%nat, Err ErrLinkAlreadyConfigured).
Proof.
  pose proof (duplicate_peer_rejected one_link peer_url "eth0" linkTypePersistent
    (LinkOptions [] 7 "peer.example:1234" [] false defaultBackoffLimit) linkTLS eq_refl eq_refl) as Hd.
  exact (proj1 Hd).
Defined.

(** A listener on a socket whose peers all have the same remote address. *)
Definition unix_info : linkInfo := ("unix://@", "").
Definition unix_url : url := Url "unix" "@" (λ _, []) "unix://@".
Definition live : links := fst (fst (accept_begin links_init unix_info "UNIX" 1%nat)).

Lemma duplicate_accept_drops_live_link_witness :
  ls_links live !! unix_info = Some 0%nat ∧
  ls_links (accept_end live unix_info 0 2) !! unix_info = None ∧
  snd (links_remove (accept_end live unix_info 0 2) unix_url "") = Err ErrLinkNotConfigured.
Proof.
  destruct (duplicate_accept_drops_live_link live unix_info "UNIX" 0%nat
    (Link linkTypeIncoming "UNIX" None (Some 1%nat) false) 1%nat 2%nat unix_url) as (_ & H1 & _ & _ & H2).
  - reflexivity.
  - reflexivity.
  - reflexivity.
  - apply not_elem_of_nil.
  - done.
  - reflexivity.
  - split_and!; [reflexivity|exact H1|exact H2].
Defined.

Lemma remove_accepted_link_panics_witness :
  snd (links_remove live unix_url "") = Panic.
Proof. apply (remove_accepted_link_panics links_init unix_url "" "UNIX" 1%nat). reflexivity. Defined.

Lemma listener_leaks_on_bad_options_witness :
  links_listen bad_url (Some 0%nat) = ([ListenerBound 0], Err (Some ErrLinkPriorityInvalid)).
Proof. apply (listener_leaks_on_bad_options bad_url 0 linkTCP ErrLinkPriorityInvalid); reflexivity. Defined.
End LinksWitness.
