(* ===== verification/LinkTable.v ===== *)
(** * LinkTable: the goroutines of the links and the table they share
    (src/core/link.go)

    Every peer that is added and every connection that is accepted has a
    goroutine, which runs between the blocks that it has the links actor
    execute.  The file lets the goroutines, the administrator and the shutdown
    interleave in any order and shows what holds of the table, of the
    connections being served and of removal. *)

From S2P Require Import Prelude Binary Wire Address Crypto Messages Handshake Links.

Open Scope string_scope.
Open Scope list_scope.
Open Scope Z_scope.

(** ** Goroutines *)

(** Where a goroutine is: at the head of the loop of [add], dialling, backing
    off, in the handler of a dialled connection, after it closed that
    connection, in the handler of an accepted connection, or before its
    deferred functions, with the accepted connection that they close. *)
Inductive phase :=
| PHead
| PDialing
| PBackoff
| PServing (conn : nat)
| PServed (conn : nat)
| PAccepted (conn : nat)
| PLeaving (conn : option nat).

(** A goroutine: the [info] and the [state] that its closure captures. *)
Record goroutine := Goroutine { g_info : linkInfo; g_id : nat; g_phase : phase }.

(** The connection in whose handler a goroutine is. *)
Definition serving (r : goroutine) : option nat :=
  match g_phase r with PServing c | PAccepted c => Some c | _ => None end.

(** The connection that a goroutine recorded in its link: the handler runs, or
    it returned and the record is still there. *)
Definition holding (r : goroutine) : option nat :=
  match g_phase r with PServing c | PServed c | PAccepted c => Some c | _ => None end.

(** The connection of a goroutine. *)
Definition owned (r : goroutine) : option nat :=
  match g_phase r with PServing c | PServed c | PAccepted c => Some c | PLeaving c => c | _ => None end.

(** The links actor with the live goroutines, and whether the core's context
    was cancelled.  Three sets record the past of links, for the theorems only:
    [lk_joined], the links that an accepted connection found in the table;
    [lk_failed], those whose dial failed while a connection was recorded, which
    clears the record; [lk_overlap], those whose dial succeeded while a
    connection was recorded, which overwrites the record. *)
Record links_conf := LinksConf {
  lk_links : links;
  lk_gs : gmap nat goroutine;
  lk_gnext : nat;
  lk_cnext : nat;
  lk_down : bool;
  lk_joined : gset nat;
  lk_failed : gset nat;
  lk_overlap : gset nat;
}.

Definition conf_init : links_conf := LinksConf links_init ∅ 0 0 false ∅ ∅ ∅.

(** What happens next: an operation, a goroutine that goes on, or the two steps
    of the core's [_close]. *)
Inductive links_event :=
| EvAdd (u : url) (sintf : string) (lt : linkType)
| EvRemove (u : url) (sintf : string)
| EvAccept (info : linkInfo) (proto : string)
| EvHead (g : nat)
| EvDialFailed (g : nat)
| EvDialed (g : nat)
| EvBackoff (g : nat) (retry : bool)
| EvReturned (g : nat)
| EvHandlerDone (g : nat)
| EvExit (g : nat)
| EvCancel
| EvShutdown.

Definition event_of (ev : links_event) : option nat :=
  match ev with
  | EvHead g | EvDialFailed g | EvDialed g | EvBackoff g _ | EvReturned g | EvHandlerDone g | EvExit g => Some g
  | _ => None
  end.

(** [state.ctx] is done: the link was removed, or the node is stopping.  It
    derives from the core's context. *)
Definition ctx_done (cf : links_conf) (id : nat) : bool :=
  lk_down cf || match ls_store (lk_links cf) !! id with Some s => bool_decide (ln_ctx s = Some true) | None => false end.

Definition lk_with (cf : links_conf) (ls : links) : links_conf :=
  LinksConf ls (lk_gs cf) (lk_gnext cf) (lk_cnext cf) (lk_down cf) (lk_joined cf) (lk_failed cf) (lk_overlap cf).

(** A new goroutine. *)
Definition spawn (cf : links_conf) (r : goroutine) : links_conf :=
  LinksConf (lk_links cf) (<[lk_gnext cf := r]> (lk_gs cf)) (S (lk_gnext cf)) (lk_cnext cf) (lk_down cf)
    (lk_joined cf) (lk_failed cf) (lk_overlap cf).

(** A goroutine moves on. *)
Definition go (cf : links_conf) (g : nat) (r : goroutine) (p : phase) : links_conf :=
  LinksConf (lk_links cf) (<[g := Goroutine (g_info r) (g_id r) p]> (lk_gs cf)) (lk_gnext cf) (lk_cnext cf)
    (lk_down cf) (lk_joined cf) (lk_failed cf) (lk_overlap cf).

Definition has_conn (s : link) : bool := match ln_conn s with Some _ => true | None => false end.

(** The set with [id] added when the link has a connection on record. *)
Definition note (s : link) (id : nat) (X : gset nat) : gset nat := if has_conn s then {[id]} ∪ X else X.

Section Steps.
Context `{NetLib}.

(** A dial attempt of goroutine [g] failed. *)
Definition step_dial_failed (cf : links_conf) (g : nat) (r : goroutine) (s : link) : links_conf :=
  let '(ls, again) := link_dial_failed (lk_links cf) (g_id r) s in
  go (LinksConf ls (lk_gs cf) (lk_gnext cf) (lk_cnext cf) (lk_down cf) (lk_joined cf)
        (note s (g_id r) (lk_failed cf)) (lk_overlap cf))
    g r (if again then PBackoff else PLeaving None).

(** It succeeded, with a new connection. *)
Definition step_dialed (cf : links_conf) (g : nat) (r : goroutine) (s : link) : links_conf :=
  let conn := lk_cnext cf in
  let '(ls, run) := link_dialed (lk_links cf) (g_id r) s conn in
  go (LinksConf ls (lk_gs cf) (lk_gnext cf) (S conn) (lk_down cf) (lk_joined cf)
        (lk_failed cf) (note s (g_id r) (lk_overlap cf)))
    g r (if run then PServing conn else PLeaving None).

(** A listener accepted a connection, and the goroutine for it entered the
    links actor: it runs the handler, or it leaves. *)
Definition step_accept (cf : links_conf) (info : linkInfo) (proto : string) : links_conf :=
  let conn := lk_cnext cf in
  let '(ls, id, run) := accept_begin (lk_links cf) info proto conn in
  let joined := if decide (is_Some (ls_links (lk_links cf) !! info)) then {[id]} ∪ lk_joined cf else lk_joined cf in
  spawn (LinksConf ls (lk_gs cf) (lk_gnext cf) (S conn) (lk_down cf) joined (lk_failed cf) (lk_overlap cf))
    (Goroutine info id (if run then PAccepted conn else PLeaving (Some conn))).

(** The deferred functions of a goroutine, which then ends. *)
Definition step_exit (cf : links_conf) (g : nat) (r : goroutine) (conn : option nat) : links_conf :=
  let ls := match conn with
            | None => link_exit (lk_links cf) (g_info r) (g_id r)
            | Some c => accept_end (lk_links cf) (g_info r) (g_id r) c
            end in
  LinksConf ls (delete g (lk_gs cf)) (lk_gnext cf) (lk_cnext cf) (lk_down cf) (lk_joined cf)
    (lk_failed cf) (lk_overlap cf).

(** Goroutine [g] goes on from where it is; [Err ()] when the event cannot
    happen there.  The wait of the back-off ends by its timer or a kick, which
    goes back to the head of the loop, or because the context is done; when
    both are ready either may be taken. *)
Definition step_goroutine (cf : links_conf) (g : nat) (ev : links_event) : res () links_conf :=
  match lk_gs cf !! g with
  | None => Err ()
  | Some r =>
      match ls_store (lk_links cf) !! g_id r with
      | None => Err ()
      | Some s =>
          match ev, g_phase r with
          | EvHead _, PHead => Ok (go cf g r (if ctx_done cf (g_id r) then PLeaving None else PDialing))
          | EvDialFailed _, PDialing => Ok (step_dial_failed cf g r s)
          | EvDialed _, PDialing => Ok (step_dialed cf g r s)
          | EvBackoff _ true, PBackoff => Ok (go cf g r PHead)
          | EvBackoff _ false, PBackoff => if ctx_done cf (g_id r) then Ok (go cf g r (PLeaving None)) else Err ()
          | EvReturned _, PServing c => Ok (go (lk_with cf (close_conn (lk_links cf) c)) g r (PServed c))
          | EvReturned _, PAccepted c => Ok (go (lk_with cf (close_conn (lk_links cf) c)) g r (PLeaving (Some c)))
          | EvHandlerDone _, PServed _ =>
              let '(ls, again) := link_handler_done (lk_links cf) (g_id r) s in
              Ok (go (lk_with cf ls) g r (if again then PBackoff else PLeaving None))
          | EvExit _, PLeaving c => Ok (step_exit cf g r c)
          | _, _ => Err ()
          end
      end
  end.

(** One step; a panic of the links actor ends the process. *)
Definition links_step (cf : links_conf) (ev : links_event) : res () links_conf :=
  match ev with
  | EvAdd u sintf lt =>
      match links_add (lk_links cf) u sintf lt with
      | (ls, _, Ok id) => Ok (spawn (lk_with cf ls) (Goroutine (u_base u, sintf) id PHead))
      | (ls, _, _) => Ok (lk_with cf ls)
      end
  | EvRemove u sintf =>
      match links_remove (lk_links cf) u sintf with
      | (_, Panic) => Panic
      | (ls, _) => Ok (lk_with cf ls)
      end
  | EvAccept info proto => Ok (step_accept cf info proto)
  | EvCancel =>
      Ok (LinksConf (lk_links cf) (lk_gs cf) (lk_gnext cf) (lk_cnext cf) true (lk_joined cf) (lk_failed cf) (lk_overlap cf))
  | EvShutdown => if lk_down cf then Ok (lk_with cf (links_shutdown (lk_links cf))) else Err ()
  | EvHead g | EvDialFailed g | EvDialed g | EvBackoff g _ | EvReturned g | EvHandlerDone g | EvExit g =>
      step_goroutine cf g ev
  end.

Fixpoint links_run (cf : links_conf) (evs : list links_event) : res () links_conf :=
  match evs with
  | [] => Ok cf
  | ev :: evs => cf ← links_step cf ev; links_run cf evs
  end.
End Steps.

(** ** The table and its goroutines *)

Definition ident (r : goroutine) : linkInfo * nat := (g_info r, g_id r).

(** Every entry has a live goroutine with that link, which drops it when it
    ends; the goroutine of a link that no accepted connection found is the only
    one with that link, and its entry is there. *)
Record table_ok (t : gmap linkInfo nat) (gs : gmap nat (linkInfo * nat)) (J : gset nat) : Prop := {
  to_entry : ∀ info id, t !! info = Some id → ∃ g, gs !! g = Some (info, id);
  to_own : ∀ g info id, gs !! g = Some (info, id) → id ∉ J → t !! info = Some id;
  to_alone : ∀ g g' info info' id, gs !! g = Some (info, id) → gs !! g' = Some (info', id) → id ∉ J → g = g';
}.

Lemma table_ok_new t gs J info id g :
  table_ok t gs J → t !! info = None → gs !! g = None → (∀ g' i, gs !! g' ≠ Some (i, id)) →
  table_ok (<[info := id]> t) (<[g := (info, id)]> gs) J.
Proof.
  intros [He Ho Ha] Hn Hg Hf. split.
  - intros i d [[<- <-]|[Hi Hd]]%lookup_insert_Some.
    + exists g. by rewrite lookup_insert_eq.
    + destruct (He i d Hd) as [g' Hg']. exists g'. rewrite lookup_insert_ne; [done|]. by intros ->; rewrite Hg in Hg'.
  - intros g' i d [[<- Heq]|[Hne Hg']]%lookup_insert_Some Hj; [simplify_eq; apply lookup_insert_eq|].
    rewrite lookup_insert_ne; [by eapply Ho|]. intros ->. by rewrite (Ho _ _ _ Hg' Hj) in Hn.
  - intros g1 g2 i1 i2 d [[<- E1]|[N1 H1]]%lookup_insert_Some [[<- E2]|[N2 H2]]%lookup_insert_Some Hj;
      simplify_eq; [done|by destruct (Hf g2 i2)|by destruct (Hf g1 i1)|by eapply Ha].
Qed.

Lemma table_ok_join t gs J info id g :
  table_ok t gs J → gs !! g = None → table_ok t (<[g := (info, id)]> gs) ({[id]} ∪ J).
Proof.
  intros [He Ho Ha] Hg. split.
  - intros i d Hd. destruct (He i d Hd) as [g' Hg']. exists g'. rewrite lookup_insert_ne; [done|].
    by intros ->; rewrite Hg in Hg'.
  - intros g' i d [[<- Heq]|[Hne Hg']]%lookup_insert_Some Hj; [simplify_eq; set_solver|].
    eapply Ho; [done|set_solver].
  - intros g1 g2 i1 i2 d [[<- E1]|[N1 H1]]%lookup_insert_Some [[<- E2]|[N2 H2]]%lookup_insert_Some Hj;
      simplify_eq; set_solver.
Qed.

Lemma table_ok_exit ls gs J info id g :
  table_ok (ls_links ls) gs J → gs !! g = Some (info, id) →
  table_ok (ls_links (link_exit ls info id)) (delete g gs) J.
Proof.
  intros [He Ho Ha] Hg. unfold link_exit.
  assert (∀ i d, ls_links ls !! i = Some d → (i, d) ≠ (info, id) → ∃ g', delete g gs !! g' = Some (i, d)) as Hkeep.
  { intros i d Hd Hne. destruct (He i d Hd) as [g' Hg']. exists g'. rewrite lookup_delete_ne; [done|].
    intros ->. rewrite Hg' in Hg. by simplify_eq. }
  destruct (decide _) as [Hl|Hl]; split; simpl.
  - intros i d [Hi Hd]%lookup_delete_Some. apply Hkeep; [done|]. by intros [=].
  - intros g' i d [Hne Hg']%lookup_delete_Some Hj. pose proof (Ho _ _ _ Hg' Hj) as Hi.
    rewrite lookup_delete_ne; [done|]. intros ->. rewrite Hl in Hi. simplify_eq. by destruct Hne; eapply Ha.
  - intros g1 g2 i1 i2 d [_ H1]%lookup_delete_Some [_ H2]%lookup_delete_Some. by eapply Ha.
  - intros i d Hd. apply Hkeep; [done|]. intros [= -> ->]. done.
  - intros g' i d [Hne Hg']%lookup_delete_Some. by eapply Ho.
  - intros g1 g2 i1 i2 d [_ H1]%lookup_delete_Some [_ H2]%lookup_delete_Some. by eapply Ha.
Qed.

(** ** The connections *)

(** Connections are not shared by goroutines, and a link records a connection
    of its own.  Unless a failed dial cleared the record, at most one goroutine
    holds a connection of a link, and then the link has one on record; unless it
    was overwritten, that is the one.  A connection being served was closed only
    if its link was removed or the node is stopping. *)
Record conn_ok (st : gmap nat link) (gs : gmap nat goroutine) (closed : list nat) (cnext : nat) (down : bool)
    (F O : gset nat) : Prop := {
  ck_owned : ∀ g r c, gs !! g = Some r → owned r = Some c → (c < cnext)%nat;
  ck_record : ∀ id s c, st !! id = Some s → ln_conn s = Some c → (c < cnext)%nat;
  ck_past : ∀ c, c ∈ closed → (c < cnext)%nat;
  ck_uniq : ∀ g g' r r' c, gs !! g = Some r → gs !! g' = Some r' → owned r = Some c → owned r' = Some c → g = g';
  ck_link : ∀ g r id s c, gs !! g = Some r → owned r = Some c → st !! id = Some s → ln_conn s = Some c → g_id r = id;
  ck_some : ∀ g r s c, gs !! g = Some r → holding r = Some c → g_id r ∉ F → st !! g_id r = Some s → ln_conn s ≠ None;
  ck_one : ∀ g g' r r' c c', gs !! g = Some r → gs !! g' = Some r' → holding r = Some c → holding r' = Some c' →
    g_id r = g_id r' → g_id r ∉ F → g = g';
  ck_kept : ∀ g r s c, gs !! g = Some r → holding r = Some c → g_id r ∉ F → g_id r ∉ O →
    st !! g_id r = Some s → ln_conn s = Some c;
  ck_open : ∀ g r c, gs !! g = Some r → serving r = Some c → c ∈ closed →
    down = true ∨ ∃ s, st !! g_id r = Some s ∧ ln_ctx s = Some true;
}.

Lemma holding_owned r c : holding r = Some c → owned r = Some c.
Proof. unfold holding, owned. by destruct (g_phase r). Qed.

Lemma serving_holding r c : serving r = Some c → holding r = Some c.
Proof. unfold serving, holding. by destruct (g_phase r). Qed.

(** A goroutine that gives up the handler, and the close of its connection. *)
Lemma conn_ok_leave st gs closed cnext down F O g r p :
  conn_ok st gs closed cnext down F O → gs !! g = Some r →
  let r' := Goroutine (g_info r) (g_id r) p in
  serving r' = None → (holding r' = None ∨ holding r' = holding r) → (owned r' = None ∨ owned r' = owned r) →
  conn_ok st (<[g := r']> gs) (option_list (owned r) ++ closed) cnext down F O.
Proof.
  intros [] Hg r' Hs Hh Ho.
  assert (∀ g1 r1, <[g := r']> gs !! g1 = Some r1 → ∃ r0, gs !! g1 = Some r0 ∧ g_id r0 = g_id r1 ∧
    (∀ c, owned r1 = Some c → owned r0 = Some c) ∧ (∀ c, holding r1 = Some c → holding r0 = Some c) ∧
    (∀ c, serving r1 = Some c → serving r0 = Some c ∧ g1 ≠ g)) as Hback.
  { intros g1 r1 [[<- <-]|[Hne H1]]%lookup_insert_Some; [exists r|by exists r1].
    split_and!; [done|done|naive_solver congruence|naive_solver congruence|]. intros c. by rewrite Hs. }
  split; try done.
  - intros g1 r1 c (r0 & H1 & _ & H2 & _)%Hback ?. eauto.
  - intros c [Hc|]%elem_of_app; [|eauto]. destruct (owned r) as [d|] eqn:E; simpl in Hc; [|set_solver].
    apply list_elem_of_singleton in Hc as ->. eauto.
  - intros g1 g2 r1 r2 c (r3 & H1 & _ & H2 & _)%Hback (r4 & H3 & _ & H4 & _)%Hback ? ?. eauto.
  - intros g1 r1 id s c (r0 & H1 & <- & H2 & _)%Hback ? ? ?. eauto.
  - intros g1 r1 s c (r0 & H1 & <- & _ & H2 & _)%Hback ? ? ?. eauto.
  - intros g1 g2 r1 r2 c c' (r3 & H1 & <- & _ & H2 & _)%Hback (r4 & H3 & <- & _ & H4 & _)%Hback ? ? ? ?. eauto.
  - intros g1 r1 s c (r0 & H1 & <- & _ & H2 & _)%Hback ? ? ? ?. eauto.
  - intros g1 r1 c (r0 & H1 & <- & _ & _ & H2)%Hback [H3 Hne]%H2 [Hc|]%elem_of_app; [|eauto].
    destruct (owned r) as [d|] eqn:E; simpl in Hc; [|set_solver].
    apply list_elem_of_singleton in Hc as ->. destruct Hne.
    by eapply ck_uniq0; [done|done|apply holding_owned, serving_holding|].
Qed.

(** A link changes. *)
Lemma conn_ok_set st gs closed cnext cnext' down F O F' O' id s' :
  conn_ok st gs closed cnext down F O → F ⊆ F' → O ⊆ O' → (cnext <= cnext')%nat →
  (∀ s, st !! id = Some s → ln_ctx s = Some true → ln_ctx s' = Some true) →
  (∀ c, ln_conn s' = Some c → (c < cnext')%nat) →
  (∀ g r c, gs !! g = Some r → owned r = Some c → ln_conn s' = Some c → g_id r = id) →
  (∀ g r c, gs !! g = Some r → g_id r = id → holding r = Some c → id ∉ F' →
     ln_conn s' ≠ None ∧ (id ∉ O' → ln_conn s' = Some c)) →
  conn_ok (<[id := s']> st) gs closed cnext' down F' O'.
Proof.
  intros [] HF HO Hle Hctx Hlt Hlink Hhold. split.
  - intros g r c ? ?. by eapply Nat.lt_le_trans; [eapply ck_owned0|].
  - intros i s c [[<- <-]|[Hne Hs]]%lookup_insert_Some Hc; [by apply Hlt|].
    by eapply Nat.lt_le_trans; [eapply ck_record0|].
  - intros c ?. by eapply Nat.lt_le_trans; [eapply ck_past0|].
  - done.
  - intros g r i s c ? ? [[<- <-]|[Hne Hs]]%lookup_insert_Some ?; eauto.
  - intros g r s c Hg Hr Hi [[Hid <-]|[Hne Hs]]%lookup_insert_Some.
    + rewrite <- Hid in Hi. by destruct (Hhold g r c Hg (eq_sym Hid) Hr Hi).
    + eapply ck_some0; [done|done|set_solver|done].
  - intros g g' r r' c c' ? ? ? ? ? ?. eapply ck_one0; [done|done|done|done|done|set_solver].
  - intros g r s c Hg Hr Hi Hj [[Hid <-]|[Hne Hs]]%lookup_insert_Some.
    + rewrite <- Hid in Hi, Hj. by apply (Hhold g r c Hg (eq_sym Hid) Hr Hi).
    + eapply ck_kept0; [done|done|set_solver|set_solver|done].
  - intros g r c Hg Hr Hc. destruct (ck_open0 g r c Hg Hr Hc) as [?|(s & Hs & Ht)]; [by left|right].
    destruct (decide (g_id r = id)) as [Heq|Hne].
    + exists s'. rewrite Heq, lookup_insert_eq. rewrite Heq in Hs. eauto.
    + exists s. by rewrite lookup_insert_ne.
Qed.

(** A goroutine without a connection starts, or obtains one. *)
Lemma conn_ok_gain st gs closed cnext down F O g r' :
  conn_ok st gs closed cnext down F O → (∀ r, gs !! g = Some r → owned r = None) →
  (∀ c, owned r' = Some c →
     (c < cnext)%nat ∧ c ∉ closed ∧ (∀ g r, gs !! g = Some r → owned r ≠ Some c) ∧
     (∀ id s, st !! id = Some s → ln_conn s = Some c → g_id r' = id)) →
  (∀ c s, holding r' = Some c → st !! g_id r' = Some s → ln_conn s = Some c) →
  (∀ g r c c', holding r' = Some c' → gs !! g = Some r → holding r = Some c → g_id r = g_id r' → g_id r' ∈ F) →
  conn_ok st (<[g := r']> gs) closed cnext down F O.
Proof.
  intros [] Hg Hown Hkept Hone. split; try done.
  - intros g1 r c [[<- <-]|[Hne H1]]%lookup_insert_Some Hc; [by apply Hown|eauto].
  - intros g1 g2 r1 r2 c [[<- <-]|[N1 H1]]%lookup_insert_Some [[<- <-]|[N2 H2]]%lookup_insert_Some H3 H4;
      [done| | |by eapply ck_uniq0].
    + apply Hown in H3 as (_ & _ & Hno & _). by apply Hno in H2.
    + apply Hown in H4 as (_ & _ & Hno & _). by apply Hno in H1.
  - intros g1 r id s c [[<- <-]|[Hne H1]]%lookup_insert_Some Hc; [|eauto].
    destruct (Hown c Hc) as (_ & _ & _ & Hl). apply Hl.
  - intros g1 r s c [[<- <-]|[Hne H1]]%lookup_insert_Some Hh Hi Hs; [|eauto]. by rewrite (Hkept c s Hh Hs).
  - intros g1 g2 r1 r2 c c' [[<- <-]|[N1 H1]]%lookup_insert_Some [[<- <-]|[N2 H2]]%lookup_insert_Some H3 H4 Hid Hi;
      [done| | |by eapply ck_one0].
    + by destruct Hi; eapply Hone.
    + rewrite Hid in Hi. by destruct Hi; eapply Hone.
  - intros g1 r s c [[<- <-]|[Hne H1]]%lookup_insert_Some Hh Hi Hj Hs; [by eapply Hkept|by eapply ck_kept0].
  - intros g1 r c [[<- <-]|[Hne H1]]%lookup_insert_Some Hs Hc; [|eauto].
    apply serving_holding, holding_owned, Hown in Hs as (_ & Hnc & _). done.
Qed.

(** A goroutine ends, with the close of its connection. *)
Lemma conn_ok_end st gs closed cnext down F O g r :
  conn_ok st gs closed cnext down F O → gs !! g = Some r →
  conn_ok st (delete g gs) (option_list (owned r) ++ closed) cnext down F O.
Proof.
  intros Hok Hg.
  destruct (conn_ok_leave st gs closed cnext down F O g r (PLeaving None) Hok Hg); try by (try left).
  assert (∀ g1 r1, delete g gs !! g1 = Some r1 → <[g := Goroutine (g_info r) (g_id r) (PLeaving None)]> gs !! g1 = Some r1) as Hin.
  { intros g1 r1 [Hne H1]%lookup_delete_Some. by rewrite lookup_insert_ne. }
  split; try done; intros; eauto.
Qed.

(** Connections are closed that belong to removed links, or at shutdown. *)
Lemma conn_ok_close st gs closed cnext down F O cs :
  conn_ok st gs closed cnext down F O → (∀ c, c ∈ cs → (c < cnext)%nat) →
  (∀ g r c, gs !! g = Some r → serving r = Some c → c ∈ cs →
     down = true ∨ ∃ s, st !! g_id r = Some s ∧ ln_ctx s = Some true) →
  conn_ok st gs (cs ++ closed) cnext down F O.
Proof.
  intros [] Hlt Hcs. split; try done.
  - intros c [Hc|Hc]%elem_of_app; eauto.
  - intros g r c Hg Hr [Hc|Hc]%elem_of_app; eauto.
Qed.

(** ** The invariant of configurations *)

Record conf_ok (cf : links_conf) : Prop := {
  cf_table : table_ok (ls_links (lk_links cf)) (ident <$> lk_gs cf) (lk_joined cf);
  cf_conn : conn_ok (ls_store (lk_links cf)) (lk_gs cf) (ls_closed (lk_links cf)) (lk_cnext cf) (lk_down cf)
              (lk_failed cf) (lk_overlap cf);
  cf_store : ∀ g r, lk_gs cf !! g = Some r → is_Some (ls_store (lk_links cf) !! g_id r);
  cf_next : ∀ id, is_Some (ls_store (lk_links cf) !! id) → (id < ls_next (lk_links cf))%nat;
  cf_gnext : ∀ g, is_Some (lk_gs cf !! g) → (g < lk_gnext cf)%nat;
}.

Lemma conf_init_ok : conf_ok conf_init.
Proof.
  split; [| |simpl; intros *; rewrite ?lookup_empty; try done; by intros [? ?]..].
  - split; simpl; intros *; rewrite ?fmap_empty, ?lookup_empty; done.
  - split; simpl; intros *; rewrite ?lookup_empty; try done. set_solver.
Qed.

Lemma ident_go (gs : gmap nat goroutine) g r p :
  gs !! g = Some r → ident <$> <[g := Goroutine (g_info r) (g_id r) p]> gs = ident <$> gs.
Proof.
  intros Hg. rewrite fmap_insert. apply insert_id. rewrite lookup_fmap, Hg. reflexivity.
Qed.

Lemma entry_link cf info id : conf_ok cf → ls_links (lk_links cf) !! info = Some id →
  ∃ s, ls_store (lk_links cf) !! id = Some s.
Proof.
  intros Hok Hl. destruct (to_entry _ _ _ (cf_table _ Hok) _ _ Hl) as [g Hg].
  apply lookup_fmap_Some in Hg as (r & [= <- <-] & Hr). by eapply cf_store.
Qed.

Lemma gs_fresh cf : conf_ok cf → lk_gs cf !! lk_gnext cf = None.
Proof.
  intros Hok. destruct (lk_gs cf !! lk_gnext cf) eqn:E; [|done].
  assert (lk_gnext cf < lk_gnext cf)%nat by (apply (cf_gnext _ Hok); by eexists). lia.
Qed.

Lemma store_fresh cf : conf_ok cf → ls_store (lk_links cf) !! ls_next (lk_links cf) = None.
Proof.
  intros Hok. destruct (ls_store (lk_links cf) !! ls_next (lk_links cf)) eqn:E; [|done].
  assert (ls_next (lk_links cf) < ls_next (lk_links cf))%nat by (apply (cf_next _ Hok); by eexists). lia.
Qed.

Lemma id_fresh cf g r : conf_ok cf → lk_gs cf !! g = Some r → g_id r ≠ ls_next (lk_links cf).
Proof.
  intros Hok Hg Heq. destruct (cf_store _ Hok _ _ Hg) as [s Hs]. by rewrite Heq, store_fresh in Hs.
Qed.

(** Connections that do not exist yet. *)
Lemma conn_fresh st gs closed cnext down F O : conn_ok st gs closed cnext down F O →
  (∀ g r, gs !! g = Some r → owned r ≠ Some cnext) ∧ cnext ∉ closed ∧
  (∀ id s, st !! id = Some s → ln_conn s ≠ Some cnext).
Proof.
  intros []. split_and!.
  - intros g r Hg Hr. assert (cnext < cnext)%nat by eauto. lia.
  - intros Hc. assert (cnext < cnext)%nat by eauto. lia.
  - intros id s Hs Hc. assert (cnext < cnext)%nat by eauto. lia.
Qed.

(** A step of goroutine [g] that changes at most its own link. *)
Lemma conf_ok_go cf g r p ls cnext F O :
  conf_ok cf → lk_gs cf !! g = Some r →
  ls_links ls = ls_links (lk_links cf) → ls_next ls = ls_next (lk_links cf) →
  (ls_store ls = ls_store (lk_links cf) ∨ ∃ s, ls_store ls = <[g_id r := s]> (ls_store (lk_links cf))) →
  conn_ok (ls_store ls) (<[g := Goroutine (g_info r) (g_id r) p]> (lk_gs cf)) (ls_closed ls) cnext (lk_down cf) F O →
  conf_ok (go (LinksConf ls (lk_gs cf) (lk_gnext cf) cnext (lk_down cf) (lk_joined cf) F O) g r p).
Proof.
  intros Hok Hg Ht Hn Hst Hc.
  assert (∀ id, is_Some (ls_store ls !! id) ↔ is_Some (ls_store (lk_links cf) !! id)) as Hdom.
  { destruct Hst as [->|[s ->]]; [done|]. intros id. destruct (decide (id = g_id r)) as [->|Hne].
    - rewrite lookup_insert_eq. split; [|by eexists]. intros _. by apply (cf_store _ Hok g).
    - by rewrite lookup_insert_ne. }
  split; simpl; [|done| | |].
  - rewrite ident_go, Ht by done. apply Hok.
  - intros g1 r1 [[<- <-]|[Hne H1]]%lookup_insert_Some; apply Hdom; simpl; by eapply cf_store.
  - intros id. rewrite Hdom, Hn. apply Hok.
  - intros g1. destruct (decide (g1 = g)) as [->|Hne]; [|rewrite lookup_insert_ne by done; apply Hok].
    intros _. apply (cf_gnext _ Hok). by eexists.
Qed.

(** The goroutine moves on, and the connection that it gives up is closed. *)
Lemma step_leave_ok cf g r p closed :
  conf_ok cf → lk_gs cf !! g = Some r →
  let r' := Goroutine (g_info r) (g_id r) p in
  serving r' = None → (holding r' = None ∨ holding r' = holding r) → (owned r' = None ∨ owned r' = owned r) →
  closed = option_list (owned r) ++ ls_closed (lk_links cf) →
  conf_ok (go (lk_with cf (Links_ (ls_links (lk_links cf)) (ls_store (lk_links cf)) (ls_next (lk_links cf)) closed)) g r p).
Proof.
  intros Hok Hg r' Hs Hh Ho ->.
  apply (conf_ok_go cf g r p (Links_ (ls_links (lk_links cf)) (ls_store (lk_links cf)) (ls_next (lk_links cf))
    (option_list (owned r) ++ ls_closed (lk_links cf))) (lk_cnext cf) (lk_failed cf) (lk_overlap cf)); try done; [by left|].
  simpl. apply conn_ok_leave; try done. apply Hok.
Qed.

Lemma step_idle_ok cf g r p :
  conf_ok cf → lk_gs cf !! g = Some r → owned r = None → owned (Goroutine (g_info r) (g_id r) p) = None →
  conf_ok (go cf g r p).
Proof.
  intros Hok Hg Hr Hp.
  assert (conf_ok (go (lk_with cf (Links_ (ls_links (lk_links cf)) (ls_store (lk_links cf)) (ls_next (lk_links cf))
    (ls_closed (lk_links cf)))) g r p)) as Hgo.
  { apply step_leave_ok; try done; [by destruct p|by left; destruct p|by left|by rewrite Hr]. }
  by destruct cf as [[] ? ? ? ? ? ? ?].
Qed.

(** The record of a link is cleared by a goroutine that holds no connection
    afterwards. *)
Lemma conn_ok_clear st gs closed cnext down F F' O id s s' :
  conn_ok st gs closed cnext down F O → st !! id = Some s → F ⊆ F' →
  ln_conn s' = None → ln_ctx s' = ln_ctx s →
  (∀ g r c, gs !! g = Some r → g_id r = id → holding r = Some c → id ∈ F') →
  conn_ok (<[id := s']> st) gs closed cnext down F' O.
Proof.
  intros Hok Hs HF Hn Hc Hh. eapply (conn_ok_set _ _ _ cnext cnext); try done.
  - intros s0 Hs0. rewrite Hs in Hs0. simplify_eq. by rewrite Hc.
  - intros c. by rewrite Hn.
  - intros g r c _ _. by rewrite Hn.
  - intros g r c Hg Hid Hr Hni. by destruct Hni; eapply Hh.
Qed.

Lemma note_subseteq s id X : X ⊆ note s id X.
Proof. unfold note. destruct (has_conn s); set_solver. Qed.

Lemma step_dial_failed_ok cf g r s :
  conf_ok cf → lk_gs cf !! g = Some r → ls_store (lk_links cf) !! g_id r = Some s → owned r = None →
  conf_ok (step_dial_failed cf g r s).
Proof.
  intros Hok Hg Hs Hr. unfold step_dial_failed, link_dial_failed.
  assert (∀ p, owned (Goroutine (g_info r) (g_id r) p) = None →
    conn_ok (ls_store (lk_links cf)) (<[g := Goroutine (g_info r) (g_id r) p]> (lk_gs cf)) (ls_closed (lk_links cf))
      (lk_cnext cf) (lk_down cf) (lk_failed cf) (lk_overlap cf)) as Hidle.
  { intros p Hp. apply (cf_conn _ (step_idle_ok cf g r p Hok Hg Hr Hp)). }
  case_bool_decide; apply conf_ok_go; try done; simpl.
  - right. by eexists.
  - eapply (conn_ok_clear _ _ _ _ _ (lk_failed cf)); try done; [by apply Hidle|apply note_subseteq|].
    intros g1 r1 c [[<- <-]|[Hne H1]]%lookup_insert_Some Hid Hh; [done|].
    unfold note, has_conn. destruct (ln_conn s) eqn:Hc; [set_solver|].
    destruct (decide (g_id r ∈ lk_failed cf)); [done|]. rewrite <- Hid in Hs.
    by destruct (ck_some _ _ _ _ _ _ _ (cf_conn _ Hok) g1 r1 s c H1 Hh ltac:(by rewrite Hid) Hs).
  - by left.
  - pose proof (Hidle (PLeaving None) eq_refl) as [].
    pose proof (note_subseteq s (g_id r) (lk_failed cf)).
    split; try done.
    + intros. eapply ck_some0; [done|done|set_solver|done].
    + intros. eapply ck_one0; [done|done|done|done|done|set_solver].
    + intros. eapply ck_kept0; [done|done|set_solver|done|done].
Qed.

(** A link without a holder records a new connection, which goroutine [g]
    serves. *)
Lemma conn_ok_record st gs closed cnext down F O id s' g r' :
  conn_ok st gs closed cnext down F O → (∀ r, gs !! g = Some r → owned r = None) →
  (∀ g1 r c, gs !! g1 = Some r → holding r = Some c → g_id r = id → id ∈ F) →
  (∀ s, st !! id = Some s → ln_ctx s = Some true → ln_ctx s' = Some true) →
  ln_conn s' = Some cnext → g_id r' = id → owned r' = Some cnext →
  conn_ok (<[id := s']> st) (<[g := r']> gs) closed (S cnext) down F O.
Proof.
  intros Hok Hg Hno Hctx Hc <- Hr. destruct (conn_fresh _ _ _ _ _ _ _ Hok) as (Ho & Hcl & Hst).
  apply conn_ok_gain; [|done| | |].
  - eapply (conn_ok_set _ _ _ cnext); try done; [lia| | |].
    + intros c. rewrite Hc. intros [= <-]. lia.
    + intros g1 r c H1 H2. rewrite Hc. intros [= <-]. by destruct (Ho g1 r H1).
    + intros g1 r c H1 H2 H3 Hni. by destruct Hni; eapply Hno.
  - intros c. rewrite Hr. intros [= <-]. split_and!; [lia|done|done|].
    intros id s [[-> <-]|[Hne Hs]]%lookup_insert_Some Hs'; [done|by destruct (Hst id s Hs)].
  - intros c s Hh%holding_owned Hs. rewrite lookup_insert_eq in Hs. congruence.
  - intros g1 r c c' _ H1 H2 H3. by eapply Hno.
Qed.

(** Without a connection on record nobody holds one, unless a failed dial
    cleared the record. *)
Lemma no_holder cf id s g r c :
  conf_ok cf → ls_store (lk_links cf) !! id = Some s → ln_conn s = None →
  lk_gs cf !! g = Some r → holding r = Some c → g_id r = id → id ∈ lk_failed cf.
Proof.
  intros Hok Hs Hn Hg Hh Hid. destruct (decide (id ∈ lk_failed cf)) as [|Hni]; [done|].
  rewrite <- Hid in Hs, Hni. by destruct (ck_some _ _ _ _ _ _ _ (cf_conn _ Hok) g r s c Hg Hh Hni Hs).
Qed.

Lemma step_dialed_ok cf g r s :
  conf_ok cf → lk_gs cf !! g = Some r → ls_store (lk_links cf) !! g_id r = Some s → owned r = None →
  conf_ok (step_dialed cf g r s).
Proof.
  intros Hok Hg Hs Hr. unfold step_dialed, link_dialed.
  destruct (conn_fresh _ _ _ _ _ _ _ (cf_conn _ Hok)) as (Ho & Hcl & Hst).
  destruct (ln_conn s) as [c0|] eqn:Hc; apply conf_ok_go; try done; simpl; try (right; by eexists).
  - eapply (conn_ok_set _ _ _ (lk_cnext cf) _ _ (lk_failed cf) (lk_overlap cf)); try done.
    + apply (cf_conn _ (step_idle_ok cf g r (PLeaving None) Hok Hg Hr eq_refl)).
    + apply note_subseteq.
    + lia.
    + intros s0. rewrite Hs. by intros [= <-].
    + intros c [= <-]. lia.
    + intros g1 r1 c [[<- <-]|[Hne H1]]%lookup_insert_Some H2 [= <-]; [done|by destruct (Ho g1 r1 H1)].
    + intros g1 r1 c _ _ _ _. split; [done|]. unfold note, has_conn. rewrite Hc. set_solver.
  - unfold note, has_conn. rewrite Hc. apply conn_ok_record; try done.
    + apply Hok.
    + intros r1. rewrite Hg. by intros [= <-].
    + intros g1 r1 c H1 H2 H3. by eapply no_holder.
    + intros s0. rewrite Hs. by intros [= <-].
Qed.

(** A link and its goroutine are new. *)
Lemma conf_ok_new cf info s p cnext :
  let id := ls_next (lk_links cf) in
  conf_ok cf → ls_links (lk_links cf) !! info = None →
  (cnext, ln_conn s, owned (Goroutine info id p)) = (lk_cnext cf, None, None) ∨
  (cnext, ln_conn s, owned (Goroutine info id p)) = (S (lk_cnext cf), Some (lk_cnext cf), Some (lk_cnext cf)) →
  conf_ok (spawn (LinksConf (Links_ (<[info := id]> (ls_links (lk_links cf))) (<[id := s]> (ls_store (lk_links cf))) (S id)
                    (ls_closed (lk_links cf))) (lk_gs cf) (lk_gnext cf) cnext (lk_down cf) (lk_joined cf)
                    (lk_failed cf) (lk_overlap cf)) (Goroutine info id p)).
Proof.
  intros id Hok Hn Hcase. pose proof (gs_fresh cf Hok) as Hgf. pose proof (store_fresh cf Hok) as Hsf.
  fold id in Hsf.
  assert (∀ g1 r (P : Prop), lk_gs cf !! g1 = Some r → g_id r = id → P) as Hid
    by (intros g1 r P H1 H2; by destruct (id_fresh cf g1 r Hok H1)).
  split; simpl.
  - rewrite fmap_insert. apply table_ok_new; [apply Hok|done|by rewrite lookup_fmap, Hgf|].
    intros g1 i Hg1. apply lookup_fmap_Some in Hg1 as (r & [= _ Hr] & H1). by eapply Hid.
  - destruct Hcase as [[= -> Hc Hr]|[= -> Hc Hr]].
    + apply conn_ok_gain; [|by rewrite Hgf|by rewrite Hr|by intros c s0 Hh%holding_owned; rewrite Hr in Hh|].
      2: { intros g1 r c c' Hh%holding_owned. by rewrite Hr in Hh. }
      eapply (conn_ok_set _ _ _ (lk_cnext cf) (lk_cnext cf)); try done; [apply Hok| | | |].
      * intros s0. by rewrite Hsf.
      * intros c. by rewrite Hc.
      * intros g1 r c _ _. by rewrite Hc.
      * intros g1 r c H1 H2. by eapply Hid.
    + apply conn_ok_record; try done; [apply Hok|by rewrite Hgf| |by intros s0; rewrite Hsf].
      intros g1 r c H1 _ H2. by eapply Hid.
  - intros g1 r [[<- <-]|[Hne H1]]%lookup_insert_Some; simpl; [rewrite lookup_insert_eq; by eexists|].
    rewrite lookup_insert_ne; [by eapply cf_store|]. intros Heq. by eapply Hid.
  - intros d. destruct (decide (d = id)) as [->|Hne]; [lia|]. rewrite lookup_insert_ne by done.
    intros ?%(cf_next _ Hok). unfold id. lia.
  - intros g1. destruct (decide (g1 = lk_gnext cf)) as [->|Hne]; [lia|]. rewrite lookup_insert_ne by done.
    intros ?%(cf_gnext _ Hok). lia.
Qed.

(** A goroutine joins a link that is in the table. *)
Lemma conf_ok_join cf info id s p ls :
  conf_ok cf → ls_store (lk_links cf) !! id = Some s →
  ls_links ls = ls_links (lk_links cf) → ls_next ls = ls_next (lk_links cf) →
  ls_store ls = ls_store (lk_links cf) ∨ (∃ s', ls_store ls = <[id := s']> (ls_store (lk_links cf))) →
  conn_ok (ls_store ls) (<[lk_gnext cf := Goroutine info id p]> (lk_gs cf)) (ls_closed ls) (S (lk_cnext cf)) (lk_down cf)
    (lk_failed cf) (lk_overlap cf) →
  conf_ok (spawn (LinksConf ls (lk_gs cf) (lk_gnext cf) (S (lk_cnext cf)) (lk_down cf) ({[id]} ∪ lk_joined cf)
                    (lk_failed cf) (lk_overlap cf)) (Goroutine info id p)).
Proof.
  intros Hok Hs Ht Hn Hst Hc. pose proof (gs_fresh cf Hok) as Hgf.
  assert (∀ d, is_Some (ls_store ls !! d) ↔ is_Some (ls_store (lk_links cf) !! d)) as Hdom.
  { destruct Hst as [->|[s' ->]]; [done|]. intros d. destruct (decide (d = id)) as [->|Hne].
    - rewrite lookup_insert_eq, Hs. split; by eexists.
    - by rewrite lookup_insert_ne. }
  split; simpl; [|done| | |].
  - rewrite fmap_insert, Ht. apply table_ok_join; [apply Hok|by rewrite lookup_fmap, Hgf].
  - intros g1 r [[<- <-]|[Hne H1]]%lookup_insert_Some; apply Hdom; simpl; [by eexists|by eapply cf_store].
  - intros d. rewrite Hdom, Hn. apply Hok.
  - intros g1. destruct (decide (g1 = lk_gnext cf)) as [->|Hne]; [lia|]. rewrite lookup_insert_ne by done.
    intros ?%(cf_gnext _ Hok). lia.
Qed.

Lemma step_accept_ok cf info proto : conf_ok cf → conf_ok (step_accept cf info proto).
Proof.
  intros Hok. unfold step_accept, accept_begin. pose proof (gs_fresh cf Hok) as Hgf.
  destruct (ls_links (lk_links cf) !! info) as [id|] eqn:Hl; simpl.
  2: { apply conf_ok_new; [done|done|by right]. }
  destruct (entry_link cf info id Hok Hl) as [s Hs]. rewrite Hs. simpl.
  destruct (ln_conn s) as [c0|] eqn:Hc; eapply conf_ok_join; try done.
  - by left.
  - destruct (conn_fresh _ _ _ _ _ _ _ (cf_conn _ Hok)) as (Ho & Hcl & Hst).
    apply conn_ok_gain; [|by rewrite Hgf| |done|done].
    + pose proof (cf_conn _ Hok) as []. split; try done.
      * intros. eapply Nat.lt_lt_succ_r. by eapply ck_owned0.
      * intros. eapply Nat.lt_lt_succ_r. by eapply ck_record0.
      * intros. eapply Nat.lt_lt_succ_r. by eapply ck_past0.
    + intros c [= <-]. split_and!; [lia|done|done|]. intros d s' Hd Hd'. by destruct (Hst d s' Hd).
  - right. by eexists.
  - simpl. apply conn_ok_record; try done; [apply Hok|by rewrite Hgf| |].
    + intros g1 r1 c H1 H2 H3. by eapply no_holder.
    + intros s0. rewrite Hs. by intros [= <-].
Qed.

Lemma step_exit_ok cf g r conn :
  conf_ok cf → lk_gs cf !! g = Some r → g_phase r = PLeaving conn → conf_ok (step_exit cf g r conn).
Proof.
  intros Hok Hg Hp.
  assert (conn_ok (ls_store (lk_links cf)) (delete g (lk_gs cf)) (option_list conn ++ ls_closed (lk_links cf))
    (lk_cnext cf) (lk_down cf) (lk_failed cf) (lk_overlap cf)) as Hc.
  { pose proof (conn_ok_end _ _ _ _ _ _ _ g r (cf_conn _ Hok) Hg) as Hc. unfold owned in Hc. by rewrite Hp in Hc. }
  assert (table_ok (ls_links (link_exit (lk_links cf) (g_info r) (g_id r))) (ident <$> delete g (lk_gs cf)) (lk_joined cf)) as Ht.
  { rewrite fmap_delete. apply table_ok_exit; [apply Hok|]. by rewrite lookup_fmap, Hg. }
  assert (∀ ls, ls_store (link_exit ls (g_info r) (g_id r)) = ls_store ls ∧
    ls_next (link_exit ls (g_info r) (g_id r)) = ls_next ls ∧
    ls_closed (link_exit ls (g_info r) (g_id r)) = ls_closed ls) as He.
  { intros ls. unfold link_exit. by destruct (decide _). }
  destruct (He (lk_links cf)) as (E1 & E2 & E3).
  destruct conn as [c|]; split; simpl; rewrite ?E1, ?E2, ?E3; try done; try apply Hok.
  - intros g1 r1 [_ H1]%lookup_delete_Some. by eapply cf_store.
  - intros g1 [r1 [_ H1]%lookup_delete_Some]. apply (cf_gnext _ Hok). by eexists.
  - intros g1 r1 [_ H1]%lookup_delete_Some. by eapply cf_store.
  - intros g1 [r1 [_ H1]%lookup_delete_Some]. apply (cf_gnext _ Hok). by eexists.
Qed.

Lemma step_handler_done_ok cf g r s c :
  conf_ok cf → lk_gs cf !! g = Some r → ls_store (lk_links cf) !! g_id r = Some s → g_phase r = PServed c →
  conf_ok (let '(ls, again) := link_handler_done (lk_links cf) (g_id r) s in
           go (lk_with cf ls) g r (if again then PBackoff else PLeaving None)).
Proof.
  intros Hok Hg Hs Hp. unfold link_handler_done.
  set (p := if bool_decide _ then _ else _).
  assert (owned (Goroutine (g_info r) (g_id r) p) = None) as Hno by (subst p; by case_bool_decide).
  assert (holding r = Some c) as Hh by (unfold holding; by rewrite Hp).
  eapply conf_ok_go; try done; [right; by eexists|]. simpl.
  pose proof (cf_conn _ Hok) as Hc.
  assert (conn_ok (ls_store (lk_links cf)) (<[g := Goroutine (g_info r) (g_id r) p]> (lk_gs cf)) (ls_closed (lk_links cf))
    (lk_cnext cf) (lk_down cf) (lk_failed cf) (lk_overlap cf)) as Hidle.
  { replace p with (if bool_decide (ln_linkType s = linkTypePersistent) then PBackoff else PLeaving None) by done.
    destruct (conn_ok_leave _ _ _ _ _ _ _ g r p Hc Hg) as []; try by left.
    - unfold serving. subst p. by case_bool_decide.
    - left. unfold holding. subst p. by case_bool_decide.
    - split; try done; [|intros; eapply ck_open0; set_solver]. apply Hc. }
  eapply conn_ok_clear; try done.
  intros g1 r1 c1 [[<- <-]|[Hne H1]]%lookup_insert_Some Hid H2; [apply holding_owned in H2; congruence|].
  destruct (decide (g_id r ∈ lk_failed cf)) as [|Hni]; [done|]. rewrite <- Hid in Hni.
  destruct Hne. by eapply (ck_one _ _ _ _ _ _ _ Hc g g1 r r1); rewrite ?Hid in *.
Qed.

Section Laws.
Context `{NetLib}.

Lemma step_goroutine_ok cf g ev cf' : conf_ok cf → step_goroutine cf g ev = Ok cf' → conf_ok cf'.
Proof.
  intros Hok. unfold step_goroutine. destruct (lk_gs cf !! g) as [r|] eqn:Hg; [|done].
  destruct (ls_store (lk_links cf) !! g_id r) as [s|] eqn:Hs; [|done].
  pose proof (λ p, step_idle_ok cf g r p Hok Hg) as Hidle.
  pose proof (λ p closed, step_leave_ok cf g r p closed Hok Hg) as Hleave.
  assert (∀ p, g_phase r = p → owned r = owned (Goroutine (g_info r) (g_id r) p)) as Hown by (by intros ? <-).
  assert (∀ p, g_phase r = p → holding r = holding (Goroutine (g_info r) (g_id r) p)) as Hhold by (by intros ? <-).
  destruct ev as [| | |?|?|?|? []|?|?|?| |]; destruct (g_phase r) as [| | |c|c|c|conn] eqn:Hp; try done;
    specialize (Hown _ eq_refl); specialize (Hhold _ eq_refl).
  - intros [= <-]. apply Hidle; [done|]. by destruct (ctx_done cf (g_id r)).
  - intros [= <-]. by apply step_dial_failed_ok.
  - intros [= <-]. by apply step_dialed_ok.
  - intros [= <-]. by apply Hidle.
  - destruct (ctx_done cf (g_id r)); [|done]. intros [= <-]. by apply Hidle.
  - intros [= <-]. apply Hleave; [done|right; by rewrite Hhold|right; by rewrite Hown|by rewrite Hown].
  - intros [= <-]. apply Hleave; [done|by left|right; by rewrite Hown|by rewrite Hown].
  - pose proof (step_handler_done_ok cf g r s c Hok Hg Hs Hp) as Hd.
    destruct (link_handler_done _ _ _) as [ls again]. by intros [= <-].
  - intros [= <-]. by apply step_exit_ok.
Qed.

Lemma conf_ok_links cf ls :
  conf_ok cf → ls_links ls = ls_links (lk_links cf) → ls_next ls = ls_next (lk_links cf) →
  (∀ id, is_Some (ls_store ls !! id) ↔ is_Some (ls_store (lk_links cf) !! id)) →
  conn_ok (ls_store ls) (lk_gs cf) (ls_closed ls) (lk_cnext cf) (lk_down cf) (lk_failed cf) (lk_overlap cf) →
  conf_ok (lk_with cf ls).
Proof.
  intros Hok Ht Hn Hd Hc. split; simpl; [rewrite Ht; apply Hok|done| | |apply Hok].
  - intros g r Hg. apply Hd. by eapply cf_store.
  - intros id. rewrite Hd, Hn. apply Hok.
Qed.

Lemma step_remove_ok cf u sintf ls e :
  conf_ok cf → links_remove (lk_links cf) u sintf = (ls, e) → conf_ok (lk_with cf ls).
Proof.
  intros Hok. unfold links_remove.
  assert (conf_ok (lk_with cf (lk_links cf))) as Hsame by (by apply conf_ok_links; try apply Hok).
  destruct (ls_links (lk_links cf) !! _) as [id|] eqn:Hl; simpl; [|by intros [= <- <-]].
  destruct (ls_store (lk_links cf) !! id) as [s|] eqn:Hs; simpl; [|by intros [= <- <-]].
  destruct (ln_ctx s) as [b|] eqn:Hx; [|by intros [= <- <-]].
  set (s' := Link _ _ (Some true) _ _). pose proof (cf_conn _ Hok) as Hc.
  assert (∀ d, is_Some (<[id := s']> (ls_store (lk_links cf)) !! d) ↔ is_Some (ls_store (lk_links cf) !! d)) as Hdom.
  { intros d. destruct (decide (d = id)) as [->|Hne]; [rewrite lookup_insert_eq, Hs; by split; eexists|].
    by rewrite lookup_insert_ne. }
  assert (conn_ok (<[id := s']> (ls_store (lk_links cf))) (lk_gs cf) (ls_closed (lk_links cf)) (lk_cnext cf) (lk_down cf)
    (lk_failed cf) (lk_overlap cf)) as Hset.
  { eapply (conn_ok_set _ _ _ (lk_cnext cf)); try done.
    - intros c Hcc. by eapply (ck_record _ _ _ _ _ _ _ Hc id s).
    - intros g r c H1 H2 H3. by eapply (ck_link _ _ _ _ _ _ _ Hc g r id s c).
    - intros g r c H1 H2 H3 H4. rewrite <- H2 in *. split; [by eapply (ck_some _ _ _ _ _ _ _ Hc g r s c)|].
      intros H5. by eapply (ck_kept _ _ _ _ _ _ _ Hc g r s c). }
  destruct (ln_conn s) as [c|] eqn:Hcn; intros [= <- <-]; apply conf_ok_links; try done.
  simpl. apply (conn_ok_close _ _ _ _ _ _ _ [c]); [done| |].
  - intros d ->%list_elem_of_singleton. by eapply (ck_record _ _ _ _ _ _ _ Hc id s).
  - intros g r d H1 H2%serving_holding%holding_owned ->%list_elem_of_singleton. right. exists s'.
    rewrite (ck_link _ _ _ _ _ _ _ Hc g r id s c H1 H2 Hs Hcn). by rewrite lookup_insert_eq.
Qed.

Lemma step_shutdown_ok cf : conf_ok cf → lk_down cf = true → conf_ok (lk_with cf (links_shutdown (lk_links cf))).
Proof.
  intros Hok Hd. apply conf_ok_links; try done. simpl. apply conn_ok_close; [apply Hok| |by left].
  intros c ([info id] & _ & Hc)%list_elem_of_omap. simpl in Hc.
  destruct (ls_store (lk_links cf) !! id) as [s|] eqn:Hs; [|done].
  by eapply (ck_record _ _ _ _ _ _ _ (cf_conn _ Hok) id s).
Qed.

Lemma links_step_ok cf ev cf' : conf_ok cf → links_step cf ev = Ok cf' → conf_ok cf'.
Proof.
  intros Hok. destruct ev as [u sintf lt|u sintf|info proto|g|g|g|g b|g|g|g| |]; simpl;
    try (by apply step_goroutine_ok).
  - unfold links_add. assert (conf_ok (lk_with cf (lk_links cf))) by (by apply conf_ok_links; try apply Hok).
    destruct (dialerFor u); try (by intros [= <-]). destruct (add_options u); try (by intros [= <-]).
    destruct (ls_links (lk_links cf) !! _) as [id|] eqn:Hl; intros [= <-]; [done|].
    apply (conf_ok_new cf (u_base u, sintf) _ PHead (lk_cnext cf)); [done|done|by left].
  - destruct (links_remove _ _ _) as [ls [[]|e|]] eqn:Hr; intros [= <-]; by eapply step_remove_ok.
  - intros [= <-]. by apply step_accept_ok.
  - intros [= <-]. destruct Hok as [? [] ? ? ?]. split; try done. split; try done. by left.
  - destruct (lk_down cf) eqn:Hd; [|done]. intros [= <-]. by apply step_shutdown_ok.
Qed.

Lemma links_run_ok cf evs cf' : conf_ok cf → links_run cf evs = Ok cf' → conf_ok cf'.
Proof.
  revert cf. induction evs as [|ev evs IH]; intros cf Hok; simpl; [by intros [= <-]|].
  intros Hr. apply res_bind_Ok in Hr as (cf1 & H1 & H2). eapply IH; [|done]. by eapply links_step_ok.
Qed.

(** How far a goroutine whose context is done is from its end. *)
Definition rank (p : phase) : nat :=
  match p with
  | PDialing => 6 | PServing _ => 5 | PServed _ => 4 | PBackoff => 3 | PAccepted _ => 3 | PHead => 2 | PLeaving _ => 1
  end.

Lemma step_rank cf g ev cf' r :
  step_goroutine cf g ev = Ok cf' → lk_gs cf !! g = Some r → ctx_done cf (g_id r) = true →
  match lk_gs cf' !! g with Some r' => (rank (g_phase r') < rank (g_phase r))%nat | None => True end.
Proof.
  unfold step_goroutine. intros Hst Hg Hd. rewrite Hg in Hst.
  destruct (ls_store (lk_links cf) !! g_id r) as [s|]; [|done].
  unfold step_dial_failed, step_dialed, link_dial_failed, link_dialed, link_handler_done, step_exit in Hst.
  rewrite Hd in Hst.
  destruct ev as [| | |?|?|?|? []|?|?|?| |]; destruct (g_phase r) as [| | |c|c|c|conn]; try done;
    repeat case_match; simplify_eq; simpl in *;
    rewrite ?lookup_insert_eq, ?lookup_delete_eq in *; simplify_eq; simpl; try lia;
    repeat case_match; simplify_eq; simpl; lia.
Qed.

(** A goroutine can always move on. *)
Lemma step_progress cf g r :
  conf_ok cf → lk_gs cf !! g = Some r → ∃ ev cf', event_of ev = Some g ∧ links_step cf ev = Ok cf'.
Proof.
  intros Hok Hg. destruct (cf_store _ Hok g r Hg) as [s Hs].
  destruct (g_phase r) as [| | |c|c|c|conn] eqn:Hp.
  1: exists (EvHead g). 2: exists (EvDialFailed g). 3: exists (EvBackoff g true). 4: exists (EvReturned g).
  5: exists (EvHandlerDone g). 6: exists (EvReturned g). 7: exists (EvExit g).
  all: simpl; unfold step_goroutine; rewrite Hg, Hs, Hp; eexists; split; reflexivity.
Qed.

Lemma step_panic cf ev :
  links_step cf ev = Panic → ∃ u sintf id s, ev = EvRemove u sintf ∧
    ls_links (lk_links cf) !! (u_base u, sintf) = Some id ∧ ls_store (lk_links cf) !! id = Some s ∧ ln_ctx s = None.
Proof.
  assert (∀ g ev, step_goroutine cf g ev ≠ Panic) as Hg.
  { intros g e. unfold step_goroutine. by repeat case_match. }
  destruct ev as [u sintf lt|u sintf|info proto|g|g|g|g b|g|g|g| |]; simpl; try (by intros ?%Hg); try done.
  - by repeat case_match.
  - unfold links_remove. destruct (ls_links (lk_links cf) !! _) as [id|] eqn:Hl; simpl; [|done].
    destruct (ls_store (lk_links cf) !! id) as [s|] eqn:Hs; simpl; [|done].
    destruct (ln_ctx s) eqn:Hx; [by destruct (ln_conn s)|]. intros _. by exists u, sintf, id, s.
  - by destruct (lk_down cf).
Qed.

Lemma remove_effect cf u sintf id s b :
  conf_ok cf → ls_links (lk_links cf) !! (u_base u, sintf) = Some id →
  ls_store (lk_links cf) !! id = Some s → ln_ctx s = Some b →
  ∃ cf', links_step cf (EvRemove u sintf) = Ok cf' ∧ ctx_done cf' id = true ∧ lk_gs cf' = lk_gs cf ∧
    (∀ g r c, lk_gs cf !! g = Some r → g_id r = id → serving r = Some c →
       id ∉ lk_failed cf → id ∉ lk_overlap cf → c ∈ ls_closed (lk_links cf')).
Proof.
  intros Hok Hl Hs Hx.
  assert (∀ g r c, lk_gs cf !! g = Some r → g_id r = id → serving r = Some c →
    id ∉ lk_failed cf → id ∉ lk_overlap cf → ln_conn s = Some c) as Hk.
  { intros g r c Hg <- Hsv%serving_holding. by intros; eapply (ck_kept _ _ _ _ _ _ _ (cf_conn _ Hok) g r s c). }
  unfold links_step, links_remove. rewrite Hl. simpl. rewrite Hs. simpl. rewrite Hx.
  destruct (ln_conn s) as [c0|] eqn:Hc; (eexists; split_and!; [done| |done|]).
  - unfold ctx_done. simpl. rewrite lookup_insert_eq. simpl. apply orb_true_r.
  - intros g r c H1 H2 H3 H4 H5. pose proof (Hk g r c H1 H2 H3 H4 H5) as [= <-]. simpl. set_solver.
  - unfold ctx_done. simpl. rewrite lookup_insert_eq. simpl. apply orb_true_r.
  - intros g r c H1 H2 H3 H4 H5. by pose proof (Hk g r c H1 H2 H3 H4 H5).
Qed.

(** C27: links_table_invariant.  Through any interleaving of adding and removing
    peers, dial attempts, accepted connections, handlers that return,
    goroutines that end and the shutdown of the node:
    every entry of the table has a live goroutine for its link, and a live
    goroutine whose link no accepted connection found has its entry in the
    table; two goroutines are in the handler for one link only if a failed dial
    cleared the record of a connection that was accepted for it; a connection
    whose handler runs was closed only if its link was removed or the node is
    stopping; removing an entry of a peer that was added succeeds, cancels its
    link and closes the connection being served, unless a dial had cleared or
    overwritten its record; once the context of a link is done each step of its
    goroutine brings it nearer to its end, and it can always take one; and the
    links actor panics only when a link that an accepted connection made is
    removed. *)
Theorem links_table_invariant evs cf :
  links_run conf_init evs = Ok cf →
  (∀ info id, ls_links (lk_links cf) !! info = Some id →
     ∃ g r, lk_gs cf !! g = Some r ∧ g_info r = info ∧ g_id r = id) ∧
  (∀ g r, lk_gs cf !! g = Some r → g_id r ∉ lk_joined cf → ls_links (lk_links cf) !! g_info r = Some (g_id r)) ∧
  (∀ g g' r r' c c', lk_gs cf !! g = Some r → lk_gs cf !! g' = Some r' → serving r = Some c → serving r' = Some c' →
     g_id r = g_id r' → g = g' ∨ g_id r ∈ lk_failed cf) ∧
  (∀ g r c, lk_gs cf !! g = Some r → serving r = Some c → c ∈ ls_closed (lk_links cf) → ctx_done cf (g_id r) = true) ∧
  (∀ u sintf id s b, ls_links (lk_links cf) !! (u_base u, sintf) = Some id →
     ls_store (lk_links cf) !! id = Some s → ln_ctx s = Some b →
     ∃ cf', links_step cf (EvRemove u sintf) = Ok cf' ∧ ctx_done cf' id = true ∧ lk_gs cf' = lk_gs cf ∧
       (∀ g r c, lk_gs cf !! g = Some r → g_id r = id → serving r = Some c →
          id ∉ lk_failed cf → id ∉ lk_overlap cf → c ∈ ls_closed (lk_links cf'))) ∧
  (∀ g r, lk_gs cf !! g = Some r →
     (∃ ev cf', event_of ev = Some g ∧ links_step cf ev = Ok cf') ∧
     (ctx_done cf (g_id r) = true → ∀ ev cf', event_of ev = Some g → links_step cf ev = Ok cf' →
        match lk_gs cf' !! g with Some r' => (rank (g_phase r') < rank (g_phase r))%nat | None => True end)) ∧
  (∀ ev, links_step cf ev = Panic → ∃ u sintf id s, ev = EvRemove u sintf ∧
     ls_links (lk_links cf) !! (u_base u, sintf) = Some id ∧ ls_store (lk_links cf) !! id = Some s ∧ ln_ctx s = None).
Proof.
  intros Hrun. pose proof (links_run_ok _ _ _ conf_init_ok Hrun) as Hok.
  pose proof (cf_conn _ Hok) as Hc. split_and!.
  - intros info id Hl. destruct (to_entry _ _ _ (cf_table _ Hok) _ _ Hl) as [g Hg].
    apply lookup_fmap_Some in Hg as (r & [= <- <-] & Hr). by exists g, r.
  - intros g r Hg. apply (to_own _ _ _ (cf_table _ Hok) g). by rewrite lookup_fmap, Hg.
  - intros g g' r r' c c' H1 H2 H3%serving_holding H4%serving_holding Hid.
    destruct (decide (g_id r ∈ lk_failed cf)) as [|Hni]; [by right|left]. by eapply (ck_one _ _ _ _ _ _ _ Hc g g' r r').
  - intros g r c Hg Hs Hcl. unfold ctx_done.
    destruct (ck_open _ _ _ _ _ _ _ Hc g r c Hg Hs Hcl) as [->|(s & -> & ->)]; [done|apply orb_true_r].
  - intros u sintf id s b. by apply remove_effect.
  - intros g r Hg. split; [by eapply step_progress|]. intros Hd ev cf' Hev Hst. eapply (step_rank cf g ev); try done.
    destruct ev; simpl in Hev; simplify_eq; exact Hst.
  - apply step_panic.
Qed.
End Laws.

(** ** Witnesses, and where removal misses a connection *)
Module LinkTableWitness.
Import LinksWitness.

Definition served (cf : links_conf) (g : nat) : option nat := lk_gs cf !! g ≫= serving.
Definition is_closed (cf : links_conf) (c : nat) : bool := bool_decide (c ∈ ls_closed (lk_links cf)).

Definition dial_evs : list links_event :=
  [EvAdd peer_url "eth0" linkTypePersistent; EvHead 0; EvDialFailed 0; EvBackoff 0 true; EvHead 0; EvDialed 0;
   EvAccept ("tls://192.0.2.1:9", "") "TLS"].
Definition dialed_conf : links_conf :=
  match links_run conf_init dial_evs with Ok cf => cf | _ => conf_init end.
Definition removed_conf : links_conf :=
  match links_step dialed_conf (EvRemove peer_url "eth0") with Ok cf => cf | _ => conf_init end.

(** A peer that connects at the second attempt: removing it closes the
    connection that its goroutine serves. *)
Lemma links_table_invariant_witness :
  served dialed_conf 0 = Some 0%nat ∧ served dialed_conf 1 = Some 1%nat ∧
  is_closed dialed_conf 0 = false ∧ 0%nat ∈ ls_closed (lk_links removed_conf) ∧
  ls_links (lk_links dialed_conf) !! (u_base peer_url, "eth0") = Some 0%nat.
Proof.
  assert (links_run conf_init dial_evs = Ok dialed_conf) as Hrun by (vm_compute; reflexivity).
  destruct (links_table_invariant dial_evs dialed_conf Hrun) as (_ & Hown & _ & _ & Hrem & _ & _).
  destruct (lk_gs dialed_conf !! 0%nat) as [r|] eqn:Hg; [|by vm_compute in Hg].
  assert (g_id r = 0%nat ∧ serving r = Some 0%nat ∧ g_info r = (u_base peer_url, "eth0")) as (Hid & Hsv & Hinfo)
    by (vm_compute in Hg; injection Hg as <-; done).
  assert (ls_links (lk_links dialed_conf) !! (u_base peer_url, "eth0") = Some 0%nat) as Hl.
  { rewrite <- Hinfo, <- Hid. apply (Hown 0%nat r Hg). rewrite Hid. vm_compute. discriminate. }
  destruct (ls_store (lk_links dialed_conf) !! 0%nat) as [s|] eqn:Hs; [|by vm_compute in Hs].
  destruct (Hrem peer_url "eth0" 0%nat s false Hl Hs) as (cf' & Hst & _ & _ & Hcl).
  { vm_compute in Hs. by injection Hs as <-. }
  split_and!; [vm_compute; reflexivity..| |exact Hl].
  unfold removed_conf. rewrite Hst. apply (Hcl 0%nat r 0%nat Hg Hid Hsv); vm_compute; discriminate.
Defined.

(** removed_peer_stays_connected.  When a peer is removed after its dial
    succeeded and before the goroutine records the connection, there is nothing
    to close yet: the goroutine then records the connection and runs the
    handler, although the link was removed. *)
Lemma removed_peer_stays_connected :
  match links_run conf_init [EvAdd peer_url "eth0" linkTypePersistent; EvHead 0; EvRemove peer_url "eth0"; EvDialed 0] with
  | Ok cf => ctx_done cf 0 = true ∧ served cf 0 = Some 0%nat ∧ is_closed cf 0 = false
  | _ => False
  end.
Proof. vm_compute. done. Qed.

(** aborted_dial_hides_connection.  A dial that succeeds while an accepted
    connection holds the link is given up, but its connection replaces the
    accepted one in the record and is not closed; removing the peer then closes
    the dialled connection, and the one being served stays open. *)
Lemma aborted_dial_hides_connection :
  let evs := [EvAdd peer_url "eth0" linkTypePersistent; EvHead 0; EvAccept (u_base peer_url, "eth0") "TLS"; EvDialed 0] in
  match links_run conf_init evs with
  | Ok cf => served cf 1 = Some 0%nat ∧ served cf 0 = None ∧ is_closed cf 1 = false ∧
      (∃ s, ls_store (lk_links cf) !! 0%nat = Some s ∧ ln_conn s = Some 1%nat) ∧
      match links_step cf (EvRemove peer_url "eth0") with
      | Ok cf' => is_closed cf' 1 = true ∧ is_closed cf' 0 = false ∧ served cf' 1 = Some 0%nat
      | _ => False
      end
  | _ => False
  end.
Proof. vm_compute. split_and!; try reflexivity. by eexists. Qed.

(** failed_dial_admits_second_connection.  A dial that fails clears the record
    although an accepted connection holds it: the next attempt is served as
    well, and the link has two connections. *)
Lemma failed_dial_admits_second_connection :
  let evs := [EvAdd peer_url "eth0" linkTypePersistent; EvHead 0; EvAccept (u_base peer_url, "eth0") "TLS"; EvDialFailed 0;
              EvBackoff 0 true; EvHead 0; EvDialed 0] in
  match links_run conf_init evs with
  | Ok cf => served cf 0 = Some 1%nat ∧ served cf 1 = Some 0%nat ∧
      g_id <$> lk_gs cf !! 0%nat = g_id <$> lk_gs cf !! 1%nat ∧ is_closed cf 0 = false ∧ is_closed cf 1 = false
  | _ => False
  end.
Proof. vm_compute. split_and!; reflexivity. Qed.
End LinkTableWitness.
