(* ===== verification/Proto.v ===== *)
(** * Proto: the in-band protocol and the core's packet interface
    (src/core/proto.go, src/core/nodeinfo.go, src/core/types.go, and ReadFrom,
    WriteTo and MTU of src/core/core.go)

    Packets between nodes carry a session type byte: traffic, or protocol
    messages for node information and debugging.  Requests wait in tables with
    one entry per remote key; a callback is identified by a number, and the
    callbacks that an operation calls are part of its output.  JSON encoding is
    a parameter. *)

From S2P Require Import Prelude Binary Wire Address Links.

Open Scope string_scope.
Open Scope list_scope.
Open Scope Z_scope.

Definition typeSessionDummy : Z := 0.
Definition typeSessionTraffic : Z := 1.
Definition typeSessionProto : Z := 2.

Definition typeProtoDummy : Z := 0.
Definition typeProtoNodeInfoRequest : Z := 1.
Definition typeProtoNodeInfoResponse : Z := 2.
Definition typeProtoDebug : Z := 255.

Definition typeDebugDummy : Z := 0.
Definition typeDebugGetSelfRequest : Z := 1.
Definition typeDebugGetSelfResponse : Z := 2.
Definition typeDebugGetPeersRequest : Z := 3.
Definition typeDebugGetPeersResponse : Z := 4.
Definition typeDebugGetTreeRequest : Z := 5.
Definition typeDebugGetTreeResponse : Z := 6.

(** ** State *)

(** [reqInfo]: the identity of the pointer and of its callback. *)
Record reqInfo := ReqInfo { ri_id : nat; ri_callback : nat }.

#[export] Instance reqInfo_eq_dec : EqDecision reqInfo.
Proof. solve_decision. Defined.

Record nodeinfoCallback := NodeinfoCallback { nc_call : nat; nc_created : Z }.

Record nodeinfo := NodeInfo_ {
  ni_myNodeInfo : bytes;
  ni_callbacks : gmap bytes nodeinfoCallback;
}.

Record protoHandler := ProtoHandler {
  ph_nodeinfo : nodeinfo;
  ph_selfRequests : gmap bytes reqInfo;
  ph_peersRequests : gmap bytes reqInfo;
  ph_treeRequests : gmap bytes reqInfo;
  ph_next : nat;               (* next identity of a reqInfo *)
}.

Definition proto_init : protoHandler := ProtoHandler (NodeInfo_ [] ∅) ∅ ∅ ∅ 0.

(** What the handlers read from the core: the JSON of [GetSelf] (or its
    marshalling error), the keys of the peers and of the tree, and the MTU. *)
Record proto_env := ProtoEnv {
  pe_selfJSON : option bytes;
  pe_peers : list bytes;
  pe_tree : list bytes;
  pe_MTU : Z;
}.

(** Effects: packets written and callbacks called. *)
Inductive proto_out :=
| ProtoWrite (bs key : bytes)
| Callback (cb : nat) (bs : bytes).

Definition sendDebug (key : bytes) (dType : Z) (data : bytes) : list proto_out :=
  [ProtoWrite ([typeSessionProto; typeProtoDebug; dType] ++ data) key].

(** ** The three request tables

    The code of the tables is the same; the tables are told apart here by the
    functions that read and replace them. *)

(** A new request replaces the one that is pending for the key. *)
Definition add_request (reqs : gmap bytes reqInfo) (key : bytes) (id cb : nat) : gmap bytes reqInfo :=
  <[key := ReqInfo id cb]> (delete key reqs).

(** A response calls the callback of the pending request, if there is one. *)
Definition answer_request (reqs : gmap bytes reqInfo) (key bs : bytes) :
    gmap bytes reqInfo * list proto_out :=
  match reqs !! key with
  | Some info => (delete key reqs, [Callback (ri_callback info) bs])
  | None => (reqs, [])
  end.

(** The timer of a request: it removes the request only if it is still there. *)
Definition expire_request (reqs : gmap bytes reqInfo) (key : bytes) (id : nat) : gmap bytes reqInfo :=
  match reqs !! key with
  | Some info => if (ri_id info =? id)%nat then delete key reqs else reqs
  | None => reqs
  end.

Definition sendGetSelfRequest (p : protoHandler) (key : bytes) (cb : nat) : protoHandler * list proto_out :=
  (ProtoHandler (ph_nodeinfo p) (add_request (ph_selfRequests p) key (ph_next p) cb)
     (ph_peersRequests p) (ph_treeRequests p) (S (ph_next p)),
   sendDebug key typeDebugGetSelfRequest []).

Definition sendGetPeersRequest (p : protoHandler) (key : bytes) (cb : nat) : protoHandler * list proto_out :=
  (ProtoHandler (ph_nodeinfo p) (ph_selfRequests p)
     (add_request (ph_peersRequests p) key (ph_next p) cb) (ph_treeRequests p) (S (ph_next p)),
   sendDebug key typeDebugGetPeersRequest []).

Definition sendGetTreeRequest (p : protoHandler) (key : bytes) (cb : nat) : protoHandler * list proto_out :=
  (ProtoHandler (ph_nodeinfo p) (ph_selfRequests p) (ph_peersRequests p)
     (add_request (ph_treeRequests p) key (ph_next p) cb) (S (ph_next p)),
   sendDebug key typeDebugGetTreeRequest []).

Definition handleGetSelfRequest (env : proto_env) (key : bytes) : list proto_out :=
  match pe_selfJSON env with
  | Some bs => sendDebug key typeDebugGetSelfResponse bs
  | None => []
  end.

Definition handleGetSelfResponse (p : protoHandler) (key bs : bytes) : protoHandler * list proto_out :=
  let '(reqs, out) := answer_request (ph_selfRequests p) key bs in
  (ProtoHandler (ph_nodeinfo p) reqs (ph_peersRequests p) (ph_treeRequests p) (ph_next p), out).

(** The loop over the keys of the peers or of the tree: keys are appended while
    the response with its overhead fits the MTU. *)
Definition responseOverhead : Z := 2.

Fixpoint pack_keys (mtu : Z) (keys : list bytes) (bs : bytes) : bytes :=
  match keys with
  | [] => bs
  | key :: keys =>
      let tmp := bs ++ key in
      if mtu <? u64 (len tmp) + responseOverhead then bs else pack_keys mtu keys tmp
  end.

Definition handleGetPeersRequest (env : proto_env) (key : bytes) : list proto_out :=
  sendDebug key typeDebugGetPeersResponse (pack_keys (pe_MTU env) (pe_peers env) []).

Definition handleGetPeersResponse (p : protoHandler) (key bs : bytes) : protoHandler * list proto_out :=
  let '(reqs, out) := answer_request (ph_peersRequests p) key bs in
  (ProtoHandler (ph_nodeinfo p) (ph_selfRequests p) reqs (ph_treeRequests p) (ph_next p), out).

Definition handleGetTreeRequest (env : proto_env) (key : bytes) : list proto_out :=
  sendDebug key typeDebugGetTreeResponse (pack_keys (pe_MTU env) (pe_tree env) []).

Definition handleGetTreeResponse (p : protoHandler) (key bs : bytes) : protoHandler * list proto_out :=
  let '(reqs, out) := answer_request (ph_treeRequests p) key bs in
  (ProtoHandler (ph_nodeinfo p) (ph_selfRequests p) (ph_peersRequests p) reqs (ph_next p), out).

(** ** Node information *)

Definition nodeinfo_addCallback (m : nodeinfo) (sender : bytes) (cb : nat) (now : Z) : nodeinfo :=
  NodeInfo_ (ni_myNodeInfo m) (<[sender := NodeinfoCallback cb now]> (ni_callbacks m)).

Definition nodeinfo_callback (m : nodeinfo) (sender info : bytes) : nodeinfo * list proto_out :=
  match ni_callbacks m !! sender with
  | Some callback =>
      (NodeInfo_ (ni_myNodeInfo m) (delete sender (ni_callbacks m)), [Callback (nc_call callback) info])
  | None => (m, [])
  end.

(** [_cleanup] without the timer that runs it again; times in seconds. *)
Definition nodeinfo_cleanup (m : nodeinfo) (now : Z) : nodeinfo :=
  NodeInfo_ (ni_myNodeInfo m) (filter (λ kc, ¬ (60 < now - nc_created (snd kc))) (ni_callbacks m)).

Definition nodeinfo_sendReq (m : nodeinfo) (key : bytes) (callback : option nat) (now : Z) :
    nodeinfo * list proto_out :=
  let m := match callback with Some cb => nodeinfo_addCallback m key cb now | None => m end in
  (m, [ProtoWrite [typeSessionProto; typeProtoNodeInfoRequest] key]).

Definition nodeinfo_sendRes (m : nodeinfo) (key : bytes) : list proto_out :=
  [ProtoWrite ([typeSessionProto; typeProtoNodeInfoResponse] ++ ni_myNodeInfo m) key].

Inductive nodeinfo_error := NodeInfoMarshal | NodeInfoTooLong.

(** [_setNodeInfo]: the given entries with the build information, marshalled by
    [marshal]; [build] are the four entries about the build. *)
Definition setNodeInfo {V} (marshal : gmap string V → option bytes) (build : gmap string V)
    (m : nodeinfo) (given : gmap string V) (privacy : bool) : nodeinfo * res nodeinfo_error () :=
  let newnodeinfo := if negb privacy then build ∪ given else given in
  match marshal newnodeinfo with
  | None => (m, Err NodeInfoMarshal)
  | Some newjson =>
      if 16384 <? len newjson then (m, Err NodeInfoTooLong)
      else (NodeInfo_ newjson (ni_callbacks m), Ok ())
  end.

(** ** Dispatch *)

Definition with_nodeinfo (p : protoHandler) (m : nodeinfo) : protoHandler :=
  ProtoHandler m (ph_selfRequests p) (ph_peersRequests p) (ph_treeRequests p) (ph_next p).

Definition handleDebug (env : proto_env) (p : protoHandler) (key bs : bytes) : protoHandler * list proto_out :=
  match bs with
  | [] => (p, [])
  | t :: bs =>
      if t =? typeDebugDummy then (p, [])
      else if t =? typeDebugGetSelfRequest then (p, handleGetSelfRequest env key)
      else if t =? typeDebugGetSelfResponse then handleGetSelfResponse p key bs
      else if t =? typeDebugGetPeersRequest then (p, handleGetPeersRequest env key)
      else if t =? typeDebugGetPeersResponse then handleGetPeersResponse p key bs
      else if t =? typeDebugGetTreeRequest then (p, handleGetTreeRequest env key)
      else if t =? typeDebugGetTreeResponse then handleGetTreeResponse p key bs
      else (p, [])
  end.

Definition handleProto (env : proto_env) (p : protoHandler) (key bs : bytes) : protoHandler * list proto_out :=
  match bs with
  | [] => (p, [])
  | t :: bs =>
      if t =? typeProtoDummy then (p, [])
      else if t =? typeProtoNodeInfoRequest then (p, nodeinfo_sendRes (ph_nodeinfo p) key)
      else if t =? typeProtoNodeInfoResponse then
        let '(m, out) := nodeinfo_callback (ph_nodeinfo p) key bs in (with_nodeinfo p m, out)
      else if t =? typeProtoDebug then handleDebug env p key bs
      else (p, [])
  end.

(** ** The admin handlers of the debug requests *)

Inductive debug_error := HexError | InvalidKeyLength | NoKeySupplied.

(** The key of a request: hex-decoded, of the right length. *)
Definition debug_key (key : string) : res debug_error bytes :=
  match hex_DecodeString key with
  | None => Err HexError
  | Some kbs =>
      if negb (len kbs =? Z.of_nat PublicKeySize) then Err InvalidKeyLength
      else Ok (copy (replicate PublicKeySize 0) kbs)
  end.

(** [nodeInfoAdminHandler] also refuses an empty key. *)
Definition nodeinfo_key (key : string) : res debug_error bytes :=
  if String.eqb key "" then Err NoKeySupplied else debug_key key.

(** The loop that splits a response into keys, in hexadecimal in the code; it
    consumes 32 bytes each time, so the length of the response is enough. *)
Fixpoint split_keys (fuel : nat) (bs : bytes) : list bytes :=
  match fuel with
  | O => []
  | S fuel =>
      if Z.of_nat PublicKeySize <=? len bs
      then take PublicKeySize bs :: split_keys fuel (drop PublicKeySize bs)
      else []
  end.

Definition response_keys (info : bytes) : list bytes := split_keys (S (length info)) info.

(** ** The packet interface of the core *)

(** [Core.MTU] from the MTU of the packet connection. *)
Definition Core_MTU (pcMTU : Z) : Z :=
  let MTU := u64 (pcMTU - 1) in
  if 65535 <? MTU then 65535 else MTU.

(** [Core.WriteTo]: the packet given to the packet connection, and what is
    returned of the number of bytes and the error that it reports. *)
Definition Core_WriteTo (p : bytes) : bytes := typeSessionTraffic :: p.
Definition Core_WriteTo_result {E} (r : Z * option E) : Z * option E :=
  (if 0 <? fst r then fst r - 1 else fst r, snd r).

(** One iteration of [Core.ReadFrom] on a packet [bs] from [from]: [Some] is
    the traffic delivered into [p] with its length. *)
Definition Core_ReadFrom_step (env : proto_env) (ph : protoHandler) (p bs from : bytes) :
    protoHandler * list proto_out * option (bytes * Z) :=
  match bs with
  | [] => (ph, [], None)
  | t :: bs =>
      if t =? typeSessionTraffic then
        (ph, [], Some (copy p bs, if len p <? len bs then len p else len bs))
      else if t =? typeSessionProto then
        let '(ph, out) := handleProto env ph (copy (replicate PublicKeySize 0) from) bs in (ph, out, None)
      else (ph, [], None)
  end.

(** ** Packing and splitting keys *)

Lemma pack_keys_spec mtu keys bs :
  Forall (λ k, length k = PublicKeySize) keys →
  len bs + 32 * len keys < 2 ^ 64 →
  ∃ n, (n <= length keys)%nat ∧ pack_keys mtu keys bs = bs ++ concat (take n keys) ∧
    (len (concat (take n keys)) = 0 ∨ len bs + len (concat (take n keys)) + responseOverhead <= mtu) ∧
    (n = length keys ∨ mtu < len bs + len (concat (take n keys)) + 32 + responseOverhead).
Proof.
  revert bs. induction keys as [|k keys IH]; intros bs Hk Hl.
  { exists 0%nat. simpl. rewrite app_nil_r. split_and!; auto. }
  apply Forall_cons in Hk as [Hk Hks]. cbn [pack_keys].
  assert (len (bs ++ k) = len bs + 32) as Hlk by (rewrite len_app; unfold len; rewrite Hk; done).
  assert (len (k :: keys) = len keys + 1) as Hc by (unfold len; simpl; lia).
  pose proof (len_nonneg bs). pose proof (len_nonneg keys).
  rewrite wrap_small by (unfold in_range; lia). rewrite Hlk.
  destruct (Z.ltb_spec mtu (len bs + 32 + responseOverhead)).
  { exists 0%nat. simpl concat. rewrite app_nil_r. unfold len at 1 3 5. simpl length.
    split_and!; [lia|done|by left|right; lia]. }
  destruct (IH (bs ++ k) Hks ltac:(lia)) as (n & Hn & -> & Hfit & Hmax).
  exists (S n). simpl take. rewrite List.concat_cons, len_app, <- app_assoc.
  assert (len k = 32) as Hlen by (unfold len; by rewrite Hk).
  split_and!; [simpl; lia|done| |].
  - right. destruct Hfit; lia.
  - destruct Hmax as [->|]; [left; done|right; lia].
Qed.

Lemma split_keys_concat fuel keys :
  Forall (λ k, length k = PublicKeySize) keys → (length (concat keys) < fuel)%nat →
  split_keys fuel (concat keys) = keys.
Proof.
  revert fuel. induction keys as [|k keys IH]; intros [|fuel] Hk Hf; try lia; [done|].
  apply Forall_cons in Hk as [Hk Hks]. cbn [split_keys]. rewrite List.concat_cons.
  rewrite List.concat_cons, length_app in Hf.
  assert (Z.of_nat PublicKeySize <=? len (k ++ concat keys) = true) as ->.
  { apply Z.leb_le. unfold len. rewrite length_app. lia. }
  rewrite take_app_length', drop_app_length' by done. rewrite IH; [done|done|].
  unfold PublicKeySize in Hk. lia.
Qed.

(** ** Requests *)

Inductive req_kind := RSelf | RPeers | RTree.

Definition requests (p : protoHandler) (k : req_kind) : gmap bytes reqInfo :=
  match k with RSelf => ph_selfRequests p | RPeers => ph_peersRequests p | RTree => ph_treeRequests p end.

Definition set_requests (p : protoHandler) (k : req_kind) (r : gmap bytes reqInfo) : protoHandler :=
  match k with
  | RSelf => ProtoHandler (ph_nodeinfo p) r (ph_peersRequests p) (ph_treeRequests p) (ph_next p)
  | RPeers => ProtoHandler (ph_nodeinfo p) (ph_selfRequests p) r (ph_treeRequests p) (ph_next p)
  | RTree => ProtoHandler (ph_nodeinfo p) (ph_selfRequests p) (ph_peersRequests p) r (ph_next p)
  end.

Definition send_request (p : protoHandler) (k : req_kind) (key : bytes) (cb : nat) :
    protoHandler * list proto_out :=
  match k with
  | RSelf => sendGetSelfRequest p key cb
  | RPeers => sendGetPeersRequest p key cb
  | RTree => sendGetTreeRequest p key cb
  end.

(** A history of the protocol handler: requests (each with a callback of its
    own), debug messages from other nodes, expired requests.  The last argument
    lists the callbacks that were called, the latest first. *)
Inductive proto_run (env : proto_env) : protoHandler → list nat → Prop :=
| run_init : proto_run env proto_init []
| run_send p called k key :
    proto_run env p called → proto_run env (fst (send_request p k key (ph_next p))) called
| run_recv p called key bs :
    proto_run env p called →
    proto_run env (fst (handleDebug env p key bs))
      (omap (λ o, match o with Callback cb _ => Some cb | _ => None end) (snd (handleDebug env p key bs)) ++ called)
| run_expire p called k key id :
    proto_run env p called → proto_run env (set_requests p k (expire_request (requests p k) key id)) called.

Record proto_ok (p : protoHandler) (called : list nat) : Prop := {
  pk_pending : ∀ k key i, requests p k !! key = Some i →
    ri_callback i = ri_id i ∧ (ri_id i < ph_next p)%nat ∧ ri_id i ∉ called;
  pk_inj : ∀ k key i k' key' i', requests p k !! key = Some i → requests p k' !! key' = Some i' →
    ri_id i = ri_id i' → k = k' ∧ key = key';
  pk_called : Forall (λ cb, (cb < ph_next p)%nat) called;
  pk_nodup : NoDup called;
}.

(** Removing a pending request. *)
Lemma proto_ok_delete p called k key :
  proto_ok p called → proto_ok (set_requests p k (delete key (requests p k))) called.
Proof.
  intros [Hp Hi Hc Hn].
  assert (∀ k' key' i, requests (set_requests p k (delete key (requests p k))) k' !! key' = Some i →
    requests p k' !! key' = Some i) as Hsub.
  { intros k' key' i. destruct k, k'; simpl; try done; by intros [_ ?]%lookup_delete_Some. }
  assert (ph_next (set_requests p k (delete key (requests p k))) = ph_next p) as Hnext by (by destruct k).
  split.
  - intros k' key' i Hl%Hsub. rewrite Hnext. by eapply Hp.
  - intros k1 key1 i1 k2 key2 i2 H1%Hsub H2%Hsub. by eapply Hi.
  - by rewrite Hnext.
  - done.
Qed.

Lemma set_requests_same p k : set_requests p k (requests p k) = p.
Proof. by destruct p, k. Qed.

(** Answering a pending request calls its callback and removes it. *)
Lemma proto_ok_answer p called k key bs :
  proto_ok p called →
  let '(r, out) := answer_request (requests p k) key bs in
  proto_ok (set_requests p k r)
    (omap (λ o, match o with Callback cb _ => Some cb | _ => None end) out ++ called).
Proof.
  intros Hok. unfold answer_request. destruct (requests p k !! key) as [i|] eqn:Hk; simpl;
    [|by rewrite set_requests_same].
  pose proof (proto_ok_delete p called k key Hok) as [Hp Hi Hc Hn].
  destruct Hok as [Hp0 Hi0 Hc0 _]. destruct (Hp0 _ _ _ Hk) as (Hcb & Hlt & Hnc).
  assert (ph_next (set_requests p k (delete key (requests p k))) = ph_next p) as Hnext by (by destruct k).
  split.
  - intros k' key' i' Hl. destruct (Hp _ _ _ Hl) as (? & ? & ?). split_and!; try done.
    rewrite not_elem_of_cons. split; [|done]. rewrite Hcb. intros Heq.
    assert (requests p k' !! key' = Some i') as Hl'.
    { destruct k, k'; simpl in Hl |- *; try done; by apply lookup_delete_Some in Hl as [_ ?]. }
    destruct (Hi0 _ _ _ _ _ _ Hl' Hk Heq) as [-> ->].
    destruct k; simpl in Hl; by rewrite lookup_delete_eq in Hl.
  - done.
  - constructor; [by rewrite Hnext, Hcb|done].
  - constructor; [by rewrite Hcb|done].
Qed.

Lemma proto_ok_send p called k key :
  proto_ok p called → proto_ok (fst (send_request p k key (ph_next p))) called.
Proof.
  intros [Hp Hi Hc Hn]. set (p' := fst _).
  assert (ph_next p' = S (ph_next p)) as Hnext by (by destruct k).
  assert (∀ k' key' i, requests p' k' !! key' = Some i →
    (k' = k ∧ key' = key ∧ i = ReqInfo (ph_next p) (ph_next p)) ∨ requests p k' !! key' = Some i) as Hcase.
  { intros k' key' i. subst p'. destruct k, k'; simpl; auto; unfold add_request;
      (intros [[<- <-]|[_ [_ ?]%lookup_delete_Some]]%lookup_insert_Some; auto). }
  split.
  - intros k' key' i [(-> & -> & ->)|Hl]%Hcase.
    + simpl. split_and!; [done|lia|]. intros Hin. pose proof (proj1 (Forall_forall _ _) Hc _ Hin). simpl in *. lia.
    + destruct (Hp _ _ _ Hl) as (? & ? & ?). split_and!; [done|lia|done].
  - intros k1 key1 i1 k2 key2 i2 H1 H2 Heq.
    apply Hcase in H1 as [(-> & -> & ->)|H1], H2 as [(-> & -> & ->)|H2]; simpl in Heq; try done.
    + destruct (Hp _ _ _ H2) as (_ & ? & _). lia.
    + destruct (Hp _ _ _ H1) as (_ & ? & _). lia.
    + by eapply Hi.
  - eapply Forall_impl; [exact Hc|]. simpl. intros. lia.
  - done.
Qed.

Lemma proto_ok_recv env p called key bs :
  proto_ok p called →
  proto_ok (fst (handleDebug env p key bs))
    (omap (λ o, match o with Callback cb _ => Some cb | _ => None end) (snd (handleDebug env p key bs)) ++ called).
Proof.
  intros Hok. unfold handleDebug. destruct bs as [|t bs]; [done|].
  destruct (t =? _); [done|]. destruct (t =? _).
  { simpl. unfold handleGetSelfRequest. by destruct (pe_selfJSON env). }
  destruct (t =? _).
  { pose proof (proto_ok_answer p called RSelf key bs Hok) as Ha. unfold handleGetSelfResponse. simpl in Ha.
    destruct (answer_request _ _ _) as [r out]. exact Ha. }
  destruct (t =? _); [done|]. destruct (t =? _).
  { pose proof (proto_ok_answer p called RPeers key bs Hok) as Ha. unfold handleGetPeersResponse. simpl in Ha.
    destruct (answer_request _ _ _) as [r out]. exact Ha. }
  destruct (t =? _); [done|]. destruct (t =? _); [|done].
  pose proof (proto_ok_answer p called RTree key bs Hok) as Ha. unfold handleGetTreeResponse. simpl in Ha.
  destruct (answer_request _ _ _) as [r out]. exact Ha.
Qed.

(** debug_callbacks_once.  In any history of debug requests, messages from
    other nodes (whatever their bytes) and expiring requests, the callback of a
    request is called at most once, and a request that is still pending has not
    been answered. *)
Theorem debug_callbacks_once env p called :
  proto_run env p called →
  NoDup called ∧ ∀ k key i, requests p k !! key = Some i → ri_callback i ∉ called.
Proof.
  intros Hr. assert (proto_ok p called) as Hok.
  { induction Hr as [|p called k key _ IH|p called key bs _ IH|p called k key id _ IH].
    - split; [|..|constructor|constructor].
      + intros [] key i; simpl; by rewrite lookup_empty.
      + intros [] key i k' key' i'; simpl; by rewrite lookup_empty.
    - by apply proto_ok_send.
    - by apply proto_ok_recv.
    - unfold expire_request. destruct (requests p k !! key) as [i|]; [|by rewrite set_requests_same].
      destruct (_ =? _)%nat; [by apply proto_ok_delete|by rewrite set_requests_same]. }
  destruct Hok as [Hp _ _ Hn]. split; [done|]. intros k key i Hl.
  destruct (Hp _ _ _ Hl) as (-> & _ & ?). done.
Qed.

(** debug_peers_end_to_end.  A node asks another for its peers: the packet
    it writes, read by the core of the other node, makes that node write a
    response that fits the MTU of its packet connection; read by the core of
    the first node, the response calls the waiting callback with bytes that
    split into the first peers of the other node, as many as fit. *)
Theorem debug_peers_end_to_end env ph envB phB keyA keyB cb pcMTU buf bufB :
  length keyA = PublicKeySize → length keyB = PublicKeySize →
  Forall (λ k, length k = PublicKeySize) (pe_peers envB) → len (pe_peers envB) < 2 ^ 58 →
  3 <= pcMTU < 2 ^ 64 → pe_MTU envB = Core_MTU pcMTU →
  ∃ ph1 reqPkt resPkt n ph2 bs,
    sendGetPeersRequest ph keyB cb = (ph1, [ProtoWrite reqPkt keyB]) ∧
    Core_ReadFrom_step envB phB bufB reqPkt keyA = (phB, [ProtoWrite resPkt keyA], None) ∧
    len resPkt <= pcMTU ∧
    Core_ReadFrom_step env ph1 buf resPkt keyB = (ph2, [Callback cb bs], None) ∧
    response_keys bs = take n (pe_peers envB) ∧
    (n = length (pe_peers envB) ∨ Core_MTU pcMTU < len bs + 32 + responseOverhead).
Proof.
  intros HlA HlB Hk Hcount HM HMTU.
  destruct (pack_keys_spec (pe_MTU envB) (pe_peers envB) [] Hk) as (n & Hn & Hpack & Hfit & Hmax).
  { unfold len at 1. simpl length. lia. }
  rewrite app_nil_l in Hpack.
  eexists _, _, _, n, _, _. split; [reflexivity|].
  assert (∀ k, length k = PublicKeySize → copy (replicate PublicKeySize 0) k = k) as Hcopy
    by (intros; apply copy_full; by rewrite length_replicate).
  split; [simpl; rewrite Hcopy by done; reflexivity|].
  unfold handleGetPeersRequest. rewrite Hpack.
  split.
  { unfold len in *. simpl length in *. rewrite HMTU in Hfit. unfold Core_MTU, responseOverhead in Hfit.
    rewrite wrap_small in Hfit by (unfold in_range; lia).
    destruct (Z.ltb_spec 65535 (pcMTU - 1)); lia. }
  split.
  { simpl. rewrite Hcopy by done. unfold handleGetPeersResponse, answer_request. simpl.
    unfold add_request. rewrite lookup_insert_eq. reflexivity. }
  split.
  - unfold response_keys. apply split_keys_concat; [by apply Forall_take|lia].
  - rewrite <- HMTU. unfold len at 1 in Hmax. simpl length in Hmax. destruct Hmax; [by left|right; lia].
Qed.

(** C34: core_traffic_roundtrip.  A packet that respects the MTU announced by
    the core fits the packet connection with its type byte, and a write that the
    connection takes whole is reported with the length of the packet; the core of the
    receiver delivers it unchanged to a buffer that is large enough, and the
    announced MTU never exceeds 65535. *)
Theorem core_traffic_roundtrip env ph pcMTU p buf from :
  1 <= pcMTU < 2 ^ 64 → len p <= Core_MTU pcMTU → len p <= len buf →
  Core_MTU pcMTU <= 65535 ∧ len (Core_WriteTo p) <= pcMTU ∧
  (∀ E, Core_WriteTo_result (len (Core_WriteTo p), @None E) = (len p, None)) ∧
  ∃ buf', Core_ReadFrom_step env ph buf (Core_WriteTo p) from = (ph, [], Some (buf', len p)) ∧
    take (length p) buf' = p.
Proof.
  intros HM Hp Hbuf. unfold Core_MTU in *. rewrite wrap_small in * by (unfold in_range; lia).
  assert (len (Core_WriteTo p) = len p + 1) as Hl by (unfold len, Core_WriteTo; simpl length; lia).
  split; [destruct (Z.ltb_spec 65535 (pcMTU - 1)); lia|].
  split; [rewrite Hl; destruct (Z.ltb_spec 65535 (pcMTU - 1)); lia|].
  split.
  { intros E. unfold Core_WriteTo_result. cbn [fst snd]. pose proof (len_nonneg p).
    rewrite Hl, (proj2 (Z.ltb_lt _ _)) by lia. f_equal. lia. }
  exists (copy buf p). simpl. rewrite (proj2 (Z.ltb_ge _ _)) by lia. split; [done|].
  unfold copy. unfold len in Hbuf. rewrite (take_ge p) by lia. apply take_app_length.
Qed.

(** nodeinfo_bounded.  Setting the node information either stores the
    encoding of the given entries, with the build entries on top unless privacy
    is asked for, of at most 16384 bytes, or reports an error and keeps what was
    there. *)
Theorem nodeinfo_bounded {V} (marshal : gmap string V → option bytes) build m given privacy :
  match setNodeInfo marshal build m given privacy with
  | (m', Ok _) => len (ni_myNodeInfo m') <= 16384 ∧ ni_callbacks m' = ni_callbacks m ∧
      marshal (if privacy then given else build ∪ given) = Some (ni_myNodeInfo m')
  | (m', Err _) => m' = m
  | (_, Panic) => False
  end.
Proof.
  unfold setNodeInfo. destruct privacy; simpl;
    (destruct (marshal _) as [js|] eqn:Hm; [|done]); destruct (Z.ltb_spec 16384 (len js)); try done;
    simpl; split_and!; (lia || done).
Qed.

(** ** Witnesses *)
Module ProtoWitness.
Definition envB : proto_env := ProtoEnv (Some [123; 125]) [replicate 32 1; replicate 32 2; replicate 32 3] [] 70.
Definition keyA : bytes := replicate 32 8.
Definition keyB : bytes := replicate 32 9.

Lemma debug_callbacks_once_witness :
  let p1 := fst (sendGetPeersRequest proto_init keyB 0) in
  let r := handleDebug envB p1 keyB [4; 1; 2; 3] in
  snd r = [Callback 0 [1; 2; 3]] ∧ NoDup [0%nat].
Proof.
  intros p1 r. split; [vm_compute; reflexivity|].
  refine (proj1 (debug_callbacks_once envB (fst r) [0%nat] _)).
  exact (run_recv envB p1 [] keyB [4; 1; 2; 3] (run_send envB proto_init [] RPeers keyB (run_init envB))).
Defined.

Lemma debug_peers_end_to_end_witness :
  ∃ ph1 reqPkt resPkt n ph2 bs,
    sendGetPeersRequest proto_init keyB 0 = (ph1, [ProtoWrite reqPkt keyB]) ∧
    Core_ReadFrom_step envB proto_init [] reqPkt keyA = (proto_init, [ProtoWrite resPkt keyA], None) ∧
    len resPkt <= 71 ∧
    Core_ReadFrom_step envB ph1 [] resPkt keyB = (ph2, [Callback 0 bs], None) ∧
    response_keys bs = take n (pe_peers envB) ∧
    (n = length (pe_peers envB) ∨ Core_MTU 71 < len bs + 32 + responseOverhead).
Proof.
  apply (debug_peers_end_to_end envB proto_init envB proto_init keyA keyB 0 71 [] []).
  - reflexivity.
  - reflexivity.
  - repeat constructor.
  - reflexivity.
  - lia.
  - reflexivity.
Defined.

Lemma core_traffic_roundtrip_witness :
  ∃ buf', Core_ReadFrom_step envB proto_init (replicate 10 0) (Core_WriteTo [5; 6; 7]) keyA =
    (proto_init, [], Some (buf', 3)) ∧ take 3 buf' = [5; 6; 7].
Proof.
  destruct (core_traffic_roundtrip envB proto_init 71 [5; 6; 7] (replicate 10 0) keyA) as (_ & _ & _ & H).
  - lia.
  - vm_compute. discriminate.
  - vm_compute. discriminate.
  - exact H.
Defined.
End ProtoWitness.
