(* ===== verification/GoLib.v ===== *)
(** * GoLib: what the sources use of Go's slices, strings and encoding packages

    [slices.SortStableFunc] with the order-theoretic conditions under which it
    sorts, [strings.Compare], [hex.EncodeToString], and the conversions between
    durations, binary64 floats and integers. *)

From S2P Require Import Prelude Links.
From Stdlib Require Import Ascii SpecFloat.

Open Scope string_scope.
Open Scope list_scope.
Open Scope Z_scope.

(** ** Stable sorting *)

Section Sort.
Context {A : Type} (cmp : A → A → Z).

(** One round of insertion: [x] moves left over the elements it precedes. The
    sorted part is kept in reverse. *)
Fixpoint insert_rev (x : A) (sorted : list A) : list A :=
  match sorted with
  | [] => [x]
  | y :: rest => if cmp x y <? 0 then y :: insert_rev x rest else x :: y :: rest
  end.

(** [slices.SortStableFunc]. For a comparison that is a weak ordering the
    stable result is unique; up to twenty elements this is also the algorithm
    of the library, element for element. *)
Definition SortStableFunc (l : list A) : list A :=
  rev (foldl (λ acc x, insert_rev x acc) [] l).

(** A comparison is a weak ordering on the elements of [P]. *)
Record weak_ordering (P : A → Prop) : Prop := {
  wo_sgn : ∀ a b, P a → P b → Z.sgn (cmp b a) = - Z.sgn (cmp a b);
  wo_trans : ∀ a b c, P a → P b → P c → cmp a b <= 0 → cmp b c <= 0 → cmp a c <= 0;
}.

Lemma insert_rev_perm x l : insert_rev x l ≡ₚ x :: l.
Proof.
  induction l as [|y l IH]; simpl; [done|].
  case_match; [rewrite IH; by constructor|done].
Qed.

Lemma foldl_insert_perm l acc : foldl (λ acc x, insert_rev x acc) acc l ≡ₚ l ++ acc.
Proof.
  revert acc. induction l as [|x l IH]; intros acc; simpl; [done|].
  rewrite IH, insert_rev_perm. symmetry. apply Permutation_middle.
Qed.

Lemma SortStableFunc_perm l : SortStableFunc l ≡ₚ l.
Proof.
  unfold SortStableFunc.
  transitivity (foldl (λ acc x, insert_rev x acc) [] l); [symmetry; apply Permutation_rev|].
  by rewrite foldl_insert_perm, app_nil_r.
Qed.

Lemma elem_of_SortStableFunc x l : x ∈ SortStableFunc l ↔ x ∈ l.
Proof. by rewrite SortStableFunc_perm. Qed.

Section Ordered.
Context {P : A → Prop} (Hw : weak_ordering P).

Lemma wo_flip a b : P a → P b → cmp a b < 0 ↔ 0 < cmp b a.
Proof. intros Ha Hb. pose proof (wo_sgn _ Hw a b Ha Hb). lia. Qed.

Lemma insert_rev_Forall x l : P x → Forall P l → Forall P (insert_rev x l).
Proof. intros ??. rewrite insert_rev_perm. by constructor. Qed.

Let desc (a b : A) : Prop := cmp b a <= 0.

Lemma insert_rev_sorted x l :
  P x → Forall P l → StronglySorted desc l → StronglySorted desc (insert_rev x l).
Proof.
  intros Hx. induction l as [|y l IH]; simpl; intros HP Hs.
  { repeat constructor. }
  apply Forall_cons in HP as [Hy HP]. apply StronglySorted_inv in Hs as [Hs Hall].
  case_match eqn:E.
  - constructor; [by apply IH|]. rewrite insert_rev_perm. constructor; [unfold desc; lia|done].
  - pose proof (wo_flip x y Hx Hy) as Hf. pose proof (wo_sgn _ Hw x y Hx Hy).
    assert (Hyx : cmp y x <= 0) by lia.
    constructor; [by constructor|]. constructor; [done|].
    rewrite Forall_forall in Hall, HP |- *. intros z Hz.
    apply (wo_trans _ Hw z y x); auto. by apply Hall.
Qed.

Lemma foldl_insert_sorted l acc :
  Forall P l → Forall P acc → StronglySorted desc acc →
  StronglySorted desc (foldl (λ acc x, insert_rev x acc) acc l).
Proof.
  revert acc. induction l as [|x l IH]; intros acc Hl Ha Hs; simpl; [done|].
  apply Forall_cons in Hl as [Hx Hl].
  apply IH; [done|by apply insert_rev_Forall|by apply insert_rev_sorted].
Qed.
End Ordered.

Lemma StronglySorted_rev (R : A → A → Prop) l :
  StronglySorted (λ a b, R b a) l → StronglySorted R (rev l).
Proof.
  induction l as [|x l IH]; simpl; intros Hs; [constructor|].
  apply StronglySorted_inv in Hs as [Hs Hall].
  apply StronglySorted_app_2; [|by apply IH|repeat constructor].
  intros a b Ha ->%list_elem_of_singleton. rewrite Forall_forall in Hall.
  apply Hall. by rewrite list_elem_of_In, in_rev, <- list_elem_of_In.
Qed.

Lemma StronglySorted_impl_on (P : A → Prop) (R S : A → A → Prop) l :
  (∀ a b, P a → P b → R a b → S a b) → Forall P l → StronglySorted R l → StronglySorted S l.
Proof.
  intros HRS HP Hs. induction Hs as [|x r Hs IH Hx]; [constructor|].
  apply Forall_cons in HP as [HPx HP]. constructor; [by apply IH|].
  rewrite Forall_forall in Hx, HP |- *. eauto.
Qed.

(** Under a weak ordering of its elements the sort sorts. *)
Lemma SortStableFunc_sorted (P : A → Prop) l :
  weak_ordering P → Forall P l → StronglySorted (λ a b, cmp a b <= 0) (SortStableFunc l).
Proof.
  intros Hw HP. apply StronglySorted_rev.
  by apply (foldl_insert_sorted Hw); [|constructor|constructor].
Qed.
End Sort.

(** ** Comparisons as lexicographic combinations *)

(** Two comparisons in sequence: the second decides when the first is zero. *)
Definition lex (d e : Z) : Z := if d =? 0 then e else d.

Lemma weak_ordering_lex {A} (c1 c2 : A → A → Z) (P : A → Prop) :
  weak_ordering c1 P → weak_ordering c2 P → weak_ordering (λ a b, lex (c1 a b) (c2 a b)) P.
Proof.
  intros H1 H2. unfold lex. split.
  - intros a b Ha Hb. pose proof (wo_sgn _ _ H1 a b Ha Hb). pose proof (wo_sgn _ _ H2 a b Ha Hb).
    repeat case_match; lia.
  - intros a b c Ha Hb Hc Hab Hbc.
    pose proof (wo_trans _ _ H1 a b c Ha Hb Hc). pose proof (wo_trans _ _ H2 a b c Ha Hb Hc).
    pose proof (wo_trans _ _ H1 c a b Hc Ha Hb). pose proof (wo_trans _ _ H1 b c a Hb Hc Ha).
    pose proof (wo_sgn _ _ H1 a c Ha Hc). pose proof (wo_sgn _ _ H1 b c Hb Hc).
    pose proof (wo_sgn _ _ H1 a b Ha Hb).
    repeat case_match; lia.
Qed.

Lemma weak_ordering_key {A} (f : A → Z) (c : A → A → Z) (P : A → Prop) :
  (∀ a b, P a → P b → Z.sgn (c a b) = Z.sgn (f a - f b)) → weak_ordering c P.
Proof.
  intros Hc. split.
  - intros a b Ha Hb. rewrite (Hc a b), (Hc b a) by done. lia.
  - intros a b d Ha Hb Hd. pose proof (Hc a b Ha Hb). pose proof (Hc b d Hb Hd). pose proof (Hc a d Ha Hd). lia.
Qed.

Lemma weak_ordering_ext {A} (c1 c2 : A → A → Z) (P : A → Prop) :
  (∀ a b, P a → P b → c1 a b = c2 a b) → weak_ordering c1 P → weak_ordering c2 P.
Proof.
  intros He Hw. split.
  - intros a b Ha Hb. rewrite <- !He by done. by apply (wo_sgn _ _ Hw).
  - intros a b c Ha Hb Hc. rewrite <- !He by done. by apply (wo_trans _ _ Hw).
Qed.

(** ** Strings *)

(** [strings.Compare]. *)
Definition Compare (a b : string) : Z :=
  match String.compare a b with Lt => -1 | Eq => 0 | Gt => 1 end.

Lemma ascii_compare_nat a b : Ascii.compare a b = Nat.compare (nat_of_ascii a) (nat_of_ascii b).
Proof. unfold Ascii.compare, nat_of_ascii. by rewrite N2Nat.inj_compare. Qed.

Lemma string_compare_trans_le a b c :
  String.compare a b ≠ Gt → String.compare b c ≠ Gt → String.compare a c ≠ Gt.
Proof.
  revert b c. induction a as [|x a IH]; intros [|y b] [|z c]; simpl; try done.
  rewrite !ascii_compare_nat.
  destruct (Nat.compare_spec (nat_of_ascii x) (nat_of_ascii y)), (Nat.compare_spec (nat_of_ascii y) (nat_of_ascii z)),
    (Nat.compare_spec (nat_of_ascii x) (nat_of_ascii z)); try done; try lia; eauto.
Qed.

Lemma Compare_weak_ordering : weak_ordering Compare (λ _, True).
Proof.
  unfold Compare. split.
  - intros a b _ _. rewrite (String.compare_antisym a b). by destruct (String.compare b a).
  - intros a b c _ _ _. pose proof (string_compare_trans_le a b c).
    destruct (String.compare a b), (String.compare b c), (String.compare a c); naive_solver lia.
Qed.

Lemma Compare_eq a b : Compare a b = 0 ↔ a = b.
Proof.
  unfold Compare. split.
  - destruct (String.compare a b) eqn:E; [|lia|lia]. intros _. by apply String.compare_eq_iff.
  - intros <-. pose proof (String.compare_antisym a a) as E. by destruct (String.compare a a).
Qed.

Lemma weak_ordering_map {A B} (g : A → B) (c : B → B → Z) (P : A → Prop) :
  weak_ordering c (λ _, True) → weak_ordering (λ a b, c (g a) (g b)) P.
Proof.
  intros Hw. split; intros.
  - by apply (wo_sgn _ _ Hw).
  - by eapply (wo_trans _ _ Hw).
Qed.

Definition hex_char (n : Z) : ascii :=
  ascii_of_nat (Z.to_nat (if n <? 10 then 48 + n else 87 + n)).

(** [hex.EncodeToString]. *)
Fixpoint EncodeToString (bs : bytes) : string :=
  match bs with
  | [] => EmptyString
  | b :: bs => String (hex_char (Z.shiftr b 4)) (String (hex_char (Z.land b 15)) (EncodeToString bs))
  end.

Lemma hex_digit_char n : 0 <= n < 16 → hex_digit (hex_char n) = Some n.
Proof.
  intros Hn. assert (H : n ∈ (seqZ 0 16)) by (apply elem_of_seqZ; lia).
  assert (Hall : Forall (λ n, hex_digit (hex_char n) = Some n) (seqZ 0 16)) by by repeat constructor.
  rewrite Forall_forall in Hall. by apply Hall.
Qed.

Lemma hex_decode_encode bs : bytes_ok bs → hex_DecodeString (EncodeToString bs) = Some bs.
Proof.
  induction 1 as [|b bs Hb _ IH]; [done|]. cbn [EncodeToString hex_DecodeString].
  unfold in_range in Hb. change (2 ^ 8) with 256 in Hb.
  rewrite Z.shiftr_div_pow2 by lia. change 15 with (Z.ones 4) at 1. rewrite Z.land_ones by lia.
  change (2 ^ 4) with 16.
  rewrite (hex_digit_char (b / 16)) by (split; [apply Z.div_pos|apply Z.div_lt_upper_bound]; lia).
  rewrite (hex_digit_char (b mod 16)) by (apply Z.mod_pos_bound; lia).
  cbn [mbind option_bind]. rewrite IH. cbn. by rewrite <- Z.div_mod.
Qed.

(** ** Durations and floats *)

Definition float64_of (z : Z) : spec_float := binary_normalize 53 1024 z 0 false.
Definition fadd : spec_float → spec_float → spec_float := SFadd 53 1024.
Definition fsub : spec_float → spec_float → spec_float := SFsub 53 1024.
Definition fdiv : spec_float → spec_float → spec_float := SFdiv 53 1024.

(** [Duration.Seconds] of a number of nanoseconds. *)
Definition Seconds (d : Z) : spec_float :=
  fadd (float64_of (Z.quot d Second)) (fdiv (float64_of (Z.rem d Second)) (float64_of Second)).

(** [d == 0] of a float. *)
Definition is_zero (f : spec_float) : bool := match f with S754_zero _ => true | _ => false end.

(** [int(f)] of a float in the range of [int]: truncation towards zero. *)
Definition int_of_float (f : spec_float) : Z :=
  match f with
  | S754_finite s m e =>
      let a := if 0 <=? e then Z.pos m * 2 ^ e else Z.pos m / 2 ^ (- e) in
      if s then - a else a
  | _ => 0
  end.
