(* ===== verification/Listings.v ===== *)
(** * Listings: what a node reports about its peers, tree, paths and sessions
    (src/core/api.go; getpeers.go, gettree.go, getpaths.go, getsessions.go and
    getself.go of src/admin; src/version/version.go)

    The information structures of the core, the entries the administration
    socket builds from them and the comparison functions it sorts them with. *)

From S2P Require Import Prelude Binary Wire Address Crypto Messages Handshake Links GoLib.
From Stdlib Require Import Ascii SpecFloat.

Open Scope string_scope.
Open Scope list_scope.
Open Scope Z_scope.

(** ** Information structures of the core *)

Record SelfInfo := SelfInfo_ {
  si_Key : bytes;
  si_RoutingEntries : Z;
}.

(** [LastError] with the time it occurred is one optional pair. *)
Record PeerInfo := PeerInfo_ {
  pi_URI : string;
  pi_Up : bool;
  pi_Inbound : bool;
  pi_LastError : option string;
  pi_LastErrorTime : Z;
  pi_Key : bytes;
  pi_Root : bytes;
  pi_Port : Z;
  pi_Priority : Z;
  pi_Cost : Z;
  pi_RXBytes : Z;
  pi_TXBytes : Z;
  pi_RXRate : Z;
  pi_TXRate : Z;
  pi_Uptime : Z;
  pi_Latency : Z;
}.

Record TreeEntryInfo := TreeEntryInfo_ {
  ti_Key : bytes;
  ti_Parent : bytes;
  ti_Sequence : Z;
}.

Record PathEntryInfo := PathEntryInfo_ {
  pa_Key : bytes;
  pa_Path : list Z;
  pa_Sequence : Z;
}.

Record SessionInfo := SessionInfo_ {
  se_Key : bytes;
  se_RXBytes : Z;
  se_TXBytes : Z;
  se_Uptime : Z;
}.

(** [network.DebugPeerInfo], by the identity of its connection. *)
Record DebugPeerInfo := DebugPeerInfo_ {
  dp_Conn : nat;
  dp_Key : bytes;
  dp_Root : bytes;
  dp_Port : Z;
  dp_Priority : Z;
  dp_Latency : Z;
  dp_Cost : Z;
}.

(** The counters of a [linkConn] and the time it came up. *)
Record conn_stats := ConnStats {
  cs_rx : Z; cs_tx : Z; cs_rxrate : Z; cs_txrate : Z; cs_up : Z;
}.

(** The loop of [GetPeers] over the table of links; [stats] are the counters of
    the connections, [errs] the last error of a link with its time. Go visits
    the table in an unspecified order, here that of [map_to_list]. *)
Definition peer_info (now : Z) (iw : list DebugPeerInfo) (stats : nat → conn_stats)
    (errs : nat → string * Z) (info : linkInfo) (id : nat) (state : link) : PeerInfo :=
  let err := if ln_err state then Some (fst (errs id)) else None in
  let errtime := snd (errs id) in
  let conns := list_to_map (M := gmap nat DebugPeerInfo) (reverse ((λ p, (dp_Conn p, p)) <$> iw)) in
  match ln_conn state with
  | None => PeerInfo_ (fst info) false false err errtime [] [] 0 0 0 0 0 0 0 0 0
  | Some c =>
      let st := stats c in
      let inbound := bool_decide (ln_linkType state = linkTypeIncoming) in
      let up := now - cs_up st in
      match conns !! c with
      | Some p =>
          PeerInfo_ (fst info) true inbound err errtime (dp_Key p) (dp_Root p) (dp_Port p) (dp_Priority p)
            (dp_Cost p) (cs_rx st) (cs_tx st) (cs_rxrate st) (cs_txrate st) up (dp_Latency p)
      | None =>
          PeerInfo_ (fst info) true inbound err errtime [] [] 0 0 0
            (cs_rx st) (cs_tx st) (cs_rxrate st) (cs_txrate st) up 0
      end
  end.

Definition GetPeers (now : Z) (iw : list DebugPeerInfo) (stats : nat → conn_stats)
    (errs : nat → string * Z) (ls : links) : list PeerInfo :=
  omap (λ '(info, id), peer_info now iw stats errs info id <$> ls_store ls !! id) (map_to_list (ls_links ls)).

(** ** Entries of the administration socket *)

Definition BuildName (buildName : string) : string :=
  if String.eqb buildName "" then "unknown" else buildName.
Definition BuildVersion (buildVersion : string) : string :=
  if String.eqb buildVersion "" then "unknown" else buildVersion.

Record GetSelfResponse := GetSelfResponse_ {
  gs_BuildName : string;
  gs_BuildVersion : string;
  gs_PublicKey : string;
  gs_IPAddress : string;
  gs_RoutingEntries : Z;
  gs_Subnet : string;
}.

Record PeerEntry := PeerEntry_ {
  pe_URI : string;
  pe_Up : bool;
  pe_Inbound : bool;
  pe_IPAddress : string;
  pe_PublicKey : string;
  pe_Port : Z;
  pe_Priority : Z;
  pe_Cost : Z;
  pe_RXBytes : Z;
  pe_TXBytes : Z;
  pe_RXRate : Z;
  pe_TXRate : Z;
  pe_Uptime : spec_float;
  pe_Latency : Z;
  pe_LastErrorTime : Z;
  pe_LastError : string;
}.

(** [DataUnit.String]: a plain number of bytes, or a float with a unit, printed
    with one decimal. *)
Inductive data_text := PlainBytes (n : Z) | Scaled (f : spec_float) (unit : string).

Definition DataUnit_String (d : Z) : data_text :=
  let k := float64_of 1024 in
  let f := float64_of d in
  if d >=? 1024 * 1024 * 1024 * 1024 then Scaled (fdiv (fdiv (fdiv (fdiv f k) k) k) k) "TB"
  else if d >=? 1024 * 1024 * 1024 then Scaled (fdiv (fdiv (fdiv f k) k) k) "GB"
  else if d >=? 1024 * 1024 then Scaled (fdiv (fdiv f k) k) "MB"
  else if d >=? 100 then Scaled (fdiv f k) "KB"
  else PlainBytes d.

Record TreeEntry := TreeEntry_ {
  te_IPAddress : string;
  te_PublicKey : string;
  te_Parent : string;
  te_Sequence : Z;
}.

Record PathEntry := PathEntry_ {
  pae_IPAddress : string;
  pae_PublicKey : string;
  pae_Path : list Z;
  pae_Sequence : Z;
}.

Record SessionEntry := SessionEntry_ {
  see_IPAddress : string;
  see_PublicKey : string;
  see_RXBytes : Z;
  see_TXBytes : Z;
  see_Uptime : spec_float;
}.

(** ** Comparison functions *)

Definition sortByCost (a b : PeerEntry) : Z :=
  let d := u64 (pe_Cost a - pe_Cost b) in
  if negb (d =? 0) then int64 d
  else
    let d := Compare (pe_PublicKey a) (pe_PublicKey b) in
    if negb (d =? 0) then d
    else
      let d := u64 (pe_Priority a - pe_Priority b) in
      if negb (d =? 0) then int64 d
      else
        let d := fsub (pe_Uptime a) (pe_Uptime b) in
        if negb (is_zero d) then int_of_float d else 0.

Definition sortByLatency (a b : PeerEntry) : Z :=
  if negb (Bool.eqb (pe_Up a) (pe_Up b)) then if pe_Up a then -1 else 1
  else if negb (Bool.eqb (pe_Latency a =? 0) (pe_Latency b =? 0)) then
    if pe_Latency a >? 0 then -1 else 1
  else if pe_Latency a <? pe_Latency b then -1
  else if pe_Latency a >? pe_Latency b then 1
  else sortByCost a b.

Definition sortByDefault (a b : PeerEntry) : Z :=
  if negb (pe_Inbound a) && pe_Inbound b then -1
  else if pe_Inbound a && negb (pe_Inbound b) then 1
  else
    let d := Compare (pe_PublicKey a) (pe_PublicKey b) in
    if negb (d =? 0) then d
    else
      let d := u64 (pe_Priority a - pe_Priority b) in
      if negb (d =? 0) then int64 d
      else
        let d := u64 (pe_Cost a - pe_Cost b) in
        if negb (d =? 0) then int64 d
        else
          let d := fsub (pe_Uptime a) (pe_Uptime b) in
          if negb (is_zero d) then int_of_float d else 0.

Definition sortByUptime (a b : PeerEntry) : Z :=
  let d := fsub (pe_Uptime a) (pe_Uptime b) in
  if negb (is_zero d) then int_of_float d
  else
    let d := Compare (pe_PublicKey a) (pe_PublicKey b) in
    if negb (d =? 0) then d
    else
      let d := u64 (pe_Priority a - pe_Priority b) in
      if negb (d =? 0) then int64 d
      else
        let d := u64 (pe_Cost a - pe_Cost b) in
        if negb (d =? 0) then int64 d else 0.

(** ** Handlers *)

(** What the entries use of package net: the text of an IPv6 address, and of
    the /64 prefix of a subnet. *)
Class IPText := {
  IP_String : bytes → string;
  IPNet_String : bytes → string;
}.

Section Handlers.
Context `{IPText}.

(** [Core.Address] and [Core.Subnet]; [None] is the nil dereference of a key of
    the wrong length. *)
Definition Core_Address (public : bytes) : option bytes := AddrForKey public.
Definition Core_Subnet (public : bytes) : option bytes :=
  (λ s, s ++ replicate 8 0) <$> SubnetForKey public.

Definition getSelfHandler (buildName buildVersion : string) (public : bytes) (self : SelfInfo) :
    option GetSelfResponse :=
  addr ← Core_Address public;
  snet ← Core_Subnet public;
  Some (GetSelfResponse_ (BuildName buildName) (BuildVersion buildVersion) (EncodeToString (si_Key self))
          (IP_String addr) (si_RoutingEntries self) (IPNet_String snet)).

Definition peer_entry (now : Z) (p : PeerInfo) : PeerEntry :=
  let latency := if pi_Latency p >? 0 then pi_Latency p else 0 in
  let '(key, ip) :=
    match AddrForKey (pi_Key p) with
    | Some addr => (EncodeToString (pi_Key p), IP_String addr)
    | None => ("", "")
    end in
  let '(err, errtime) :=
    match pi_LastError p with
    | Some e => (e, now - pi_LastErrorTime p)
    | None => ("", 0)
    end in
  PeerEntry_ (pi_URI p) (pi_Up p) (pi_Inbound p) ip key (pi_Port p) (pi_Priority p) (pi_Cost p)
    (pi_RXBytes p) (pi_TXBytes p) (pi_RXRate p) (pi_TXRate p) (Seconds (pi_Uptime p)) latency errtime err.

Definition getPeersHandler (now : Z) (sortBy : string) (peers : list PeerInfo) : list PeerEntry :=
  let entries := peer_entry now <$> peers in
  let s := ToLower sortBy in
  if String.eqb s "uptime" then SortStableFunc sortByUptime entries
  else if String.eqb s "cost" then SortStableFunc sortByCost entries
  else if String.eqb s "latency" || String.eqb s "rtt" then SortStableFunc sortByLatency entries
  else SortStableFunc sortByDefault entries.

Definition getTreeHandler (tree : list TreeEntryInfo) : list TreeEntry :=
  SortStableFunc (λ a b, Compare (te_PublicKey a) (te_PublicKey b))
    (omap (λ d, addr ← AddrForKey (ti_Key d);
                Some (TreeEntry_ (IP_String addr) (EncodeToString (ti_Key d)) (EncodeToString (ti_Parent d))
                        (ti_Sequence d))) tree).

Definition getPathsHandler (paths : list PathEntryInfo) : list PathEntry :=
  SortStableFunc (λ a b, Compare (pae_PublicKey a) (pae_PublicKey b))
    (omap (λ p, addr ← AddrForKey (pa_Key p);
                Some (PathEntry_ (IP_String addr) (EncodeToString (pa_Key p)) (pa_Path p) (pa_Sequence p))) paths).

Definition getSessionsHandler (sessions : list SessionInfo) : list SessionEntry :=
  SortStableFunc (λ a b, Compare (see_PublicKey a) (see_PublicKey b))
    (omap (λ s, addr ← AddrForKey (se_Key s);
                Some (SessionEntry_ (IP_String addr) (EncodeToString (se_Key s)) (se_RXBytes s) (se_TXBytes s)
                        (Seconds (se_Uptime s)))) sessions).
End Handlers.

(** ** The comparisons are orders *)

(** Entries whose costs and priorities fit 63 bits, and in which connections to
    one node do not differ in uptime. *)
Definition entry_ok (l : list PeerEntry) (a : PeerEntry) : Prop :=
  a ∈ l ∧ 0 <= pe_Cost a < 2 ^ 63 ∧ 0 <= pe_Priority a < 2 ^ 63 ∧ 0 <= pe_Latency a ∧
  ∀ b, b ∈ l → pe_PublicKey a = pe_PublicKey b → is_zero (fsub (pe_Uptime a) (pe_Uptime b)) = true.

Definition int_diff (x y : Z) : Z := int64 (u64 (x - y)).

Lemma int_diff_small x y : 0 <= x < 2 ^ 63 → 0 <= y < 2 ^ 63 → int_diff x y = x - y.
Proof.
  intros Hx Hy. unfold int_diff, int64, wrap.
  change (2 ^ 64) with 18446744073709551616. change (2 ^ 63) with 9223372036854775808 in *.
  destruct (decide (y <= x)).
  - rewrite (Z.mod_small (x - y)) by lia. rewrite Z.mod_small; lia.
  - replace (x - y) with (x - y + 18446744073709551616 + (-1) * 18446744073709551616) by lia.
    rewrite Z_mod_plus_full, (Z.mod_small (x - y + 18446744073709551616)) by lia.
    replace (x - y + 18446744073709551616 + 9223372036854775808)
      with (x - y + 9223372036854775808 + 1 * 18446744073709551616) by lia.
    rewrite Z_mod_plus_full, Z.mod_small; lia.
Qed.

Lemma u64_diff_zero x y : 0 <= x < 2 ^ 63 → 0 <= y < 2 ^ 63 → (u64 (x - y) =? 0) = (x - y =? 0).
Proof.
  intros Hx Hy. unfold wrap.
  change (2 ^ 64) with 18446744073709551616. change (2 ^ 63) with 9223372036854775808 in *.
  apply Bool.eq_true_iff_eq. rewrite !Z.eqb_eq. split.
  - intros Hm. apply Z.mod_divide in Hm as [k Hk]; [|lia]. nia.
  - by intros ->.
Qed.

Lemma lex_assoc d e f : lex (lex d e) f = lex d (lex e f).
Proof. unfold lex. by destruct (d =? 0) eqn:E; [|rewrite E]. Qed.

Definition cmp_cost (a b : PeerEntry) : Z := pe_Cost a - pe_Cost b.
Definition cmp_key (a b : PeerEntry) : Z := Compare (pe_PublicKey a) (pe_PublicKey b).
Definition cmp_prio (a b : PeerEntry) : Z := pe_Priority a - pe_Priority b.
Definition cmp_up (a b : PeerEntry) : Z := Z.b2z (pe_Up b) - Z.b2z (pe_Up a).
Definition cmp_sample (a b : PeerEntry) : Z := Z.b2z (pe_Latency a =? 0) - Z.b2z (pe_Latency b =? 0).
Definition cmp_rtt (a b : PeerEntry) : Z := Z.sgn (pe_Latency a - pe_Latency b).

Lemma sortByCost_lex l a b :
  entry_ok l a → entry_ok l b →
  sortByCost a b = lex (cmp_cost a b) (lex (cmp_key a b) (cmp_prio a b)).
Proof.
  intros (Ha & Hac & Hap & _ & Hau) (Hb & Hbc & Hbp & _). unfold sortByCost, lex, cmp_cost, cmp_key, cmp_prio.
  rewrite !u64_diff_zero by done. fold (int_diff (pe_Cost a) (pe_Cost b)).
  fold (int_diff (pe_Priority a) (pe_Priority b)). rewrite !int_diff_small by done.
  destruct (pe_Cost a - pe_Cost b =? 0) eqn:E1; [|done]. simpl.
  destruct (Compare _ _ =? 0) eqn:E2; [|done]. simpl.
  destruct (pe_Priority a - pe_Priority b =? 0) eqn:E3; [|done]. simpl.
  rewrite Hau; [|done|by apply Compare_eq, Z.eqb_eq]. simpl. lia.
Qed.

Lemma sortByLatency_lex l a b :
  entry_ok l a → entry_ok l b →
  sortByLatency a b =
    lex (cmp_up a b) (lex (cmp_sample a b) (lex (cmp_rtt a b) (lex (cmp_cost a b) (lex (cmp_key a b) (cmp_prio a b))))).
Proof.
  intros Ha Hb. unfold sortByLatency. rewrite (sortByCost_lex l a b) by done.
  destruct Ha as (_ & _ & _ & Hla & _), Hb as (_ & _ & _ & Hlb & _).
  generalize (lex (cmp_cost a b) (lex (cmp_key a b) (cmp_prio a b))) as r.
  intros r. unfold lex, cmp_up, cmp_sample, cmp_rtt.
  destruct (pe_Up a), (pe_Up b); simpl; try done.
  all: destruct (pe_Latency a =? 0) eqn:Ea, (pe_Latency b =? 0) eqn:Eb; simpl; try (case_match; lia).
  all: repeat case_match; lia.
Qed.

Lemma cost_weak_ordering l : weak_ordering sortByCost (entry_ok l).
Proof.
  eapply weak_ordering_ext; [intros a b Ha Hb; symmetry; by apply (sortByCost_lex l)|].
  repeat apply weak_ordering_lex.
  - by apply (weak_ordering_key pe_Cost).
  - apply (weak_ordering_map pe_PublicKey), Compare_weak_ordering.
  - by apply (weak_ordering_key pe_Priority).
Qed.

Lemma latency_weak_ordering l : weak_ordering sortByLatency (entry_ok l).
Proof.
  eapply weak_ordering_ext; [intros a b Ha Hb; symmetry; by apply (sortByLatency_lex l)|].
  repeat apply weak_ordering_lex.
  - apply (weak_ordering_key (λ a, - Z.b2z (pe_Up a))). intros. unfold cmp_up. f_equal. lia.
  - by apply (weak_ordering_key (λ a, Z.b2z (pe_Latency a =? 0))).
  - apply (weak_ordering_key pe_Latency). intros. unfold cmp_rtt. lia.
  - by apply (weak_ordering_key pe_Cost).
  - apply (weak_ordering_map pe_PublicKey), Compare_weak_ordering.
  - by apply (weak_ordering_key pe_Priority).
Qed.

(** ** The listings are sorted *)

(** What the listing by latency promises of an entry [a] before an entry [b]. *)
Definition latency_le (a b : PeerEntry) : Prop :=
  (pe_Up b = true → pe_Up a = true) ∧
  (pe_Up a = pe_Up b → 0 < pe_Latency b → 0 < pe_Latency a <= pe_Latency b) ∧
  (pe_Up a = pe_Up b → pe_Latency a = pe_Latency b → pe_Cost a <= pe_Cost b).

Lemma sortByLatency_le l a b :
  entry_ok l a → entry_ok l b → sortByLatency a b <= 0 → latency_le a b.
Proof.
  intros Ha Hb. rewrite (sortByLatency_lex l) by done.
  destruct Ha as (_ & _ & _ & Hla & _), Hb as (_ & _ & _ & Hlb & _).
  unfold latency_le, lex, cmp_up, cmp_sample, cmp_rtt, cmp_cost.
  generalize (lex (cmp_key a b) (cmp_prio a b)) as r. intros r.
  destruct (pe_Up a), (pe_Up b); simpl; try (intros; lia).
  all: destruct (pe_Latency a =? 0) eqn:Ea, (pe_Latency b =? 0) eqn:Eb; simpl; try (intros; lia).
  all: repeat case_match; intros; split_and!; intros; try done; lia.
Qed.

Section Sorted.
Context `{IPText}.

(** peers_sorted_by_latency. The listing by latency holds exactly the
    entries of the peers, connected peers first, among those the ones with a
    round-trip sample by increasing round trip, then by cost, whenever costs and
    priorities fit 63 bits and connections to one node have the same uptime; on
    such entries the comparison is a weak ordering, so the stable result is
    determined. *)
Theorem peers_sorted_by_latency now sortBy peers :
  let entries := peer_entry now <$> peers in
  ToLower sortBy = "latency" ∨ ToLower sortBy = "rtt" →
  Forall (entry_ok entries) entries →
  weak_ordering sortByLatency (entry_ok entries) ∧
  getPeersHandler now sortBy peers ≡ₚ entries ∧
  StronglySorted latency_le (getPeersHandler now sortBy peers).
Proof.
  intros entries Hs Hok.
  assert (Hget : getPeersHandler now sortBy peers = SortStableFunc sortByLatency entries).
  { unfold getPeersHandler. by destruct Hs as [-> | ->]. }
  rewrite Hget. split_and!; [apply latency_weak_ordering|apply SortStableFunc_perm|].
  eapply (StronglySorted_impl_on (entry_ok entries)); [by apply sortByLatency_le| |].
  - by rewrite SortStableFunc_perm.
  - apply (SortStableFunc_sorted _ (entry_ok entries)); [apply latency_weak_ordering|done].
Qed.

(** A listing by key: a permutation of its entries in the order of the keys. *)
Lemma key_listing {A} (key : A → string) (l : list A) :
  SortStableFunc (λ a b, Compare (key a) (key b)) l ≡ₚ l ∧
  StronglySorted (λ a b, Compare (key a) (key b) <= 0) (SortStableFunc (λ a b, Compare (key a) (key b)) l).
Proof.
  split; [apply SortStableFunc_perm|].
  apply (SortStableFunc_sorted _ (λ _, True)); [apply (weak_ordering_map key), Compare_weak_ordering|].
  by apply Forall_true.
Qed.

(** An entry of the tree listing identifies a node: from its key text the
    listed node, its address and its parent are read back. *)
Lemma getTreeHandler_elem tree e :
  e ∈ getTreeHandler tree ↔
  ∃ d addr, d ∈ tree ∧ AddrForKey (ti_Key d) = Some addr ∧
    e = TreeEntry_ (IP_String addr) (EncodeToString (ti_Key d)) (EncodeToString (ti_Parent d)) (ti_Sequence d).
Proof.
  unfold getTreeHandler. rewrite elem_of_SortStableFunc, list_elem_of_omap. split.
  - intros (d & Hd & He). destruct (AddrForKey (ti_Key d)) as [addr|] eqn:E; naive_solver.
  - intros (d & addr & Hd & Ha & ->). exists d. by rewrite Ha.
Qed.
End Sorted.

(** ** Uptime *)

(** uptime_order_lost. The comparison by uptime truncates a difference of
    less than a second to zero, so it is not a weak ordering: three peers that
    have been up for 1.2, 0.6 and 0 seconds stay in that order, although the
    comparison puts the last before the first, and the keys are not consulted. *)
Theorem uptime_order_lost `{IPText} now a b c :
  let pa := PeerInfo_ a true false None 0 (replicate 32 3) [] 1 0 0 0 0 0 0 1200000000 0 in
  let pb := PeerInfo_ b true false None 0 (replicate 32 2) [] 2 0 0 0 0 0 0 600000000 0 in
  let pc := PeerInfo_ c true false None 0 (replicate 32 1) [] 3 0 0 0 0 0 0 0 0 in
  getPeersHandler now "uptime" [pa; pb; pc] = peer_entry now <$> [pa; pb; pc] ∧
  sortByUptime (peer_entry now pc) (peer_entry now pa) < 0.
Proof.
  intros pa pb pc.
  assert (Hbc : sortByUptime (peer_entry now pb) (peer_entry now pa) = 0) by reflexivity.
  assert (Hcb : sortByUptime (peer_entry now pc) (peer_entry now pb) = 0) by reflexivity.
  split; [|by vm_compute].
  unfold getPeersHandler. cbn [ToLower]. cbv beta iota delta [String.eqb Ascii.eqb Bool.eqb lower_ascii].
  reflexivity.
Qed.

Module ListingsWitness.
#[local] Instance ip_text : IPText := { IP_String := EncodeToString; IPNet_String := EncodeToString }.

Definition sample_peer (k : Z) (up : bool) (cost uptime latency : Z) : PeerInfo :=
  PeerInfo_ "tls://" up false None 0 (if up then replicate 32 k else []) [] k 0 cost 0 0 0 0 uptime latency.
Definition sample_peers : list PeerInfo :=
  [sample_peer 1 false 0 0 0; sample_peer 2 true 7 5000000000 0; sample_peer 3 true 9 1200000000 800; sample_peer 4 true 1 700000000 300].

Lemma entries_ok : Forall (entry_ok (peer_entry 0 <$> sample_peers)) (peer_entry 0 <$> sample_peers).
Proof.
  apply Forall_forall. intros a Ha. pose proof Ha as Hin.
  assert (H : 0 <= pe_Cost a < 2 ^ 63 ∧ 0 <= pe_Priority a < 2 ^ 63 ∧ 0 <= pe_Latency a ∧
    Forall (λ b, pe_PublicKey a = pe_PublicKey b → is_zero (fsub (pe_Uptime a) (pe_Uptime b)) = true)
      (peer_entry 0 <$> sample_peers)).
  { change (peer_entry 0 <$> sample_peers) with (map (peer_entry 0) sample_peers) in Ha. cbn [map sample_peers] in Ha.
    repeat (apply elem_of_cons in Ha as [->|Ha]; [apply (bool_decide_unpack _); by vm_compute|]).
    by apply elem_of_nil in Ha. }
  rewrite Forall_forall in H. unfold entry_ok. tauto.
Qed.

(** Witness. *)
Lemma peers_sorted_by_latency_witness :
  pe_Port <$> getPeersHandler 0 "RTT" sample_peers = [4; 3; 2; 1] ∧
  StronglySorted latency_le (getPeersHandler 0 "RTT" sample_peers).
Proof.
  split; [reflexivity|].
  apply (peers_sorted_by_latency 0 "RTT" sample_peers); [by right|apply entries_ok].
Defined.
End ListingsWitness.
