(* ===== verification/Remote.v ===== *)
(** * Remote: commands that ask other nodes, and the outer interfaces
    (the handlers at the end of src/core/proto.go and nodeinfo.go; the wrappers
    of src/core/api.go; ReadWriteCloser of src/ipv6rwc; Stop and listen of
    src/admin/admin.go; the accessors of contrib/mobile/mobile.go)

    A command for a remote node sends a request with a callback and waits for six
    seconds: [remote_begin] is the part before the wait, [remote_end] the part
    after it. JSON decoding of the arguments is a parameter. *)

From S2P Require Import Prelude Binary Wire Address Crypto Messages Handshake KeyStore Links Proto GoLib Listings.
From Stdlib Require Import Ascii.

Open Scope string_scope.
Open Scope list_scope.
Open Scope Z_scope.

(** ** Commands for a remote node *)

Inductive remote_error := BadArguments | BadKey (e : debug_error) | RemoteTimeout.

(** The message of a response: the bytes of the remote node as they are
    ([json.RawMessage] does not look at them), or the list of keys in
    hexadecimal. *)
Inductive remote_message := RawInfo (bs : bytes) | KeyList (keys : list string).

Section RemoteCommands.
Context `{IPText} (UnmarshalKey : string → option string).

(** [getSelfHandler], [getPeersHandler] and [getTreeHandler] up to the wait: the
    key that is asked, with the new state and the request. *)
Definition remote_begin (k : req_kind) (p : protoHandler) (args : string) (cb : nat) :
    res remote_error (bytes * protoHandler * list proto_out) :=
  match UnmarshalKey args with
  | None => Err BadArguments
  | Some hexkey =>
      match debug_key hexkey with
      | Err e => Err (BadKey e)
      | Panic => Panic
      | Ok key => let '(p, out) := send_request p k key cb in Ok (key, p, out)
      end
  end.

(** The address of the remote node under which the result is filed. *)
Definition remote_name (kbs : bytes) : res remote_error string :=
  match AddrForKey kbs with Some a => Ok (IP_String a) | None => Panic end.

Definition getSelf_end (kbs info : bytes) : res remote_error (string * remote_message) :=
  ip ← remote_name kbs; Ok (ip, RawInfo info).
Definition getPeers_end (kbs info : bytes) : res remote_error (string * remote_message) :=
  ip ← remote_name kbs; Ok (ip, KeyList (EncodeToString <$> response_keys info)).
Definition getTree_end (kbs info : bytes) : res remote_error (string * remote_message) :=
  ip ← remote_name kbs; Ok (ip, KeyList (EncodeToString <$> response_keys info)).

(** The wait: [reply] is what the callback put into the channel within the six
    seconds. *)
Definition remote_end (k : req_kind) (kbs : bytes) (reply : option bytes) : res remote_error (string * remote_message) :=
  match reply with
  | None => Err RemoteTimeout
  | Some info =>
      match k with
      | RSelf => getSelf_end kbs info
      | RPeers => getPeers_end kbs info
      | RTree => getTree_end kbs info
      end
  end.

(** [nodeInfoAdminHandler], in the same two parts; the result is filed under the
    key. *)
Definition nodeInfo_begin (m : nodeinfo) (args : string) (cb : nat) (now : Z) :
    res remote_error (bytes * nodeinfo * list proto_out) :=
  match UnmarshalKey args with
  | None => Err BadArguments
  | Some hexkey =>
      match nodeinfo_key hexkey with
      | Err e => Err (BadKey e)
      | Panic => Panic
      | Ok key => let '(m, out) := nodeinfo_sendReq m key (Some cb) now in Ok (key, m, out)
      end
  end.

Definition nodeInfo_end (kbs : bytes) (reply : option bytes) : res remote_error (string * remote_message) :=
  match reply with
  | None => Err RemoteTimeout
  | Some info => Ok (EncodeToString kbs, RawInfo info)
  end.
End RemoteCommands.

(** What a handler finds in its channel: the argument of its callback. *)
Definition reply_of (cb : nat) (outs : list proto_out) : option bytes :=
  head (omap (λ o, match o with Callback c bs => if (c =? cb)%nat then Some bs else None | _ => None end) outs).

(** ** Wrappers of the core *)

(** What the routing library reports about itself, its tree, its paths and the
    sessions. *)
Record DebugSelfInfo := DebugSelfInfo_ { ds_Key : bytes; ds_RoutingEntries : Z }.
Record DebugTreeInfo := DebugTreeInfo_ { dt_Key : bytes; dt_Parent : bytes; dt_Sequence : Z }.
Record DebugPathInfo := DebugPathInfo_ { dpa_Key : bytes; dpa_Path : list Z; dpa_Sequence : Z }.
Record DebugSessionInfo := DebugSessionInfo_ { dse_Key : bytes; dse_Uptime : Z; dse_RX : Z; dse_TX : Z }.

Definition Core_GetSelf (s : DebugSelfInfo) : SelfInfo := SelfInfo_ (ds_Key s) (ds_RoutingEntries s).
Definition Core_GetTree (ts : list DebugTreeInfo) : list TreeEntryInfo :=
  (λ t, TreeEntryInfo_ (dt_Key t) (dt_Parent t) (dt_Sequence t)) <$> ts.
Definition Core_GetPaths (ps : list DebugPathInfo) : list PathEntryInfo :=
  (λ p, PathEntryInfo_ (dpa_Key p) (dpa_Path p) (dpa_Sequence p)) <$> ps.
Definition Core_GetSessions (ss : list DebugSessionInfo) : list SessionInfo :=
  (λ s, SessionInfo_ (dse_Key s) (dse_RX s) (dse_TX s) (dse_Uptime s)) <$> ss.

(** [AddPeer] keeps the peer in the list, [CallPeer] calls it once. *)
Definition Core_AddPeer `{NetLib} (ls : links) (u : url) (sintf : string) := links_add ls u sintf linkTypePersistent.
Definition Core_CallPeer `{NetLib} (ls : links) (u : url) (sintf : string) := links_add ls u sintf linkTypeEphemeral.
Definition Core_RemovePeer (ls : links) (u : url) (sintf : string) := links_remove ls u sintf.

(** ** The packet layer as a reader and writer *)

(** [Read] and [Write] of [ReadWriteCloser] are [readPC] and [writePC]; [MaxMTU]
    is the MTU of the core and [MTU] the one that was set. *)
Definition rwc_MaxMTU (pcMTU : Z) : Z := Core_MTU pcMTU.
Definition rwc_MTU (k : keyStore) : Z := ks_mtu k.
Definition rwc_Address (k : keyStore) : bytes := ks_address k.
Definition rwc_Subnet (k : keyStore) : bytes := ks_subnet k.

(** The MTU that the key store ends up with when it is set to [mtu]. *)
Definition rwc_setMTU (pcMTU : Z) (k : keyStore) (mtu : Z) : keyStore := SetMTU (rwc_MaxMTU pcMTU) k mtu.

(** ** The life of the administration socket *)

(** [al_listener] is whether there is a listener and it is open, [al_done]
    whether the channel that ends the loop is closed. *)
Record admin_life := AdminLife { al_listener : option bool; al_done : bool }.

Definition admin_IsStarted (a : admin_life) : bool := negb (al_done a).

(** [Stop] of a socket, which may be nil; the error is that of closing a closed
    listener. *)
Definition admin_Stop (a : option admin_life) : option admin_life * res () () :=
  match a with
  | None => (None, Ok ())
  | Some a =>
      match al_listener a with
      | Some open => (Some (AdminLife (Some false) true), if open then Ok () else Err ())
      | None => (Some a, Ok ())
      end
  end.

(** What [Accept] returns, and whether the socket was stopped by then. *)
Inductive accept_result := Accepted (conn : nat) | AcceptError (stopped : bool).

(** [listen]: the connections that are served, and whether the loop ended (and
    closed the listener). *)
Fixpoint admin_listen (results : list accept_result) : list nat * bool :=
  match results with
  | [] => ([], false)
  | Accepted conn :: results => let '(served, ended) := admin_listen results in (conn :: served, ended)
  | AcceptError stopped :: results => if stopped then ([], true) else admin_listen results
  end.

(** ** Accessors of the mobile bindings *)

Section Mobile.
Context `{IPText}.

(** The entry of [GetPeersJSON]: the address is empty for a key that has none. *)
Definition mobile_peer (p : PeerInfo) : PeerInfo * string :=
  (p, match AddrForKey (pi_Key p) with Some a => IP_String a | None => "" end).
Definition mobile_GetPeers (ps : list PeerInfo) : list (PeerInfo * string) := mobile_peer <$> ps.

Definition mobile_GetAddressString (public : bytes) : option string := IP_String <$> Core_Address public.
Definition mobile_GetSubnetString (public : bytes) : option string := IPNet_String <$> Core_Subnet public.
Definition mobile_GetPublicKeyString (self : SelfInfo) : string := EncodeToString (si_Key self).
End Mobile.

Inductive mobile_part := MulticastPart | TunPart | CorePart.

(** [Stop]: the parts that are stopped, up to the first error; [ok] is whether a
    part stops without one. *)
Definition mobile_Stop (has_multicast has_tun : bool) (ok : mobile_part → bool) : list mobile_part * bool :=
  if has_multicast && negb (ok MulticastPart) then ([], false)
  else
    let stopped := if has_multicast then [MulticastPart] else [] in
    if has_tun && negb (ok TunPart) then (stopped, false)
    else (stopped ++ (if has_tun then [TunPart] else []) ++ [CorePart], true).

(** ** Properties *)

(** What a node answers to a request of each kind; [None] when it cannot encode
    its own information. *)
Definition remote_answer (k : req_kind) (env : proto_env) : option bytes :=
  match k with
  | RSelf => pe_selfJSON env
  | RPeers => Some (pack_keys (pe_MTU env) (pe_peers env) [])
  | RTree => Some (pack_keys (pe_MTU env) (pe_tree env) [])
  end.
Definition remote_keys (k : req_kind) (env : proto_env) : list bytes :=
  match k with RSelf => [] | RPeers => pe_peers env | RTree => pe_tree env end.

(** The keys that fit into one response. *)
Lemma answer_keys k env info :
  k ≠ RSelf → Forall (λ x, length x = PublicKeySize) (remote_keys k env) → len (remote_keys k env) < 2 ^ 58 →
  remote_answer k env = Some info →
  ∃ n, response_keys info = take n (remote_keys k env) ∧
    (n = length (remote_keys k env) ∨ pe_MTU env < len info + 32 + responseOverhead).
Proof.
  intros Hk H32 Hlen Ha. assert (Hp : info = pack_keys (pe_MTU env) (remote_keys k env) []) by (destruct k; naive_solver).
  destruct (pack_keys_spec (pe_MTU env) (remote_keys k env) [] H32) as (n & _ & Hpack & _ & Hmax).
  { unfold len at 1. simpl length. lia. }
  rewrite app_nil_l in Hpack. rewrite Hpack in Hp. subst info. exists n. split.
  - unfold response_keys. apply split_keys_concat; [by apply Forall_take|lia].
  - destruct Hmax as [->|Hm]; [by left|right]. unfold len at 1 in Hm. simpl length in Hm. lia.
Qed.

Section RemoteLaws.
Context `{IPText} (UnmarshalKey : string → option string).

Lemma copy_key k : length k = PublicKeySize → copy (replicate PublicKeySize 0) k = k.
Proof. intros Hk. apply copy_full. by rewrite length_replicate. Qed.

(** The two packets of an exchange. *)
Lemma remote_exchange k env ph envB phB keyA keyB cb buf bufB info :
  length keyA = PublicKeySize → length keyB = PublicKeySize → remote_answer k envB = Some info →
  ∃ ph1 req res ph2,
    send_request ph k keyB cb = (ph1, [ProtoWrite req keyB]) ∧
    Core_ReadFrom_step envB phB bufB req keyA = (phB, [ProtoWrite res keyA], None) ∧
    Core_ReadFrom_step env ph1 buf res keyB = (ph2, [Callback cb info], None) ∧ requests ph2 k !! keyB = None.
Proof.
  intros HA HB Ha. unfold remote_answer in Ha.
  destruct k; [eexists _, _, ([typeSessionProto; typeProtoDebug; typeDebugGetSelfResponse] ++ info), _
              |eexists _, _, ([typeSessionProto; typeProtoDebug; typeDebugGetPeersResponse] ++ info), _
              |eexists _, _, ([typeSessionProto; typeProtoDebug; typeDebugGetTreeResponse] ++ info), _];
    (split; [reflexivity|]); cbn [Core_ReadFrom_step app]; rewrite !copy_key by done; split.
  1: { cbn. unfold handleGetSelfRequest. by rewrite Ha. }
  2: { injection Ha as <-. reflexivity. }
  3: { injection Ha as <-. reflexivity. }
  all: split; [cbn; unfold handleGetSelfResponse, handleGetPeersResponse, handleGetTreeResponse, answer_request, add_request;
    cbn; rewrite lookup_insert_eq; reflexivity|].
  all: cbn; by rewrite lookup_delete_eq.
Qed.

(** remote_command_answered.  An administration command that asks the node with
    a given key, when the request and its answer get through, ends with the
    answer of that node filed under its address: its own description as it sent
    it, or in hexadecimal the first of its peers or tree neighbours, as many as
    fit into the MTU. The request is no longer pending then. *)
Theorem remote_command_answered k env ph envB phB keyA keyB args cb buf bufB info :
  key_ok keyA → key_ok keyB → UnmarshalKey args = Some (EncodeToString keyB) →
  Forall (λ x, length x = PublicKeySize) (remote_keys k envB) → len (remote_keys k envB) < 2 ^ 58 →
  remote_answer k envB = Some info →
  ∃ ph1 req res ph2 out addr message,
    remote_begin UnmarshalKey k ph args cb = Ok (keyB, ph1, [ProtoWrite req keyB]) ∧
    Core_ReadFrom_step envB phB bufB req keyA = (phB, [ProtoWrite res keyA], None) ∧
    Core_ReadFrom_step env ph1 buf res keyB = (ph2, out, None) ∧ requests ph2 k !! keyB = None ∧
    AddrForKey keyB = Some addr ∧ remote_end k keyB (reply_of cb out) = Ok (IP_String addr, message) ∧
    match k with
    | RSelf => message = RawInfo info
    | _ => ∃ n, message = KeyList (EncodeToString <$> take n (remote_keys k envB)) ∧
        (n = length (remote_keys k envB) ∨ pe_MTU envB < len info + 32 + responseOverhead)
    end.
Proof.
  intros [HA _] HkB Hargs H32 Hlen Ha. pose proof HkB as [HB HokB].
  destruct (remote_exchange k env ph envB phB keyA keyB cb buf bufB info HA HB Ha) as (ph1 & req & rs & ph2 & Hs & Hr1 & Hr2 & Hnone).
  destruct (AddrForKey_bits keyB HkB) as (addr & Haddr & _).
  assert (Hend : ∃ message, remote_end k keyB (Some info) = Ok (IP_String addr, message) ∧
    match k with
    | RSelf => message = RawInfo info
    | _ => ∃ n, message = KeyList (EncodeToString <$> take n (remote_keys k envB)) ∧
        (n = length (remote_keys k envB) ∨ pe_MTU envB < len info + 32 + responseOverhead)
    end).
  { destruct k; cbn [remote_end]; unfold getSelf_end, getPeers_end, getTree_end, remote_name; rewrite Haddr; cbn [mbind res_bind].
    - by eexists.
    - destruct (answer_keys RPeers envB info) as (n & -> & Hmax); [done..|]. eexists. split; [done|]. by exists n.
    - destruct (answer_keys RTree envB info) as (n & -> & Hmax); [done..|]. eexists. split; [done|]. by exists n. }
  destruct Hend as (message & He & Hm). exists ph1, req, rs, ph2, [Callback cb info], addr, message.
  split_and!; try done.
  - unfold remote_begin. rewrite Hargs. unfold debug_key. rewrite hex_decode_encode by done.
    unfold len. rewrite HB. cbn [Z.eqb negb]. rewrite Z.eqb_refl. cbn [negb]. rewrite copy_key by done. by rewrite Hs.
  - unfold reply_of. cbn. by rewrite Nat.eqb_refl.
Qed.
End RemoteLaws.

(** The loop of the administration socket serves every connection that is
    accepted before it is stopped, whatever errors come in between, and ends with
    the first error after [Stop]. *)
Lemma admin_listen_spec pre rest :
  (∀ b, AcceptError b ∈ pre → b = false) →
  admin_listen (pre ++ AcceptError true :: rest) =
    (omap (λ r, match r with Accepted c => Some c | _ => None end) pre, true).
Proof.
  induction pre as [|[c|b] pre IH]; intros Hb; [done| |].
  - cbn [app admin_listen omap list_omap]. rewrite IH; [done|]. intros b Hin. apply Hb. by right.
  - cbn [app admin_listen omap list_omap]. rewrite (Hb b) by left. apply IH. intros b' Hin. apply Hb. by right.
Qed.

(** Stopping a socket ends its loop once and for all; a second [Stop] only
    reports the closed listener, and a disabled socket (nil) can be stopped. *)
Lemma admin_Stop_spec a a' r :
  admin_Stop (Some a) = (a', r) → is_Some (al_listener a) →
  ∃ b, a' = Some b ∧ admin_IsStarted b = false ∧ fst (admin_Stop a') = a' ∧
    (r = Ok () ↔ al_listener a = Some true) ∧ fst (admin_Stop None) = None.
Proof.
  intros Hs [open Ho]. unfold admin_Stop in Hs. rewrite Ho in Hs. injection Hs as <- <-. eexists. split; [done|].
  split_and!; [done|done| |done]. rewrite Ho. destruct open; split; intros; congruence.
Qed.

(** The mobile bindings stop the core last, and only when the other parts
    stopped. *)
Lemma mobile_Stop_spec mc tun ok parts r :
  mobile_Stop mc tun ok = (parts, r) →
  (r = true ↔ CorePart ∈ parts) ∧ (r = true → last parts = Some CorePart) ∧
  (mc = true → r = true → MulticastPart ∈ parts) ∧ (tun = true → r = true → TunPart ∈ parts).
Proof.
  unfold mobile_Stop. destruct mc, tun, (ok MulticastPart), (ok TunPart); intros [= <- <-]; set_solver.
Qed.

(** ** Witnesses *)

Module RemoteWitness.
#[local] Instance ip_text : IPText := { IP_String := EncodeToString; IPNet_String := EncodeToString }.

Definition kA : bytes := replicate 32 1.
Definition kB : bytes := replicate 32 2.
Definition envB : proto_env := ProtoEnv (Some [123; 125]) [replicate 32 3; replicate 32 4] [] 1000.

Lemma remote_command_answered_witness :
  ∃ ph1 req res ph2 out addr,
    remote_begin Some RPeers proto_init (EncodeToString kB) 7 = Ok (kB, ph1, [ProtoWrite req kB]) ∧
    Core_ReadFrom_step envB proto_init [] req kA = (proto_init, [ProtoWrite res kA], None) ∧
    Core_ReadFrom_step envB ph1 [] res kB = (ph2, out, None) ∧ AddrForKey kB = Some addr ∧
    remote_end RPeers kB (reply_of 7 out) =
      Ok (EncodeToString addr, KeyList [EncodeToString (replicate 32 3); EncodeToString (replicate 32 4)]).
Proof.
  destruct (remote_command_answered Some RPeers envB proto_init envB proto_init kA kB (EncodeToString kB) 7 [] []
    (replicate 32 3 ++ replicate 32 4)) as (ph1 & req & rs & ph2 & out & addr & msg & H1 & H2 & H3 & _ & H4 & H5 & n & -> & Hn).
  - split; [reflexivity|]. apply Forall_replicate. split; lia.
  - split; [reflexivity|]. apply Forall_replicate. split; lia.
  - reflexivity.
  - repeat constructor.
  - reflexivity.
  - reflexivity.
  - exists ph1, req, rs, ph2, out, addr. split; [exact H1|]. split; [exact H2|]. split; [exact H3|]. split; [exact H4|].
    assert (n = 2%nat) as -> by (destruct Hn as [->|Hn]; [reflexivity|by vm_compute in Hn]). exact H5.
Defined.
End RemoteWitness.
