(* ===== verification/Debug.v ===== *)
(** * What the routing layer reports about itself
    (third_party/ironwood/network/debug.go)

    The records behind the listings of the administration socket, read from the
    router, its pathfinder and its connections. Go visits maps in an unspecified
    order, here that of [map_to_list]. *)

From S2P Require Import Prelude Binary Wire GoHeap Address Crypto Messages PacketQueue Bloom Tree Router Routing Pathfinder Peers Handshake KeyStore Links Proto GoLib Listings Remote.

Section Debug.
Context {F : Type} `{BloomFilter F}.

Definition Debug_GetSelf (self : bytes) (r : router F) : DebugSelfInfo :=
  DebugSelfInfo_ self (u64 (Z.of_nat (size (r_infos r)))).

(** [Duration.Round]; durations are in nanoseconds. *)
Definition Round (d m : Z) : Z :=
  if m <=? 0 then d
  else
    let r := Z.rem d m in
    if d <? 0 then if - r + - r <? m then d - r else d - r - m
    else if r + r <? m then d - r else d + m - r.

(** [rtt] is the time from the last signature request of a connection to its
    answer. The root is not filled in. *)
Definition Debug_peer (lags : gmap nat Z) (rtt : nat → Z) (p : peer) : DebugPeerInfo :=
  let cost := if bool_decide (is_Some (lags !! peer_id p)) then getCost lags p else 0 in
  let latency := Round (rtt (peer_id p)) 10000 in
  DebugPeerInfo_ (peer_id p) (peer_key p) [] (u64 (peer_port p)) (peer_prio p) (if 0 <? latency then latency else 0) cost.

Definition Debug_GetPeers (r : router F) (rtt : nat → Z) (ps : peers) : list DebugPeerInfo :=
  map_to_list (ps_peers ps) ≫= λ '(_, kps), Debug_peer (r_lags r) rtt <$> kps.

Definition Debug_GetTree (r : router F) : list DebugTreeInfo :=
  (λ '(key, dinfo), DebugTreeInfo_ key (info_parent dinfo) (info_seq dinfo)) <$> map_to_list (r_infos r).

Definition Debug_GetPaths (pf : pathfinder) : list DebugPathInfo :=
  (λ '(key, pinfo), DebugPathInfo_ key (u64 <$> pa_path pinfo) (pa_seq pinfo)) <$> map_to_list (pf_paths pf).

Record DebugBloomInfo := DebugBloomInfo_ { db_Key : bytes; db_Send : list Z; db_Recv : list Z }.

Definition Debug_GetBlooms (r : router F) : list DebugBloomInfo :=
  (λ '(key, binfo), DebugBloomInfo_ key (copy (replicate bloomFilterU 0) (bf_Bytes (bi_send binfo)))
     (copy (replicate bloomFilterU 0) (bf_Bytes (bi_recv binfo)))) <$> map_to_list (r_blooms r).

(** What the logger set by [SetDebugLookupLogger] is called with. *)
Record DebugLookupInfo := DebugLookupInfo_ { dl_Key : bytes; dl_Path : list Z; dl_Target : bytes }.

Definition debug_lookup (lookup : pathLookup) : DebugLookupInfo :=
  DebugLookupInfo_ (lookup_source lookup) (u64 <$> Messages.lookup_from lookup) (lookup_dest lookup).
End Debug.

(** ** The listings show the state *)

Section ListingLaws.
Context {F : Type} `{BloomFilterLaws F} `{Ed25519Laws} `{IPText}.

(** Every path that the administration socket lists was signed by the node it is
    said to lead to, in every state that path discovery reaches; and every known
    path to a node with an address is listed. *)
Theorem paths_listing_signed sk self transform throttle (st : pst (F := F)) :
  priv_ok sk → self = ed_Public sk → pf_reachable sk self transform throttle st →
  let entries := getPathsHandler (Core_GetPaths (Debug_GetPaths (snd st))) in
  (∀ e, e ∈ entries → ∃ key info, pf_paths (snd st) !! key = Some info ∧ pae_PublicKey e = EncodeToString key ∧
     pae_Path e = u64 <$> pa_path info ∧ pae_Sequence e = pa_seq info ∧ signed_path key (pa_seq info) (pa_path info)) ∧
  (∀ key info a, pf_paths (snd st) !! key = Some info → AddrForKey key = Some a →
     PathEntry_ (IP_String a) (EncodeToString key) (u64 <$> pa_path info) (pa_seq info) ∈ entries).
Proof.
  intros Hsk Hself Hr entries. destruct (pf_reachable_ok _ _ _ _ st Hsk Hself Hr) as [_ Hp]. split.
  - intros e He. unfold entries, getPathsHandler in He. rewrite SortStableFunc_perm in He.
    apply list_elem_of_omap in He as (pe & Hin & He). apply list_elem_of_fmap in Hin as (dp & -> & Hin).
    apply list_elem_of_fmap in Hin as ([key info] & -> & Hin%elem_of_map_to_list). simpl in He.
    destruct (AddrForKey key); [|done]. injection He as <-. exists key, info. split_and!; try done. by apply (po_signed _ _ _ Hp).
  - intros key info a Hk Ha. unfold entries, getPathsHandler. rewrite SortStableFunc_perm.
    apply list_elem_of_omap. exists (PathEntryInfo_ key (u64 <$> pa_path info) (pa_seq info)). simpl. rewrite Ha. split; [|done].
    apply list_elem_of_fmap. exists (DebugPathInfo_ key (u64 <$> pa_path info) (pa_seq info)). split; [done|].
    apply list_elem_of_fmap. exists (key, info). split; [done|]. by apply elem_of_map_to_list.
Qed.

(** The tree listing has one entry for every announcement of a node with an
    address. *)
Theorem tree_listing_complete (r : router F) :
  getTreeHandler (Core_GetTree (Debug_GetTree r)) ≡ₚ
  omap (λ '(key, info), a ← AddrForKey key;
          Some (TreeEntry_ (IP_String a) (EncodeToString key) (EncodeToString (info_parent info)) (info_seq info)))
    (map_to_list (r_infos r)).
Proof.
  unfold getTreeHandler. rewrite SortStableFunc_perm. unfold Core_GetTree, Debug_GetTree.
  induction (map_to_list (r_infos r)) as [|[key info] l IH]; [done|]. simpl. destruct (AddrForKey key); simpl; by rewrite IH.
Qed.

(** The words that are reported for a filter are the filter. *)
Theorem bloom_listing_exact (r : router F) d :
  d ∈ Debug_GetBlooms r → ∃ binfo, r_blooms r !! db_Key d = Some binfo ∧
    bf_From (db_Send d) = bi_send binfo ∧ bf_From (db_Recv d) = bi_recv binfo.
Proof.
  intros ([key binfo] & -> & Hin%elem_of_map_to_list)%list_elem_of_fmap. exists binfo. split; [done|].
  assert (∀ f : F, copy (replicate bloomFilterU 0) (bf_Bytes f) = bf_Bytes f) as Hcopy.
  { intros f. destruct (bf_Bytes_ok f) as [Hl _]. apply copy_full. by rewrite length_replicate. }
  simpl. by rewrite !Hcopy, !bf_From_Bytes.
Qed.

(** Rounding moves a duration by at most half a step. *)
Theorem Round_near d m : 0 < m → 2 * Z.abs (Round d m - d) <= m ∧ Z.rem (Round d m) m = 0.
Proof.
  intros Hm. unfold Round. rewrite (proj2 (Z.leb_gt _ _)) by lia.
  pose proof (Z.quot_rem' d m) as Hq.
  assert (∀ k, Z.rem (m * k) m = 0) as Hmul by (intros k; rewrite Z.mul_comm; apply Z.rem_mul; lia).
  destruct (Z.ltb_spec d 0).
  - pose proof (Z.rem_bound_pos_neg d m Hm ltac:(lia)). destruct (Z.ltb_spec (- Z.rem d m + - Z.rem d m) m); (split; [lia|]).
    + replace (d - Z.rem d m) with (m * Z.quot d m) by lia. apply Hmul.
    + replace (d - Z.rem d m - m) with (m * (Z.quot d m - 1)) by lia. apply Hmul.
  - pose proof (Z.rem_bound_pos_pos d m Hm ltac:(lia)). destruct (Z.ltb_spec (Z.rem d m + Z.rem d m) m); (split; [lia|]).
    + replace (d - Z.rem d m) with (m * Z.quot d m) by lia. apply Hmul.
    + replace (d + m - Z.rem d m) with (m * (Z.quot d m + 1)) by lia. apply Hmul.
Qed.
End ListingLaws.
