(* ===== verification/Admin.v ===== *)
(** * Admin: the administration socket
    (admin.go, doctor.go, options.go, addpeer.go and removepeer.go of src/admin,
    SetAdmin of src/core/api.go, cmd/uqdactl/doctor.go)

    The table of commands and the request loop, the start of the listener, the
    handlers of the commands and the diagnostics of the "doctor" command. JSON,
    URL parsing and the operating system are parameters. *)

From S2P Require Import Prelude Binary Wire Address Crypto Messages Handshake Links GoLib Listings.
From Stdlib Require Import Ascii.

Open Scope string_scope.
Open Scope list_scope.
Open Scope Z_scope.

(** ** Commands and requests *)

(** The closures that the sources register, by the command they implement. *)
Inductive command :=
| CmdList | CmdLookups | CmdGetSelf | CmdGetPeers | CmdDoctor | CmdGetTree | CmdGetPaths | CmdGetSessions
| CmdAddPeer | CmdRemovePeer | CmdGetNodeInfo | CmdRemoteGetSelf | CmdRemoteGetPeers | CmdRemoteGetTree
| CmdGetTun | CmdGetMulticastInterfaces.

#[export] Instance command_eq_dec : EqDecision command.
Proof. solve_decision. Defined.

Record adminHandler := Handler {
  h_desc : string;
  h_args : list string;
  h_handler : command;
}.

Record AdminSocket := ASocket {
  a_handlers : gmap string adminHandler;
  a_listenaddr : string;
}.

Record AdminSocketRequest := ASRequest {
  req_Name : string;
  req_Arguments : string;
  req_KeepAlive : bool;
}.

Record AdminSocketResponse := ASResponse {
  resp_Status : string;
  resp_Error : string;
  resp_Request : AdminSocketRequest;
  resp_Response : string;
}.

Definition zero_request : AdminSocketRequest := ASRequest "" "" false.

(** What the socket uses of encoding/json and net/url. [V] is the type of the
    values a handler returns; decoding the arguments of a command gives them or
    an error text; [UnmarshalRequest] also returns the request it
    leaves behind when it reports an error, since a failed decoding may have
    filled in some fields. *)
Class AdminLib (V : Type) := {
  Marshal : V → option string;
  UnmarshalRequest : string → AdminSocketRequest → AdminSocketRequest * bool;
  UnmarshalEmpty : string → () + string;
  UnmarshalSort : string → string + string;
  UnmarshalPeer : string → (string * string) + string;
  url_Parse : string → option url;
  url_Path : url → string;
  url_Hostname : url → string;
  loopback_IP : string → bool;
}.

Definition AddHandler (a : AdminSocket) (name desc : string) (args : list string) (f : command) :
    AdminSocket * option string :=
  match a_handlers a !! ToLower name with
  | Some _ => (a, Some "handler already exists")
  | None => (ASocket (<[ToLower name := Handler desc args f]> (a_handlers a)) (a_listenaddr a), None)
  end.

Section Socket.
Context {V W : Type} `{AdminLib V}.

(** [core.AddHandlerFunc]: what a handler does on its arguments in the state
    [W] of the node. *)
Context (exec : AdminSocket → command → string → W → W * (V + string)).

(** The closure of [handleRequest] for one decoded buffer: the new state, the
    error or none, and the response and request filled in so far. *)
Definition serve (a : AdminSocket) (buf : string) (w : W) :
    W * option string * AdminSocketResponse * AdminSocketRequest :=
  let req0 := ASRequest "" "{}" false in
  let resp0 := ASResponse "" "" zero_request "" in
  match UnmarshalRequest buf req0 with
  | (req, false) => (w, Some "failed to unmarshal request", resp0, req)
  | (req, true) =>
      let resp := ASResponse "" "" req "" in
      if String.eqb (req_Name req) "" then (w, Some "no request specified", resp, req)
      else
        let reqname := ToLower (req_Name req) in
        match a_handlers a !! reqname with
        | None => (w, Some ("unknown action '" +:+ reqname +:+ "', try 'list' for help"), resp, req)
        | Some h =>
            match exec a (h_handler h) (req_Arguments req) w with
            | (w', inr e) => (w', Some e, resp, req)
            | (w', inl v) =>
                match Marshal v with
                | None => (w', Some "failed to marshal response", resp, req)
                | Some js => (w', None, ASResponse "success" "" req js, req)
                end
            end
        end
  end.

Definition finish (err : option string) (resp : AdminSocketResponse) : AdminSocketResponse :=
  match err with
  | None => resp
  | Some e => ASResponse "error" e (resp_Request resp) (resp_Response resp)
  end.

Definition no_request_response : AdminSocketResponse :=
  finish (Some "failed to find request") (ASResponse "" "" zero_request "").

(** [handleRequest] on a connection from which the decoder reads the values
    [inputs]; at their end it fails (the peer closed the connection or sent
    something that is not JSON). The responses are those handed to the
    encoder; the last component are the inputs left unread. *)
Fixpoint handleRequest (a : AdminSocket) (inputs : list string) (w : W) :
    W * list AdminSocketResponse * list string :=
  match inputs with
  | [] => (w, [no_request_response], [])
  | buf :: inputs =>
      match serve a buf w with
      | (w1, err, resp, req) =>
          let out := finish err resp in
          if req_KeepAlive req then
            match handleRequest a inputs w1 with (w2, outs, rest) => (w2, out :: outs, rest) end
          else (w1, [out], inputs)
      end
  end.

End Socket.

(** ** Start-up *)

(** What the operating system answers during [New]. *)
Record os_env := OsEnv {
  os_exists : string → bool;          (* os.Stat(path) succeeds *)
  os_dial_ok : string → bool;         (* the dial to the existing socket succeeds *)
  os_dial_timeout : string → bool;    (* ... or fails with a timeout *)
  os_remove_ok : string → bool;
  os_listen_ok : string → string → bool;   (* network, address *)
  os_chmod_ok : string → bool;
}.

Inductive os_event :=
| Dial (path : string) | Remove (path : string) | Listen (network addr : string)
| Chmod (path : string) (mode : Z) | CloseListener | Serve.

(** How [New] ends: no socket is configured, the process exits, an error, or
    the socket serves (with the error of [SetAdmin], if any). *)
Inductive start_result := Disabled | Exit1 | SecureFailed | Started (a : AdminSocket) (err : option string).

Inductive SetupOption := ListenAddress (addr : string) | LogLookups.

(** Octal 0600. *)
Definition mode_0600 : Z := 384.

Definition has_prefix (p s : string) : bool := String.prefix p s.

Section Listener.
Context {V : Type} `{AdminLib V}.

(** The listener part of [New]: the events and what [New] does next; [None]
    continues. *)
Definition listen_unix (os : os_env) (path : string) : list os_event * option start_result :=
  let '(ev, stop) :=
    if os_exists os path then
      if os_dial_ok os path || os_dial_timeout os path then ([Dial path], true)
      else if os_remove_ok os path then ([Dial path; Remove path], false)
      else ([Dial path], true)
    else ([], false) in
  if stop then (ev, Some Exit1)
  else if os_listen_ok os "unix" path then
    if has_prefix "@" path then (ev ++ [Listen "unix" path], None)
    else if os_chmod_ok os path then (ev ++ [Listen "unix" path; Chmod path mode_0600], None)
    else (ev ++ [Listen "unix" path; CloseListener], Some SecureFailed)
  else (ev, Some Exit1).

Definition listen_tcp (os : os_env) (addr : string) : list os_event * option start_result :=
  if os_listen_ok os "tcp" addr then ([Listen "tcp" addr], None) else ([], Some Exit1).

Definition start_listener (os : os_env) (listenaddr : string) : list os_event * option start_result :=
  match url_Parse listenaddr with
  | Some u =>
      let s := ToLower (u_scheme u) in
      if String.eqb s "unix" then listen_unix os (url_Path u)
      else if String.eqb s "tcp" then listen_tcp os (u_host u)
      else listen_tcp os listenaddr
  | None => listen_tcp os listenaddr
  end.

Definition applyOption (a : AdminSocket) (opt : SetupOption) : AdminSocket :=
  match opt with
  | ListenAddress v => ASocket (a_handlers a) v
  | LogLookups => fst (AddHandler a "lookups" "Dump a record of lookups received in the past hour" [] CmdLookups)
  end.

(** [SetAdmin]: the handlers of the core, up to the first that exists already. *)
Fixpoint add_all (a : AdminSocket) (hs : list (string * string * list string * command)) :
    AdminSocket * option string :=
  match hs with
  | [] => (a, None)
  | (name, desc, args, c) :: hs =>
      match AddHandler a name desc args c with
      | (a, None) => add_all a hs
      | (a, Some e) => (a, Some e)
      end
  end.

Definition SetAdmin (a : AdminSocket) : AdminSocket * option string :=
  add_all a
    [("getNodeInfo", "Request nodeinfo from a remote node by its public key", ["key"], CmdGetNodeInfo);
     ("debug_remoteGetSelf", "Debug use only", ["key"], CmdRemoteGetSelf);
     ("debug_remoteGetPeers", "Debug use only", ["key"], CmdRemoteGetPeers);
     ("debug_remoteGetTree", "Debug use only", ["key"], CmdRemoteGetTree)].

(** [SetupAdminHandlers]; errors of [AddHandler] are ignored. *)
Definition SetupAdminHandlers (a : AdminSocket) : AdminSocket :=
  let add a name desc args c := fst (AddHandler a name desc args c) in
  let a := add a "getSelf" "Show details about this node" [] CmdGetSelf in
  let a := add a "getPeers" "Show directly connected peers" ["sort"] CmdGetPeers in
  let a := add a "doctor" "Run safe node health and security diagnostics" [] CmdDoctor in
  let a := add a "getTree" "Show known Tree entries" [] CmdGetTree in
  let a := add a "getPaths" "Show established paths through this node" [] CmdGetPaths in
  let a := add a "getSessions" "Show established traffic sessions with remote nodes" [] CmdGetSessions in
  let a := add a "addPeer" "Add a peer to the peer list" ["uri"; "interface"] CmdAddPeer in
  add a "removePeer" "Remove a peer from the peer list" ["uri"; "interface"] CmdRemovePeer.

(** [New], with the events of the operating system in order. *)
Definition New (os : os_env) (opts : list SetupOption) : list os_event * start_result :=
  let a := foldl applyOption (ASocket ∅ "") opts in
  if String.eqb (a_listenaddr a) "none" || String.eqb (a_listenaddr a) "" then ([], Disabled)
  else
    match start_listener os (a_listenaddr a) with
    | (ev, Some r) => (ev, r)
    | (ev, None) =>
        let a := fst (AddHandler a "list" "List available commands" [] CmdList) in
        let '(a, err) := SetAdmin a in
        (ev ++ [Serve], Started a err)
    end.
End Listener.

(** [tun.SetupAdminHandlers] and [multicast.SetupAdminHandlers]. *)
Definition TunAdapter_SetupAdminHandlers (a : AdminSocket) : AdminSocket :=
  fst (AddHandler a "getTun" "Show information about the node's TUN interface" [] CmdGetTun).

Definition Multicast_SetupAdminHandlers (a : AdminSocket) : AdminSocket :=
  fst (AddHandler a "getMulticastInterfaces" "Show which interfaces multicast is enabled on" []
         CmdGetMulticastInterfaces).

(** ** Diagnostics *)

Definition DoctorPass : string := "pass".
Definition DoctorWarn : string := "warning".
Definition DoctorFail : string := "failure".

Definition doctorSeverity (status : string) : Z :=
  if String.eqb status DoctorFail then 2 else if String.eqb status DoctorWarn then 1 else 0.

(** A text produced by [fmt.Sprintf]: its pieces, with the values of the verbs
    %s, %d, %04o and %.2f (of a number of microseconds, in milliseconds). *)
Inductive fmt_piece := Txt (s : string) | Dec (n : Z) | Oct4 (n : Z) | Millis (us : Z).

Record DoctorCheck := DoctorCheck_ {
  dc_Name : string;
  dc_Status : string;
  dc_Summary : list fmt_piece;
}.

Record DoctorResponse := DoctorResponse_ {
  dr_Status : string;
  dr_Checks : list DoctorCheck;
  dr_Recommendations : list string;
}.

Record doctorSnapshot := doctorSnapshot_ {
  ds_buildName : string;
  ds_buildVersion : string;
  ds_address : string;
  ds_routingEntries : Z;
  ds_adminListen : string;
  ds_adminMode : Z;
  ds_adminStatError : bool;
  ds_tunKnown : bool;
  ds_tunEnabled : bool;
  ds_tunName : string;
  ds_tunMTU : Z;
  ds_peers : list PeerEntry;
  ds_multicastKnown : bool;
  ds_multicastCount : Z;
}.

(** The closure [add] and the append to the recommendations. *)
Definition dr_add (res : DoctorResponse) (name status : string) (summary : list fmt_piece) : DoctorResponse :=
  DoctorResponse_
    (if doctorSeverity status >? doctorSeverity (dr_Status res) then status else dr_Status res)
    (dr_Checks res ++ [DoctorCheck_ name status summary]) (dr_Recommendations res).

Definition dr_recommend (res : DoctorResponse) (r : string) : DoctorResponse :=
  DoctorResponse_ (dr_Status res) (dr_Checks res) (dr_Recommendations res ++ [r]).

Section Doctor.
Context {V : Type} `{AdminLib V}.

(** The case-insensitive comparison with "localhost" is on ASCII host names. *)
Definition evaluateDoctorAdmin (s : doctorSnapshot) (res : DoctorResponse) : DoctorResponse :=
  match url_Parse (ds_adminListen s) with
  | None =>
      dr_recommend (dr_add res "admin" DoctorFail [Txt "the administration endpoint is malformed"])
        "Set AdminListen to a protected Unix socket or a loopback-only TCP endpoint."
  | Some u =>
      let scheme := ToLower (u_scheme u) in
      if String.eqb scheme "unix" then
        if has_prefix "@" (url_Path u) then
          dr_add res "admin" DoctorPass [Txt "the administration endpoint uses an abstract local Unix socket"]
        else if ds_adminStatError s then
          dr_recommend (dr_add res "admin" DoctorFail [Txt "the administration socket could not be inspected"])
            "Verify the admin socket path and service permissions."
        else if negb (ds_adminMode s =? mode_0600) then
          dr_recommend
            (dr_add res "admin" DoctorFail
               [Txt "the administration socket mode is "; Oct4 (ds_adminMode s); Txt "; expected 0600"])
            "Restrict the admin socket to mode 0600 and restart UQDA."
        else dr_add res "admin" DoctorPass [Txt "the administration socket is restricted to mode 0600"]
      else if String.eqb scheme "tcp" then
        let host := url_Hostname u in
        if loopback_IP host || String.eqb (ToLower host) "localhost" then
          dr_add res "admin" DoctorPass [Txt "the TCP administration endpoint is restricted to loopback"]
        else
          dr_recommend
            (dr_add res "admin" DoctorFail
               [Txt "the unauthenticated TCP administration endpoint is not restricted to loopback"])
            "Immediately bind AdminListen to localhost or use a mode-0600 Unix socket."
      else
        dr_recommend (dr_add res "admin" DoctorFail [Txt "the administration endpoint uses an unsupported scheme"])
          "Use a protected Unix socket or a loopback-only TCP endpoint."
  end.

(** The loop over the peers: how many are connected, and the best latency in
    microseconds ([Duration.Microseconds]), 0 without a sample. *)
Definition peer_step (st : Z * Z) (p : PeerEntry) : Z * Z :=
  let '(connected, best) := st in
  if negb (pe_Up p) then (connected, best)
  else
    let latency := Z.quot (pe_Latency p) 1000 in
    (connected + 1, if (latency >? 0) && ((best =? 0) || (latency <? best)) then latency else best).

Definition peer_loop (peers : list PeerEntry) : Z * Z := foldl peer_step (0, 0) peers.

Definition doctor_identity (s : doctorSnapshot) (res : DoctorResponse) : DoctorResponse :=
  if String.eqb (ds_address s) "" then
    dr_recommend (dr_add res "identity" DoctorFail [Txt "the node has no derived IPv6 address"])
      "Inspect the configured private key and restart UQDA."
  else dr_add res "identity" DoctorPass [Txt "node address "; Txt (ds_address s); Txt " is available"].

Definition doctor_tun (s : doctorSnapshot) (res : DoctorResponse) : DoctorResponse :=
  if ds_tunKnown s && ds_tunEnabled s then
    dr_add res "tun" DoctorPass
      [Txt "interface "; Txt (ds_tunName s); Txt " is enabled with MTU "; Dec (ds_tunMTU s)]
  else if ds_tunKnown s then
    dr_recommend (dr_add res "tun" DoctorWarn [Txt "the TUN interface is disabled"])
      "Enable TUN unless this node is intentionally router-only or embedded."
  else dr_add res "tun" DoctorWarn [Txt "TUN diagnostics are unavailable"].

Definition doctor_peers (s : doctorSnapshot) (res : DoctorResponse) : DoctorResponse :=
  let '(connected, bestLatency) := peer_loop (ds_peers s) in
  let n := len (ds_peers s) in
  if n =? 0 then
    dr_recommend (dr_add res "peers" DoctorWarn [Txt "no peers are configured or discovered"])
      "Add a trusted nearby peer or enable multicast discovery on the intended LAN."
  else if connected =? 0 then
    dr_recommend (dr_add res "peers" DoctorWarn [Txt "0/"; Dec n; Txt " peers are connected"])
      "Run 'sudo uqdactl getPeers' and inspect Last Error."
  else if bestLatency >? 0 then
    dr_add res "peers" DoctorPass
      [Dec connected; Txt "/"; Dec n; Txt " connected; best direct RTT "; Millis bestLatency; Txt "ms"]
  else
    dr_add res "peers" DoctorPass [Dec connected; Txt "/"; Dec n; Txt " connected; waiting for an RTT sample"].

Definition doctor_routing (s : doctorSnapshot) (res : DoctorResponse) : DoctorResponse :=
  if ds_routingEntries s <=? 1 then
    dr_recommend
      (dr_add res "routing" DoctorWarn
         [Txt "routing table has "; Dec (ds_routingEntries s); Txt " entry; only this node may be reachable"])
      "Wait for routing convergence after a peer connects, then run doctor again."
  else
    dr_add res "routing" DoctorPass [Txt "routing table has "; Dec (ds_routingEntries s); Txt " entries"].

Definition doctor_multicast (s : doctorSnapshot) (res : DoctorResponse) : DoctorResponse :=
  if ds_multicastKnown s then
    if ds_multicastCount s >? 0 then
      dr_add res "multicast" DoctorPass
        [Txt "discovery is active on "; Dec (ds_multicastCount s); Txt " interface(s)"]
    else if len (ds_peers s) =? 0 then
      dr_add res "multicast" DoctorWarn [Txt "no active discovery interfaces and no configured peers"]
    else
      dr_add res "multicast" DoctorPass
        [Txt "discovery is disabled; configured peers provide bootstrap connectivity"]
  else res.

Definition evaluateDoctor (s : doctorSnapshot) : DoctorResponse :=
  let buildSummary :=
    if String.eqb (ds_buildName s) "unknown" && String.eqb (ds_buildVersion s) "unknown"
    then [Txt "a development build is running"]
    else [Txt (ds_buildName s); Txt " "; Txt (ds_buildVersion s); Txt " is running"] in
  let res := DoctorResponse_ DoctorPass [] [] in
  let res := dr_add res "daemon" DoctorPass buildSummary in
  let res := doctor_identity s res in
  let res := evaluateDoctorAdmin s res in
  let res := doctor_tun s res in
  let res := doctor_peers s res in
  let res := doctor_routing s res in
  doctor_multicast s res.

(** [doctorExitCode] of uqdactl. *)
Definition doctorExitCode (res : DoctorResponse) : Z :=
  if String.eqb (dr_Status res) DoctorFail then 1
  else if String.eqb (dr_Status res) DoctorWarn then 2
  else 0.
End Doctor.

(** ** Handlers *)

Record ListEntry := LEntry {
  le_Command : string;
  le_Description : string;
  le_Fields : list string;
}.

(** The record of lookups, by key: the path and the time of the last one. *)
Definition lookup_table : Type := gmap bytes (list Z * Z).

Record lookup_entry := LookupEntry {
  lk_Address : string;
  lk_Key : string;
  lk_Path : list Z;
  lk_Time : Z;
}.

(** The debug logger that [logLookups] installs. *)
Definition log_lookup (infos : lookup_table) (key : bytes) (path : list Z) (now : Z) : lookup_table :=
  <[(copy (replicate 32 0) key : bytes) := (path, now)]> infos.

Definition Hour : Z := 3600 * Second.

(** The handler of "lookups": the table without the entries older than 24
    hours, and the response; [None] is the nil dereference of an address. *)
Definition lookups_handler `{IPText} (infos : lookup_table) (now : Z) : lookup_table * option (list lookup_entry) :=
  (filter (λ '(_, (_, t)), ¬ now - t > 24 * Hour) infos,
   mapM (λ '(k, (path, t)),
     addr ← AddrForKey k; Some (LookupEntry (IP_String addr) (EncodeToString k) path (t `div` Second)))
     (map_to_list infos)).

(** What a handler returns; [VExt] are the responses of the other packages. *)
Inductive value (X : Type) :=
| VList (l : list ListEntry) | VLookups (l : list lookup_entry) | VSelf (r : GetSelfResponse)
| VPeers (l : list PeerEntry) | VDoctor (r : DoctorResponse) | VTree (l : list TreeEntry)
| VPaths (l : list PathEntry) | VSessions (l : list SessionEntry) | VEmpty | VExt (x : X).
Arguments VList {X}. Arguments VLookups {X}. Arguments VSelf {X}. Arguments VPeers {X}. Arguments VDoctor {X}.
Arguments VTree {X}. Arguments VPaths {X}. Arguments VSessions {X}. Arguments VEmpty {X}. Arguments VExt {X}.

Record doctorTUNResponse := TUNResponse {
  dt_Enabled : bool;
  dt_Name : string;
  dt_MTU : Z;
}.

(** The node as the handlers see it. *)
Record node := Node {
  nd_buildName : string;
  nd_buildVersion : string;
  nd_public : bytes;
  nd_self : SelfInfo;
  nd_links : links;
  nd_iwpeers : list DebugPeerInfo;
  nd_tree : list TreeEntryInfo;
  nd_paths : list PathEntryInfo;
  nd_sessions : list SessionInfo;
  nd_lookups : lookup_table;
}.

(** The surroundings of a request: the time, the counters and errors of the
    links, the permissions of a path, the error texts, the handlers of the
    other packages, and how their responses decode. *)
Record handler_env (X : Type) := HandlerEnv {
  he_now : Z;
  he_stats : nat → conn_stats;
  he_errs : nat → string * Z;
  he_perm : string → option Z;
  he_linkError : linkError → string;
  he_ext : command → string → X + string;
  he_UnmarshalTUN : string → doctorTUNResponse + string;
  he_UnmarshalMulticast : string → Z + string;
}.
Arguments he_now {X}. Arguments he_stats {X}. Arguments he_errs {X}. Arguments he_perm {X}.
Arguments he_linkError {X}. Arguments he_ext {X}. Arguments he_UnmarshalTUN {X}. Arguments he_UnmarshalMulticast {X}.

Section Handlers.
Context {X : Type} `{AdminLib (value X), IPText, NetLib} (env : handler_env X).

Definition node_peers (w : node) (sortBy : string) : list PeerEntry :=
  getPeersHandler (he_now env) sortBy
    (GetPeers (he_now env) (nd_iwpeers w) (he_stats env) (he_errs env) (nd_links w)).

Definition list_handler (a : AdminSocket) : list ListEntry :=
  SortStableFunc (λ a b, if Compare (le_Command a) (le_Command b) <? 0 then -1
                         else if Compare (le_Command b) (le_Command a) <? 0 then 1 else 0)
    ((λ '(name, h), LEntry name (h_desc h) (h_args h)) <$> map_to_list (a_handlers a)).

(** [callDoctorDependency]: [None] when there is no such handler. *)
Definition callDoctorDependency {T} (a : AdminSocket) (name : string) (unmarshal : string → T + string) :
    option (T + string) :=
  match a_handlers a !! name with
  | None => None
  | Some h =>
      Some match he_ext env (h_handler h) "{}" with
           | inr e => inr e
           | inl v =>
               match Marshal (VExt v) with
               | None => inr "failed to marshal"
               | Some data => unmarshal data
               end
           end
  end.

(** The permissions of the administration socket: mode and whether the stat
    failed. *)
Definition doctor_stat (listenaddr : string) : Z * bool :=
  match url_Parse listenaddr with
  | Some u =>
      if String.eqb (ToLower (u_scheme u)) "unix" && negb (String.eqb (url_Path u) "") &&
         negb (has_prefix "@" (url_Path u))
      then match he_perm env (url_Path u) with Some m => (m, false) | None => (0, true) end
      else (0, false)
  | None => (0, false)
  end.

Definition doctorHandler (a : AdminSocket) (w : node) : res string DoctorResponse :=
  match getSelfHandler (nd_buildName w) (nd_buildVersion w) (nd_public w) (nd_self w) with
  | None => Panic
  | Some self =>
      let peers := node_peers w "latency" in
      let '(mode, statErr) := doctor_stat (a_listenaddr a) in
      match callDoctorDependency a "gettun" (he_UnmarshalTUN env) with
      | Some (inr e) => Err ("inspect TUN: " +:+ e)
      | tun =>
          let '(tunKnown, t) := match tun with Some (inl t) => (true, t) | _ => (false, TUNResponse false "" 0) end in
          match callDoctorDependency a "getmulticastinterfaces" (he_UnmarshalMulticast env) with
          | Some (inr e) => Err ("inspect multicast: " +:+ e)
          | mc =>
              let '(mcKnown, n) := match mc with Some (inl n) => (true, n) | _ => (false, 0) end in
              Ok (evaluateDoctor
                (doctorSnapshot_ (gs_BuildName self) (gs_BuildVersion self) (gs_IPAddress self)
                   (gs_RoutingEntries self) (a_listenaddr a) mode statErr tunKnown (dt_Enabled t) (dt_Name t)
                   (dt_MTU t) peers mcKnown n))
          end
      end
  end.

Definition addPeerHandler (w : node) (uri sintf : string) : node * option string :=
  match url_Parse uri with
  | None => (w, Some "unable to parse peering URI")
  | Some u =>
      let '(ls, _, r) := links_add (nd_links w) u sintf linkTypePersistent in
      (Node (nd_buildName w) (nd_buildVersion w) (nd_public w) (nd_self w) ls (nd_iwpeers w) (nd_tree w)
         (nd_paths w) (nd_sessions w) (nd_lookups w),
       match r with Ok _ => None | Err e => Some (he_linkError env e) | Panic => None end)
  end.

Definition removePeerHandler (w : node) (uri sintf : string) : node * res string () :=
  match url_Parse uri with
  | None => (w, Err "unable to parse peering URI")
  | Some u =>
      let '(ls, r) := links_remove (nd_links w) u sintf in
      (Node (nd_buildName w) (nd_buildVersion w) (nd_public w) (nd_self w) ls (nd_iwpeers w) (nd_tree w)
         (nd_paths w) (nd_sessions w) (nd_lookups w),
       match r with Ok _ => Ok () | Err e => Err (he_linkError env e) | Panic => Panic end)
  end.

Definition set_lookups (w : node) (t : lookup_table) : node :=
  Node (nd_buildName w) (nd_buildVersion w) (nd_public w) (nd_self w) (nd_links w) (nd_iwpeers w) (nd_tree w)
    (nd_paths w) (nd_sessions w) t.

(** The closure of each command: decode the arguments, run the handler, return
    its response. A panic ends the process and has no response: for the node's
    own address it is excluded by the length of its key, see [exec_no_panic];
    [removePeer] of a link that an accepted connection made does panic, see
    [remove_accepted_link_panics] of Links.v. *)
Definition exec (a : AdminSocket) (c : command) (args : string) (w : node) : node * (value X + string) :=
  let with_empty k := match UnmarshalEmpty args with inr e => (w, inr e) | inl _ => k end in
  match c with
  | CmdList => (w, inl (VList (list_handler a)))
  | CmdLookups =>
      let '(t, r) := lookups_handler (nd_lookups w) (he_now env) in
      (set_lookups w t, match r with Some l => inl (VLookups l) | None => inr "panic" end)
  | CmdGetSelf =>
      with_empty (w, match getSelfHandler (nd_buildName w) (nd_buildVersion w) (nd_public w) (nd_self w) with
                     | Some r => inl (VSelf r) | None => inr "panic" end)
  | CmdGetPeers =>
      match UnmarshalSort args with
      | inr e => (w, inr e)
      | inl sortBy => (w, inl (VPeers (node_peers w sortBy)))
      end
  | CmdDoctor =>
      with_empty (w, match doctorHandler a w with
                     | Ok r => inl (VDoctor r) | Err e => inr e | Panic => inr "panic" end)
  | CmdGetTree => with_empty (w, inl (VTree (getTreeHandler (nd_tree w))))
  | CmdGetPaths => with_empty (w, inl (VPaths (getPathsHandler (nd_paths w))))
  | CmdGetSessions => with_empty (w, inl (VSessions (getSessionsHandler (nd_sessions w))))
  | CmdAddPeer =>
      match UnmarshalPeer args with
      | inr e => (w, inr e)
      | inl (uri, sintf) =>
          let '(w, r) := addPeerHandler w uri sintf in
          (w, match r with None => inl VEmpty | Some e => inr e end)
      end
  | CmdRemovePeer =>
      match UnmarshalPeer args with
      | inr e => (w, inr e)
      | inl (uri, sintf) =>
          let '(w, r) := removePeerHandler w uri sintf in
          (w, match r with Ok _ => inl VEmpty | Err e => inr e | Panic => inr "panic" end)
      end
  | _ => (w, match he_ext env c args with inl x => inl (VExt x) | inr e => inr e end)
  end.
End Handlers.

(** ** Properties of the diagnostics *)

Section DoctorLaws.
Context {V : Type} `{AdminLib V}.

Definition severity (res : DoctorResponse) : Z := doctorSeverity (dr_Status res).

Definition worst (checks : list DoctorCheck) : Z :=
  foldr (λ c m, Z.max (doctorSeverity (dc_Status c)) m) 0 checks.

Lemma doctorSeverity_range st : 0 <= doctorSeverity st <= 2.
Proof. unfold doctorSeverity. repeat case_match; lia. Qed.

Lemma doctorExitCode_severity res :
  doctorExitCode res = if severity res =? 2 then 1 else if severity res =? 1 then 2 else 0.
Proof. unfold doctorExitCode, severity, doctorSeverity. by repeat case_match. Qed.

Lemma severity_add res n st sm : severity (dr_add res n st sm) = Z.max (severity res) (doctorSeverity st).
Proof.
  unfold severity, dr_add; simpl.
  destruct (doctorSeverity st >? doctorSeverity (dr_Status res)) eqn:E; lia.
Qed.

Lemma severity_recommend res r : severity (dr_recommend res r) = severity res.
Proof. done. Qed.

Lemma worst_app l1 l2 : worst (l1 ++ l2) = Z.max (worst l1) (worst l2).
Proof.
  induction l1 as [|c l1 IH]; simpl; [|rewrite IH; lia].
  assert (0 <= worst l2) by (induction l2; simpl; lia). lia.
Qed.

(** The status is the worst of the checks. *)
Definition verdict_ok (res : DoctorResponse) : Prop := severity res = worst (dr_Checks res).

Lemma verdict_ok_add res n st sm : verdict_ok res → verdict_ok (dr_add res n st sm).
Proof.
  unfold verdict_ok. intros Hv. rewrite severity_add, Hv. simpl. rewrite worst_app. simpl.
  pose proof (doctorSeverity_range st). lia.
Qed.

Lemma verdict_ok_recommend res r : verdict_ok res → verdict_ok (dr_recommend res r).
Proof. done. Qed.

Create HintDb doctor.
#[local] Hint Rewrite severity_recommend severity_add : doctor.
#[local] Hint Resolve verdict_ok_add verdict_ok_recommend : doctor.

(** The administration endpoint cannot be reached by other users or hosts. *)
Definition admin_protected (s : doctorSnapshot) : bool :=
  match url_Parse (ds_adminListen s) with
  | None => false
  | Some u =>
      let scheme := ToLower (u_scheme u) in
      (String.eqb scheme "unix" &&
         (has_prefix "@" (url_Path u) || (negb (ds_adminStatError s) && (ds_adminMode s =? mode_0600)))) ||
      (String.eqb scheme "tcp" && (loopback_IP (url_Hostname u) || String.eqb (ToLower (url_Hostname u)) "localhost"))
  end.

Definition identified (s : doctorSnapshot) : bool := negb (String.eqb (ds_address s) "").

(** Nothing is missing for traffic: the interface is enabled, a peer is
    connected and the routing table knows another node. *)
Definition carries_traffic (s : doctorSnapshot) : bool :=
  ds_tunKnown s && ds_tunEnabled s && existsb pe_Up (ds_peers s) && (1 <? ds_routingEntries s).

Definition sev (bad : bool) (n : Z) : Z := if bad then n else 0.

Lemma severity_identity s res :
  severity (doctor_identity s res) = Z.max (severity res) (sev (negb (identified s)) 2).
Proof.
  unfold doctor_identity, identified. case_match; by autorewrite with doctor.
Qed.

Lemma severity_admin s res :
  severity (evaluateDoctorAdmin s res) = Z.max (severity res) (sev (negb (admin_protected s)) 2).
Proof.
  unfold evaluateDoctorAdmin, admin_protected.
  destruct (url_Parse _) as [u|]; [|by autorewrite with doctor].
  destruct (String.eqb_spec (ToLower (u_scheme u)) "unix") as [->|]; simpl.
  - destruct (has_prefix _ _), (ds_adminStatError s), (ds_adminMode s =? mode_0600); simpl;
      by autorewrite with doctor.
  - destruct (String.eqb _ "tcp"); simpl; [|by autorewrite with doctor].
    destruct (loopback_IP _ || _); by autorewrite with doctor.
Qed.

Lemma severity_tun s res :
  severity (doctor_tun s res) = Z.max (severity res) (sev (negb (ds_tunKnown s && ds_tunEnabled s)) 1).
Proof. unfold doctor_tun. destruct (ds_tunKnown s), (ds_tunEnabled s); cbn [andb]; by autorewrite with doctor. Qed.

Lemma peer_loop_connected peers :
  fst (peer_loop peers) = len (filter (λ p, pe_Up p = true) peers).
Proof.
  unfold peer_loop.
  enough (∀ c b, fst (foldl peer_step (c, b) peers) = c + len (filter (λ p, pe_Up p = true) peers)) as E
    by by rewrite E.
  induction peers as [|p peers IH]; intros c b; simpl; [unfold len; simpl; lia|].
  rewrite filter_cons. destruct (pe_Up p); simpl; rewrite IH; unfold len; simpl; lia.
Qed.

Lemma existsb_filter peers :
  existsb pe_Up peers = negb (len (filter (λ p, pe_Up p = true) peers) =? 0).
Proof.
  induction peers as [|p peers IH]; [done|]. simpl. rewrite filter_cons.
  destruct (pe_Up p); simpl; [|done]. unfold len. simpl. lia.
Qed.

Lemma severity_peers s res :
  severity (doctor_peers s res) = Z.max (severity res) (sev (negb (existsb pe_Up (ds_peers s))) 1).
Proof.
  unfold doctor_peers. pose proof (peer_loop_connected (ds_peers s)) as Hc. rewrite existsb_filter, <- Hc.
  destruct (peer_loop (ds_peers s)) as [connected best]; simpl in *.
  destruct (len (ds_peers s) =? 0) eqn:E0.
  { destruct (ds_peers s); [|unfold len in E0; simpl in E0; lia]. simpl in Hc. rewrite Hc. by autorewrite with doctor. }
  destruct (connected =? 0); [by autorewrite with doctor|].
  case_match; by autorewrite with doctor.
Qed.

Lemma severity_routing s res :
  severity (doctor_routing s res) = Z.max (severity res) (sev (negb (1 <? ds_routingEntries s)) 1).
Proof.
  unfold doctor_routing. replace (1 <? ds_routingEntries s) with (negb (ds_routingEntries s <=? 1)) by lia.
  destruct (ds_routingEntries s <=? 1); by autorewrite with doctor.
Qed.

Lemma severity_multicast s res :
  sev (negb (existsb pe_Up (ds_peers s))) 1 <= severity res →
  severity (doctor_multicast s res) = severity res.
Proof.
  intros Hp. unfold doctor_multicast.
  destruct (ds_multicastKnown s); [|done]. destruct (ds_multicastCount s >? 0).
  { autorewrite with doctor. pose proof (doctorSeverity_range (dr_Status res)). unfold severity. cbn. lia. }
  destruct (len (ds_peers s) =? 0) eqn:E0; autorewrite with doctor.
  - destruct (ds_peers s); [|unfold len in E0; simpl in E0; lia]. cbn in *. lia.
  - pose proof (doctorSeverity_range (dr_Status res)). unfold severity. cbn. lia.
Qed.

Lemma evaluateDoctor_severity s :
  severity (evaluateDoctor s) =
    Z.max (sev (negb (identified s && admin_protected s)) 2) (sev (negb (carries_traffic s)) 1).
Proof.
  unfold evaluateDoctor. rewrite severity_multicast; rewrite severity_routing, severity_peers;
    rewrite severity_tun, severity_admin, severity_identity, severity_add; [|lia].
  unfold carries_traffic, severity, sev. cbn.
  destruct (identified s), (admin_protected s), (ds_tunKnown s), (ds_tunEnabled s), (existsb pe_Up _), (1 <? _); done.
Qed.

Lemma verdict_ok_identity s res : verdict_ok res → verdict_ok (doctor_identity s res).
Proof. unfold doctor_identity. intros. repeat case_match; auto with doctor. Qed.

Lemma verdict_ok_admin s res : verdict_ok res → verdict_ok (evaluateDoctorAdmin s res).
Proof. unfold evaluateDoctorAdmin. intros. repeat case_match; auto with doctor. Qed.

Lemma verdict_ok_tun s res : verdict_ok res → verdict_ok (doctor_tun s res).
Proof. unfold doctor_tun. intros. repeat case_match; auto with doctor. Qed.

Lemma verdict_ok_peers s res : verdict_ok res → verdict_ok (doctor_peers s res).
Proof. unfold doctor_peers. intros. repeat case_match; auto with doctor. Qed.

Lemma verdict_ok_routing s res : verdict_ok res → verdict_ok (doctor_routing s res).
Proof. unfold doctor_routing. intros. repeat case_match; auto with doctor. Qed.

Lemma verdict_ok_multicast s res : verdict_ok res → verdict_ok (doctor_multicast s res).
Proof. unfold doctor_multicast. intros. repeat case_match; auto with doctor. Qed.

Lemma evaluateDoctor_verdict s : verdict_ok (evaluateDoctor s).
Proof.
  apply verdict_ok_multicast, verdict_ok_routing, verdict_ok_peers, verdict_ok_tun, verdict_ok_admin, verdict_ok_identity.
  by apply verdict_ok_add.
Qed.

(** doctor_verdict. The diagnosis reports the worst of its checks, and the
    exit status of the command is 1 exactly when the node has no address or its
    administration endpoint is open to other users or hosts, and 0 exactly when
    moreover the interface is enabled, a peer is connected and the routing table
    knows another node. *)
Theorem doctor_verdict s :
  let res := evaluateDoctor s in
  doctorSeverity (dr_Status res) = worst (dr_Checks res) ∧
  (doctorExitCode res = 1 ↔ identified s && admin_protected s = false) ∧
  (doctorExitCode res = 0 ↔ identified s && admin_protected s && carries_traffic s = true) ∧
  (doctorExitCode res = 2 ↔ identified s && admin_protected s = true ∧ carries_traffic s = false).
Proof.
  intros res. split; [apply evaluateDoctor_verdict|].
  rewrite doctorExitCode_severity. unfold res. rewrite evaluateDoctor_severity.
  destruct (identified s && admin_protected s), (carries_traffic s); cbn; split_and!; naive_solver lia.
Qed.
End DoctorLaws.

(** ** Properties of the socket *)

Lemma AddHandler_spec a name desc args c a' err :
  AddHandler a name desc args c = (a', err) →
  (∀ n h, a_handlers a !! n = Some h → a_handlers a' !! n = Some h) ∧
  (err = None → a_handlers a' !! ToLower name = Some (Handler desc args c)).
Proof.
  unfold AddHandler. case_match eqn:E; intros; simplify_eq; split; try done; simpl.
  - intros n h Hn. rewrite lookup_insert_ne; [done|]. congruence.
  - intros _. apply lookup_insert_eq.
Qed.

Section SocketLaws.
Context {V W : Type} `{AdminLib V} (exec : AdminSocket → command → string → W → W * (V + string)).

Definition decoded (buf : string) : AdminSocketRequest * bool := UnmarshalRequest buf (ASRequest "" "{}" false).

(** The responses a request may get: success only with the encoded result of
    the command registered under its name, whatever the case of its letters. *)
Definition answers (a : AdminSocket) (buf : string) (w w' : W) (out : AdminSocketResponse) : Prop :=
  (resp_Status out = "success" ∧ resp_Error out = "" ∧
     decoded buf = (resp_Request out, true) ∧
     ∃ h v, a_handlers a !! ToLower (req_Name (resp_Request out)) = Some h ∧
       exec a (h_handler h) (req_Arguments (resp_Request out)) w = (w', inl v) ∧
       Marshal v = Some (resp_Response out)) ∨
  (resp_Status out = "error" ∧
     (w' = w ∨ ∃ h, a_handlers a !! ToLower (req_Name (fst (decoded buf))) = Some h ∧
        w' = fst (exec a (h_handler h) (req_Arguments (fst (decoded buf))) w))).

Lemma serve_answers a buf w w' err resp req :
  serve exec a buf w = (w', err, resp, req) →
  req = fst (decoded buf) ∧ answers a buf w w' (finish err resp).
Proof.
  unfold serve, answers, decoded. destruct (UnmarshalRequest _ _) as [r [|]]; simpl.
  - destruct (String.eqb (req_Name r) ""); [intros; simplify_eq; split; [done|right; by auto]|].
    destruct (a_handlers a !! ToLower (req_Name r)) as [h|] eqn:Eh; [|intros; simplify_eq; split; [done|right; by auto]].
    destruct (exec a (h_handler h) (req_Arguments r) w) as [w1 [v|e]] eqn:Ex.
    + destruct (Marshal v) eqn:Em; intros; simplify_eq; (split; [done|]); simpl.
      * left. split_and!; try done. eauto 10.
      * right. split; [done|]. right. exists h. by rewrite Ex.
    + intros; simplify_eq. split; [done|]. right. split; [done|]. right. exists h. by rewrite Ex.
  - intros; simplify_eq. split; [done|]. right. by auto.
Qed.

(** A run of the loop: the requests read, each with the state before and after
    it and its response. *)
Inductive session (a : AdminSocket) : list string → W → W → list AdminSocketResponse → Prop :=
| session_nil w : session a [] w w []
| session_cons buf bufs w1 w2 w3 out outs :
    answers a buf w1 w2 out → session a bufs w2 w3 outs → session a (buf :: bufs) w1 w3 (out :: outs).

(** admin_session. A connection gets exactly one response per request, in
    order, for as long as the requests ask to keep it open; a response is a
    success only if it carries the encoded result of the command registered
    under the request's name, and a request that names no command leaves the
    node unchanged. A connection whose requests end gets a last error. *)
Theorem admin_session a inputs w w' outs rest :
  handleRequest exec a inputs w = (w', outs, rest) →
  ∃ served outs1 outs2, inputs = served ++ rest ∧ outs = outs1 ++ outs2 ∧
    session a served w w' outs1 ∧
    (∀ i buf, served !! i = Some buf → (S i < length served)%nat → req_KeepAlive (fst (decoded buf)) = true) ∧
    (outs2 = [] ∧ (∃ buf, last served = Some buf ∧ req_KeepAlive (fst (decoded buf)) = false) ∨
     rest = [] ∧ outs2 = [no_request_response]).
Proof.
  revert w outs. induction inputs as [|buf inputs IH]; intros w outs; simpl.
  { intros; simplify_eq. exists [], [], [no_request_response]. split_and!; try done; [constructor|by right]. }
  destruct (serve exec a buf w) as [[[w1 err] resp] req] eqn:Es.
  apply serve_answers in Es as [-> Hans].
  destruct (req_KeepAlive (fst (decoded buf))) eqn:Ek.
  - destruct (handleRequest exec a inputs w1) as [[w2 outs'] rest'] eqn:Eh. intros; simplify_eq.
    destruct (IH _ _ Eh) as (served & o1 & o2 & -> & -> & Hsess & Hkeep & Hend).
    exists (buf :: served), (finish err resp :: o1), o2. split_and!; try done.
    + by econstructor.
    + intros [|i] b Hb Hi; simpl in *; [by simplify_eq|]. apply (Hkeep i b Hb). lia.
    + destruct Hend as [(-> & b & Hl & Hb)|Hend]; [left|by right]. split; [done|].
      exists b. split; [|done]. destruct served; [done|]. done.
  - intros; simplify_eq. exists [buf], [finish err resp], []. split_and!; try done.
    + econstructor; [done|constructor].
    + intros [|i] b Hb Hi; simpl in *; lia.
    + left. eauto.
Qed.
End SocketLaws.

Section StartLaws.
Context {V : Type} `{AdminLib V}.

(** C36: admin_socket_private. When the administration endpoint is a Unix
    path, [New] serves exactly when it reports success, and then, unless the
    path names an abstract socket, it has bound the socket and given it mode
    0600 just before. In every run, also one that exits or fails, a file is
    removed only at that path, if it exists and the dial to it failed in another
    way than by a timeout; when the dial succeeds or times out, nothing is
    removed or bound and the process exits; and when the mode cannot be set the
    listener is closed and nothing is served. *)
Theorem admin_socket_private os opts ev r u :
  New os opts = (ev, r) → r ≠ Disabled →
  url_Parse (a_listenaddr (foldl applyOption (ASocket ∅ "") opts)) = Some u →
  ToLower (u_scheme u) = "unix" →
  let path := url_Path u in
  (Serve ∈ ev ↔ ∃ a err, r = Started a err) ∧
  (Serve ∈ ev → has_prefix "@" path = false → ∃ ev1, ev = ev1 ++ [Listen "unix" path; Chmod path mode_0600; Serve]) ∧
  (∀ p, Remove p ∈ ev → p = path ∧ os_exists os p = true ∧ os_dial_ok os p = false ∧ os_dial_timeout os p = false) ∧
  (os_exists os path = true → os_dial_ok os path = true ∨ os_dial_timeout os path = true → ev = [Dial path] ∧ r = Exit1) ∧
  (r = SecureFailed → ∃ ev1, ev = ev1 ++ [Listen "unix" path; CloseListener]).
Proof.
  intros HN Hd Hu Hs path. revert HN. unfold New. case_match; [by intros [= <- <-]|].
  unfold start_listener. rewrite Hu, Hs. simpl. fold path. clear Hd Hu.
  destruct (listen_unix os path) as [evl [r'|]] eqn:El; [|destruct (SetAdmin _) as [a' err']]; intros [= <- <-];
    revert El; unfold listen_unix;
    (destruct (os_exists os path) eqn:E0;
     [destruct (os_dial_ok os path) eqn:E1; simpl; [|destruct (os_dial_timeout os path) eqn:E2; [|destruct (os_remove_ok os path)]]|]);
    try (destruct (os_listen_ok os "unix" path); [destruct (has_prefix "@" path); [|destruct (os_chmod_ok os path)]|]);
    simpl; intros [=]; subst; repeat setoid_rewrite elem_of_cons; repeat setoid_rewrite elem_of_nil;
    split_and!; try naive_solver; intros; first [by exists [] | by exists [Dial path; Remove path]].
Qed.
End StartLaws.

(** ** The commands of a node *)

Section CommandLaws.
Context {X : Type} `{AdminLib (value X), IPText, NetLib} (env : handler_env X).

(** The handlers that dereference an address only do so for keys that have one. *)
Lemma exec_no_panic w :
  length (nd_public w) = 32%nat →
  is_Some (getSelfHandler (nd_buildName w) (nd_buildVersion w) (nd_public w) (nd_self w)) ∧
  ∀ a, doctorHandler env a w ≠ Panic.
Proof.
  intros Hl.
  assert (Hself : is_Some (getSelfHandler (nd_buildName w) (nd_buildVersion w) (nd_public w) (nd_self w))).
  { unfold getSelfHandler, Core_Address, Core_Subnet, SubnetForKey, AddrForKey. rewrite Hl. cbn. eauto. }
  split; [done|]. intros a. destruct Hself as [self Hself]. unfold doctorHandler. rewrite Hself.
  destruct (doctor_stat env (a_listenaddr a)) as [mode statErr].
  destruct (callDoctorDependency env a "gettun" _) as [[t|e]|]; [|done|];
    destruct (callDoctorDependency env a "getmulticastinterfaces" _) as [[n|e]|]; done.
Qed.

Lemma log_lookup_keys infos key path now :
  map_Forall (λ (k : bytes) _, length k = 32%nat) infos →
  map_Forall (λ (k : bytes) _, length k = 32%nat) (log_lookup infos key path now).
Proof. intros Hk. apply map_Forall_insert_2; [|done]. by rewrite length_copy, length_replicate. Qed.

(** lookups_returns_expired. The record of lookups drops the entries older
    than 24 hours from its table, but the response to the request that drops
    them still lists every entry. *)
Theorem lookups_returns_expired (infos : lookup_table) now (k : bytes) path t :
  map_Forall (λ (k : bytes) _, length k = 32%nat) infos →
  infos !! k = Some (path, t) →
  now - t > 24 * Hour →
  ∃ l e, snd (lookups_handler infos now) = Some l ∧ e ∈ l ∧ lk_Key e = EncodeToString k ∧
    length l = size infos ∧ fst (lookups_handler infos now) !! k = None.
Proof.
  intros Hk Hi Ht. unfold lookups_handler; simpl.
  destruct (mapM _ (map_to_list infos)) as [l|] eqn:E.
  - pose proof (mapM_Some_1 _ _ _ E) as HF.
    assert (Hin : (k, (path, t)) ∈ map_to_list infos) by by apply elem_of_map_to_list.
    apply list_elem_of_lookup in Hin as [i Hin].
    destruct (Forall2_lookup_l _ _ _ _ _ HF Hin) as (e & He & Hlk).
    exists l, e. split_and!; [done|by eapply list_elem_of_lookup_2| | |].
    + destruct (AddrForKey k); [|done]. by simplify_option_eq.
    + apply Forall2_length in HF as <-. apply length_map_to_list.
    + apply map_lookup_filter_None. right. intros x Hx. assert (x = (path, t)) as -> by (apply (inj Some); by rewrite <- Hi). naive_solver.
  - exfalso. apply mapM_None in E. apply Exists_exists in E as ([k' [p' t']] & Hin & Hnone).
    apply elem_of_map_to_list in Hin. apply Hk in Hin. unfold AddrForKey in Hnone. by rewrite Hin in Hnone.
Qed.
End CommandLaws.

(** The commands a running node knows, and the closures behind them. *)
Definition known_commands : list (string * command) :=
  [("list", CmdList); ("getself", CmdGetSelf); ("getpeers", CmdGetPeers); ("doctor", CmdDoctor);
   ("gettree", CmdGetTree); ("getpaths", CmdGetPaths); ("getsessions", CmdGetSessions); ("addpeer", CmdAddPeer);
   ("removepeer", CmdRemovePeer); ("getnodeinfo", CmdGetNodeInfo); ("debug_remotegetself", CmdRemoteGetSelf);
   ("debug_remotegetpeers", CmdRemoteGetPeers); ("debug_remotegettree", CmdRemoteGetTree); ("gettun", CmdGetTun);
   ("getmulticastinterfaces", CmdGetMulticastInterfaces)].

Lemma start_listener_fails `{AdminLib V} os addr ev a err :
  start_listener os addr ≠ (ev, Some (Started a err)).
Proof. unfold start_listener, listen_unix, listen_tcp. by repeat case_match; intros ?; simplify_eq. Qed.

Lemma started_commands `{AdminLib V} os addr ev a err :
  New os [ListenAddress addr] = (ev, Started a err) →
  let a := Multicast_SetupAdminHandlers (TunAdapter_SetupAdminHandlers (SetupAdminHandlers a)) in
  err = None ∧ a_listenaddr a = addr ∧
  Forall (λ '(n, c), h_handler <$> a_handlers a !! n = Some c) known_commands ∧
  size (a_handlers a) = length known_commands.
Proof.
  unfold New. cbn [foldl applyOption a_listenaddr]. case_match; [done|].
  destruct (start_listener os addr) as [ev' [r|]] eqn:E.
  { intros [= -> ->]. by apply start_listener_fails in E. }
  intros Heq. simpl in Heq. injection Heq as <- <- <-. vm_compute. by repeat constructor.
Qed.

Module AdminWitness.
#[local] Instance ip_text : IPText := { IP_String := EncodeToString; IPNet_String := EncodeToString }.
#[local] Instance net_lib : NetLib := { ParseDuration := λ _, None; is_IP := λ _, false; SplitHost := λ _, None }.

Definition sock_url : url := Url "unix" "" (λ _, []) "unix:///run/uqda.sock".

(** A request is its name, kept open when it starts with a plus sign. *)
#[local] Instance lib : AdminLib (value ()) := {
  Marshal := λ v, match v with VEmpty => Some "{}" | VTree _ => Some "tree" | _ => None end;
  UnmarshalRequest := λ s r,
    match s with
    | EmptyString => (r, false)
    | String "+" s => (ASRequest s "{}" true, true)
    | _ => (ASRequest s "{}" false, true)
    end;
  UnmarshalEmpty := λ _, inl ();
  UnmarshalSort := λ s, inl s;
  UnmarshalPeer := λ s, inl (s, "");
  url_Parse := λ s, if String.eqb s "unix:///run/uqda.sock" then Some sock_url else None;
  url_Path := λ _, "/run/uqda.sock";
  url_Hostname := λ _, "";
  loopback_IP := λ _, false;
}.

Definition env : handler_env () :=
  HandlerEnv () 0 (λ _, ConnStats 0 0 0 0 0) (λ _, ("", 0)) (λ _, Some mode_0600) (λ _, "error") (λ _ _, inl ())
    (λ _, inl (TUNResponse true "tun0" 1280)) (λ _, inl 1).
Definition w0 : node := Node "" "" (replicate 32 1) (SelfInfo_ [] 2) links_init [] [] [] [] ∅.
Definition os : os_env := OsEnv (λ _, true) (λ _, false) (λ _, false) (λ _, true) (λ _ _, true) (λ _, true).
Definition opts : list SetupOption := [LogLookups; ListenAddress "unix:///run/uqda.sock"].
Definition sock : AdminSocket := SetupAdminHandlers (ASocket ∅ "").

(** Witness: a request that keeps the connection, one that closes it,
    and one that is never read. *)
Lemma admin_session_witness :
  (resp_Status <$> snd (fst (handleRequest (exec env) sock ["+GETTREE"; "nosuch"; "gettree"] w0))) = ["success"; "error"] ∧
  ∃ served outs1 outs2, ["+GETTREE"; "nosuch"; "gettree"] = served ++ ["gettree"] ∧
    session (exec env) sock served w0 w0 outs1 ∧
    snd (fst (handleRequest (exec env) sock ["+GETTREE"; "nosuch"; "gettree"] w0)) = outs1 ++ outs2.
Proof.
  split; [by vm_compute|].
  destruct (admin_session (exec env) sock ["+GETTREE"; "nosuch"; "gettree"] w0 w0
    (snd (fst (handleRequest (exec env) sock ["+GETTREE"; "nosuch"; "gettree"] w0))) ["gettree"])
    as (served & o1 & o2 & H1 & H2 & H3 & _); [by vm_compute|].
  exists served, o1, o2. by split_and!.
Defined.

(** Witness: a stale socket file is removed, the new one is private. *)
Lemma admin_socket_private_witness :
  ∃ ev a, New os opts = (ev, Started a None) ∧
    ∃ ev1, ev = ev1 ++ [Listen "unix" "/run/uqda.sock"; Chmod "/run/uqda.sock" mode_0600; Serve].
Proof.
  destruct (New os opts) as [ev [| | |a [e|]]] eqn:E; try (by vm_compute in E).
  exists ev, a. split; [done|].
  destruct (admin_socket_private os opts ev (Started a None) sock_url E ltac:(discriminate) eq_refl eq_refl) as (Hs & Hp & _).
  apply Hp; [|reflexivity]. apply Hs. by exists a, None.
Defined.

(** Witness. *)
Lemma lookups_returns_expired_witness :
  let infos : lookup_table := {[ (replicate 32 7 : bytes) := ([1; 2], 0) ]} in
  ∃ l e, snd (lookups_handler infos (25 * Hour)) = Some l ∧ e ∈ l ∧ lk_Key e = EncodeToString (replicate 32 7) ∧
    length l = size infos ∧ fst (lookups_handler infos (25 * Hour)) !! (replicate 32 7 : bytes) = None.
Proof.
  intros infos. apply (lookups_returns_expired infos (25 * Hour) (replicate 32 7) [1; 2] 0).
  - apply map_Forall_singleton. by vm_compute.
  - by apply lookup_singleton_eq.
  - by vm_compute.
Defined.
End AdminWitness.
