(* ===== verification/Multicast.v ===== *)
(** * Multicast: discovery of peers on the local network
    (multicast.go, advertisement.go, options.go and admin.go of src/multicast)

    The beacon and its codec, the selection of interfaces, one round of
    announcements with the listeners it starts and stops, and the handling of a
    received beacon up to the call to the peer. Sockets, regular expressions and
    the list of interfaces of the system are parameters. *)

From S2P Require Import Prelude Binary Wire Address Crypto Messages Handshake Links GoLib.
From Stdlib Require Import Ascii.
From stdpp Require Import pretty.

Open Scope string_scope.
Open Scope list_scope.
Open Scope Z_scope.

(** ** Beacons *)

Record multicastAdvertisement := Advertisement {
  adv_MajorVersion : Z;
  adv_MinorVersion : Z;
  adv_PublicKey : bytes;
  adv_Port : Z;
  adv_Hash : bytes;
}.

Definition MarshalBinary (m : multicastAdvertisement) : bytes :=
  be_bytes 2 (adv_MajorVersion m) ++ be_bytes 2 (adv_MinorVersion m) ++ adv_PublicKey m ++
  be_bytes 2 (adv_Port m) ++ be_bytes 2 (u16 (len (adv_Hash m))) ++ adv_Hash m.

Definition headerLen : Z := 32 + 8.

(** [b[lo:hi]], a panic outside the slice. *)
Definition slice (b : bytes) (lo hi : Z) : res () bytes :=
  if (0 <=? lo) && (lo <=? hi) && (hi <=? len b)
  then Ok (take (Z.to_nat (hi - lo)) (drop (Z.to_nat lo) b)) else Panic.

Definition UnmarshalBinary (b : bytes) : res () multicastAdvertisement :=
  if len b <? headerLen then Err ()
  else
    major ← slice b 0 2;
    minor ← slice b 2 4;
    key ← slice b 4 (4 + 32);
    port ← slice b (4 + 32) (6 + 32);
    dl ← slice b (6 + 32) (8 + 32);
    if len b <? headerLen + be_val dl then Err ()
    else
      hash ← slice b headerLen (headerLen + be_val dl);
      Ok (Advertisement (be_val major) (be_val minor) key (be_val port) hash).

(** ** Interfaces *)

(** Flags of [net.Interface]. *)
Definition FlagUp : Z := 1.
Definition FlagPointToPoint : Z := 8.
Definition FlagMulticast : Z := 16.
Definition FlagRunning : Z := 32.

Record net_Interface := NetInterface {
  if_Name : string;
  if_Flags : Z;
}.

Record MulticastInterface := MulticastInterface_ {
  mi_Regex : string;
  mi_Beacon : bool;
  mi_Listen : bool;
  mi_Port : Z;
  mi_Priority : Z;
  mi_Password : string;
}.

#[export] Instance MulticastInterface_eq_dec : EqDecision MulticastInterface.
Proof. solve_decision. Defined.

Record interfaceInfo := InterfaceInfo {
  ii_iface : net_Interface;
  ii_addrs : list bytes;
  ii_beacon : bool;
  ii_listen : bool;
  ii_port : Z;
  ii_priority : Z;
  ii_password : string;
  ii_hash : bytes;
}.

(** [ip.To4() != nil] and [ip.IsLinkLocalUnicast()] of a 16-byte address. *)
Definition is_v4 (ip : bytes) : bool :=
  bool_decide (take 12 ip = replicate 10 0 ++ [0xff; 0xff]).
Definition IsLinkLocalUnicast (ip : bytes) : bool :=
  if is_v4 ip then (nth 12 ip 0 =? 169) && (nth 13 ip 0 =? 254)
  else (nth 0 ip 0 =? 0xfe) && (Z.land (nth 1 ip 0) 0xc0 =? 0x80).
Definition IsLinkLocalMulticast (ip : bytes) : bool :=
  if is_v4 ip then (nth 12 ip 0 =? 224) && (nth 13 ip 0 =? 0) && (nth 14 ip 0 =? 0)
  else (nth 0 ip 0 =? 0xff) && (Z.land (nth 1 ip 0) 0x0f =? 0x02).

(** What the component uses of package regexp and of the text of addresses. *)
Class MulticastLib := {
  MatchString : string → string → bool;
  UDPAddr_String : bytes → string → Z → string;      (* address, zone, port *)
  JoinHostPort : bytes → Z → string;
}.

Section Select.
Context `{MulticastLib, Blake2b}.

Definition iface_usable (i : net_Interface) : bool :=
  if Z.land (if_Flags i) FlagUp =? 0 then false
  else if Z.land (if_Flags i) FlagRunning =? 0 then false
  else if Z.land (if_Flags i) FlagMulticast =? 0 then false
  else if negb (Z.land (if_Flags i) FlagPointToPoint =? 0) then false
  else true.

(** The loop over the configurations for one interface, in the order in which
    the map is visited. *)
Fixpoint match_config (pk : bytes) (i : net_Interface) (cfgs : list MulticastInterface) : option interfaceInfo :=
  match cfgs with
  | [] => None
  | c :: cfgs =>
      if negb (mi_Beacon c) && negb (mi_Listen c) then match_config pk i cfgs
      else if negb (MatchString (mi_Regex c) (if_Name i)) then match_config pk i cfgs
      else
        match b2_sum512 (string_bytes (mi_Password c)) pk with
        | None => match_config pk i cfgs
        | Some hash =>
            if negb (len pk =? 32) then match_config pk i cfgs
            else Some (InterfaceInfo i [] (mi_Beacon c) (mi_Listen c) (mi_Port c) (mi_Priority c) (mi_Password c) hash)
        end
  end.

Definition allow_step (pk : bytes) (order : string → list MulticastInterface) (m : gmap string interfaceInfo)
    (i : net_Interface) : gmap string interfaceInfo :=
  if iface_usable i then
    match match_config pk i (order (if_Name i)) with
    | Some info => <[if_Name i := info]> m
    | None => m
    end
  else m.

(** [_getAllowedInterfaces]; [order] gives, for each interface, the order in
    which the set of configurations is visited, which Go leaves unspecified. *)
Definition getAllowedInterfaces (pk : bytes) (order : string → list MulticastInterface)
    (allifaces : option (list net_Interface)) : gmap string interfaceInfo :=
  match allifaces with
  | None => ∅
  | Some l => foldl (allow_step pk order) ∅ l
  end.

Definition link_local (ip : bytes) : bool := negb (is_v4 ip) && IsLinkLocalUnicast ip.

(** [_updateInterfaces]: [addrs] are the addresses of an interface ([None] for
    one whose text does not parse), or none when the system reports an error. *)
Definition updateInterfaces (addrs : string → option (list (option bytes))) (interfaces : gmap string interfaceInfo) :
    gmap string interfaceInfo :=
  map_imap (λ name info,
    l ← addrs name;
    Some (InterfaceInfo (ii_iface info)
            (ii_addrs info ++ omap (λ a, ip ← a; if link_local ip then Some ip else None) l)
            (ii_beacon info) (ii_listen info) (ii_port info) (ii_priority info) (ii_password info) (ii_hash info)))
    interfaces.
End Select.

(** ** Announcements *)

Record listenerInfo := ListenerInfo {
  li_listener : nat;
  li_ip : bytes;               (* the address the listener is bound to *)
  li_tcpport : Z;
  li_time : Z;
  li_interval : Z;
  li_port : Z;
}.

Inductive mc_event :=
| Cancel (listener : nat)
| JoinGroup (iface : string)
| ListenLocal (u : url) (iface : string)
| SendBeacon (iface : string) (msg : bytes).

Section Announce.
Context `{MulticastLib}.

(** The URL under which a link-local listener is started. *)
Definition listen_url (info : interfaceInfo) (ip : bytes) : url :=
  let host := JoinHostPort ip (ii_port info) in
  Url "tls" host
    (λ k, if String.eqb k "priority" then [pretty (Z.to_N (ii_priority info))]
          else if String.eqb k "password" then [ii_password info] else [])
    ("tls://" +:+ host).

(** A listener is stopped when its interface is gone or lost its address. *)
Definition stale (interfaces : gmap string interfaceInfo) (name : string) (l : listenerInfo) : bool :=
  match interfaces !! name with
  | None => true
  | Some info => negb (existsb (λ ip, bool_decide (ip = li_ip l)) (ii_addrs info))
  end.

Definition stop_stale (interfaces : gmap string interfaceInfo) (listeners : gmap string listenerInfo) :
    gmap string listenerInfo * list mc_event :=
  (filter (λ '(name, l), stale interfaces name l = false) listeners,
   omap (λ '(name, l), if stale interfaces name l then Some (Cancel (li_listener l)) else None)
     (map_to_list listeners)).

(** The addresses of one interface: [listen ip] is what [ListenLocal] returns
    for that address, the listener and the port it got. *)
Fixpoint announce_addrs (pk : bytes) (now : Z) (listen : bytes → option (nat * Z)) (info : interfaceInfo)
    (addrs : list bytes) (listeners : gmap string listenerInfo) : gmap string listenerInfo * list mc_event :=
  let name := if_Name (ii_iface info) in
  match addrs with
  | [] => (listeners, [])
  | ip :: addrs =>
      if negb (link_local ip) then announce_addrs pk now listen info addrs listeners
      else
        let join := if ii_listen info then [JoinGroup name] else [] in
        if negb (ii_beacon info) then (listeners, join)
        else
          let '(listeners, linfo, ev) :=
            match listeners !! name with
            | Some l => (listeners, Some l, [])
            | None =>
                let u := listen_url info ip in
                match listen ip with
                | Some (id, port) =>
                    let l := ListenerInfo id ip port now 0 (ii_port info) in
                    (<[name := l]> listeners, Some l, [ListenLocal u name])
                | None => (listeners, None, [ListenLocal u name])
                end
            end in
          match linfo with
          | None =>
              let '(ls, ev') := announce_addrs pk now listen info addrs listeners in (ls, join ++ ev ++ ev')
          | Some l =>
              if now - li_time l <? li_interval l then
                let '(ls, ev') := announce_addrs pk now listen info addrs listeners in (ls, join ++ ev ++ ev')
              else
                let msg := MarshalBinary
                  (Advertisement ProtocolVersionMajor ProtocolVersionMinor pk (u16 (li_tcpport l)) (ii_hash info)) in
                let interval := if li_interval l <? 15 * Second then li_interval l + Second else li_interval l in
                (<[name := ListenerInfo (li_listener l) (li_ip l) (li_tcpport l) now interval (li_port l)]> listeners,
                 join ++ ev ++ [SendBeacon name msg])
          end
  end.

Definition announce_step (pk : bytes) (now : Z) (listen : string → bytes → option (nat * Z))
    (st : gmap string listenerInfo * list mc_event) (e : string * interfaceInfo) :
    gmap string listenerInfo * list mc_event :=
  let info := snd e in
  let '(ls, ev) := announce_addrs pk now (listen (if_Name (ii_iface info))) info (ii_addrs info) (fst st) in
  (ls, snd st ++ ev).

(** [_announce] after the interfaces were updated. *)
Definition announce (pk : bytes) (now : Z) (listen : string → bytes → option (nat * Z))
    (interfaces : gmap string interfaceInfo) (listeners : gmap string listenerInfo) :
    gmap string listenerInfo * list mc_event :=
  let '(listeners, ev) := stop_stale interfaces listeners in
  foldl (announce_step pk now listen) (listeners, ev) (map_to_list interfaces).
End Announce.

(** ** Received beacons *)

Section Receive.
Context `{MulticastLib, Blake2b}.

Definition call_url (adv : multicastAdvertisement) (info : interfaceInfo) (host : string) : url :=
  Url "tls" host
    (λ k, if String.eqb k "key" then [EncodeToString (adv_PublicKey adv)]
          else if String.eqb k "priority" then [pretty (Z.to_N (ii_priority info))]
          else if String.eqb k "password" then [ii_password info] else [])
    ("tls://" +:+ host).

(** The checks of [listen] on a datagram before it asks for the interfaces: [dst] is
    the destination of the datagram when the system reports it. *)
Definition listen_check (pk group : bytes) (dst : option bytes) (bs : bytes) : option multicastAdvertisement :=
  if match dst with
     | Some d => negb (IsLinkLocalMulticast d) || negb (bool_decide (d = group))
     | None => false
     end
  then None
  else
    match UnmarshalBinary bs with
    | Ok adv =>
        if negb (adv_MajorVersion adv =? ProtocolVersionMajor) then None
        else if negb (adv_MinorVersion adv =? ProtocolVersionMinor) then None
        else if bool_decide (adv_PublicKey adv = pk) then None
        else Some adv
    | _ => None
    end.

(** ... and after it: [ip] and [zone] are the source of the datagram. The result is
    the URL and the interface of [CallPeer]. *)
Definition listen_call (interfaces : gmap string interfaceInfo) (ip : bytes) (zone : string)
    (adv : multicastAdvertisement) : option (url * string) :=
  match interfaces !! zone with
  | Some info =>
      if ii_listen info then
        match b2_sum512 (string_bytes (ii_password info)) (adv_PublicKey adv) with
        | None => None
        | Some hash =>
            if negb (len (adv_PublicKey adv) =? 32) then None
            else if negb (bool_decide (hash = adv_Hash adv)) then None
            else Some (call_url adv info (UDPAddr_String ip zone (adv_Port adv)), zone)
        end
      else None
  | None => None
  end.

(** One iteration of [listen] when the interfaces do not change meanwhile. *)
Definition listen_step (pk group : bytes) (interfaces : gmap string interfaceInfo) (dst : option bytes)
    (ip : bytes) (zone : string) (bs : bytes) : option (url * string) :=
  adv ← listen_check pk group dst bs; listen_call interfaces ip zone adv.
End Receive.

(** ** The module: options, start and stop, listing *)

Inductive mc_option := McInterface (i : MulticastInterface) | GroupAddress (a : string).

(** [mu_sock] is whether the socket is open. Entries of the configuration are
    distinct map keys even when they are equal, because the keys hold pointers. *)
Record multicast := Multicast_ {
  mu_running : bool;
  mu_sock : option bool;
  mu_listeners : gmap string listenerInfo;
  mu_interfaces : gmap string interfaceInfo;
  mu_groupAddr : string;
  mu_config : list MulticastInterface;
}.

Inductive mc_error := AlreadyStarted | ResolveFailed | ListenFailed.

Definition mc_applyOption (m : multicast) (opt : mc_option) : multicast :=
  match opt with
  | McInterface v =>
      Multicast_ (mu_running m) (mu_sock m) (mu_listeners m) (mu_interfaces m) (mu_groupAddr m) (v :: mu_config m)
  | GroupAddress v =>
      Multicast_ (mu_running m) (mu_sock m) (mu_listeners m) (mu_interfaces m) v (mu_config m)
  end.

Definition set_running (m : multicast) (running : bool) (sock : option bool) : multicast :=
  Multicast_ running sock (mu_listeners m) (mu_interfaces m) (mu_groupAddr m) (mu_config m).

Definition any_enabled (cfgs : list MulticastInterface) : bool := existsb (λ i, mi_Beacon i || mi_Listen i) cfgs.

(** [_start]; [resolve] gives the port of the group address and [bind] whether
    the socket can be opened on it. The last component is whether the listening
    goroutine and the first announcement were started. *)
Definition multicast_start (resolve : string → option Z) (bind : Z → bool) (m : multicast) :
    multicast * option mc_error * bool :=
  if mu_running m then (m, Some AlreadyStarted, false)
  else if negb (any_enabled (mu_config m)) then (m, None, false)
  else
    match resolve (mu_groupAddr m) with
    | None => (m, Some ResolveFailed, false)
    | Some port =>
        if negb (bind port) then (m, Some ListenFailed, false)
        else (set_running m true (Some true), None, true)
    end.

Definition multicast_New (resolve : string → option Z) (bind : Z → bool) (opts : list mc_option) :
    multicast * option mc_error * bool :=
  multicast_start resolve bind
    (foldl mc_applyOption (Multicast_ false None ∅ ∅ "[ff02::114]:9001" []) opts).

(** [_stop]. *)
Definition multicast_stop (m : multicast) : multicast :=
  if mu_running m then set_running m false (match mu_sock m with Some _ => Some false | None => None end) else m.

(** [Interfaces]. *)
Definition multicast_Interfaces (m : multicast) : gmap string net_Interface :=
  foldl (λ r '(_, info), <[if_Name (ii_iface info) := ii_iface info]> r) ∅ (map_to_list (mu_interfaces m)).

Record MulticastInterfaceState := MulticastInterfaceState_ {
  mis_Name : string;
  mis_Address : string;
  mis_Beacon : bool;
  mis_Listen : bool;
  mis_Password : bool;
}.

(** [addr] is the text of a listener's address. *)
Definition interface_state (addr : nat → string) (m : multicast) (name : string) (intf : interfaceInfo) :
    MulticastInterfaceState :=
  MulticastInterfaceState_ (if_Name (ii_iface intf))
    (match mu_listeners m !! name with Some li => addr (li_listener li) | None => "-" end)
    (ii_beacon intf) (ii_listen intf) (negb (String.eqb (ii_password intf) "")).

Definition getMulticastInterfacesHandler (addr : nat → string) (m : multicast) : list MulticastInterfaceState :=
  SortStableFunc (λ a b, Compare (mis_Name a) (mis_Name b))
    ((λ '(name, intf), interface_state addr m name intf) <$> map_to_list (mu_interfaces m)).

(** The configuration does not change after [New]; a module that runs has its
    socket open, one that does not run has none or a closed one, and it runs
    exactly when some entry enables it and the socket could be opened. *)
Lemma multicast_lifecycle resolve bind opts m err go :
  multicast_New resolve bind opts = (m, err, go) →
  mu_running m = go ∧ (go = true → err = None ∧ any_enabled (mu_config m) = true ∧ mu_sock m = Some true) ∧
  (go = false → mu_sock m = None ∧ (err = None → any_enabled (mu_config m) = false)) ∧
  mu_running (multicast_stop m) = false ∧ mu_sock (multicast_stop m) ≠ Some true ∧
  multicast_stop (multicast_stop m) = multicast_stop m.
Proof.
  unfold multicast_New. set (m0 := foldl _ _ _).
  assert (H0 : mu_running m0 = false ∧ mu_sock m0 = None).
  { assert (Hi : ∀ m, mu_running m = false ∧ mu_sock m = None →
      mu_running (foldl mc_applyOption m opts) = false ∧ mu_sock (foldl mc_applyOption m opts) = None); [|by apply Hi].
    clear m0. induction opts as [|[] opts IH]; intros m1 Hm1; [done|apply IH; done|apply IH; done]. }
  clearbody m0. destruct H0 as [Hr Hs]. unfold multicast_start. rewrite Hr. unfold multicast_stop, set_running.
  destruct (any_enabled (mu_config m0)) eqn:Ea; cbn [negb].
  - destruct (resolve _); [destruct (bind _); cbn [negb]|]; intros [= <- <- <-]; simpl; rewrite ?Hr, ?Hs; repeat split; intros; congruence.
  - intros [= <- <- <-]. rewrite !Hr, Hs. repeat split; intros; congruence.
Qed.

(** ** Properties of the codec *)

Definition adv_ok (m : multicastAdvertisement) : Prop :=
  is_u16 (adv_MajorVersion m) ∧ is_u16 (adv_MinorVersion m) ∧ length (adv_PublicKey m) = 32%nat ∧
  is_u16 (adv_Port m) ∧ is_u16 (len (adv_Hash m)).

Lemma slice_Ok b lo hi : 0 <= lo <= hi → hi <= len b →
  slice b lo hi = Ok (take (Z.to_nat (hi - lo)) (drop (Z.to_nat lo) b)).
Proof.
  intros. unfold slice.
  rewrite (proj2 (Z.leb_le 0 lo)), (proj2 (Z.leb_le lo hi)), (proj2 (Z.leb_le hi (len b))) by lia. done.
Qed.

(** The bytes between two positions of a concatenation. *)
Lemma slice_app pre mid post lo hi :
  lo = len pre → hi = lo + len mid → slice (pre ++ mid ++ post) lo hi = Ok mid.
Proof.
  intros -> ->. rewrite slice_Ok; unfold len; rewrite ?length_app; [|lia|lia].
  f_equal. rewrite Nat2Z.id, drop_app_length.
  replace (Z.to_nat _) with (length mid) by lia. apply take_app_length.
Qed.

Lemma be_val_u16 x : is_u16 x → be_val (be_bytes 2 x) = x.
Proof. apply (be_val_bytes_small 2). Qed.

Lemma UnmarshalBinary_MarshalBinary m rest : adv_ok m → UnmarshalBinary (MarshalBinary m ++ rest) = Ok m.
Proof.
  intros (H1 & H2 & H3 & H4 & H5).
  destruct m as [major minor key port hash].
  unfold MarshalBinary, UnmarshalBinary, headerLen.
  cbn [adv_MajorVersion adv_MinorVersion adv_PublicKey adv_Port adv_Hash] in *.
  rewrite (wrap_small 16) by done. rewrite <- !app_assoc.
  set (b1 := be_bytes 2 major). set (b2 := be_bytes 2 minor). set (b3 := be_bytes 2 port). set (b4 := be_bytes 2 (len hash)).
  assert (Hl : length b1 = 2%nat ∧ length b2 = 2%nat ∧ length b3 = 2%nat ∧ length b4 = 2%nat)
    by (unfold b1, b2, b3, b4; by rewrite !length_be_bytes).
  destruct Hl as (L1 & L2 & L3 & L4).
  assert (Hv : be_val b1 = major ∧ be_val b2 = minor ∧ be_val b3 = port ∧ be_val b4 = len hash)
    by (unfold b1, b2, b3, b4; by rewrite !be_val_u16).
  destruct Hv as (V1 & V2 & V3 & V4). clearbody b1 b2 b3 b4.
  assert (Hlen : len (b1 ++ b2 ++ key ++ b3 ++ b4 ++ hash ++ rest) = 40 + len hash + len rest)
    by (unfold len; rewrite !length_app; lia).
  rewrite Hlen. rewrite (proj2 (Z.ltb_ge _ _)) by (unfold len; lia).
  assert (S1 : slice (b1 ++ b2 ++ key ++ b3 ++ b4 ++ hash ++ rest) 0 2 = Ok b1)
    by (apply (slice_app []); unfold len; simpl; lia).
  rewrite S1. simpl.
  rewrite (slice_app b1 b2 (key ++ b3 ++ b4 ++ hash ++ rest) 2 4) by (unfold len; lia). simpl.
  rewrite (app_assoc b1 b2). set (p2 := b1 ++ b2).
  assert (P2 : length p2 = 4%nat) by (unfold p2; rewrite length_app; lia).
  rewrite (slice_app p2 key (b3 ++ b4 ++ hash ++ rest) 4 (4 + 32)) by (unfold len; lia). simpl.
  rewrite (app_assoc p2 key). set (p3 := p2 ++ key).
  assert (P3 : length p3 = 36%nat) by (unfold p3; rewrite length_app; lia).
  rewrite (slice_app p3 b3 (b4 ++ hash ++ rest) (4 + 32) (6 + 32)) by (unfold len; lia). simpl.
  rewrite (app_assoc p3 b3). set (p4 := p3 ++ b3).
  assert (P4 : length p4 = 38%nat) by (unfold p4; rewrite length_app; lia).
  rewrite (slice_app p4 b4 (hash ++ rest) (6 + 32) (8 + 32)) by (unfold len; lia). simpl.
  rewrite V4.
  rewrite (proj2 (Z.ltb_ge _ _)) by (unfold len; lia).
  rewrite (app_assoc p4 b4). rewrite (slice_app (p4 ++ b4) hash rest (32 + 8) (32 + 8 + len hash)); [|unfold len; rewrite length_app; lia|done]. simpl.
  by rewrite V1, V2, V3.
Qed.

(** On arbitrary bytes the decoder returns an error or a beacon, without a
    panic, and the beacon is the one the bytes start with. *)
Lemma UnmarshalBinary_total b :
  bytes_ok b →
  UnmarshalBinary b = Err () ∨
  ∃ m, UnmarshalBinary b = Ok m ∧ adv_ok m ∧ MarshalBinary m = take (40 + length (adv_Hash m)) b.
Proof.
  intros Hb. unfold UnmarshalBinary, headerLen.
  destruct (len b <? 32 + 8) eqn:E; [by left|]. apply Z.ltb_ge in E.
  rewrite !slice_Ok by lia. cbn [mbind res_bind].
  set (dl := take (Z.to_nat (8 + 32 - (6 + 32))) (drop (Z.to_nat (6 + 32)) b)).
  assert (Hdl : in_range (8 * len dl) (be_val dl)) by (apply be_val_bound; unfold dl; auto with uqda).
  assert (Ldl : length dl = 2%nat) by (unfold dl; rewrite length_take, length_drop; unfold len in E; lia).
  destruct (len b <? 32 + 8 + be_val dl) eqn:E2; [by left|]. apply Z.ltb_ge in E2.
  unfold in_range in Hdl. rewrite slice_Ok by lia. cbn [mbind res_bind].
  right. eexists. split; [done|].
  unfold adv_ok, MarshalBinary. cbn [adv_MajorVersion adv_MinorVersion adv_PublicKey adv_Port adv_Hash].
  rewrite !Z.sub_0_r, !drop_0.
  assert (Hw : ∀ n, (n + 2 <= length b)%nat →
    is_u16 (be_val (take 2 (drop n b))) ∧ be_bytes 2 (be_val (take 2 (drop n b))) = take 2 (drop n b)).
  { intros n Hn. assert (Hl : length (take 2 (drop n b)) = 2%nat) by (rewrite length_take, length_drop; lia).
    assert (Hk : bytes_ok (take 2 (drop n b))) by auto with uqda.
    pose proof (be_val_bound _ Hk) as Hr. pose proof (be_bytes_val _ Hk) as He.
    unfold len in Hr. rewrite Hl in Hr, He. by split. }
  assert (Hlb : (40 <= length b)%nat) by (unfold len in E; lia).
  destruct (Hw 0%nat) as [R0 E0]; [lia|]. destruct (Hw 2%nat) as [R2 E2']; [lia|].
  destruct (Hw 36%nat) as [R36 E36]; [lia|]. destruct (Hw 38%nat) as [R38 E38]; [lia|].
  rewrite drop_0 in R0, E0.
  change (Z.to_nat 2) with 2%nat. change (Z.to_nat (4 - 2)) with 2%nat. change (Z.to_nat (4 + 32 - 4)) with 32%nat.
  change (Z.to_nat 4) with 4%nat. change (Z.to_nat (4 + 32)) with 36%nat.
  change (Z.to_nat (6 + 32 - (4 + 32))) with 2%nat. change (Z.to_nat (32 + 8)) with 40%nat.
  replace (Z.to_nat (32 + 8 + be_val dl - (32 + 8))) with (Z.to_nat (be_val dl)) by lia.
  set (n := Z.to_nat (be_val dl)). change (take 2 (drop 38 b)) with dl in R38, E38.
  assert (Hn : len (take n (drop 40 b)) = be_val dl).
  { unfold len. rewrite length_take, length_drop. unfold n, len in *. lia. }
  rewrite Hn. split.
  - split_and!; try done. rewrite length_take, length_drop. lia.
  - rewrite (wrap_small 16) by done. rewrite E0, E2', E36, E38. unfold dl.
    change (Z.to_nat (8 + 32 - (6 + 32))) with 2%nat. change (Z.to_nat (6 + 32)) with 38%nat.
    rewrite !app_assoc.
    rewrite !take_take_drop.
    f_equal. unfold len in Hn. lia.
Qed.

(** ** Properties of the selection *)

Section SelectLaws.
Context `{MulticastLib, Blake2b}.

(** What is known of an interface in use by the node with key [pk]. *)
Definition info_ok (pk : bytes) (name : string) (info : interfaceInfo) : Prop :=
  if_Name (ii_iface info) = name ∧ length pk = 32%nat ∧ (ii_beacon info || ii_listen info) = true ∧
  b2_sum512 (string_bytes (ii_password info)) pk = Some (ii_hash info).

Lemma match_config_ok pk i cfgs info :
  match_config pk i cfgs = Some info →
  info_ok pk (if_Name i) info ∧
  ∃ c, c ∈ cfgs ∧ MatchString (mi_Regex c) (if_Name i) = true ∧ ii_password info = mi_Password c ∧
    ii_priority info = mi_Priority c ∧ ii_beacon info = mi_Beacon c ∧ ii_listen info = mi_Listen c.
Proof.
  induction cfgs as [|c cfgs IH]; simpl; [done|].
  assert (Hrec : match_config pk i cfgs = Some info →
    info_ok pk (if_Name i) info ∧
    ∃ c', c' ∈ c :: cfgs ∧ MatchString (mi_Regex c') (if_Name i) = true ∧ ii_password info = mi_Password c' ∧
      ii_priority info = mi_Priority c' ∧ ii_beacon info = mi_Beacon c' ∧ ii_listen info = mi_Listen c').
  { intros Hm. destruct (IH Hm) as (? & c' & ? & ?). split; [done|]. exists c'. split; [by right|done]. }
  destruct (negb (mi_Beacon c) && negb (mi_Listen c)) eqn:Eb; [done|].
  destruct (MatchString (mi_Regex c) (if_Name i)) eqn:Em; simpl; [|done].
  destruct (b2_sum512 (string_bytes (mi_Password c)) pk) as [hash|] eqn:Eh; [|done].
  destruct (len pk =? 32) eqn:El; simpl; [|done].
  intros [= <-]. split.
  - unfold info_ok. simpl. split_and!; try done; [unfold len in El; lia|]. by destruct (mi_Beacon c), (mi_Listen c).
  - exists c. split; [by left|done].
Qed.

Lemma getAllowedInterfaces_ok pk order all name info :
  getAllowedInterfaces pk order all !! name = Some info →
  info_ok pk name info ∧ ii_addrs info = [] ∧
  ∃ l i c, all = Some l ∧ i ∈ l ∧ if_Name i = name ∧ iface_usable i = true ∧
    c ∈ order name ∧ MatchString (mi_Regex c) name = true ∧ ii_password info = mi_Password c ∧
    ii_beacon info = mi_Beacon c ∧ ii_listen info = mi_Listen c.
Proof.
  unfold getAllowedInterfaces. destruct all as [l|]; [|by rewrite lookup_empty].
  set (P := λ (m : gmap string interfaceInfo) (seen : list net_Interface), ∀ name info, m !! name = Some info →
    info_ok pk name info ∧ ii_addrs info = [] ∧ ∃ i c, i ∈ seen ∧ if_Name i = name ∧ iface_usable i = true ∧
    c ∈ order name ∧ MatchString (mi_Regex c) name = true ∧ ii_password info = mi_Password c ∧
    ii_beacon info = mi_Beacon c ∧ ii_listen info = mi_Listen c).
  assert (HP : ∀ m pre, P m pre → P (foldl (allow_step pk order) m l) (pre ++ l)).
  { induction l as [|i l IH]; intros m pre Hm; simpl; [by rewrite app_nil_r|].
    replace (pre ++ i :: l) with ((pre ++ [i]) ++ l) by by rewrite <- app_assoc.
    apply IH. intros n inf. unfold allow_step.
    assert (Hold : m !! n = Some inf → info_ok pk n inf ∧ ii_addrs inf = [] ∧ ∃ i0 c, i0 ∈ pre ++ [i] ∧ if_Name i0 = n ∧
      iface_usable i0 = true ∧ c ∈ order n ∧ MatchString (mi_Regex c) n = true ∧ ii_password inf = mi_Password c ∧
      ii_beacon inf = mi_Beacon c ∧ ii_listen inf = mi_Listen c).
    { intros Hl. destruct (Hm n inf Hl) as (? & ? & i0 & c & ? & ?). do 2 (split; [done|]). exists i0, c.
      split; [apply elem_of_app; by left|done]. }
    destruct (iface_usable i) eqn:Eu; [|done].
    destruct (match_config pk i (order (if_Name i))) as [info'|] eqn:Ec; [|done].
    destruct (decide (n = if_Name i)) as [->|Hne].
    - rewrite lookup_insert_eq. intros [= <-]. pose proof (match_config_ok _ _ _ _ Ec) as (Hok & c & Hin & Hmatch & Hpw & _ & Hcb & Hcl).
      split; [done|]. split.
      + clear -Ec. revert Ec. generalize (order (if_Name i)) as cs. induction cs as [|c cs IHc]; simpl; [done|].
        repeat case_match; try done. by intros [= <-].
      + exists i, c. split; [apply elem_of_app; right; by left|done].
    - rewrite lookup_insert_ne by done. done. }
  intros Hl. destruct (HP ∅ [] ltac:(intros ??; by rewrite lookup_empty) name info Hl) as (? & ? & i & c & ? & ?).
  do 2 (split; [done|]). exists l, i, c. split; [done|]. done.
Qed.

Lemma updateInterfaces_ok pk addrs ifs :
  map_Forall (info_ok pk) ifs → map_Forall (info_ok pk) (updateInterfaces addrs ifs).
Proof.
  intros Hok name info. unfold updateInterfaces. rewrite map_lookup_imap.
  destruct (ifs !! name) as [i|] eqn:E; simpl; [|done]. destruct (addrs name); simpl; [|done].
  intros [= <-]. exact (Hok _ _ E).
Qed.
End SelectLaws.

(** ** Properties of announcements *)

Section AnnounceLaws.
Context `{MulticastLib}.

(** A listener is bound to an address of an interface that is in use. *)
Definition listener_live (interfaces : gmap string interfaceInfo) (name : string) (l : listenerInfo) : Prop :=
  ∃ info, interfaces !! name = Some info ∧ li_ip l ∈ ii_addrs info.

Lemma stop_stale_live interfaces listeners :
  map_Forall (listener_live interfaces) (fst (stop_stale interfaces listeners)).
Proof.
  intros name l Hl. apply map_lookup_filter_Some in Hl as [_ Hs]. simpl in Hs. unfold stale in Hs.
  destruct (interfaces !! name) as [info|] eqn:E; [|done]. exists info. split; [done|].
  apply negb_false_iff, existsb_exists in Hs as (ip & Hin & ->%bool_decide_eq_true). by apply list_elem_of_In.
Qed.

(** The beacon that [info] announces with some port. *)
Definition beacon_of (pk : bytes) (info : interfaceInfo) (msg : bytes) : Prop :=
  ∃ port, is_u16 port ∧
    msg = MarshalBinary (Advertisement ProtocolVersionMajor ProtocolVersionMinor pk port (ii_hash info)).

(** What a pass over the addresses of [info] does to the listeners: those it
    adds are on one of the addresses. *)
Definition listeners_from (info : interfaceInfo) (addrs : list bytes) (old new : gmap string listenerInfo) : Prop :=
  ∀ name l, new !! name = Some l →
    (∃ l0, old !! name = Some l0 ∧ li_ip l = li_ip l0) ∨
    name = if_Name (ii_iface info) ∧ li_ip l ∈ addrs ∧ ii_beacon info = true.

(** ... and to the network. *)
Definition beacons_from (pk : bytes) (info : interfaceInfo) (ev : list mc_event) : Prop :=
  ∀ name msg, SendBeacon name msg ∈ ev →
    name = if_Name (ii_iface info) ∧ ii_beacon info = true ∧ beacon_of pk info msg.

Lemma listeners_from_refl info addrs ls : listeners_from info addrs ls ls.
Proof. intros ???. by eauto. Qed.

Lemma listeners_from_trans info ip addrs l1 l2 l3 :
  listeners_from info (ip :: addrs) l1 l2 → listeners_from info addrs l2 l3 → listeners_from info (ip :: addrs) l1 l3.
Proof.
  intros H12 H23 n l Hl. destruct (H23 n l Hl) as [(l0 & Hl0 & ->)|(-> & ? & ?)]; [by apply H12|].
  right. split_and!; [done|by right|done].
Qed.

Lemma listeners_from_insert info ip addrs old new l :
  ii_beacon info = true → listeners_from info (ip :: addrs) old new →
  (li_ip l = ip ∨ ∃ l0, old !! if_Name (ii_iface info) = Some l0 ∧ li_ip l = li_ip l0) →
  listeners_from info (ip :: addrs) old (<[if_Name (ii_iface info) := l]> new).
Proof.
  intros Hb Hn Hip n l' Hl. destruct (decide (n = if_Name (ii_iface info))) as [->|Hne].
  - rewrite lookup_insert_eq in Hl. injection Hl as <-.
    destruct Hip as [->|Hip]; [right; split_and!; [done|by left|done]|by left].
  - rewrite lookup_insert_ne in Hl by done. by apply Hn.
Qed.

Lemma beacons_from_app pk info ev1 ev2 :
  beacons_from pk info ev1 → beacons_from pk info ev2 → beacons_from pk info (ev1 ++ ev2).
Proof. intros H1 H2 n msg Hin. apply elem_of_app in Hin as [Hin|Hin]; [by apply H1|by apply H2]. Qed.

Lemma beacons_from_quiet pk info ev :
  Forall (λ e, match e with SendBeacon _ _ => False | _ => True end) ev → beacons_from pk info ev.
Proof. intros Hq n msg Hin. rewrite Forall_forall in Hq. by apply Hq in Hin. Qed.

Lemma beacons_from_send pk info port :
  ii_beacon info = true →
  beacons_from pk info [SendBeacon (if_Name (ii_iface info)) (MarshalBinary
    (Advertisement ProtocolVersionMajor ProtocolVersionMinor pk (u16 port) (ii_hash info)))].
Proof.
  intros Hb n msg Hin. apply list_elem_of_singleton in Hin. injection Hin as -> ->.
  split_and!; [done|done|]. eexists. split; [|done]. by apply wrap_in_range.
Qed.

Create HintDb multicast.
#[local] Hint Resolve listeners_from_refl beacons_from_app beacons_from_send : multicast.

Lemma announce_addrs_spec pk now listen info addrs listeners ls ev :
  announce_addrs pk now listen info addrs listeners = (ls, ev) →
  listeners_from info addrs listeners ls ∧ beacons_from pk info ev.
Proof.
  revert listeners ls ev. induction addrs as [|ip addrs IH]; intros listeners ls ev; simpl.
  { intros [= <- <-]. split; [apply listeners_from_refl|by apply beacons_from_quiet]. }
  destruct (link_local ip); simpl.
  2: { intros Heq. apply IH in Heq as [H1 H2]. split; [|done]. eapply listeners_from_trans; [apply listeners_from_refl|done]. }
  set (join := if ii_listen info then _ else _).
  assert (Hjoin : beacons_from pk info join) by (apply beacons_from_quiet; unfold join; case_match; by repeat constructor).
  destruct (ii_beacon info) eqn:Eb; simpl; [|intros [= <- <-]; auto with multicast].
  assert (Hgo : ∀ mid ev0, listeners_from info (ip :: addrs) listeners mid → beacons_from pk info ev0 →
    (let '(ls, ev') := announce_addrs pk now listen info addrs mid in (ls, join ++ ev0 ++ ev')) = (ls, ev) →
    listeners_from info (ip :: addrs) listeners ls ∧ beacons_from pk info ev).
  { intros mid ev0 Hmid Hev0. destruct (announce_addrs _ _ _ _ addrs mid) as [ls' ev'] eqn:E.
    intros [= <- <-]. apply IH in E as [H1 H2]. split; [by eapply listeners_from_trans|auto with multicast]. }
  destruct (listeners !! if_Name (ii_iface info)) as [l0|] eqn:El.
  - case_match; [apply Hgo; [auto with multicast|by apply beacons_from_quiet]|].
    intros [= <- <-]. split; [apply listeners_from_insert; eauto with multicast|auto with multicast].
  - assert (Hl : ∀ u, beacons_from pk info [ListenLocal u (if_Name (ii_iface info))])
      by (intros; apply beacons_from_quiet; by repeat constructor).
    destruct (listen ip) as [[id port]|]; [|apply Hgo; auto with multicast].
    case_match; [apply Hgo; [apply listeners_from_insert; eauto with multicast|done]|].
    intros [= <- <-]. split; [|apply beacons_from_app; [done|apply (beacons_from_app _ _ [_] [_]); auto with multicast]].
    do 2 (apply listeners_from_insert; [done| |by left]). auto with multicast.
Qed.

(** The state of the module: every listener is bound to an address of an
    interface in use, at most one per interface by construction; and the events
    of a round: beacons only on interfaces configured for them. *)
Definition round_ok (pk : bytes) (interfaces : gmap string interfaceInfo)
    (st : gmap string listenerInfo * list mc_event) : Prop :=
  map_Forall (listener_live interfaces) (fst st) ∧
  ∀ name msg, SendBeacon name msg ∈ snd st →
    ∃ info, interfaces !! name = Some info ∧ ii_beacon info = true ∧ beacon_of pk info msg.

Lemma announce_step_ok pk now listen interfaces st name info :
  if_Name (ii_iface info) = name → interfaces !! name = Some info →
  round_ok pk interfaces st → round_ok pk interfaces (announce_step pk now listen st (name, info)).
Proof.
  intros Hn Hi [Hl Hb]. unfold announce_step; simpl.
  destruct (announce_addrs _ _ _ _ _ _) as [ls ev] eqn:E. apply announce_addrs_spec in E as [H1 H2]. split; simpl.
  - intros n l Hnl. destruct (H1 n l Hnl) as [(l0 & Hl0 & Hip)|(-> & Hin & _)].
    + destruct (Hl _ _ Hl0) as (i & Hi' & Hip'). exists i. by rewrite Hip.
    + exists info. by rewrite Hn.
  - intros n msg Hin. apply elem_of_app in Hin as [Hin|Hin]; [by apply Hb|].
    destruct (H2 n msg Hin) as (-> & ? & ?). exists info. by rewrite Hn.
Qed.

Lemma announce_round_ok pk now listen interfaces listeners :
  (∀ name info, interfaces !! name = Some info → if_Name (ii_iface info) = name) →
  round_ok pk interfaces (announce pk now listen interfaces listeners).
Proof.
  intros Hname. unfold announce. destruct (stop_stale interfaces listeners) as [ls0 ev0] eqn:Es.
  assert (H0 : round_ok pk interfaces (ls0, ev0)).
  { split; simpl.
    - pose proof (stop_stale_live interfaces listeners) as Hl. by rewrite Es in Hl.
    - intros name msg Hin. exfalso. unfold stop_stale in Es. injection Es as <- <-.
      apply list_elem_of_omap in Hin as ([n l] & _ & Hx). by case_match. }
  revert H0. generalize (ls0, ev0).
  assert (Hall : Forall (λ '(name, info), interfaces !! name = Some info) (map_to_list interfaces)).
  { apply Forall_forall. intros [n i] Hin. by apply elem_of_map_to_list. }
  induction (map_to_list interfaces) as [|[n i] l IH]; intros st Hst; [done|].
  apply Forall_cons in Hall as [Hi Hall]. simpl. apply IH; [done|]. by apply announce_step_ok; [apply Hname|..].
Qed.
End AnnounceLaws.

(** ** Discovery *)

Section Discovery.
Context `{MulticastLib, Blake2b, NetLib}.

(** [blake2b.New512] gives digests of 64 bytes. *)
Definition digests_64 : Prop := ∀ pw d h, b2_sum512 pw d = Some h → length h = 64%nat.

Lemma decimal_uint8 p : 0 <= p < 256 →
  String.eqb (pretty (Z.to_N p)) "" = false ∧ ParseUint 8 (pretty (Z.to_N p)) = Some p.
Proof.
  intros Hp. assert (Hin : p ∈ seqZ 0 256) by (apply elem_of_seqZ; lia).
  assert (Hall : Forall (λ p, String.eqb (pretty (Z.to_N p)) "" = false ∧ ParseUint 8 (pretty (Z.to_N p)) = Some p)
    (seqZ 0 256)) by (apply (bool_decide_unpack _); by vm_compute).
  rewrite Forall_forall in Hall. by apply Hall.
Qed.

(** The options of the call: pinned to the key of the beacon. *)
Lemma call_url_options adv info host :
  length (adv_PublicKey adv) = 32%nat → bytes_ok (adv_PublicKey adv) →
  0 <= ii_priority info < 256 → Z.of_nat (String.length (ii_password info)) <= 64 →
  ∃ o, add_options (call_url adv info host) = Ok o ∧ opt_pinnedEd25519Keys o = [adv_PublicKey adv] ∧
    opt_priority o = ii_priority info ∧ opt_password o = string_bytes (ii_password info).
Proof.
  intros Hl Hok Hp Hpw. destruct (decimal_uint8 _ Hp) as [Hd1 Hd2].
  unfold add_options, query_get. cbn [u_query call_url String.eqb Ascii.eqb Bool.eqb].
  cbn [parse_pins]. rewrite hex_decode_encode by done. cbn [mbind res_bind app].
  unfold parse_priority. rewrite Hd1, Hd2. cbn [or_err mbind res_bind].
  assert (Hpass : parse_password (ii_password info) = Ok (string_bytes (ii_password info))).
  { unfold parse_password. destruct (String.eqb_spec (ii_password info) "") as [->|]; [done|].
    unfold blake2b_Size. by rewrite (proj2 (Z.ltb_ge _ _)). }
  rewrite Hpass. cbn [mbind res_bind parse_secure parse_backoff]. eexists. split; [reflexivity|]. simpl.
  by rewrite copy_full by by rewrite Hl.
Qed.

(** What passes the checks is a well-formed beacon of another node. *)
Definition adv_checked (pk : bytes) (adv : multicastAdvertisement) : Prop :=
  adv_ok adv ∧ bytes_ok (adv_PublicKey adv) ∧ adv_MajorVersion adv = ProtocolVersionMajor ∧
  adv_MinorVersion adv = ProtocolVersionMinor ∧ adv_PublicKey adv ≠ pk.

Lemma listen_check_ok pk group dst bs adv :
  bytes_ok bs → listen_check pk group dst bs = Some adv →
  adv_checked pk adv ∧ MarshalBinary adv = take (40 + length (adv_Hash adv)) bs.
Proof.
  intros Hok. unfold listen_check. case_match; [done|].
  destruct (UnmarshalBinary_total bs Hok) as [->|(adv' & -> & Hadv & Hm)]; [done|].
  destruct (adv_MajorVersion adv' =? ProtocolVersionMajor) eqn:E1; simpl; [|done].
  destruct (adv_MinorVersion adv' =? ProtocolVersionMinor) eqn:E2; simpl; [|done].
  case_bool_decide as Epk; [done|]. intros [= <-]. split; [|done].
  assert (Hb : bytes_ok (MarshalBinary adv')) by (rewrite Hm; by apply bytes_ok_take).
  unfold MarshalBinary in Hb. rewrite !bytes_ok_app in Hb. split_and!; [done|tauto|lia|lia|done].
Qed.

Lemma listen_call_ok pk interfaces ip zone adv u zone' :
  adv_checked pk adv → listen_call interfaces ip zone adv = Some (u, zone') →
  zone' = zone ∧ ∃ info, interfaces !! zone = Some info ∧ ii_listen info = true ∧
    b2_sum512 (string_bytes (ii_password info)) (adv_PublicKey adv) = Some (adv_Hash adv) ∧
    parse_pins (u_query u "key") [] = Ok [adv_PublicKey adv] ∧ u_query u "password" = [ii_password info].
Proof.
  intros (Hadv & Hk & _). unfold listen_call. destruct (interfaces !! zone) as [info|] eqn:Ei; [|done].
  destruct (ii_listen info) eqn:El; [|done].
  destruct (b2_sum512 _ _) as [hash|] eqn:Eh; [|done]. destruct (len (adv_PublicKey adv) =? 32); simpl; [|done].
  case_bool_decide as Ehash; simpl; [|done]. intros [= <- <-]. split; [done|]. exists info.
  pose proof Hadv as (_ & _ & Hl & _).
  split_and!; try done; [by rewrite Ehash in Eh|].
  cbn [u_query call_url String.eqb Ascii.eqb Bool.eqb parse_pins]. rewrite hex_decode_encode by done.
  simpl. by rewrite copy_full by by rewrite Hl.
Qed.

(** multicast_discovery. A beacon that a node sends in a round of
    announcements makes every other node that listens on the receiving interface
    with the same password call it: a new ephemeral link is added, pinned to the
    sender's key. *)
Theorem multicast_discovery pkA orderA allA addrsA now listen listenersA ev name msg
    pkB group interfacesB zone infoB ip dst ls :
  digests_64 → bytes_ok pkA →
  let interfacesA := updateInterfaces addrsA (getAllowedInterfaces pkA orderA allA) in
  snd (announce pkA now listen interfacesA listenersA) = ev → SendBeacon name msg ∈ ev →
  (dst = None ∨ dst = Some group ∧ IsLinkLocalMulticast group = true) →
  pkA ≠ pkB → interfacesB !! zone = Some infoB → ii_listen infoB = true →
  (∀ infoA, interfacesA !! name = Some infoA → ii_password infoA = ii_password infoB) →
  0 <= ii_priority infoB < 256 → Z.of_nat (String.length (ii_password infoB)) <= 64 →
  ∃ u o, listen_step pkB group interfacesB dst ip zone msg = Some (u, zone) ∧
    add_options u = Ok o ∧ opt_pinnedEd25519Keys o = [pkA] ∧
    opt_priority o = ii_priority infoB ∧ opt_password o = string_bytes (ii_password infoB) ∧
    (ls_links ls !! (u_base u, zone) = None →
     ∃ ls' id, links_add ls u zone linkTypeEphemeral = (ls', None, Ok id) ∧
       ls_links ls' !! (u_base u, zone) = Some id).
Proof.
  intros Hd Hpk interfacesA Hev Hin Hdst Hne HiB Hlis Hpw Hprio Hplen.
  assert (HokA : map_Forall (info_ok pkA) interfacesA).
  { apply updateInterfaces_ok. intros n i Hi. by apply getAllowedInterfaces_ok in Hi as [? _]. }
  destruct (announce_round_ok pkA now listen interfacesA listenersA) as [_ Hb].
  { intros n i Hi. by apply HokA in Hi as [? _]. }
  rewrite Hev in Hb. destruct (Hb _ _ Hin) as (infoA & HiA & _ & port & Hport & ->).
  destruct (HokA _ _ HiA) as (_ & HlA & _ & HhA). rewrite (Hpw _ HiA) in HhA.
  set (adv := Advertisement _ _ _ _ _).
  assert (Hadv : adv_ok adv).
  { unfold adv_ok, adv; simpl. split_and!; try done. unfold len. by rewrite (Hd _ _ _ HhA). }
  destruct (call_url_options adv infoB (UDPAddr_String ip zone (adv_Port adv))) as (o & Ho & Hpin & Hpr & Hps); try done.
  exists (call_url adv infoB (UDPAddr_String ip zone (adv_Port adv))), o. split.
  - unfold listen_step, listen_check, listen_call.
    replace (match dst with Some d => _ | None => _ end) with false.
    2: { destruct Hdst as [->|[-> ->]]; [done|]. simpl. by rewrite bool_decide_true. }
    rewrite <- (app_nil_r (MarshalBinary adv)), UnmarshalBinary_MarshalBinary by done. simpl.
    rewrite bool_decide_false by done. simpl. rewrite HiB, Hlis, HhA. unfold len. rewrite HlA. simpl.
    by rewrite bool_decide_true.
  - split_and!; try done. intros Hnone. unfold links_add. rewrite Ho.
    assert (Hdial : dialerFor (call_url adv infoB (UDPAddr_String ip zone (adv_Port adv))) = Ok linkTLS) by reflexivity.
    rewrite Hdial, Hnone. do 2 eexists. split; [reflexivity|]. apply lookup_insert_eq.
Qed.

(** multicast_first_match_not_kept. The configurations of multicast
    interfaces are kept in a set that is visited in no particular order: when
    two configurations with different passwords match an interface, either of
    them may be used, not the first one listed. *)
Theorem multicast_first_match_not_kept pk i c1 c2 h1 h2 :
  iface_usable i = true → length pk = 32%nat →
  mi_Beacon c1 = true → mi_Beacon c2 = true →
  MatchString (mi_Regex c1) (if_Name i) = true → MatchString (mi_Regex c2) (if_Name i) = true →
  b2_sum512 (string_bytes (mi_Password c1)) pk = Some h1 → b2_sum512 (string_bytes (mi_Password c2)) pk = Some h2 →
  ∃ order1 order2, (∀ n, order1 n ≡ₚ order2 n) ∧
    ii_password <$> getAllowedInterfaces pk order1 (Some [i]) !! if_Name i = Some (mi_Password c1) ∧
    ii_password <$> getAllowedInterfaces pk order2 (Some [i]) !! if_Name i = Some (mi_Password c2).
Proof.
  intros Hu Hl Hb1 Hb2 Hm1 Hm2 Hh1 Hh2. exists (λ _, [c1; c2]), (λ _, [c2; c1]).
  split; [intros _; apply Permutation_swap|].
  unfold getAllowedInterfaces, allow_step. simpl. rewrite Hu, Hb1, Hb2, Hm1, Hm2, Hh1, Hh2. unfold len. rewrite Hl. simpl.
  by rewrite !lookup_insert_eq.
Qed.
End Discovery.

Module MulticastWitness.
Import ToySig HandshakeWitness LinksWitness.

#[export] Instance toy_multicast : MulticastLib := {
  MatchString r n := String.eqb r ".*" || String.eqb r n;
  UDPAddr_String ip zone port := "[fe80::1%" +:+ zone +:+ "]:" +:+ pretty (Z.to_N port);
  JoinHostPort ip port := "[fe80::1]:" +:+ pretty (Z.to_N port);
}.

Definition eth0 : net_Interface := NetInterface "eth0" (FlagUp + FlagMulticast + FlagRunning).
Definition cfg (pw : string) : MulticastInterface := MulticastInterface_ ".*" true true 0 3 pw.
Definition keyA : bytes := replicate 32 7.
Definition keyB : bytes := replicate 32 9.
Definition fe80 : bytes := [0xfe; 0x80] ++ replicate 13 0 ++ [1].
Definition ff02 : bytes := [0xff; 0x02] ++ replicate 12 0 ++ [1; 0x14].
Definition ifs (pk : bytes) : gmap string interfaceInfo :=
  updateInterfaces (λ _, Some [None; Some fe80]) (getAllowedInterfaces pk (λ _, [cfg "secret"]) (Some [eth0])).
Definition events : list mc_event := snd (announce keyA 0 (λ _ _, Some (1%nat, 4321)) (ifs keyA) ∅).
Definition beacon : bytes :=
  match b2_sum512 (string_bytes "secret") keyA with
  | Some h => MarshalBinary (Advertisement ProtocolVersionMajor ProtocolVersionMinor keyA 4321 h)
  | None => []
  end.

Lemma toy_digests : digests_64.
Proof.
  intros pw d h. unfold b2_sum512, toy_blake2b. case_match; [done|]. intros Hh.
  apply (inj Some) in Hh as <-. apply length_be_bytes.
Qed.

Lemma listens : ∃ info, ifs keyB !! "eth0" = Some info ∧ ii_listen info = true ∧ ii_password info = "secret" ∧
  ii_priority info = 3.
Proof. eexists. split; [reflexivity|]. done. Qed.

(** Witness. *)
Lemma multicast_discovery_witness :
  SendBeacon "eth0" beacon ∈ events ∧
  ∃ u o, listen_step keyB ff02 (ifs keyB) (Some ff02) fe80 "eth0" beacon = Some (u, "eth0") ∧
    add_options u = Ok o ∧ opt_pinnedEd25519Keys o = [keyA].
Proof.
  assert (Hin : SendBeacon "eth0" beacon ∈ events) by (apply list_elem_of_In; vm_compute; tauto).
  split; [exact Hin|]. destruct listens as (info & Hi & Hl & Hp & Hpr).
  destruct (multicast_discovery keyA (λ _, [cfg "secret"]) (Some [eth0]) (λ _, Some [None; Some fe80]) 0
    (λ _ _, Some (1%nat, 4321)) ∅ events "eth0" beacon keyB ff02 (ifs keyB) "eth0" info fe80 (Some ff02) links_init)
    as (u & o & H1 & H2 & H3 & _).
  - apply toy_digests.
  - unfold keyA. apply bytes_ok_replicate. unfold in_range. lia.
  - reflexivity.
  - exact Hin.
  - right. split; reflexivity.
  - intros Hk. by apply (f_equal (λ l, nth 0 l 0)) in Hk.
  - exact Hi.
  - exact Hl.
  - intros infoA HiA. assert (E : ifs keyA !! "eth0" = Some infoA) by exact HiA.
    vm_compute in E. injection E as <-. rewrite Hp. reflexivity.
  - rewrite Hpr. clear. lia.
  - rewrite Hp. clear. cbn. lia.
  - exists u, o. split; [exact H1|]. split; [exact H2|exact H3].
Defined.

(** Witness. *)
Lemma multicast_first_match_not_kept_witness :
  ∃ order1 order2, (∀ n, order1 n ≡ₚ order2 n) ∧
    ii_password <$> getAllowedInterfaces keyA order1 (Some [eth0]) !! "eth0" = Some "one" ∧
    ii_password <$> getAllowedInterfaces keyA order2 (Some [eth0]) !! "eth0" = Some "two".
Proof.
  exact (multicast_first_match_not_kept keyA eth0 (cfg "one") (cfg "two") _ _ eq_refl eq_refl eq_refl eq_refl
    eq_refl eq_refl eq_refl eq_refl).
Defined.
End MulticastWitness.
