(* ===== verification/MulticastLife.v ===== *)
(** * The multicast module over time (src/multicast/multicast.go)

    The actor of the module with its inbox, the timers that repeat the rounds of
    announcements, the goroutine that reads datagrams, [Stop] and [AnnounceNow].
    A step of the machine is one message of the actor, the end of a timer, the
    result of a read, or a call from outside; steps come in any order. *)

From S2P Require Import Prelude Binary Wire Address Crypto Messages Handshake Links GoLib Multicast.

Open Scope Z_scope.

(** What a round learns from the system: the order in which the configurations are
    visited, interfaces, addresses, the time and the result of [ListenLocal]. *)
Record round_env := RoundEnv {
  re_order : string → list MulticastInterface;
  re_ifaces : option (list net_Interface);
  re_addrs : string → option (list (option bytes));
  re_now : Z;
  re_listen : string → bytes → option (nat * Z);
}.

(** The messages of the actor; [TInterfaces] is the question of the reader. *)
Inductive mc_task := TStarted | TAnnounce | TNow | TStop | TInterfaces.

#[export] Instance mc_task_eq_dec : EqDecision mc_task.
Proof. solve_decision. Defined.

(** The goroutine of [listen]. *)
Inductive mc_reader :=
| Reading
| Asking (adv : multicastAdvertisement) (ip : bytes) (zone : string)
| Ended.

(** [ml_timer] is the field [_timer], [ml_armed] the timers that have not ended;
    [ml_stuck] says that a message of the actor waits for ever. *)
Record mc_life := McLife {
  ml_mod : multicast;
  ml_inbox : list mc_task;
  ml_timer : option nat;
  ml_armed : gset nat;
  ml_next : nat;
  ml_reader : mc_reader;
  ml_stuck : bool;
}.

(** A datagram: its destination if known, its source and its bytes. *)
Record datagram := Datagram { dg_dst : option bytes; dg_ip : bytes; dg_zone : string; dg_bytes : bytes }.

Inductive life_event :=
| LRun (env : round_env)
| LFire (timer : nat)
| LRead (d : option datagram)
| LAnnounceNow
| LStop.

Inductive life_out := ORound (e : mc_event) | OCall (u : url) (zone : string).

Section Life.
Context `{MulticastLib, Blake2b}.
Context (pk group : bytes).

(** The module right after [_start]. *)
Definition life_start (m : multicast) : mc_life := McLife m [TStarted; TAnnounce] None ∅ 0 Reading false.

Definition set_inbox (inbox : list mc_task) (st : mc_life) : mc_life :=
  McLife (ml_mod st) inbox (ml_timer st) (ml_armed st) (ml_next st) (ml_reader st) (ml_stuck st).

Definition post (t : mc_task) (st : mc_life) : mc_life := set_inbox (ml_inbox st ++ [t]) st.

Definition set_armed (armed : gset nat) (st : mc_life) : mc_life :=
  McLife (ml_mod st) (ml_inbox st) (ml_timer st) armed (ml_next st) (ml_reader st) (ml_stuck st).

Definition set_reader (r : mc_reader) (st : mc_life) : mc_life :=
  McLife (ml_mod st) (ml_inbox st) (ml_timer st) (ml_armed st) (ml_next st) r (ml_stuck st).

(** [_announce] *)
Definition life_announce (env : round_env) (st : mc_life) : mc_life * list life_out :=
  let m := ml_mod st in
  if negb (mu_running m) then (st, [])
  else
    let interfaces := updateInterfaces (re_addrs env) (getAllowedInterfaces pk (re_order env) (re_ifaces env)) in
    let '(listeners, ev) := announce pk (re_now env) (re_listen env) interfaces (mu_listeners m) in
    (McLife (Multicast_ (mu_running m) (mu_sock m) listeners interfaces (mu_groupAddr m) (mu_config m)) (ml_inbox st)
       (Some (ml_next st)) ({[ml_next st]} ∪ ml_armed st) (S (ml_next st)) (ml_reader st) (ml_stuck st),
     ORound <$> ev).

(** [AnnounceNow]: a timer made by [time.AfterFunc] has no channel, so the receive
    after a failed [Stop] never ends. *)
Definition life_now (st : mc_life) : mc_life :=
  match ml_timer st with
  | Some k =>
      if bool_decide (k ∈ ml_armed st) then post TAnnounce (set_armed (ml_armed st ∖ {[k]}) st)
      else McLife (ml_mod st) (ml_inbox st) (ml_timer st) (ml_armed st) (ml_next st) (ml_reader st) true
  | None => post TAnnounce st
  end.

Definition life_stop (st : mc_life) : mc_life :=
  McLife (multicast_stop (ml_mod st)) (ml_inbox st) (ml_timer st) (ml_armed st) (ml_next st) (ml_reader st) (ml_stuck st).

(** The head of the loop of [listen]. *)
Definition life_continue (st : mc_life) : mc_life :=
  set_reader (if mu_running (ml_mod st) then Reading else Ended) st.

(** The actor answers the reader, which goes on with the interfaces it got. *)
Definition life_answer (st : mc_life) : mc_life * list life_out :=
  match ml_reader st with
  | Asking adv ip zone =>
      (life_continue st, match listen_call (mu_interfaces (ml_mod st)) ip zone adv with
                         | Some (u, zone) => [OCall u zone]
                         | None => []
                         end)
  | _ => (st, [])
  end.

Definition life_run (env : round_env) (t : mc_task) (st : mc_life) : mc_life * list life_out :=
  match t with
  | TStarted => (st, [])
  | TAnnounce => life_announce env st
  | TNow => (life_now st, [])
  | TStop => (life_stop st, [])
  | TInterfaces => life_answer st
  end.

(** The result of [ReadFrom]; a closed socket only gives errors. The buffer has
    2048 bytes. *)
Definition life_read (d : option datagram) (st : mc_life) : mc_life :=
  match ml_reader st with
  | Reading =>
      match (if bool_decide (mu_sock (ml_mod st) = Some true) then d else None) with
      | None => life_continue st
      | Some d =>
          match listen_check pk group (dg_dst d) (take 2048 (dg_bytes d)) with
          | Some adv => post TInterfaces (set_reader (Asking adv (dg_ip d) (dg_zone d)) st)
          | None => life_continue st
          end
      end
  | _ => st
  end.

Definition life_step (ev : life_event) (st : mc_life) : mc_life * list life_out :=
  match ev with
  | LRun env =>
      if ml_stuck st then (st, [])
      else match ml_inbox st with
           | [] => (st, [])
           | t :: inbox => life_run env t (set_inbox inbox st)
           end
  | LFire k =>
      (if bool_decide (k ∈ ml_armed st) then post TAnnounce (set_armed (ml_armed st ∖ {[k]}) st) else st, [])
  | LRead d => (life_read d st, [])
  | LAnnounceNow => (post TNow st, [])
  | LStop => (post TStop st, [])
  end.

(** The rounds that are still to come. *)
Definition announces (l : list mc_task) : nat := length (filter (λ t, t = TAnnounce) l).
Definition pending (st : mc_life) : nat := announces (ml_inbox st) + size (ml_armed st).

(** Orders are orders of the configuration, and datagrams are bytes. *)
Definition event_ok (st : mc_life) (ev : life_event) : Prop :=
  match ev with
  | LRun env => ∀ name, re_order env name ≡ₚ mu_config (ml_mod st)
  | LRead (Some d) => bytes_ok (dg_bytes d)
  | _ => True
  end.

(** The states of a module that was started; [now] says whether [AnnounceNow] may
    be called. *)
Inductive life_reach (now : bool) : mc_life → Prop :=
| lr_start resolve bind opts m :
    multicast_New resolve bind opts = (m, None, true) → life_reach now (life_start m)
| lr_step st ev :
    life_reach now st → event_ok st ev → (ev = LAnnounceNow → now = true) → life_reach now (fst (life_step ev st)).

(** ** The invariant *)

Definition configured (cfgs : list MulticastInterface) (name : string) (info : interfaceInfo) : Prop :=
  ∃ c, c ∈ cfgs ∧ MatchString (mi_Regex c) name = true ∧ ii_password info = mi_Password c ∧
    ii_beacon info = mi_Beacon c ∧ ii_listen info = mi_Listen c.

Record mod_ok (m : multicast) : Prop := {
  mo_live : map_Forall (listener_live (mu_interfaces m)) (mu_listeners m);
  mo_configured : map_Forall (configured (mu_config m)) (mu_interfaces m);
  mo_sock : mu_running m = bool_decide (mu_sock m = Some true);
}.

Record life_ok (st : mc_life) : Prop := {
  lo_mod : mod_ok (ml_mod st);
  lo_reader : ∀ adv ip zone, ml_reader st = Asking adv ip zone → adv_checked pk adv;
}.

(** Without [AnnounceNow] there is one round to come while the module runs. *)
Record one_pending (st : mc_life) : Prop := {
  op_stuck : ml_stuck st = false;
  op_now : TNow ∉ ml_inbox st;
  op_count : (pending st <= 1)%nat;
  op_running : mu_running (ml_mod st) = true → pending st = 1%nat;
  op_fresh : ∀ k, k ∈ ml_armed st → (k < ml_next st)%nat;
}.

(** What a step may send. *)
Definition out_ok (st st' : mc_life) (out : list life_out) : Prop :=
  (∀ name msg, ORound (SendBeacon name msg) ∈ out → mu_running (ml_mod st') = true ∧
     ∃ info, mu_interfaces (ml_mod st') !! name = Some info ∧ configured (mu_config (ml_mod st')) name info ∧
       ii_beacon info = true ∧ beacon_of pk info msg) ∧
  (∀ u zone, OCall u zone ∈ out → ∃ c adv ip,
     ml_reader st = Asking adv ip zone ∧ adv_PublicKey adv ≠ pk ∧
     c ∈ mu_config (ml_mod st') ∧ MatchString (mi_Regex c) zone = true ∧ mi_Listen c = true ∧
     b2_sum512 (string_bytes (mi_Password c)) (adv_PublicKey adv) = Some (adv_Hash adv) ∧
     parse_pins (u_query u "key") [] = Ok [adv_PublicKey adv] ∧ u_query u "password" = [mi_Password c]).

Lemma out_ok_nil st st' : out_ok st st' [].
Proof. split; intros ?? Hin; by apply not_elem_of_nil in Hin. Qed.

Lemma announce_interfaces_ok env cfgs :
  (∀ name, re_order env name ≡ₚ cfgs) →
  map_Forall (λ name info, info_ok pk name info ∧ configured cfgs name info)
    (updateInterfaces (re_addrs env) (getAllowedInterfaces pk (re_order env) (re_ifaces env))).
Proof.
  intros Hord name info. unfold updateInterfaces. rewrite map_lookup_imap.
  destruct (getAllowedInterfaces _ _ _ !! name) as [i|] eqn:E; simpl; [|done]. destruct (re_addrs env name); simpl; [|done].
  intros [= <-]. apply getAllowedInterfaces_ok in E as (Hok & _ & ifs & i' & c & _ & _ & _ & _ & Hc & Hm & Hpw & Hb & Hl).
  split; [exact Hok|]. exists c. rewrite (Hord name) in Hc. by split_and!.
Qed.

Lemma life_announce_ok env st st' out :
  life_ok st → (∀ name, re_order env name ≡ₚ mu_config (ml_mod st)) → life_announce env st = (st', out) →
  life_ok st' ∧ out_ok st st' out.
Proof.
  intros [[Hl Hc Hs] Hr] Hord. unfold life_announce. destruct (mu_running (ml_mod st)) eqn:Er; cbn [negb].
  2:{ intros [= <- <-]. split; [|apply out_ok_nil]. split; [split; [done|done|by rewrite Er]|done]. }
  set (ifs := updateInterfaces _ _). destruct (announce pk _ _ ifs _) as [ls ev] eqn:Ea. intros [= <- <-].
  pose proof (announce_interfaces_ok env _ Hord) as Hi. fold ifs in Hi.
  destruct (announce_round_ok pk (re_now env) (re_listen env) ifs (mu_listeners (ml_mod st))) as [Hlive Hb].
  { intros n i Hn. by apply Hi in Hn as [[? _] _]. }
  rewrite Ea in Hlive, Hb. split; [split; [split; simpl; [done| |done]|done]|].
  { intros n i Hn. by apply Hi in Hn as [_ ?]. }
  split; simpl.
  - intros name msg (e & [= <-] & Hin)%list_elem_of_fmap_1. split; [done|].
    destruct (Hb name msg Hin) as (info & Hn & ? & ?). exists info. split_and!; try done. by apply Hi in Hn as [_ ?].
  - intros u zone (? & [=] & _)%list_elem_of_fmap_1.
Qed.

Lemma life_answer_ok st st' out : life_ok st → life_answer st = (st', out) → life_ok st' ∧ out_ok st st' out.
Proof.
  intros [Hm Hr]. unfold life_answer. destruct (ml_reader st) as [|adv ip zone|] eqn:Er.
  - intros [= <- <-]. split; [|apply out_ok_nil]. split; [done|]. by rewrite Er.
  - intros [= <- <-]. split.
    { split; [done|]. simpl. by destruct (mu_running (ml_mod st)). }
    destruct (listen_call _ ip zone adv) as [[u z]|] eqn:El; [|apply out_ok_nil].
    apply (listen_call_ok pk) in El as (-> & info & Hi & Hlis & Hh & Hkey & Hpw); [|by eapply Hr].
    destruct (mo_configured _ Hm _ _ Hi) as (c & Hc & Hmatch & Hp & _ & Hcl). destruct (Hr _ _ _ eq_refl) as (_ & _ & _ & _ & Hne).
    split; [intros ?? Hin%list_elem_of_singleton; discriminate Hin|intros ?? [= -> ->]%list_elem_of_singleton].
    exists c, adv, ip. rewrite <- Hp. split_and!; try done. by rewrite <- Hcl.
  - intros [= <- <-]. split; [|apply out_ok_nil]. split; [done|]. by rewrite Er.
Qed.

Lemma stop_ok m : mod_ok m → mod_ok (multicast_stop m).
Proof.
  intros [Hl Hc Hs]. unfold multicast_stop. destruct (mu_running m) eqn:Er; [|by split; rewrite ?Er].
  split; simpl; [done|done|]. by destruct (mu_sock m).
Qed.

Lemma life_run_ok env t st st' out :
  life_ok st → (∀ name, re_order env name ≡ₚ mu_config (ml_mod st)) → life_run env t st = (st', out) →
  life_ok st' ∧ out_ok st st' out.
Proof.
  intros Hok Hord. destruct t; simpl.
  - intros [= <- <-]. split; [done|apply out_ok_nil].
  - by apply life_announce_ok.
  - intros [= <- <-]. split; [|apply out_ok_nil]. destruct Hok as [Hm Hr].
    unfold life_now. repeat case_match; by split.
  - intros [= <- <-]. split; [|apply out_ok_nil]. destruct Hok as [Hm Hr]. split; [by apply stop_ok|done].
  - by apply life_answer_ok.
Qed.

Lemma life_read_ok d st : life_ok st → event_ok st (LRead d) → life_ok (life_read d st).
Proof.
  intros [Hm Hr] Hd. unfold life_read. destruct (ml_reader st) eqn:Er; [|by split; rewrite ?Er..].
  assert (life_ok (life_continue st)) as Hcont.
  { split; [done|]. simpl. by destruct (mu_running (ml_mod st)). }
  case_bool_decide; [|done]. destruct d as [d|]; [|done].
  destruct (listen_check _ _ _ _) as [adv|] eqn:Ec; [|done].
  apply listen_check_ok in Ec as [Hadv _]; [|by apply bytes_ok_take]. split; [done|]. simpl. by intros adv' ip zone [= <- <- <-].
Qed.

Lemma life_step_ok ev st st' out :
  life_ok st → event_ok st ev → life_step ev st = (st', out) → life_ok st' ∧ out_ok st st' out.
Proof.
  intros Hok Hev. destruct ev; simpl.
  - destruct (ml_stuck st); [intros [= <- <-]; split; [done|apply out_ok_nil]|].
    destruct (ml_inbox st) as [|t inbox]; [intros [= <- <-]; split; [done|apply out_ok_nil]|].
    intros Hrun. apply (life_run_ok env t (set_inbox inbox st)) in Hrun as [Hok' Hout]; [by split|by destruct Hok|exact Hev].
  - intros [= <- <-]. split; [|apply out_ok_nil]. case_bool_decide; by destruct Hok.
  - intros [= <- <-]. split; [by apply life_read_ok|apply out_ok_nil].
  - intros [= <- <-]. split; [|apply out_ok_nil]. by destruct Hok.
  - intros [= <- <-]. split; [|apply out_ok_nil]. by destruct Hok.
Qed.

(** *** The beacon being handled *)

(** [adv] is what the datagram [d] says, which another node of this version sent
    to the group. *)
Definition beacon_in (d : datagram) (adv : multicastAdvertisement) : Prop :=
  (∀ dst, dg_dst d = Some dst → dst = group ∧ IsLinkLocalMulticast dst = true) ∧
  MarshalBinary adv = take (40 + length (adv_Hash adv)) (take 2048 (dg_bytes d)) ∧ adv_checked pk adv.

Lemma listen_check_beacon d adv :
  bytes_ok (dg_bytes d) → listen_check pk group (dg_dst d) (take 2048 (dg_bytes d)) = Some adv → beacon_in d adv.
Proof.
  intros Hb Hc. destruct (listen_check_ok pk group (dg_dst d) (take 2048 (dg_bytes d)) adv) as [Hadv Hm];
    [by apply bytes_ok_take|done|].
  split; [|done]. intros dst Hd. unfold listen_check in Hc. rewrite Hd in Hc.
  destruct (IsLinkLocalMulticast dst) eqn:El; simpl in Hc; [|done]. case_bool_decide; simpl in Hc; [done|done].
Qed.

Lemma step_reader ev st st' out adv ip zone :
  event_ok st ev → life_step ev st = (st', out) → ml_reader st' = Asking adv ip zone →
  ml_reader st = Asking adv ip zone ∨
  ∃ d, ev = LRead (Some d) ∧ dg_ip d = ip ∧ dg_zone d = zone ∧ beacon_in d adv.
Proof.
  intros Hev. assert (∀ st0, ml_reader (life_continue st0) ≠ Asking adv ip zone) as Hcont.
  { intros st0. simpl. by destruct (mu_running (ml_mod st0)). }
  destruct ev as [env|k|d| |]; simpl.
  - destruct (ml_stuck st); [intros [= <- _]; by left|]. destruct (ml_inbox st) as [|[] inbox]; simpl.
    1,2: intros [= <- _]; by left.
    + unfold life_announce. simpl. destruct (negb _); [intros [= <- _]; by left|].
      destruct (announce _ _ _ _ _) as [ls evs]. intros [= <- _]. by left.
    + intros [= <- _]. unfold life_now. repeat case_match; by left.
    + intros [= <- _]. by left.
    + unfold life_answer. simpl. destruct (ml_reader st) eqn:Er; intros [= <- _] Hr; [by left; rewrite <- Er|by destruct (Hcont (set_inbox inbox st))|by left; rewrite <- Er].
  - intros [= <- _]. case_bool_decide; by left.
  - intros [= <- _]. unfold life_read. destruct (ml_reader st) eqn:Er; [|by rewrite Er; left..].
    case_bool_decide; [|intros Hr; by destruct (Hcont st)]. destruct d as [d|]; [|intros Hr; by destruct (Hcont st)].
    destruct (listen_check _ _ _ _) as [adv'|] eqn:Ec; [|intros Hr; by destruct (Hcont st)].
    intros [= <- <- <-]. right. exists d. split_and!; [done..|]. by apply listen_check_beacon.
  - intros [= <- _]. by left.
  - intros [= <- _]. by left.
Qed.

(** *** The rounds to come *)

Lemma announces_app l1 l2 : announces (l1 ++ l2) = (announces l1 + announces l2)%nat.
Proof. unfold announces. by rewrite filter_app, length_app. Qed.

(** A timer that ends becomes a message. *)
Lemma fire_pending k st : one_pending st → one_pending (if bool_decide (k ∈ ml_armed st) then post TAnnounce (set_armed (ml_armed st ∖ {[k]}) st) else st).
Proof.
  intros [Hs Hn Hc Hr Hf]. case_bool_decide as Hk; [|done].
  assert (pending (post TAnnounce (set_armed (ml_armed st ∖ {[k]}) st)) = pending st) as Hp.
  { unfold pending. simpl. rewrite announces_app, size_difference, size_singleton by set_solver.
    pose proof (subseteq_size {[k]} (ml_armed st) ltac:(set_solver)) as Hsz. rewrite size_singleton in Hsz. unfold announces at 2. simpl. lia. }
  split; rewrite ?Hp; try done.
  - simpl. rewrite not_elem_of_app, not_elem_of_cons. by split_and!; [|done|apply not_elem_of_nil].
  - simpl. intros j Hj. apply Hf. set_solver.
Qed.

Lemma run_pending env t inbox st :
  ml_inbox st = t :: inbox → one_pending st → one_pending (fst (life_run env t (set_inbox inbox st))).
Proof.
  intros Hi [Hs Hn Hc Hr Hf]. rewrite Hi, not_elem_of_cons in Hn. destruct Hn as [Hnt Hn].
  assert (t ≠ TAnnounce → pending (set_inbox inbox st) = pending st) as Hsame.
  { intros Ht. unfold pending, announces. simpl. rewrite Hi, filter_cons_False by done. done. }
  destruct t; simpl; try (by destruct Hnt).
  - rewrite <- Hsame in Hc, Hr by done. by split.
  - assert (pending st = S (pending (set_inbox inbox st))) as Hp.
    { unfold pending, announces. simpl. rewrite Hi, filter_cons_True by done. done. }
    unfold life_announce. simpl. destruct (mu_running (ml_mod st)) eqn:Er; cbn [negb].
    2:{ split; simpl; try done; [lia|]. by rewrite Er. }
    destruct (announce _ _ _ _ _) as [ls ev]. simpl. specialize (Hr eq_refl).
    assert (size ({[ml_next st]} ∪ ml_armed st) = S (size (ml_armed st))) as Hsz.
    { rewrite size_union, size_singleton; [lia|]. apply disjoint_singleton_l. intros Hin%Hf. lia. }
    unfold pending in *. simpl in *. split; simpl; try done; unfold pending; simpl; rewrite ?Hsz; try lia.
    intros k [->%elem_of_singleton|Hk%Hf]%elem_of_union; lia.
  - rewrite <- Hsame in Hc, Hr by done. split; try done. simpl. unfold multicast_stop.
    destruct (mu_running (ml_mod st)) eqn:Er; [done|]. by rewrite Er.
  - rewrite <- Hsame in Hc, Hr by done. unfold life_answer. simpl. destruct (ml_reader st); by split.
Qed.

Lemma step_pending ev st : ev ≠ LAnnounceNow → one_pending st → one_pending (fst (life_step ev st)).
Proof.
  intros Hev Hp. destruct ev; simpl; [|by apply fire_pending| |done|].
  - destruct (ml_stuck st); [done|]. destruct (ml_inbox st) as [|t inbox] eqn:Hi; [done|]. by apply run_pending.
  - assert (one_pending (life_continue st)) as Hcont by (by destruct Hp).
    unfold life_read. destruct (ml_reader st); [|done..]. case_bool_decide; [|done]. destruct d as [d|]; [|done].
    destruct (listen_check _ _ _ _); [|done]. destruct Hp as [Hs Hn Hc Hr Hf].
    assert (∀ r, pending (post TInterfaces (set_reader r st)) = pending st) as Hsame.
    { intros r. unfold pending. simpl. by rewrite announces_app, Nat.add_0_r. }
    split; rewrite ?Hsame; try done. simpl. rewrite not_elem_of_app, not_elem_of_cons. by split_and!; [|done|apply not_elem_of_nil].
  - destruct Hp as [Hs Hn Hc Hr Hf].
    assert (pending (post TStop st) = pending st) as Hsame by (unfold pending; simpl; by rewrite announces_app, Nat.add_0_r).
    split; rewrite ?Hsame; try done. simpl. rewrite not_elem_of_app, not_elem_of_cons. by split_and!; [|done|apply not_elem_of_nil].
Qed.

Lemma options_unused opts m :
  mu_listeners m = ∅ ∧ mu_interfaces m = ∅ →
  mu_listeners (foldl mc_applyOption m opts) = ∅ ∧ mu_interfaces (foldl mc_applyOption m opts) = ∅.
Proof. revert m. induction opts as [|[] opts IH]; intros m Hm; [done|by apply IH..]. Qed.

Lemma new_unused resolve bind opts m :
  multicast_New resolve bind opts = (m, None, true) →
  mu_running m = true ∧ mu_sock m = Some true ∧ mu_listeners m = ∅ ∧ mu_interfaces m = ∅.
Proof.
  intros Hm. destruct (multicast_lifecycle _ _ _ _ _ _ Hm) as (Hr & Hgo & _). destruct (Hgo eq_refl) as (_ & _ & Hs).
  split; [done|]. split; [done|]. revert Hm. unfold multicast_New, multicast_start.
  destruct (options_unused opts (Multicast_ false None ∅ ∅ "[ff02::114]:9001" []) (conj eq_refl eq_refl)) as [H1 H2].
  repeat case_match; intros [= <-]; done.
Qed.

Lemma life_reach_ok now st : life_reach now st → life_ok st ∧ (now = false → one_pending st).
Proof.
  induction 1 as [resolve bind opts m Hm|st ev _ [IH1 IH2] Hev Hnow].
  - destruct (new_unused _ _ _ _ Hm) as (Hr & Hs & Hl & Hi). split.
    + split; [|done]. split; simpl; [by rewrite Hl|by rewrite Hi|by rewrite Hr, Hs].
    + intros _. split; simpl; try done. rewrite !not_elem_of_cons. split_and!; [done..|apply not_elem_of_nil].
  - destruct (life_step ev st) as [st' out] eqn:Es. destruct (life_step_ok ev st st' out IH1 Hev Es) as [Hok _].
    split; [done|]. intros Hn. rewrite <- Es. apply step_pending; [intros ->; by rewrite Hnow in Hn|by apply IH2].
Qed.

(** C33: multicast_history.  In every history of rounds, timers, datagrams and
    calls from outside: each listener is bound to an address of an interface in
    use; beacons are sent only while the module runs, on interfaces that a
    configuration enables for beacons, and announce this node with the hash of
    that configuration's password; and a peer is called only for the beacon that
    the reader is handling, when it came from another node on an interface with a
    configuration that listens and its hash is that of its key under the
    configured password, and the call is pinned to that key. The beacon being
    handled is what the datagram said that was read last, which was sent to the
    group by another node of this version. As long as [AnnounceNow] is not called, the actor never waits
    for ever, and exactly one round is to come while the module runs, at most one
    after it was stopped. *)
Theorem multicast_history now st ev :
  life_reach now st → event_ok st ev →
  let '(st', out) := life_step ev st in
  map_Forall (listener_live (mu_interfaces (ml_mod st'))) (mu_listeners (ml_mod st')) ∧
  (∀ name msg, ORound (SendBeacon name msg) ∈ out → mu_running (ml_mod st') = true ∧
     ∃ info, mu_interfaces (ml_mod st') !! name = Some info ∧ configured (mu_config (ml_mod st')) name info ∧
       ii_beacon info = true ∧ beacon_of pk info msg) ∧
  (∀ u zone, OCall u zone ∈ out → ∃ c adv ip,
     ml_reader st = Asking adv ip zone ∧ adv_PublicKey adv ≠ pk ∧
     c ∈ mu_config (ml_mod st') ∧ MatchString (mi_Regex c) zone = true ∧ mi_Listen c = true ∧
     b2_sum512 (string_bytes (mi_Password c)) (adv_PublicKey adv) = Some (adv_Hash adv) ∧
     parse_pins (u_query u "key") [] = Ok [adv_PublicKey adv] ∧ u_query u "password" = [mi_Password c]) ∧
  (∀ adv ip zone, ml_reader st' = Asking adv ip zone →
     ml_reader st = Asking adv ip zone ∨
     ∃ d, ev = LRead (Some d) ∧ dg_ip d = ip ∧ dg_zone d = zone ∧ beacon_in d adv) ∧
  (now = false → ev ≠ LAnnounceNow →
     ml_stuck st' = false ∧ (pending st' <= 1)%nat ∧ (mu_running (ml_mod st') = true → pending st' = 1%nat)).
Proof.
  intros Hr Hev. destruct (life_reach_ok now st Hr) as [Hok Hp]. destruct (life_step ev st) as [st' out] eqn:Es.
  destruct (life_step_ok ev st st' out Hok Hev Es) as [[[Hl _ _] _] [Hb Hc]].
  split_and!; [done..|by intros; eapply step_reader|].
  intros Hn Hnow. pose proof (step_pending ev st Hnow (Hp Hn)) as [Hs _ Hle Hrun _]. rewrite Es in Hs, Hle, Hrun. simpl in *.
  done.
Qed.

(** A call of [AnnounceNow] that is handled after the timer ended and before the
    round it asked for stops the actor for ever: no message is handled any more. *)
Theorem announce_now_blocks env st inbox k evs :
  ml_stuck st = false → ml_inbox st = TNow :: inbox → ml_timer st = Some k → k ∉ ml_armed st →
  let st1 := fst (life_step (LRun env) st) in
  ml_stuck st1 = true ∧
  let run := foldl (λ '(st, out) ev, let '(st, out') := life_step ev st in (st, out ++ out')) (st1, []) evs in
  ml_stuck (fst run) = true ∧ snd run = [] ∧ inbox `prefix_of` ml_inbox (fst run).
Proof.
  intros Hs Hi Ht Hk. simpl. rewrite Hs, Hi. simpl. unfold life_now. simpl. rewrite Ht, bool_decide_false by done.
  split; [done|]. assert (∀ st0, ml_stuck st0 = true → inbox `prefix_of` ml_inbox st0 →
    let run := foldl (λ '(st, out) ev, let '(st, out') := life_step ev st in (st, out ++ out')) (st0, []) evs in
    ml_stuck (fst run) = true ∧ snd run = [] ∧ inbox `prefix_of` ml_inbox (fst run)) as Hall; [|by apply Hall].
  clear. induction evs as [|ev evs IH]; intros st Hs Hpre; [done|]. simpl.
  assert (∃ st', life_step ev st = (st', []) ∧ ml_stuck st' = true ∧ inbox `prefix_of` ml_inbox st') as (st' & -> & Hs' & Hp').
  { assert (∀ t, inbox `prefix_of` ml_inbox st ++ [t]) by (intros t; by apply prefix_app_r).
    destruct ev as [env|k|d| |]; simpl; [rewrite Hs|case_bool_decide|unfold life_read; repeat case_match| |]; eexists; (split; [reflexivity|split; [exact Hs|simpl; auto]]). }
  by apply IH.
Qed.
End Life.

Module MulticastLifeWitness.
Import ToySig HandshakeWitness LinksWitness MulticastWitness.

Definition mod0 : multicast := fst (fst (multicast_New (λ _, Some 9001) (λ _, true) [McInterface (cfg "secret")])).
Definition env0 : round_env := RoundEnv (λ _, [cfg "secret"]) (Some [eth0]) (λ _, Some [None; Some fe80]) 0 (λ _ _, Some (1%nat, 4321)).
Definition next (ev : life_event) (st : mc_life) : mc_life := fst (life_step keyB ff02 ev st).
Definition gram : datagram := Datagram (Some ff02) fe80 "eth0" beacon.

(** A module of [keyB] whose first round is over and which received the beacon of
    [keyA]. *)
Definition life0 : mc_life := life_start mod0.
Definition life1 : mc_life := next (LRun env0) (next (LRun env0) life0).
Definition life2 : mc_life := next (LRead (Some gram)) life1.

Lemma life1_reach now : life_reach keyB ff02 now life1.
Proof.
  apply lr_step; [apply lr_step; [|intros n; done|done]|intros n; done|done].
  by apply (lr_start _ _ _ (λ _, Some 9001) (λ _, true) [McInterface (cfg "secret")]).
Qed.

Lemma life2_reach now : life_reach keyB ff02 now life2.
Proof. apply lr_step; [apply life1_reach| |done]. simpl. by vm_compute; repeat constructor. Qed.

(** The actor answers the reader, which calls the node whose beacon it read. *)
Lemma multicast_history_witness :
  ∃ u, snd (life_step keyB ff02 (LRun env0) life2) = [OCall u "eth0"] ∧
    ∃ c adv ip, ml_reader life2 = Asking adv ip "eth0" ∧
      b2_sum512 (string_bytes (mi_Password c)) (adv_PublicKey adv) = Some (adv_Hash adv) ∧
      parse_pins (u_query u "key") [] = Ok [adv_PublicKey adv].
Proof.
  pose proof (multicast_history keyB ff02 false life2 (LRun env0) (life2_reach false) (λ name, reflexivity _)) as Hh.
  destruct (life_step keyB ff02 (LRun env0) life2) as [st' out] eqn:Es.
  assert (∃ u, out = [OCall u "eth0"]) as [u ->].
  { change out with (snd (st', out)). rewrite <- Es. eexists. vm_compute. reflexivity. }
  exists u. split; [reflexivity|]. destruct Hh as (_ & _ & Hc & _).
  destruct (Hc u "eth0" (list_elem_of_here _ _)) as (c & adv & ip & Hr & _ & _ & _ & _ & Hh & Hp & _).
  exists c, adv, ip. split_and!; [exact Hr|exact Hh|exact Hp].
Defined.

(** [AnnounceNow] is called, the timer of the first round ends before the actor
    handles the call, and the actor waits for ever with the round in its inbox. *)
Lemma announce_now_blocks_run :
  let st := next (LRun env0) (next (LFire 0) (next LAnnounceNow life1)) in
  ml_stuck st = true ∧ ml_inbox st = [TAnnounce] ∧ mu_running (ml_mod st) = true.
Proof. vm_compute. by split_and!. Qed.
End MulticastLifeWitness.
