(* ===== verification/Config.v ===== *)
(** * Config: the configuration of a node
    (config.go and defaults*.go of src/config)

    The configuration structure with its platform defaults, the reading of a
    configuration on top of them, the private key in hexadecimal and in PEM form,
    and the self-signed certificate that carries it. HJSON, UTF-16, PEM, PKCS #8
    and X.509 are parameters. *)

From S2P Require Import Prelude Address Crypto Links GoLib.
From Stdlib Require Import Ascii.

Open Scope string_scope.
Open Scope list_scope.
Open Scope Z_scope.

(** ** Structures *)

Record MulticastInterfaceConfig := MulticastInterfaceConfig_ {
  mc_Regex : string;
  mc_Beacon : bool;
  mc_Listen : bool;
  mc_Port : Z;
  mc_Priority : Z;
  mc_Password : string;
}.

(** What the sources read of a [tls.Certificate]: its private key and the public
    key of its leaf. *)
Record certificate := Certificate_ {
  cert_PrivateKey : bytes;
  cert_PublicKey : bytes;
}.

(** [NodeInfo] is the raw map. *)
Record NodeConfig := NodeConfig_ {
  cf_PrivateKey : bytes;
  cf_PrivateKeyPath : string;
  cf_Certificate : option certificate;
  cf_Peers : list string;
  cf_InterfacePeers : list (string * list string);
  cf_Listen : list string;
  cf_AdminListen : string;
  cf_MulticastInterfaces : list MulticastInterfaceConfig;
  cf_AllowedPublicKeys : list string;
  cf_GroupPassword : string;
  cf_IfName : string;
  cf_IfMTU : Z;
  cf_LogLookups : bool;
  cf_NodeInfoPrivacy : bool;
  cf_NodeInfo : gmap string string;
}.

Record platformDefaultParameters := PlatformDefaults {
  pd_AdminListen : string;
  pd_ConfigFile : string;
  pd_MulticastInterfaces : list MulticastInterfaceConfig;
  pd_MaximumIfMTU : Z;
  pd_IfMTU : Z;
  pd_IfName : string;
}.

(** ** Platform defaults *)

Inductive platform := Linux | Darwin | FreeBSD | OpenBSD | Windows | Other.

Definition discover (regex : string) : MulticastInterfaceConfig :=
  MulticastInterfaceConfig_ regex true true 0 0 "".

Definition defaults_linux : platformDefaultParameters :=
  PlatformDefaults "unix:///var/run/uqda.sock" "/etc/uqda.conf" [discover ".*"] 65535 65535 "auto".
Definition defaults_darwin : platformDefaultParameters :=
  PlatformDefaults "unix:///var/run/uqda.sock" "/etc/uqda.conf"
    [discover "en.*"; discover "bridge.*"; MulticastInterfaceConfig_ "awdl0" false false 0 0 ""]
    65535 65535 "auto".
Definition defaults_freebsd : platformDefaultParameters :=
  PlatformDefaults "unix:///var/run/uqda.sock" "/usr/local/etc/uqda.conf" [discover ".*"] 32767 32767 "/dev/tun0".
Definition defaults_openbsd : platformDefaultParameters :=
  PlatformDefaults "unix:///var/run/uqda.sock" "/etc/uqda.conf" [discover ".*"] 16384 16384 "tun0".
Definition defaults_other : platformDefaultParameters :=
  PlatformDefaults "tcp://localhost:9001" "/etc/uqda.conf" [discover ".*"] 65535 65535 "none".

(** [joined] is [filepath.Join] of the ProgramData variable with the file. *)
Definition windowsConfigFile (programData joined : string) : string :=
  if String.eqb programData "" then "C:\ProgramData\UQDA\uqda.conf" else joined.

Definition defaults_windows (programData joined : string) : platformDefaultParameters :=
  PlatformDefaults "tcp://localhost:19001" (windowsConfigFile programData joined) [discover ".*"] 65535 65535 "UQDA".

Definition getDefaults (p : platform) (programData joined : string) : platformDefaultParameters :=
  match p with
  | Linux => defaults_linux
  | Darwin => defaults_darwin
  | FreeBSD => defaults_freebsd
  | OpenBSD => defaults_openbsd
  | Windows => defaults_windows programData joined
  | Other => defaults_other
  end.

(** [GetDefaults]: the two strings that the linker may set override. *)
Definition GetDefaults (defaultConfig defaultAdminListen : string) (d : platformDefaultParameters) :
    platformDefaultParameters :=
  PlatformDefaults
    (if String.eqb defaultAdminListen "" then pd_AdminListen d else defaultAdminListen)
    (if String.eqb defaultConfig "" then pd_ConfigFile d else defaultConfig)
    (pd_MulticastInterfaces d) (pd_MaximumIfMTU d) (pd_IfMTU d) (pd_IfName d).

(** ** Keys and certificates *)

(** The kinds of key that [x509.ParsePKCS8PrivateKey] can return. *)
Inductive pkcs8_key := Ed25519Key (key : bytes) | OtherKey.

(** What the package uses of crypto/x509, crypto/tls, encoding/pem, hjson and
    x/text: [None] is an error. [NewKeyFromSeed] is that of crypto/ed25519. *)
Class ConfigLib := {
  NewKeyFromSeed : bytes → bytes;
  MarshalPKCS8 : bytes → option bytes;
  ParsePKCS8 : bytes → option pkcs8_key;
  pem_Encode : string → bytes → bytes;
  pem_Decode : bytes → option (string * bytes);
  CreateCertificate : string → bytes → bytes → option bytes;   (* common name, public, private *)
  X509KeyPair : bytes → bytes → option certificate;
  hjson_Unmarshal : bytes → NodeConfig → NodeConfig * bool;
  utf16_decode : bytes → option bytes;
}.

Inductive config_error :=
| ErrRead | ErrUTF16 | ErrHJSON | ErrReadKeyFile | ErrPEM | ErrPEMType (t : string) | ErrPKCS8 | ErrNotEd25519
| ErrKeyLength | ErrMarshalPKCS8 | ErrCreateCertificate | ErrKeyPair.

Definition set_PrivateKey (cfg : NodeConfig) (k : bytes) : NodeConfig :=
  NodeConfig_ k (cf_PrivateKeyPath cfg) (cf_Certificate cfg) (cf_Peers cfg) (cf_InterfacePeers cfg) (cf_Listen cfg)
    (cf_AdminListen cfg) (cf_MulticastInterfaces cfg) (cf_AllowedPublicKeys cfg) (cf_GroupPassword cfg) (cf_IfName cfg)
    (cf_IfMTU cfg) (cf_LogLookups cfg) (cf_NodeInfoPrivacy cfg) (cf_NodeInfo cfg).

Definition set_Certificate (cfg : NodeConfig) (c : option certificate) : NodeConfig :=
  NodeConfig_ (cf_PrivateKey cfg) (cf_PrivateKeyPath cfg) c (cf_Peers cfg) (cf_InterfacePeers cfg) (cf_Listen cfg)
    (cf_AdminListen cfg) (cf_MulticastInterfaces cfg) (cf_AllowedPublicKeys cfg) (cf_GroupPassword cfg) (cf_IfName cfg)
    (cf_IfMTU cfg) (cf_LogLookups cfg) (cf_NodeInfoPrivacy cfg) (cf_NodeInfo cfg).

Section Keys.
Context `{ConfigLib}.

(** [KeyBytes.MarshalJSON] and [UnmarshalJSON] on the string inside the JSON
    quotes. *)
Definition KeyBytes_Marshal (k : bytes) : string := EncodeToString k.
Definition KeyBytes_Unmarshal (s : string) : option bytes := hex_DecodeString s.

(** [ed25519.PrivateKey.Public]: a copy of the second half; shorter keys than a
    seed panic. *)
Definition ed_PublicHalf (priv : bytes) : res config_error bytes :=
  if (length priv <? 32)%nat then Panic else Ok (copy (replicate 32 0) (drop 32 priv)).

Definition MarshalPEMPrivateKey (cfg : NodeConfig) : res config_error bytes :=
  if (length (cf_PrivateKey cfg) <? 32)%nat then Panic
  else
    b ← or_err ErrMarshalPKCS8 (MarshalPKCS8 (cf_PrivateKey cfg));
    Ok (pem_Encode "PRIVATE KEY" b).

Definition UnmarshalPEMPrivateKey (cfg : NodeConfig) (b : bytes) : res config_error NodeConfig :=
  match pem_Decode b with
  | None => Err ErrPEM
  | Some (t, der) =>
      if negb (String.eqb t "PRIVATE KEY") then Err (ErrPEMType t)
      else
        match ParsePKCS8 der with
        | None => Err ErrPKCS8
        | Some OtherKey => Err ErrNotEd25519
        | Some (Ed25519Key key) =>
            if negb (Nat.eqb (length key) PrivateKeySize) then Err ErrKeyLength
            else Ok (set_PrivateKey cfg key)
        end
  end.

Definition MarshalPEMCertificate (cfg : NodeConfig) : res config_error bytes :=
  pub ← ed_PublicHalf (cf_PrivateKey cfg);
  der ← or_err ErrCreateCertificate (CreateCertificate (EncodeToString pub) pub (cf_PrivateKey cfg));
  Ok (pem_Encode "CERTIFICATE" der).

Definition GenerateSelfSignedCertificate (cfg : NodeConfig) : res config_error NodeConfig :=
  key ← MarshalPEMPrivateKey cfg;
  cert ← MarshalPEMCertificate cfg;
  tlsCert ← or_err ErrKeyPair (X509KeyPair cert key);
  Ok (set_Certificate cfg (Some tlsCert)).

(** [NewPrivateKey]; [seed] is what [ed25519.GenerateKey] draws. *)
Definition NewPrivateKey (cfg : NodeConfig) (seed : bytes) : NodeConfig :=
  set_PrivateKey cfg (NewKeyFromSeed seed).

(** [postprocessConfig]; [readFile] gives the contents of a file or an error. *)
Definition load_key_file (readFile : string → option bytes) (cfg : NodeConfig) : res config_error NodeConfig :=
  if String.eqb (cf_PrivateKeyPath cfg) "" then Ok cfg
  else
    let cfg := set_PrivateKey cfg [] in
    f ← or_err ErrReadKeyFile (readFile (cf_PrivateKeyPath cfg));
    UnmarshalPEMPrivateKey cfg f.

Definition postprocessConfig (readFile : string → option bytes) (cfg : NodeConfig) : res config_error NodeConfig :=
  cfg ← load_key_file readFile cfg;
  match cf_Certificate cfg with
  | None => GenerateSelfSignedCertificate cfg
  | Some c =>
      if negb (bool_decide (cert_PrivateKey c = cf_PrivateKey cfg)) then GenerateSelfSignedCertificate cfg
      else Ok cfg
  end.

(** [GenerateConfig]; an error of the last step is a panic. *)
Definition zero_config : NodeConfig :=
  NodeConfig_ [] "" None [] [] [] "" [] [] "" "" 0 false false ∅.

Definition GenerateConfig (defaults : platformDefaultParameters) (seed : bytes) : res config_error NodeConfig :=
  let cfg := NewPrivateKey zero_config seed in
  let cfg := NodeConfig_ (cf_PrivateKey cfg) "" None [] [] [] (pd_AdminListen defaults)
    (pd_MulticastInterfaces defaults) [] "" (pd_IfName defaults) (pd_IfMTU defaults) false false ∅ in
  match postprocessConfig (λ _, None) cfg with
  | Err _ => Panic
  | r => r
  end.

Definition UnmarshalHJSON (readFile : string → option bytes) (cfg : NodeConfig) (b : bytes) :
    res config_error NodeConfig :=
  match hjson_Unmarshal b cfg with
  | (cfg, true) => postprocessConfig readFile cfg
  | (_, false) => Err ErrHJSON
  end.

Definition has_bom (conf : bytes) : bool :=
  (2 <=? len conf) && (bool_decide (take 2 conf = [0xFF; 0xFE]) || bool_decide (take 2 conf = [0xFE; 0xFF])).

(** [ReadFrom]; [r] is what reading the reader to its end gives. The number of
    bytes read is that of [r]. *)
Definition Config_ReadFrom (readFile : string → option bytes) (defaults : platformDefaultParameters) (seed : bytes)
    (r : option bytes) : res config_error NodeConfig :=
  match r with
  | None => Err ErrRead
  | Some conf =>
      conf ← (if has_bom conf then or_err ErrUTF16 (utf16_decode conf) else Ok conf);
      cfg ← GenerateConfig defaults seed;
      UnmarshalHJSON readFile cfg conf
  end.
End Keys.

(** ** Properties *)

(** What the documentation of the packages promises. *)
Class ConfigLaws `{ConfigLib} : Prop := {
  seed_key : ∀ seed, length seed = 32%nat →
    length (NewKeyFromSeed seed) = 64%nat ∧ take 32 (NewKeyFromSeed seed) = seed;
  pem_roundtrip : ∀ t b, pem_Decode (pem_Encode t b) = Some (t, b);
  pkcs8_roundtrip : ∀ k, (32 <= length k)%nat →
    ∃ der, MarshalPKCS8 k = Some der ∧ ParsePKCS8 der = Some (Ed25519Key (NewKeyFromSeed (take 32 k)));
  keypair_key : ∀ der b c, X509KeyPair (pem_Encode "CERTIFICATE" der) (pem_Encode "PRIVATE KEY" b) = Some c →
    ParsePKCS8 b = Some (Ed25519Key (cert_PrivateKey c));
}.

Section ConfigTheorems.
Context `{ConfigLaws}.

(** A private key as [ed25519.GenerateKey] makes it. *)
Definition key_wf (k : bytes) : Prop := length k = 64%nat ∧ k = NewKeyFromSeed (take 32 k).

Lemma NewKeyFromSeed_wf seed : length seed = 32%nat → key_wf (NewKeyFromSeed seed).
Proof. intros Hs. destruct (seed_key seed Hs) as [Hl Ht]. split; [done|]. by rewrite Ht. Qed.

Lemma MarshalPEMPrivateKey_spec cfg pem :
  MarshalPEMPrivateKey cfg = Ok pem →
  ∃ der, pem = pem_Encode "PRIVATE KEY" der ∧
    ParsePKCS8 der = Some (Ed25519Key (NewKeyFromSeed (take 32 (cf_PrivateKey cfg)))).
Proof.
  unfold MarshalPEMPrivateKey. destruct (length (cf_PrivateKey cfg) <? 32)%nat eqn:E; [done|].
  apply Nat.ltb_ge in E. destruct (pkcs8_roundtrip _ E) as (der & Hm & Hp). rewrite Hm. simpl.
  intros [= <-]. eauto.
Qed.

(** A certificate that is generated carries the key with the configured seed;
    the rest of the configuration is kept. *)
Lemma GenerateSelfSignedCertificate_spec cfg cfg' :
  GenerateSelfSignedCertificate cfg = Ok cfg' →
  ∃ c, cfg' = set_Certificate cfg (Some c) ∧ cert_PrivateKey c = NewKeyFromSeed (take 32 (cf_PrivateKey cfg)).
Proof.
  unfold GenerateSelfSignedCertificate. destruct (MarshalPEMPrivateKey cfg) as [pem| |] eqn:Ek; simpl; [|done|done].
  apply MarshalPEMPrivateKey_spec in Ek as (der & -> & Hp).
  unfold MarshalPEMCertificate. destruct (ed_PublicHalf _) as [pub| |]; simpl; [|done|done].
  destruct (CreateCertificate _ _ _) as [cder|]; simpl; [|done].
  destruct (X509KeyPair _ _) as [c|] eqn:Ex; simpl; [|done]. intros [= <-]. exists c. split; [done|].
  apply keypair_key in Ex. congruence.
Qed.

(** The invariant of an accepted configuration. *)
Definition config_ok (cfg : NodeConfig) : Prop :=
  ∃ c, cf_Certificate cfg = Some c ∧
    (cert_PrivateKey c = cf_PrivateKey cfg ∨ cert_PrivateKey c = NewKeyFromSeed (take 32 (cf_PrivateKey cfg))).

Lemma postprocessConfig_ok readFile cfg cfg' : postprocessConfig readFile cfg = Ok cfg' → config_ok cfg'.
Proof.
  unfold postprocessConfig. destruct (load_key_file readFile cfg) as [cfg1| |]; simpl; [|done|done].
  assert (Hgen : ∀ c, GenerateSelfSignedCertificate cfg1 = Ok c → config_ok c).
  { intros c Hg. apply GenerateSelfSignedCertificate_spec in Hg as (c' & -> & Hc). exists c'. auto. }
  destruct (cf_Certificate cfg1) as [c|] eqn:Ec; [|by apply Hgen].
  case_bool_decide as Eq; simpl; [|by apply Hgen]. intros [= <-]. exists c. auto.
Qed.

(** Loading a key file replaces the key and nothing else. *)
Lemma load_key_file_spec readFile cfg cfg' :
  load_key_file readFile cfg = Ok cfg' →
  (cf_PrivateKeyPath cfg = "" ∧ cfg' = cfg) ∨
  ∃ key, length key = PrivateKeySize ∧ cfg' = set_PrivateKey cfg key.
Proof.
  unfold load_key_file. destruct (String.eqb_spec (cf_PrivateKeyPath cfg) "") as [->|]; [intros [= <-]; auto|].
  simpl. destruct (readFile _) as [f|]; simpl; [|done]. unfold UnmarshalPEMPrivateKey.
  destruct (pem_Decode f) as [[t der]|]; [|done]. destruct (String.eqb t "PRIVATE KEY"); simpl; [|done].
  destruct (ParsePKCS8 der) as [[key|]|]; try done.
  destruct (Nat.eqb_spec (length key) PrivateKeySize); simpl; [|done]. intros [= <-]. right. by exists key.
Qed.

(** C37: config_certificate_matches_key. Every configuration that is read
    without an error carries a certificate, and the private key in it has the
    seed of the configured key; when the configured key is one that ed25519
    generated, the two are equal. The defaults that the configuration does not
    set are those of the platform. *)
Theorem config_certificate_matches_key readFile defaults seed r cfg :
  length seed = 32%nat →
  Config_ReadFrom readFile defaults seed r = Ok cfg →
  (∃ c, cf_Certificate cfg = Some c ∧
     (key_wf (cf_PrivateKey cfg) → cert_PrivateKey c = cf_PrivateKey cfg) ∧
     (length (cf_PrivateKey cfg) = 64%nat → take 32 (cert_PrivateKey c) = take 32 (cf_PrivateKey cfg))) ∧
  ∃ base conf parsed, GenerateConfig defaults seed = Ok base ∧ hjson_Unmarshal conf base = (parsed, true) ∧
    cf_AdminListen base = pd_AdminListen defaults ∧ cf_IfName base = pd_IfName defaults ∧
    cf_IfMTU base = pd_IfMTU defaults ∧ cf_MulticastInterfaces base = pd_MulticastInterfaces defaults ∧
    key_wf (cf_PrivateKey base) ∧
    cf_AdminListen cfg = cf_AdminListen parsed ∧ cf_IfMTU cfg = cf_IfMTU parsed ∧ cf_Peers cfg = cf_Peers parsed.
Proof.
  intros Hseed. unfold Config_ReadFrom. destruct r as [conf|]; [|done].
  set (dec := if has_bom conf then _ else _). destruct dec as [conf'| |]; simpl; [|done|done].
  destruct (GenerateConfig defaults seed) as [base| |] eqn:Eb; simpl; [|done|done].
  unfold UnmarshalHJSON. destruct (hjson_Unmarshal conf' base) as [parsed [|]] eqn:Eh; [|done]. intros Hpost. split.
  - destruct (postprocessConfig_ok _ _ _ Hpost) as (c & Hc & Hk). exists c. split_and!; [done| |].
    + intros [_ Hwf]. destruct Hk as [->|Hk]; [done|]. congruence.
    + intros Hl. destruct Hk as [->| ->]; [done|]. apply seed_key. rewrite length_take. lia.
  - exists base, conf', parsed. split_and!; try done.
    all: try (unfold GenerateConfig, postprocessConfig in Eb; simpl in Eb;
      destruct (GenerateSelfSignedCertificate _) eqn:Eg; try done; simplify_eq;
      apply GenerateSelfSignedCertificate_spec in Eg as (c & -> & _); try done; by apply NewKeyFromSeed_wf).
    all: unfold postprocessConfig in Hpost; destruct (load_key_file readFile parsed) as [p1| |] eqn:El; simpl in Hpost; try done.
    all: assert (Hp1 : cf_AdminListen p1 = cf_AdminListen parsed ∧ cf_IfMTU p1 = cf_IfMTU parsed ∧ cf_Peers p1 = cf_Peers parsed)
      by (apply load_key_file_spec in El as [[_ ->]|(key & _ & ->)]; done).
    all: destruct (cf_Certificate p1); [destruct (negb _)|]; simplify_eq; try apply Hp1.
    all: apply GenerateSelfSignedCertificate_spec in Hpost as (c' & -> & _); apply Hp1.
Qed.

(** pem_key_roundtrip. A private key that is exported in PEM form and
    loaded through the key file path is the same key, and the certificate made
    for it carries it. *)
Theorem pem_key_roundtrip readFile cfg other pem cfg' :
  key_wf (cf_PrivateKey cfg) →
  MarshalPEMPrivateKey cfg = Ok pem →
  cf_PrivateKeyPath other ≠ "" → readFile (cf_PrivateKeyPath other) = Some pem →
  postprocessConfig readFile other = Ok cfg' →
  cf_PrivateKey cfg' = cf_PrivateKey cfg ∧
  ∃ c, cf_Certificate cfg' = Some c ∧ cert_PrivateKey c = cf_PrivateKey cfg.
Proof.
  intros [Hlen Hwf] Hm Hpath Hread. apply MarshalPEMPrivateKey_spec in Hm as (der & -> & Hp).
  unfold postprocessConfig.
  assert (Hload : load_key_file readFile other = Ok (set_PrivateKey other (cf_PrivateKey cfg))).
  { unfold load_key_file. rewrite (proj2 (String.eqb_neq _ _)) by done. simpl. rewrite Hread. simpl.
    unfold UnmarshalPEMPrivateKey. rewrite pem_roundtrip. simpl. rewrite Hp, <- Hwf.
    unfold PrivateKeySize. by rewrite Hlen. }
  rewrite Hload. simpl.
  assert (Hgen : ∀ c0, GenerateSelfSignedCertificate (set_PrivateKey other (cf_PrivateKey cfg)) = Ok c0 →
    cf_PrivateKey c0 = cf_PrivateKey cfg ∧ ∃ c, cf_Certificate c0 = Some c ∧ cert_PrivateKey c = cf_PrivateKey cfg).
  { intros c0 Hg. apply GenerateSelfSignedCertificate_spec in Hg as (c & -> & Hc). split; [done|].
    exists c. split; [done|]. rewrite Hc. cbn [cf_PrivateKey set_PrivateKey]. by rewrite <- Hwf. }
  destruct (cf_Certificate other) as [c|] eqn:Ec; [|apply Hgen].
  case_bool_decide as Eq; simpl; [|apply Hgen]. intros [= <-]. split; [done|]. exists c. by rewrite <- Eq.
Qed.
End ConfigTheorems.

(** The hexadecimal form of a key in a configuration is read back as the key. *)
Lemma KeyBytes_roundtrip k : bytes_ok k → KeyBytes_Unmarshal (KeyBytes_Marshal k) = Some k.
Proof. apply hex_decode_encode. Qed.

Module ConfigWitness.
Import ToySig.

(** A toy library: the public half of a key is its seed with the bits of every
    byte flipped; PKCS #8 is the seed, PEM prefixes a tag. *)
#[export] Instance toy_config : ConfigLib := {
  NewKeyFromSeed seed := seed ++ ((λ b, Z.lxor b 255) <$> seed);
  MarshalPKCS8 k := Some (take 32 k);
  ParsePKCS8 b := Some (Ed25519Key (b ++ ((λ b, Z.lxor b 255) <$> b)));
  pem_Encode t b := (if String.eqb t "PRIVATE KEY" then [1] else 2 :: len (string_bytes t) :: string_bytes t) ++ b;
  pem_Decode b := match b with
                  | 1 :: b => Some ("PRIVATE KEY", b)
                  | 2 :: n :: b =>
                      Some (String.string_of_list_ascii ((λ c, ascii_of_nat (Z.to_nat c)) <$> take (Z.to_nat n) b), drop (Z.to_nat n) b)
                  | _ => None
                  end;
  CreateCertificate cn pub priv := Some pub;
  X509KeyPair cert key :=
    match key with
    | 1 :: b => Some (Certificate_ (b ++ ((λ b, Z.lxor b 255) <$> b)) (drop 13 cert))
    | _ => None
    end;
  hjson_Unmarshal b cfg := (cfg, true);
  utf16_decode b := Some b;
}.

Lemma ascii_bytes s :
  String.string_of_list_ascii ((λ c, ascii_of_nat (Z.to_nat c)) <$> string_bytes s) = s.
Proof.
  unfold string_bytes. induction s as [|c s IH]; [done|]. csimpl. by rewrite Nat2Z.id, ascii_nat_embedding, IH.
Qed.

#[export] Instance toy_config_laws : ConfigLaws.
Proof.
  split; simpl.
  - intros seed Hs. rewrite length_app, length_fmap. split; [lia|]. rewrite <- Hs. apply take_app_length.
  - intros t b. destruct (String.eqb_spec t "PRIVATE KEY") as [->|Hne]; simpl; [done|].
    unfold len. by rewrite Nat2Z.id, take_app_length, drop_app_length, ascii_bytes.
  - intros k Hk. exists (take 32 k). split; [done|]. by repeat f_equal.
  - intros der b c [= <-]. done.
Qed.

Definition seed0 : bytes := replicate 32 7.
Definition conf0 : res config_error NodeConfig := Config_ReadFrom (λ _, None) defaults_linux seed0 (Some [123; 125]).

(** Witness. *)
Lemma config_certificate_matches_key_witness :
  ∃ cfg c, conf0 = Ok cfg ∧ cf_Certificate cfg = Some c ∧ cert_PrivateKey c = cf_PrivateKey cfg ∧ cf_IfMTU cfg = 65535.
Proof.
  destruct conf0 as [cfg| |] eqn:E; [|by vm_compute in E|by vm_compute in E].
  destruct (config_certificate_matches_key (λ _, None) defaults_linux seed0 (Some [123; 125]) cfg eq_refl E)
    as [(c & Hc & Hk & _) _].
  exists cfg, c. vm_compute in E. injection E as <-. split_and!; [done|done| |done].
  apply Hk. split; [done|]. by vm_compute.
Defined.

(** Witness: the key file of one node read by another. *)
Lemma pem_key_roundtrip_witness :
  let key := NewKeyFromSeed seed0 in
  let cfg := set_PrivateKey zero_config key in
  let other := NodeConfig_ [] "key.pem" None [] [] [] "" [] [] "" "" 0 false false ∅ in
  ∃ pem cfg', MarshalPEMPrivateKey cfg = Ok pem ∧ postprocessConfig (λ _, Some pem) other = Ok cfg' ∧
    cf_PrivateKey cfg' = key.
Proof.
  intros key cfg other.
  destruct (MarshalPEMPrivateKey cfg) as [pem| |] eqn:Em; [|by vm_compute in Em|by vm_compute in Em].
  destruct (postprocessConfig (λ _, Some pem) other) as [cfg'| |] eqn:Ep.
  - exists pem, cfg'. split_and!; [done|exact Ep|].
    apply (pem_key_roundtrip (λ _, Some pem) cfg other pem cfg'); try done.
  - vm_compute in Em. injection Em as <-. by vm_compute in Ep.
  - vm_compute in Em. injection Em as <-. by vm_compute in Ep.
Defined.
End ConfigWitness.
