(* ===== verification/Dial.v ===== *)
(** * Dial: the transports of a peering
    (findSuitableIP, connect, linkConn and _updateAverages of src/core/link.go,
    link_tcp.go, link_tls.go, link_unix.go, link_socks.go, link_quic.go,
    link_ws.go, link_wss.go and generateTLSConfig of tls.go)

    Which addresses of a host are dialled and in which order, the source address
    and zone of a TCP dial, the TLS settings of each transport, the admission of
    WebSocket clients, and the traffic counters of a connection. DNS, sockets and
    the list of interfaces are parameters. *)

From S2P Require Import Prelude Binary Wire Address Crypto Messages Handshake Links GoLib Multicast.
From Stdlib Require Import Ascii.

Open Scope string_scope.
Open Scope list_scope.
Open Scope Z_scope.

(** ** Addresses (package net), in their 16-byte form *)

Definition IsUnspecified (ip : bytes) : bool :=
  bool_decide (ip = replicate 16 0) || bool_decide (ip = replicate 10 0 ++ [0xff; 0xff; 0; 0; 0; 0]).
Definition IsLoopback (ip : bytes) : bool :=
  if is_v4 ip then nth 12 ip 0 =? 127 else bool_decide (ip = replicate 15 0 ++ [1]).
Definition IsMulticast (ip : bytes) : bool :=
  if is_v4 ip then Z.land (nth 12 ip 0) 0xf0 =? 0xe0 else nth 0 ip 0 =? 0xff.
Definition IsInterfaceLocalMulticast (ip : bytes) : bool :=
  (nth 0 ip 0 =? 0xff) && (Z.land (nth 1 ip 0) 0x0f =? 0x01).
Definition IsGlobalUnicast (ip : bytes) : bool :=
  negb (bool_decide (ip = replicate 10 0 ++ replicate 6 0xff)) && negb (IsUnspecified ip) && negb (IsLoopback ip) &&
  negb (IsMulticast ip) && negb (IsLinkLocalUnicast ip).

(** [iprange.Contains] of the range 200::/7 that the daemon passes to the peer
    filter. *)
Definition overlay_contains (ip : bytes) : bool :=
  if is_v4 ip then false else Z.land (nth 0 ip 0) 0xfe =? 0x02.
Definition peerFilter (ip : bytes) : bool := negb (overlay_contains ip).

(** ** Dialling a host *)

Inductive dial_error :=
| ErrSplitHostPort | ErrAtoi | ErrLookup | ErrNoSuitableIPs | ErrDial (n : nat) | ErrZoneRequired
| ErrInterfaceNotFound | ErrInterfaceDown | ErrInterfaceAddrs | ErrNoSourceAddress | ErrListenUnsupported
| ErrListen | ErrResolve.

(** [strconv.Atoi]: decimal digits with an optional sign, in the range of [int]. *)
Definition Atoi (s : string) : option Z :=
  let '(neg, d) := match s with
    | String "-" d => (true, d)
    | String "+" d => (false, d)
    | _ => (false, s)
    end in
  match d with
  | EmptyString => None
  | _ =>
      n ← parse_digits 0 d;
      let n := if (neg : bool) then - n else n in
      if (- 2 ^ 63 <=? n) && (n <? 2 ^ 63) then Some n else None
  end.

(** The addresses that are tried. *)
Definition suitable (filter : option (bytes → bool)) (ip : bytes) : bool :=
  if IsUnspecified ip then false
  else if IsMulticast ip then false
  else if IsLinkLocalMulticast ip then false
  else if IsInterfaceLocalMulticast ip then false
  else match filter with Some f => f ip | None => true end.

(** The loop over the suitable addresses: the addresses tried, and the first
    connection or the last error. *)
Fixpoint try_dial {C} (fn : string → bytes → Z → res dial_error C) (host : string) (port : Z) (err : dial_error)
    (ips : list bytes) : list bytes * res dial_error C :=
  match ips with
  | [] => ([], Err err)
  | ip :: ips =>
      match fn host ip port with
      | Ok conn => ([ip], Ok conn)
      | Err e => let '(tried, r) := try_dial fn host port e ips in (ip :: tried, r)
      | Panic => ([ip], Panic)
      end
  end.

Section Dialling.
Context (SplitHostPort : string → option (string * string)) (LookupIP : string → option (list bytes))
  (filter : option (bytes → bool)).

Definition findSuitableIP {C} (hostport : string) (fn : string → bytes → Z → res dial_error C) :
    list bytes * res dial_error C :=
  match SplitHostPort hostport with
  | None => ([], Err ErrSplitHostPort)
  | Some (host, p) =>
      match Atoi p with
      | None => ([], Err ErrAtoi)
      | Some port =>
          match LookupIP host with
          | None => ([], Err ErrLookup)
          | Some resp =>
              match List.filter (suitable filter) resp with
              | [] => ([], Err ErrNoSuitableIPs)
              | ips => try_dial fn host port ErrNoSuitableIPs ips
              end
          end
      end
  end.
End Dialling.

(** ** The TCP dialer *)

(** An interface of the system: its flags, and its addresses unless reading
    them fails ([None] for an address whose text does not parse). *)
Record iface_state := IfaceState {
  is_Flags : Z;
  is_Addrs : option (list (option bytes));
}.

(** The dialer: the zone of the destination, the source address with its zone,
    and the interface whose control function is set. *)
Record tcp_dialer := TCPDialer {
  td_Zone : string;
  td_LocalAddr : option (bytes * string);
  td_Bind : option string;
}.

(** The loop over the addresses of the interface. *)
Fixpoint source_addr (dst : bytes) (addrs : list (option bytes)) : option bytes :=
  match addrs with
  | [] => None
  | None :: addrs => source_addr dst addrs
  | Some src :: addrs' =>
      if negb (IsGlobalUnicast src) && negb (IsLinkLocalUnicast src) then source_addr dst addrs'
      else
        let bothglobal := Bool.eqb (IsGlobalUnicast src) (IsGlobalUnicast dst) in
        let bothlinklocal := Bool.eqb (IsLinkLocalUnicast src) (IsLinkLocalUnicast dst) in
        if negb bothglobal && negb bothlinklocal then source_addr dst addrs'
        else if negb (Bool.eqb (is_v4 src) (is_v4 dst)) then source_addr dst addrs'
        else if bothglobal || bothlinklocal || Nat.eqb (length addrs') 0 then Some src
        else source_addr dst addrs'
  end.

Definition tcp_dialerFor (InterfaceByName : string → option iface_state) (dst : bytes) (zone sintf : string) :
    res dial_error tcp_dialer :=
  let ll := IsLinkLocalUnicast dst in
  let zone := if ll && negb (String.eqb sintf "") then sintf else zone in
  if ll && String.eqb zone "" then Err ErrZoneRequired
  else if String.eqb sintf "" then Ok (TCPDialer zone None None)
  else
    let without_source := TCPDialer zone None (Some sintf) in
    let zoned := ll && negb (String.eqb zone "") in
    match InterfaceByName sintf with
    | None => if zoned then Ok without_source else Err ErrInterfaceNotFound
    | Some ief =>
        if Z.land (is_Flags ief) FlagUp =? 0 then Err ErrInterfaceDown
        else
          match is_Addrs ief with
          | None => if zoned then Ok without_source else Err ErrInterfaceAddrs
          | Some addrs =>
              match source_addr dst addrs with
              | Some src => Ok (TCPDialer zone (Some (src, sintf)) (Some sintf))
              | None => if zoned then Ok without_source else Err ErrNoSourceAddress
              end
          end
    end.

(** The address a TCP or TLS listener binds: with an interface, the host gets
    its zone. *)
Definition listen_hostport (SplitHostPort : string → option (string * string)) (host sintf : string) : string :=
  if String.eqb sintf "" then host
  else match SplitHostPort host with
       | Some (h, p) => "[" +:+ h +:+ "%" +:+ sintf +:+ "]:" +:+ p
       | None => host
       end.

(** ** TLS settings *)

Inductive tls_version := VersionTLS12 | VersionTLS13.

(** What the dialers set of a [tls.Config]; a [None] maximum is the library's. *)
Record tls_config := TLSConfig {
  tc_ServerName : string;
  tc_MinVersion : tls_version;
  tc_MaxVersion : option tls_version;
  tc_RequireClientCert : bool;
  tc_InsecureSkipVerify : bool;
}.

Definition generateTLSConfig : tls_config := TLSConfig "" VersionTLS13 None true true.

(** The settings that the TLS, SOCKS and WSS dialers make on their clone. *)
Definition dial_tls_config (base : tls_config) (hostname sni : string) : tls_config :=
  TLSConfig (if String.eqb sni "" then hostname else sni) VersionTLS12 (Some VersionTLS13)
    (tc_RequireClientCert base) (tc_InsecureSkipVerify base).

Definition wss_tls_config (base : tls_config) (hostname : string) : tls_config :=
  dial_tls_config base hostname "".

(** The QUIC dialer makes the same settings on a clone of its configuration
    but hands the configuration itself to the library: the first component is
    the clone, the second what is used. *)
Definition quic_tls_config (base : tls_config) (hostname : string) : tls_config * tls_config :=
  (dial_tls_config base hostname "", base).

(** ** SOCKS *)

Fixpoint trim_left_slash (s : string) : string :=
  match s with String "/" s => trim_left_slash s | _ => s end.

(** The text up to the first slash. *)
Fixpoint until_slash (s : string) : string :=
  match s with
  | EmptyString => EmptyString
  | String "/" _ => EmptyString
  | String c s => String c (until_slash s)
  end.

(** [strings.Split(strings.Trim(path, "/"), "/")[0]]: the target of the proxy. *)
Definition socks_target (path : string) : string := until_slash (trim_left_slash path).

(** The credentials of the URL: user and password, when there is a user. *)
Definition socks_auth (user : option (string * string)) : option (string * string) :=
  match user with
  | Some (name, pass) => if String.eqb name "" then None else Some (name, pass)
  | None => None
  end.

(** Whether the connection is wrapped in TLS, and how. *)
Definition socks_tls (scheme : string) (base : tls_config) (hostname sni : string) : option tls_config :=
  if String.eqb scheme "sockstls" then Some (dial_tls_config base hostname sni) else None.

(** ** The dial functions of the transports *)

(** What the transports read of a URL. *)
Record dial_url := DialURL {
  du_scheme : string;
  du_host : string;
  du_path : string;
  du_user : option (string * string);
}.

(** The calls of the network libraries that end a dial, with the arguments that
    the dialers compute. The WebSocket calls go through an HTTP transport: when
    the environment names a proxy for the URL, [proxy] is its address and the
    transport connects to it instead of [ip]. *)
Inductive net_call :=
| CallTCP (d : tcp_dialer) (ip : bytes) (port : Z)
| CallTLS (d : tcp_dialer) (cfg : tls_config) (ip : bytes) (port : Z)
| CallSOCKS (d : tcp_dialer) (auth : option (string * string)) (ip : bytes) (port : Z) (target : string)
    (tls : option tls_config)
| CallQUIC (cfg : tls_config) (ip : bytes) (port : Z)
| CallWS (d : tcp_dialer) (proxy : option string) (tls : option tls_config) (subprotocols : list string)
    (host path : string) (ip : bytes) (port : Z)
| CallUNIX (path : string).

(** Where a call connects to: an address, a proxy or a socket file. *)
Inductive dial_target := Direct (ip : bytes) (port : Z) | ViaProxy (proxy : string) | LocalFile (path : string).

Definition call_target (c : net_call) : dial_target :=
  match c with
  | CallTCP _ ip port | CallTLS _ _ ip port | CallSOCKS _ _ ip port _ _ | CallQUIC _ ip port => Direct ip port
  | CallWS _ (Some proxy) _ _ _ _ _ _ => ViaProxy proxy
  | CallWS _ None _ _ _ _ ip port => Direct ip port
  | CallUNIX path => LocalFile path
  end.

Definition subprotocols : list string := ["ygg-ws"; "uqda-ws"].

Section Transports.
Context {C : Type} (net : net_call → res dial_error C) (InterfaceByName : string → option iface_state)
  (SplitHostPort : string → option (string * string)) (LookupIP : string → option (list bytes))
  (filter : option (bytes → bool)) (base : tls_config)
  (* [http.ProxyFromEnvironment]: the proxy for a request, by whether it is secure, and its address and port *)
  (ProxyFromEnvironment : bool → bytes → Z → option string).

(** The call of each transport for one address of the host. *)
Definition tcp_dial (sintf : string) (ip : bytes) (port : Z) : res dial_error net_call :=
  d ← tcp_dialerFor InterfaceByName ip "" sintf; Ok (CallTCP d ip port).
Definition tls_dial (sintf sni hostname : string) (ip : bytes) (port : Z) : res dial_error net_call :=
  d ← tcp_dialerFor InterfaceByName ip "" sintf; Ok (CallTLS d (dial_tls_config base hostname sni) ip port).
Definition socks_dial (u : dial_url) (sintf sni hostname : string) (ip : bytes) (port : Z) : res dial_error net_call :=
  d ← tcp_dialerFor InterfaceByName ip "" sintf;
  Ok (CallSOCKS d (socks_auth (du_user u)) ip port (socks_target (du_path u)) (socks_tls (du_scheme u) base hostname sni)).
Definition quic_dial (hostname : string) (ip : bytes) (port : Z) : res dial_error net_call :=
  Ok (CallQUIC (snd (quic_tls_config base hostname)) ip port).
Definition ws_dial (u : dial_url) (sintf hostname : string) (ip : bytes) (port : Z) : res dial_error net_call :=
  d ← tcp_dialerFor InterfaceByName ip "" sintf;
  Ok (CallWS d (ProxyFromEnvironment false ip port) None subprotocols hostname (du_path u) ip port).
Definition wss_dial (u : dial_url) (sintf hostname : string) (ip : bytes) (port : Z) : res dial_error net_call :=
  d ← tcp_dialerFor InterfaceByName ip "" sintf;
  Ok (CallWS d (ProxyFromEnvironment true ip port) (Some (wss_tls_config base hostname)) subprotocols hostname
        (du_path u) ip port).
Definition unix_dial (u : dial_url) : net_call := CallUNIX (du_path u).

Definition dial_call (proto : linkProtocol) (u : dial_url) (sintf sni hostname : string) (ip : bytes) (port : Z) :
    res dial_error net_call :=
  match proto with
  | linkTCP => tcp_dial sintf ip port
  | linkTLS => tls_dial sintf sni hostname ip port
  | linkSOCKS => socks_dial u sintf sni hostname ip port
  | linkQUIC => quic_dial hostname ip port
  | linkWS => ws_dial u sintf hostname ip port
  | linkWSS => wss_dial u sintf hostname ip port
  | linkUNIX => Ok (unix_dial u)
  end.

Definition transport_dial (proto : linkProtocol) (u : dial_url) (sintf sni : string) : list bytes * res dial_error C :=
  match proto with
  | linkUNIX => ([], net (unix_dial u))
  | _ => findSuitableIP SplitHostPort LookupIP filter (du_host u)
           (λ hostname ip port, call ← dial_call proto u sintf sni hostname ip port; net call)
  end.
End Transports.

(** ** Listening *)

(** Which transports can listen at all. *)
Definition transport_listen (p : linkProtocol) : res dial_error () :=
  match p with
  | linkSOCKS => Err ErrListenUnsupported
  | linkWSS => Err ErrListenUnsupported
  | _ => Ok ()
  end.

(** ** WebSocket *)

Record AcceptOptions := AcceptOptions_ {
  ao_Subprotocols : list string;
  ao_InsecureSkipVerify : bool;
  ao_OriginPatterns : list string;
}.

Fixpoint origin_loop (opts : AcceptOptions) (origins : list string) : AcceptOptions :=
  match origins with
  | [] => opts
  | o :: origins =>
      if String.eqb o "" then origin_loop opts origins
      else if String.eqb o "*" then AcceptOptions_ (ao_Subprotocols opts) true []
      else origin_loop
        (AcceptOptions_ (ao_Subprotocols opts) (ao_InsecureSkipVerify opts) (ao_OriginPatterns opts ++ [o])) origins
  end.

Definition wsAcceptOptions (u : url) : AcceptOptions :=
  origin_loop (AcceptOptions_ ["ygg-ws"; "uqda-ws"] false []) (u_query u "origin").

(** What the server does with a request: [accept] is the outcome of
    [websocket.Accept], the negotiated subprotocol or a failure. *)
Inductive ws_outcome := HealthOK | AcceptFailed | PolicyViolation | HandOver.

Definition ServeHTTP (path : string) (accept : option string) : ws_outcome :=
  if String.eqb path "/health" || String.eqb path "/healthz" then HealthOK
  else match accept with
       | None => AcceptFailed
       | Some p => if String.eqb p "ygg-ws" || String.eqb p "uqda-ws" then HandOver else PolicyViolation
       end.

(** ** Traffic counters *)

Record linkConn := LinkConn {
  lk_rx : Z;
  lk_tx : Z;
  lk_rxrate : Z;
  lk_txrate : Z;
  lk_lastrx : Z;
  lk_lasttx : Z;
}.

Definition linkConn_init : linkConn := LinkConn 0 0 0 0 0 0.

(** [Read] and [Write] of [n] bytes. *)
Definition linkConn_Read (c : linkConn) (n : Z) : linkConn :=
  LinkConn (u64 (lk_rx c + n)) (lk_tx c) (lk_rxrate c) (lk_txrate c) (lk_lastrx c) (lk_lasttx c).
Definition linkConn_Write (c : linkConn) (n : Z) : linkConn :=
  LinkConn (lk_rx c) (u64 (lk_tx c + n)) (lk_rxrate c) (lk_txrate c) (lk_lastrx c) (lk_lasttx c).

(** The body of the loop of [_updateAverages], run every second. *)
Definition updateAverages (c : linkConn) : linkConn :=
  LinkConn (lk_rx c) (lk_tx c) (u64 (lk_rx c - lk_lastrx c)) (u64 (lk_tx c - lk_lasttx c)) (lk_rx c) (lk_tx c).

(** ** Properties of dialling *)

(** What a pass over the addresses tries: a prefix of them that ends with the
    first success, or all of them. *)
Lemma try_dial_spec {C} (fn : string → bytes → Z → res dial_error C) host port err ips tried r :
  (∀ ip, fn host ip port ≠ Panic) →
  try_dial fn host port err ips = (tried, r) →
  tried `prefix_of` ips ∧
  match r with
  | Ok conn => ∃ failed ip, tried = failed ++ [ip] ∧ fn host ip port = Ok conn ∧
      Forall (λ ip, ∃ e, fn host ip port = Err e) failed
  | Err _ => tried = ips ∧ Forall (λ ip, ∃ e, fn host ip port = Err e) ips
  | Panic => False
  end.
Proof.
  intros Hnp. revert err tried r. induction ips as [|ip ips IH]; intros err tried r; simpl.
  { intros [= <- <-]. split; [done|]. done. }
  destruct (fn host ip port) as [conn|e|] eqn:Ef; [| |by destruct (Hnp ip)].
  - intros [= <- <-]. split; [by apply prefix_cons, prefix_nil|]. exists [], ip. by split_and!.
  - destruct (try_dial fn host port e ips) as [tried' r'] eqn:Et. intros [= <- <-].
    destruct (IH _ _ _ Et) as [Hpre Hr]. split; [by apply prefix_cons|].
    destruct r' as [conn|e'|]; [|destruct Hr as [-> Hr]; split; [done|constructor; eauto]|done].
    destruct Hr as (failed & ip' & -> & Hok & Hf). exists (ip :: failed), ip'. split_and!; [done|done|].
    constructor; eauto.
Qed.

(** The overlay range holds every node address and every address of a routed
    subnet. *)
Lemma overlay_first_byte ip : (nth 0 ip 0 = 2 ∨ nth 0 ip 0 = 3) → overlay_contains ip = true.
Proof.
  intros Hb. unfold overlay_contains.
  assert (Hv : is_v4 ip = false).
  { unfold is_v4. apply bool_decide_eq_false. intros Ht. apply (f_equal (λ l, nth 0 l 0)) in Ht.
    destruct ip as [|b ip]; [by destruct Hb|]. simpl in Ht, Hb. lia. }
  rewrite Hv. by destruct Hb as [-> | ->].
Qed.

Lemma overlay_addresses k a : AddrForKey k = Some a → overlay_contains a = true.
Proof.
  intros Ha. apply AddrForKey_IsValid in Ha as [Hv _]. apply overlay_first_byte. left.
  change ((nth 0 a 0 =? 2) && true = true) in Hv. lia.
Qed.

Lemma overlay_subnets k s host : SubnetForKey k = Some s → overlay_contains (s ++ host) = true.
Proof.
  intros Hs. pose proof (derived_ranges k) as Hr. rewrite Hs in Hr. destruct (AddrForKey k); [|done].
  destruct Hr as (_ & _ & Hl & _ & _ & Hv & _). apply overlay_first_byte. right.
  rewrite app_nth1 by (rewrite Hl; lia). change ((nth 0 s 0 =? 3) = true) in Hv. lia.
Qed.

Section DialLaws.
Context (SplitHostPort : string → option (string * string)) (LookupIP : string → option (list bytes)).

(** Dialling a host tries its addresses in the order of the lookup, ends with
    the first that connects, and never tries an unspecified or multicast address
    nor, with the daemon's peer filter, an address of the overlay. *)
Lemma findSuitableIP_spec {C} hostport host p port resp (fn : string → bytes → Z → res dial_error C) :
  SplitHostPort hostport = Some (host, p) → Atoi p = Some port → LookupIP host = Some resp →
  (∀ ip, fn host ip port ≠ Panic) →
  let '(tried, r) := findSuitableIP SplitHostPort LookupIP (Some peerFilter) hostport fn in
  tried `prefix_of` List.filter (suitable (Some peerFilter)) resp ∧
  Forall (λ ip, IsMulticast ip = false ∧ IsUnspecified ip = false ∧ (∀ k, AddrForKey k ≠ Some ip) ∧
    ∀ k s h, SubnetForKey k = Some s → ip ≠ s ++ h) tried ∧
  match r with
  | Ok conn => ∃ failed ip, tried = failed ++ [ip] ∧ fn host ip port = Ok conn ∧
      Forall (λ ip, ∃ e, fn host ip port = Err e) failed
  | Err e => Forall (λ ip, suitable (Some peerFilter) ip = true → ∃ e, fn host ip port = Err e) resp ∧
      (Forall (λ ip, suitable (Some peerFilter) ip = false) resp → e = ErrNoSuitableIPs)
  | Panic => False
  end.
Proof.
  intros Hs Hp Hl Hnp. unfold findSuitableIP. rewrite Hs, Hp, Hl.
  assert (Hgood : ∀ ip, suitable (Some peerFilter) ip = true → IsMulticast ip = false ∧ IsUnspecified ip = false ∧
    (∀ k, AddrForKey k ≠ Some ip) ∧ ∀ k s h, SubnetForKey k = Some s → ip ≠ s ++ h).
  { intros ip. unfold suitable, peerFilter. repeat case_match; try done. intros Hf. split_and!; try done.
    - intros k Hk. apply overlay_addresses in Hk. by rewrite Hk in Hf.
    - intros k s h Hk ->. by rewrite (overlay_subnets _ _ _ Hk) in Hf. }
  assert (Hfil : ∀ ip, ip ∈ List.filter (suitable (Some peerFilter)) resp ↔ ip ∈ resp ∧ suitable (Some peerFilter) ip = true).
  { intros ip. by rewrite !list_elem_of_In, filter_In. }
  destruct (List.filter (suitable (Some peerFilter)) resp) as [|ip0 ips] eqn:Ef.
  { split_and!; [done|done| |done]. apply Forall_forall. intros ip Hin Hsu. exfalso.
    by apply (not_elem_of_nil ip), Hfil. }
  destruct (try_dial fn host port ErrNoSuitableIPs (ip0 :: ips)) as [tried r] eqn:Et.
  destruct (try_dial_spec _ _ _ _ _ _ _ Hnp Et) as [Hpre Hr]. split_and!; [done| |].
  - apply Forall_forall. intros ip Hin. apply Hgood, Hfil. by eapply elem_of_prefix.
  - destruct r as [conn|e|]; [done| |done]. destruct Hr as [-> Hr]. split.
    + apply Forall_forall. intros ip Hin Hsu. rewrite Forall_forall in Hr. apply Hr, Hfil. done.
    + intros Hall. rewrite Forall_forall in Hall. exfalso.
      assert (Hin : ip0 ∈ ip0 :: ips) by by left. apply Hfil in Hin as [Hin Hsu]. by rewrite Hall in Hsu.
Qed.

Lemma dialerFor_no_panic ifs ip zone sintf : tcp_dialerFor ifs ip zone sintf ≠ Panic.
Proof. unfold tcp_dialerFor. by repeat case_match. Qed.

Lemma dial_call_no_panic ifs base proxy proto u sintf sni h ip port : dial_call ifs base proxy proto u sintf sni h ip port ≠ Panic.
Proof.
  pose proof (dialerFor_no_panic ifs ip "" sintf).
  unfold dial_call, tcp_dial, tls_dial, socks_dial, quic_dial, ws_dial, wss_dial.
  destruct proto, (tcp_dialerFor ifs ip "" sintf); simpl; congruence.
Qed.

(** Every call connects to the address it is made for; only those of the
    WebSocket transports go to a proxy, when the environment has one for them. *)
Lemma dial_call_target ifs base proxy proto u sintf sni h (ip : bytes) (port : Z) call :
  proto ≠ linkUNIX → dial_call ifs base proxy proto u sintf sni h ip port = Ok call →
  call_target call = Direct ip port ∨
  ∃ (secure : bool) px, proto = (if secure then linkWSS else linkWS) ∧ proxy secure ip port = Some px ∧ call_target call = ViaProxy px.
Proof.
  intros Hu. unfold dial_call, tcp_dial, tls_dial, socks_dial, quic_dial, ws_dial, wss_dial.
  destruct proto; try done; try (by intros [= <-]; left);
    (destruct (tcp_dialerFor ifs ip "" sintf) as [d| |]; simpl; [|done|done]); intros [= <-]; simpl; try (by left).
  - destruct (proxy false ip port) as [px|] eqn:E; [right; by exists false, px|by left].
  - destruct (proxy true ip port) as [px|] eqn:E; [right; by exists true, px|by left].
Qed.

End DialLaws.

(** The source address of a dial has the family of the destination, is one of
    the interface's addresses, and is of the destination's scope when that is
    global or link-local. *)
Lemma source_addr_spec dst addrs src :
  source_addr dst addrs = Some src →
  Some src ∈ addrs ∧ is_v4 src = is_v4 dst ∧
  (IsGlobalUnicast dst = true → IsGlobalUnicast src = true) ∧
  (IsLinkLocalUnicast dst = true → IsLinkLocalUnicast src = true).
Proof.
  induction addrs as [|[a|] addrs IH]; simpl; [done| |].
  2: { intros Hs. destruct (IH Hs) as [? ?]. split; [by right|done]. }
  assert (Hrec : source_addr dst addrs = Some src → Some src ∈ Some a :: addrs ∧ is_v4 src = is_v4 dst ∧
    (IsGlobalUnicast dst = true → IsGlobalUnicast src = true) ∧
    (IsLinkLocalUnicast dst = true → IsLinkLocalUnicast src = true)).
  { intros Hs. destruct (IH Hs) as [? ?]. split; [by right|done]. }
  assert (Hx : ∀ ip, IsGlobalUnicast ip = true → IsLinkLocalUnicast ip = false).
  { intros ip. unfold IsGlobalUnicast. by destruct (IsLinkLocalUnicast ip); rewrite ?andb_false_r. }
  pose proof (Hx a). pose proof (Hx dst).
  destruct (IsGlobalUnicast a) eqn:Ga, (IsLinkLocalUnicast a) eqn:La, (IsGlobalUnicast dst) eqn:Gd,
    (IsLinkLocalUnicast dst) eqn:Ld, (is_v4 a) eqn:Va, (is_v4 dst) eqn:Vd; simpl;
    try apply Hrec; try (intros [= <-]; rewrite Ga, La, Va; split; [by left|naive_solver]).
Qed.

(** dialer_scope. A TCP dial to a link-local address always has a zone,
    that of the source interface when one is given; when a source address is
    chosen it belongs to the interface, which is up, and matches the
    destination in family and, for global and link-local destinations, in
    scope. A dial without a source interface binds no address. *)
Theorem dialer_scope InterfaceByName dst zone sintf d :
  tcp_dialerFor InterfaceByName dst zone sintf = Ok d →
  (IsLinkLocalUnicast dst = true → td_Zone d ≠ "" ∧ (sintf ≠ "" → td_Zone d = sintf)) ∧
  (sintf = "" → td_LocalAddr d = None ∧ td_Bind d = None) ∧
  match td_LocalAddr d with
  | Some (src, z) => z = sintf ∧ ∃ ief addrs, InterfaceByName sintf = Some ief ∧ Z.land (is_Flags ief) FlagUp ≠ 0 ∧
      is_Addrs ief = Some addrs ∧ Some src ∈ addrs ∧ is_v4 src = is_v4 dst ∧
      (IsGlobalUnicast dst = true → IsGlobalUnicast src = true) ∧
      (IsLinkLocalUnicast dst = true → IsLinkLocalUnicast src = true)
  | None => sintf = "" ∨ IsLinkLocalUnicast dst = true
  end.
Proof.
  unfold tcp_dialerFor. destruct (IsLinkLocalUnicast dst) eqn:Ell, (String.eqb_spec sintf "") as [->|Hs]; simpl.
  - destruct (String.eqb_spec zone ""); [done|]. intros [= <-]. simpl. naive_solver.
  - rewrite (proj2 (String.eqb_neq sintf "")) by done. simpl.
    destruct (InterfaceByName sintf) as [ief|] eqn:Ei; [|intros [= <-]; simpl; naive_solver].
    destruct (Z.eqb_spec (Z.land (is_Flags ief) FlagUp) 0); [done|].
    destruct (is_Addrs ief) as [addrs|] eqn:Ea; [|intros [= <-]; simpl; naive_solver].
    destruct (source_addr dst addrs) as [src|] eqn:Es; intros [= <-]; simpl; [|naive_solver].
    apply source_addr_spec in Es. rewrite Ell in Es. split; [done|]. split; [done|]. split; [done|]. exists ief, addrs. tauto.
  - intros [= <-]. simpl. naive_solver.
  - destruct (InterfaceByName sintf) as [ief|] eqn:Ei; [|done].
    destruct (Z.eqb_spec (Z.land (is_Flags ief) FlagUp) 0); [done|].
    destruct (is_Addrs ief) as [addrs|] eqn:Ea; [|done].
    destruct (source_addr dst addrs) as [src|] eqn:Es; intros [= <-]; simpl.
    apply source_addr_spec in Es. rewrite Ell in Es. split; [done|]. split; [done|]. split; [done|]. exists ief, addrs. tauto.
Qed.

(** quic_server_name_unused. The server name and versions that the QUIC
    dialer sets on its clone are not those of the connection: the library gets
    the unmodified configuration, without a server name. *)
Theorem quic_server_name_unused hostname :
  hostname ≠ "" →
  let '(clone, used) := quic_tls_config generateTLSConfig hostname in
  tc_ServerName clone = hostname ∧ tc_ServerName used = "" ∧ tc_MinVersion used = VersionTLS13.
Proof. done. Qed.

(** Direct TLS dials set the server name: the option, or else the host. *)
Lemma tls_server_name base hostname sni :
  tc_ServerName (dial_tls_config base hostname sni) = (if String.eqb sni "" then hostname else sni) ∧
  tc_MinVersion (dial_tls_config base hostname sni) = VersionTLS12.
Proof. done. Qed.

(** ** Properties of the WebSocket listener *)

Lemma origin_loop_spec opts origins :
  ao_InsecureSkipVerify opts = false →
  ao_Subprotocols (origin_loop opts origins) = ao_Subprotocols opts ∧
  (ao_InsecureSkipVerify (origin_loop opts origins) = true ↔ "*" ∈ origins) ∧
  ("*" ∉ origins → ao_OriginPatterns (origin_loop opts origins) =
     ao_OriginPatterns opts ++ List.filter (λ o, negb (String.eqb o "")) origins).
Proof.
  revert opts. induction origins as [|o origins IH]; intros opts Hsec; simpl.
  { rewrite app_nil_r. split_and!; try done. rewrite Hsec. split; [done|]. by intros ?%elem_of_nil. }
  destruct (String.eqb_spec o "") as [->|Hne]; simpl.
  { destruct (IH opts Hsec) as (H1 & H2 & H3). split_and!; [done| |].
    - rewrite H2, elem_of_cons. naive_solver.
    - intros Hn. apply not_elem_of_cons in Hn as [_ Hn]. by apply H3. }
  destruct (String.eqb_spec o "*") as [->|Hns]; simpl.
  { split_and!; [done| |]; [split; [by left|done]|]. intros Hn. exfalso. apply Hn. by left. }
  set (opts' := AcceptOptions_ _ _ _). destruct (IH opts' Hsec) as (H1 & H2 & H3). split_and!; [done| |].
  - rewrite H2, elem_of_cons. naive_solver.
  - intros Hn. apply not_elem_of_cons in Hn as [_ Hn]. rewrite (H3 Hn). simpl. by rewrite <- app_assoc.
Qed.

(** ws_admission. A WebSocket listener accepts the two subprotocols, checks
    origins unless the wildcard is configured, against exactly the configured
    patterns, and hands over only connections that negotiated one of the
    subprotocols. *)
Theorem ws_admission u path accept :
  let opts := wsAcceptOptions u in
  ao_Subprotocols opts = ["ygg-ws"; "uqda-ws"] ∧
  (ao_InsecureSkipVerify opts = true ↔ "*" ∈ u_query u "origin") ∧
  ("*" ∉ u_query u "origin" → ao_OriginPatterns opts = List.filter (λ o, negb (String.eqb o "")) (u_query u "origin")) ∧
  (ServeHTTP path accept = HandOver →
     ∃ p, accept = Some p ∧ p ∈ ao_Subprotocols opts ∧ path ≠ "/health" ∧ path ≠ "/healthz").
Proof.
  intros opts.
  destruct (origin_loop_spec (AcceptOptions_ ["ygg-ws"; "uqda-ws"] false []) (u_query u "origin") eq_refl)
    as (H1 & H2 & H3).
  split_and!; [done|done|done|]. unfold ServeHTTP.
  destruct (String.eqb_spec path "/health"), (String.eqb_spec path "/healthz"); simpl; try done.
  destruct accept as [p|]; [|done].
  assert (Hsub : ao_Subprotocols opts = ["ygg-ws"; "uqda-ws"]) by done.
  destruct (String.eqb_spec p "ygg-ws") as [->|]; simpl.
  { intros _. exists "ygg-ws". rewrite Hsub. split_and!; try done. set_solver. }
  destruct (String.eqb_spec p "uqda-ws") as [->|]; simpl; [|done].
  intros _. exists "uqda-ws". rewrite Hsub. split_and!; try done. set_solver.
Qed.

(** ** Properties of the counters *)

Inductive conn_op := OpRead (n : Z) | OpWrite (n : Z) | OpTick.

Definition conn_step (c : linkConn) (op : conn_op) : linkConn :=
  match op with
  | OpRead n => linkConn_Read c n
  | OpWrite n => linkConn_Write c n
  | OpTick => updateAverages c
  end.

Definition conn_run (c : linkConn) (ops : list conn_op) : linkConn := foldl conn_step c ops.

Definition bytes_read (ops : list conn_op) : Z :=
  foldr (λ op s, match op with OpRead n => n + s | _ => s end) 0 ops.
Definition bytes_written (ops : list conn_op) : Z :=
  foldr (λ op s, match op with OpWrite n => n + s | _ => s end) 0 ops.

Definition no_tick (ops : list conn_op) : Prop := OpTick ∉ ops.

Lemma u64_add_l a n : u64 (u64 a + n) = u64 (a + n).
Proof. unfold wrap. apply Zplus_mod_idemp_l. Qed.

Lemma u64_sub_add a n : u64 (u64 (a + n) - u64 a) = u64 n.
Proof. unfold wrap. rewrite <- Zminus_mod. f_equal. lia. Qed.

Lemma conn_run_totals ops c a b :
  lk_rx c = u64 a → lk_tx c = u64 b →
  lk_rx (conn_run c ops) = u64 (a + bytes_read ops) ∧ lk_tx (conn_run c ops) = u64 (b + bytes_written ops).
Proof.
  revert c a b. induction ops as [|op ops IH]; intros c a b Ha Hb; simpl.
  { by rewrite !Z.add_0_r. }
  destruct op as [n|n|]; simpl; unfold conn_run in IH.
  - rewrite Z.add_assoc. apply IH; [|done]. simpl. by rewrite Ha, u64_add_l.
  - rewrite Z.add_assoc. apply IH; [done|]. simpl. by rewrite Hb, u64_add_l.
  - by apply IH.
Qed.

Lemma conn_run_no_tick ops c :
  no_tick ops →
  lk_lastrx (conn_run c ops) = lk_lastrx c ∧ lk_lasttx (conn_run c ops) = lk_lasttx c ∧
  lk_rxrate (conn_run c ops) = lk_rxrate c ∧ lk_txrate (conn_run c ops) = lk_txrate c.
Proof.
  revert c. induction ops as [|op ops IH]; intros c Hn; [done|]. apply not_elem_of_cons in Hn as [Ho Hn]. simpl.
  destruct (IH (conn_step c op) Hn) as (-> & -> & -> & ->). by destruct op.
Qed.

(** traffic_counters. After any sequence of reads, writes and ticks, the
    counters of a connection hold the bytes read and written modulo 2^64, and
    the rates are the bytes between the last two ticks, across an overflow of
    the counters too. *)
Theorem traffic_counters pre mid post :
  no_tick mid → no_tick post →
  let ops := pre ++ OpTick :: mid ++ OpTick :: post in
  let c := conn_run linkConn_init ops in
  lk_rx c = u64 (bytes_read ops) ∧ lk_tx c = u64 (bytes_written ops) ∧
  lk_rxrate c = u64 (bytes_read mid) ∧ lk_txrate c = u64 (bytes_written mid).
Proof.
  intros Hmid Hpost ops c. destruct (conn_run_totals ops linkConn_init 0 0) as [Hrx Htx]; [done|done|].
  split_and!; [done|done|..]; unfold c, ops, conn_run; rewrite foldl_app; simpl; rewrite foldl_app; simpl.
  all: destruct (conn_run_totals pre linkConn_init 0 0) as [Hp1 Hp2]; [done|done|].
  all: set (c1 := updateAverages (foldl conn_step linkConn_init pre)).
  all: destruct (conn_run_totals mid c1 (0 + bytes_read pre) (0 + bytes_written pre)) as [Hm1 Hm2]; [done|done|].
  all: destruct (conn_run_no_tick mid c1 Hmid) as (Hl1 & Hl2 & _).
  all: destruct (conn_run_no_tick post (updateAverages (conn_run c1 mid)) Hpost) as (_ & _ & Hr1 & Hr2).
  all: unfold conn_run in *; rewrite ?Hr1, ?Hr2; simpl; rewrite ?Hm1, ?Hm2, ?Hl1, ?Hl2; simpl;
    rewrite ?Hp1, ?Hp2; apply u64_sub_add.
Qed.

Module DialWitness.
Definition split (s : string) : option (string * string) := Some ("peer.example", "443").
Definition v6 (b : Z) : bytes := b :: replicate 15 1.
Definition lookup (h : string) : option (list bytes) := Some [v6 0x02; v6 0xff; v6 0x20; v6 0x21; v6 0x22].
Definition net (call : net_call) : res dial_error nat :=
  match call with
  | CallTLS _ cfg ip _ => if (nth 0 ip 0 =? 0x21) && String.eqb (tc_ServerName cfg) "peer.example" then Ok 5%nat else Err (ErrDial 0)
  | _ => Err (ErrDial 1)
  end.
Definition host : dial_url := DialURL "tls" "peer.example:443" "" None.


Definition fe80 (b : Z) : bytes := [0xfe; 0x80] ++ replicate 13 0 ++ [b].
Definition eth (n : string) : option iface_state :=
  if String.eqb n "eth0" then Some (IfaceState 1 (Some [None; Some (v6 0x20); Some (fe80 9)])) else None.

(** Witness. *)
Lemma dialer_scope_witness :
  ∃ d, tcp_dialerFor eth (fe80 1) "" "eth0" = Ok d ∧ td_Zone d = "eth0" ∧ td_LocalAddr d = Some (fe80 9, "eth0") ∧
    IsLinkLocalUnicast (fe80 9) = true.
Proof.
  exists (TCPDialer "eth0" (Some (fe80 9, "eth0")) (Some "eth0")).
  assert (E : tcp_dialerFor eth (fe80 1) "" "eth0" = Ok (TCPDialer "eth0" (Some (fe80 9, "eth0")) (Some "eth0"))) by reflexivity.
  split; [exact E|]. split; [reflexivity|]. split; [reflexivity|].
  destruct (dialer_scope eth (fe80 1) "" "eth0" _ E) as (_ & _ & _ & ief & addrs & _ & _ & _ & _ & _ & _ & Hl).
  by apply Hl.
Defined.

(** Witness. *)
Lemma quic_server_name_unused_witness :
  tc_ServerName (snd (quic_tls_config generateTLSConfig "peer.example")) = "".
Proof. apply (quic_server_name_unused "peer.example"). done. Defined.

(** Witness: a rate across the overflow of the counter. *)
Lemma traffic_counters_witness :
  lk_rxrate (conn_run linkConn_init ([OpRead (2 ^ 64 - 5)] ++ OpTick :: [OpRead 100; OpWrite 3] ++ [OpTick])) = 100.
Proof.
  destruct (traffic_counters [OpRead (2 ^ 64 - 5)] [OpRead 100; OpWrite 3] []) as (_ & _ & Hr & _).
  - unfold no_tick. set_solver.
  - unfold no_tick. set_solver.
  - exact Hr.
Defined.
End DialWitness.
