(* ===== verification/Listeners.v ===== *)
(** * Listeners: accepting connections
    (the listen functions of link_tcp.go, link_tls.go, link_unix.go, link_quic.go,
    link_ws.go, link_wss.go and link_socks.go, the accept goroutine of link_quic.go,
    the listener and the server of link_ws.go, and the accept loop of
    links.listen in link.go, all of src/core)

    A listener is a socket, possibly with a TLS layer, a QUIC endpoint or an HTTP
    server.  The accept loop of the links takes connections from it; for QUIC and
    WebSocket they arrive over a channel without a buffer.  The goroutines are a
    state machine: an event is a step of one of them or of the world outside, and
    [None] means that it cannot happen in that state. *)

From S2P Require Import Prelude Binary Wire Address Crypto Messages Handshake Links GoLib Multicast Dial.

Open Scope string_scope.
Open Scope list_scope.
Open Scope Z_scope.

(** ** Opening *)

(** What [listen] of a transport opens. *)
Inductive bound :=
| BoundSocket (network addr : string) (tls : option tls_config)
| BoundQUIC (addr : string) (cfg : tls_config)
| BoundHTTP (addr : string) (opts : AcceptOptions) (readTimeout writeTimeout : Z).

Section Open.
Context (SplitHostPort : string → option (string * string)).
Context (bind : string → string → bool).       (* whether the system binds the address *)

Definition tcp_listen (u : url) (sintf : string) : res dial_error bound :=
  let hostport := listen_hostport SplitHostPort (u_host u) sintf in
  if bind "tcp" hostport then Ok (BoundSocket "tcp" hostport None) else Err ErrListen.

Definition tls_listen (config : tls_config) (u : url) (sintf : string) : res dial_error bound :=
  let hostport := listen_hostport SplitHostPort (u_host u) sintf in
  if bind "tcp" hostport then Ok (BoundSocket "tcp" hostport (Some config)) else Err ErrListen.

Definition unix_listen (path : string) : res dial_error bound :=
  if bind "unix" path then Ok (BoundSocket "unix" path None) else Err ErrListen.

Definition quic_listen (config : tls_config) (u : url) : res dial_error bound :=
  if bind "udp" (u_host u) then Ok (BoundQUIC (u_host u) config) else Err ErrListen.

Definition ws_listen (u : url) : res dial_error bound :=
  if bind "tcp" (u_host u) then Ok (BoundHTTP (u_host u) (wsAcceptOptions u) (10 * 1000000000) (10 * 1000000000))
  else Err ErrListen.

Definition wss_listen : res dial_error bound := Err ErrListenUnsupported.
Definition socks_listen : res dial_error bound := Err ErrListenUnsupported.

(** [protocol.listen] of [links.listen]; [path] is the path of the URL. *)
Definition proto_listen (config : tls_config) (path : string) (p : linkProtocol) (u : url) (sintf : string) :
    res dial_error bound :=
  match p with
  | linkTCP => tcp_listen u sintf
  | linkTLS => tls_listen config u sintf
  | linkSOCKS => socks_listen
  | linkUNIX => unix_listen path
  | linkQUIC => quic_listen config u
  | linkWS => ws_listen u
  | linkWSS => wss_listen
  end.
End Open.

(** ** Accepting *)

Inductive listener_kind := KindSocket | KindQUIC | KindWS.

Definition bound_kind (b : bound) : listener_kind :=
  match b with BoundSocket _ _ _ => KindSocket | BoundQUIC _ _ => KindQUIC | BoundHTTP _ _ _ _ => KindWS end.

(** The accept goroutine of QUIC. *)
Inductive quic_state :=
| QAccepting                (* in [ql.Accept] *)
| QWaitStream (c : nat)     (* in [qc.AcceptStream] *)
| QSending (c : nat)        (* in [ch <- ...] *)
| QEnded.

Record listener := ListenerState {
  li_kind : listener_kind;
  li_cancelled : bool;       (* the context *)
  li_closed : bool;          (* the socket or endpoint *)
  li_backlog : list nat;     (* connections that were made and not taken *)
  li_streams : list nat;     (* QUIC connections with an open stream *)
  li_gone : list nat;        (* QUIC connections that ended *)
  li_quic : quic_state;
  li_sending : list nat;     (* WebSocket handlers in [s.ch <- ...] *)
  li_loop : bool;            (* the accept loop of the links runs *)
  li_registered : bool;      (* the listener is in the table *)
  li_handled : list nat;     (* connections given to the handler *)
}.

Definition listener_init (k : listener_kind) : listener :=
  ListenerState k false false [] [] [] (match k with KindQUIC => QAccepting | _ => QEnded end) [] true true [].

Inductive listener_ev :=
| LDial (c : nat)                     (* a client connects *)
| LOpenStream (c : nat)               (* a QUIC client opens a stream *)
| LGone (c : nat)                     (* a QUIC connection ends *)
| LRequest (c : nat) (path : string) (accept : option string)  (* an HTTP request *)
| LCancel                             (* the listener's cancel function *)
| LQuicAccept (ok : bool)             (* [ql.Accept] returns a connection or that it is over *)
| LQuicError                          (* ... with another error *)
| LQuicStream (ok : bool)             (* [qc.AcceptStream] returns a stream or an error *)
| LReceive                            (* the accept loop takes a connection, or that the socket is closed *)
| LAcceptError                        (* [Accept] of a socket fails in another way *).

Definition set_loop (loop reg : bool) (s : listener) : listener :=
  ListenerState (li_kind s) (li_cancelled s) (li_closed s) (li_backlog s) (li_streams s) (li_gone s) (li_quic s)
    (li_sending s) loop reg (li_handled s).
Definition set_quic (q : quic_state) (s : listener) : listener :=
  ListenerState (li_kind s) (li_cancelled s) (li_closed s) (li_backlog s) (li_streams s) (li_gone s) q
    (li_sending s) (li_loop s) (li_registered s) (li_handled s).
Definition set_queues (backlog sending handled : list nat) (s : listener) : listener :=
  ListenerState (li_kind s) (li_cancelled s) (li_closed s) backlog (li_streams s) (li_gone s) (li_quic s)
    sending (li_loop s) (li_registered s) handled.
Definition set_clients (streams gone : list nat) (s : listener) : listener :=
  ListenerState (li_kind s) (li_cancelled s) (li_closed s) (li_backlog s) streams gone (li_quic s)
    (li_sending s) (li_loop s) (li_registered s) (li_handled s).
(** The cancel function: the context, then [listener.Close]. *)
Definition listener_cancel (s : listener) : listener :=
  ListenerState (li_kind s) true true (li_backlog s) (li_streams s) (li_gone s) (li_quic s)
    (li_sending s) (li_loop s) (li_registered s) (li_handled s).

(** [ql.Accept] returns in the goroutine: a connection, or that the context or the
    endpoint is closed; when both are possible either may happen. *)
Definition quic_accept (ok : bool) (s : listener) : option listener :=
  match li_quic s with
  | QAccepting =>
      if ok then
        match li_backlog s with
        | c :: cs => Some (set_quic (QWaitStream c) (set_queues cs (li_sending s) (li_handled s) s))
        | [] => None
        end
      else if li_cancelled s then Some (set_quic QEnded (listener_cancel s))
      else if li_closed s then Some (set_quic QEnded s)
      else None
  | _ => None
  end.

(** [qc.AcceptStream] returns: a stream, or an error, which closes the connection. *)
Definition quic_stream (ok : bool) (s : listener) : option listener :=
  match li_quic s with
  | QWaitStream c =>
      if ok then if bool_decide (c ∈ li_streams s) then Some (set_quic (QSending c) s) else None
      else if bool_decide (c ∈ li_gone s) || li_cancelled s then Some (set_quic QAccepting s)
      else None
  | _ => None
  end.

(** [Accept] returns in the accept loop: from the socket, or from the channel,
    which nobody closes. *)
Definition loop_accept (s : listener) : option listener :=
  if negb (li_loop s) then None
  else
    match li_kind s with
    | KindSocket =>
        if li_closed s then Some (set_loop false false (listener_cancel s))
        else match li_backlog s with
             | c :: cs => Some (set_queues cs (li_sending s) (li_handled s ++ [c]) s)
             | [] => None
             end
    | KindQUIC =>
        match li_quic s with
        | QSending c => Some (set_quic QAccepting (set_queues (li_backlog s) (li_sending s) (li_handled s ++ [c]) s))
        | _ => None
        end
    | KindWS =>
        match li_sending s with
        | c :: cs => Some (set_queues (li_backlog s) cs (li_handled s ++ [c]) s)
        | [] => None
        end
    end.

(** [Accept] of a socket fails: any error ends the loop, which cancels the
    listener and takes it out of the table. *)
Definition loop_error (s : listener) : option listener :=
  match li_kind s with
  | KindSocket => if li_loop s then Some (set_loop false false (listener_cancel s)) else None
  | _ => None
  end.

(** [ServeHTTP] in a goroutine of its own per request. The server keeps the
    connection for further requests unless it became a WebSocket. *)
Definition ws_request (c : nat) (path : string) (accept : option string) (s : listener) : option listener :=
  if bool_decide (c ∈ li_backlog s)
  then let backlog := filter (λ d, d ≠ c) (li_backlog s) in
       match ServeHTTP path accept with
       | HandOver => Some (set_queues backlog (li_sending s ++ [c]) (li_handled s) s)
       | PolicyViolation => Some (set_queues backlog (li_sending s) (li_handled s) s)
       | HealthOK | AcceptFailed => Some s
       end
  else None.

Definition listener_step (e : listener_ev) (s : listener) : option listener :=
  match e with
  | LDial c => if li_closed s then None else Some (set_queues (li_backlog s ++ [c]) (li_sending s) (li_handled s) s)
  | LOpenStream c => Some (set_clients (c :: li_streams s) (li_gone s) s)
  | LGone c => Some (set_clients (li_streams s) (c :: li_gone s) s)
  | LRequest c path accept => match li_kind s with KindWS => ws_request c path accept s | _ => None end
  | LCancel => Some (listener_cancel s)
  | LQuicAccept ok => quic_accept ok s
  | LQuicError => match li_quic s with QAccepting => Some s | _ => None end
  | LQuicStream ok => quic_stream ok s
  | LReceive => loop_accept s
  | LAcceptError => loop_error s
  end.

(** A history: events that cannot happen are skipped. *)
Definition listener_run (es : list listener_ev) (s : listener) : listener :=
  foldl (λ s e, default s (listener_step e s)) s es.

(** ** Properties *)

(** The connections that clients made. *)
Definition dials (es : list listener_ev) : list nat :=
  omap (λ e, match e with LDial c => Some c | _ => None end) es.

(** What a connection must have done to reach the handler. *)
Definition admitted (k : listener_kind) (es : list listener_ev) (c : nat) : Prop :=
  match k with
  | KindSocket => True
  | KindQUIC => LOpenStream c ∈ es
  | KindWS => ∃ path accept, LRequest c path accept ∈ es ∧ ServeHTTP path accept = HandOver
  end.

(** The connection that the QUIC goroutine holds. *)
Definition quic_held (s : listener) : list nat :=
  match li_quic s with QWaitStream c | QSending c => [c] | _ => [] end.

(** Every connection is in one place, and where only admitted ones are. *)
Record listener_inv (k : listener_kind) (es : list listener_ev) (s : listener) : Prop := {
  lv_kind : li_kind s = k;
  lv_nodup : NoDup (li_backlog s ++ quic_held s ++ li_sending s ++ li_handled s);
  lv_dials : ∀ c, c ∈ li_backlog s ++ quic_held s ++ li_sending s ++ li_handled s → c ∈ dials es;
  lv_streams : ∀ c, c ∈ li_streams s → LOpenStream c ∈ es;
  lv_sending : ∀ c, c ∈ li_sending s → admitted KindWS es c;
  lv_quic : ∀ c, li_quic s = QSending c → LOpenStream c ∈ es;
  lv_handled : ∀ c, c ∈ li_handled s → admitted k es c;
}.

Lemma admitted_more k es e c : admitted k es c → admitted k (es ++ [e]) c.
Proof.
  destruct k; simpl; [done|set_solver|]. intros (path & acc & Hin & Hs). exists path, acc. set_solver.
Qed.

Lemma dials_snoc es e : dials (es ++ [e]) = dials es ++ dials [e].
Proof. apply omap_app. Qed.

(** Facts about a longer history. *)
Lemma listener_inv_more k es e s : listener_inv k es s → listener_inv k (es ++ [e]) s.
Proof.
  intros [Hk Hnd Hd Hst Hse Hq Hh]. split; try done.
  - intros c Hc. rewrite dials_snoc. set_solver.
  - intros c Hc. apply elem_of_app. left. auto.
  - intros c Hc. apply admitted_more. auto.
  - intros c Hc. apply elem_of_app. left. auto.
  - intros c Hc. apply admitted_more. auto.
Qed.

(** Moving a connection from one place to another. *)
Lemma listener_inv_move k es s s' :
  listener_inv k es s → li_kind s' = li_kind s → li_streams s' = li_streams s →
  li_backlog s' ++ quic_held s' ++ li_sending s' ++ li_handled s' ⊆+
    li_backlog s ++ quic_held s ++ li_sending s ++ li_handled s →
  (∀ c, c ∈ li_sending s' → c ∈ li_sending s ∨ admitted KindWS es c) →
  (∀ c, li_quic s' = QSending c → li_quic s = QSending c ∨ c ∈ li_streams s) →
  (∀ c, c ∈ li_handled s' → c ∈ li_handled s ∨ admitted k es c) →
  listener_inv k es s'.
Proof.
  intros [Hk Hnd Hd Hst Hse Hq Hh] Hk' Hst' Hsub H1 H2 H3. split.
  - congruence.
  - apply submseteq_Permutation in Hsub as [r Hr]. rewrite Hr in Hnd. by apply NoDup_app in Hnd as [? _].
  - intros c Hc. apply Hd. by eapply elem_of_submseteq.
  - rewrite Hst'. auto.
  - intros c Hc. destruct (H1 c Hc); auto.
  - intros c Hc. destruct (H2 c Hc); auto.
  - intros c Hc. destruct (H3 c Hc); auto.
Qed.

(** A client connects. *)
Lemma dial_inv k es c s :
  NoDup (dials (es ++ [LDial c])) → listener_inv k es s →
  listener_inv k (es ++ [LDial c]) (set_queues (li_backlog s ++ [c]) (li_sending s) (li_handled s) s).
Proof.
  intros Hdn Hinv. destruct (listener_inv_more k es (LDial c) s Hinv) as [? Hnd Hd' ? ? ? ?].
  rewrite dials_snoc in Hdn. simpl in Hdn. apply NoDup_app in Hdn as (_ & Hnew & _).
  assert (c ∉ li_backlog s ++ quic_held s ++ li_sending s ++ li_handled s) as Hc.
  { intros Hin. apply (Hnew c (lv_dials _ _ _ Hinv c Hin)). by apply list_elem_of_here. }
  assert ((li_backlog s ++ [c]) ++ quic_held s ++ li_sending s ++ li_handled s ≡ₚ
    c :: li_backlog s ++ quic_held s ++ li_sending s ++ li_handled s) as Hp by solve_Permutation.
  split; try done; cbn [li_backlog quic_held li_quic li_sending li_handled set_queues]; unfold quic_held in Hp.
  - rewrite Hp. by apply NoDup_cons.
  - intros x. rewrite Hp. intros [->|Hx]%elem_of_cons; [rewrite dials_snoc; simpl; set_solver|by apply Hd'].
Qed.

(** An HTTP request: the connection stays for the next one, is closed, or goes to
    the channel when it is admitted. *)
Lemma request_inv k es c path acc s s' :
  listener_inv k es s → LRequest c path acc ∈ es → ws_request c path acc s = Some s' → listener_inv k es s'.
Proof.
  intros Hinv He. unfold ws_request. destruct (bool_decide (c ∈ li_backlog s)) eqn:Hin; [|done].
  apply bool_decide_eq_true in Hin. pose proof (lv_nodup _ _ _ Hinv) as Hnd.
  assert (filter (λ d, d ≠ c) (li_backlog s) ++ [c] ⊆+ li_backlog s) as Hfil.
  { apply NoDup_submseteq.
    - apply NoDup_app in Hnd as (Hb & _). apply NoDup_app. split; [by apply NoDup_filter|].
      split; [|apply NoDup_singleton]. intros x [Hx _]%list_elem_of_filter Hx'%list_elem_of_singleton. done.
    - intros x [[_ ?]%list_elem_of_filter| ->%list_elem_of_singleton]%elem_of_app; done. }
  assert (filter (λ d, d ≠ c) (li_backlog s) ⊆+ li_backlog s) as Hdrop
    by (etrans; [|exact Hfil]; by apply submseteq_inserts_r).
  destruct (ServeHTTP path acc) eqn:Hserve; intros [= <-]; try done;
    apply (listener_inv_move _ _ _ _ Hinv); try done; try (by left);
    cbn [li_backlog quic_held li_quic li_sending li_handled set_queues]; try (by apply submseteq_skips_r).
  - etrans; [|apply submseteq_skips_r, Hfil]. apply Permutation_submseteq. unfold quic_held. solve_Permutation.
  - intros x [Hx| ->%list_elem_of_singleton]%elem_of_app; [by left|right]. by exists path, acc.
Qed.

(** The steps of the QUIC goroutine. *)
Lemma quic_inv k es s s' ok :
  listener_inv k es s → quic_accept ok s = Some s' ∨ quic_stream ok s = Some s' → listener_inv k es s'.
Proof.
  intros Hinv Hs. assert (∀ q, quic_held (set_quic q s) ⊆+ quic_held s → li_quic (set_quic q s) = q →
    (∀ c, q = QSending c → c ∈ li_streams s) → listener_inv k es (set_quic q s)) as Hmove.
  { intros q Hq _ Hst. apply (listener_inv_move _ _ _ _ Hinv); try done; try (by left).
    - cbn [li_backlog li_sending li_handled set_quic]. by apply submseteq_skips_l, submseteq_skips_r.
    - intros c Hc. right. by apply Hst. }
  destruct Hs as [Hs|Hs]; [unfold quic_accept in Hs|unfold quic_stream in Hs]; destruct (li_quic s) as [|c|c|] eqn:Hq; try done.
  - destruct ok.
    + destruct (li_backlog s) as [|c cs] eqn:Hb; [done|]. injection Hs as <-.
      apply (listener_inv_move _ _ _ _ Hinv); try done; try (by left).
      cbn [li_backlog quic_held li_quic li_sending li_handled set_queues set_quic]. rewrite Hb. unfold quic_held. rewrite Hq.
      apply Permutation_submseteq. solve_Permutation.
    + destruct (li_cancelled s), (li_closed s); try done; injection Hs as <-;
        apply (listener_inv_move _ _ _ _ Hinv); try done; try (by left); unfold quic_held; rewrite Hq; done.
  - destruct ok.
    + destruct (bool_decide (c ∈ li_streams s)) eqn:Hin; [|done]. apply bool_decide_eq_true in Hin. injection Hs as <-.
      apply Hmove; [unfold quic_held; by rewrite Hq|done|]. by intros ? [= <-].
    + destruct (_ || _); [|done]. injection Hs as <-. apply Hmove; [apply submseteq_nil_l|done|done].
Qed.

(** The accept loop. *)
Lemma receive_inv k es s s' : listener_inv k es s → loop_accept s = Some s' → listener_inv k es s'.
Proof.
  intros Hinv. unfold loop_accept. destruct (li_loop s); [|done]. cbn [negb].
  pose proof (lv_kind _ _ _ Hinv) as Hk. destruct (li_kind s) eqn:Hki; subst k.
  - destruct (li_closed s); [intros [= <-]; by destruct Hinv|]. destruct (li_backlog s) as [|c cs] eqn:Hb; [done|].
    intros [= <-]. apply (listener_inv_move _ _ _ _ Hinv); try done; try (by left); [|by right].
    cbn [li_backlog quic_held li_quic li_sending li_handled set_queues]. rewrite Hb. apply Permutation_submseteq.
    unfold quic_held. solve_Permutation.
  - destruct (li_quic s) as [|c|c|] eqn:Hq; try done. intros [= <-].
    apply (listener_inv_move _ _ _ _ Hinv); try done; try (by left).
    + cbn [li_backlog quic_held li_quic li_sending li_handled set_queues set_quic]. unfold quic_held. rewrite Hq.
      apply Permutation_submseteq. solve_Permutation.
    + intros x [Hx| ->%list_elem_of_singleton]%elem_of_app; [by left|right]. by apply (lv_quic _ _ _ Hinv).
  - destruct (li_sending s) as [|c cs] eqn:Hse; [done|]. intros [= <-].
    apply (listener_inv_move _ _ _ _ Hinv); try done; try (by left).
    + cbn [li_backlog quic_held li_quic li_sending li_handled set_queues]. rewrite Hse. unfold quic_held.
      apply Permutation_submseteq. solve_Permutation.
    + intros x Hx. left. rewrite Hse. by apply list_elem_of_further.
    + intros x [Hx| ->%list_elem_of_singleton]%elem_of_app; [by left|right].
      apply (lv_sending _ _ _ Hinv). rewrite Hse. by apply list_elem_of_here.
Qed.

Lemma listener_step_inv k es e s :
  NoDup (dials (es ++ [e])) → listener_inv k es s →
  listener_inv k (es ++ [e]) (default s (listener_step e s)).
Proof.
  intros Hdn Hinv. pose proof (listener_inv_more k es e s Hinv) as Hmore.
  destruct (listener_step e s) as [s'|] eqn:Hs; [|done]. simpl.
  destruct e as [c|c|c|c path acc| |ok| |ok| |]; simpl in Hs.
  - destruct (li_closed s); [done|]. injection Hs as <-. by apply dial_inv.
  - injection Hs as <-. destruct Hmore as [? ? ? Hst' ? ? ?]. split; try done.
    intros x [->|Hx]%elem_of_cons; [apply elem_of_app; right; by apply list_elem_of_here|by apply Hst'].
  - injection Hs as <-. by destruct Hmore.
  - destruct (li_kind s); try done. apply (request_inv _ _ _ _ _ _ _ Hmore) in Hs; [done|].
    apply elem_of_app. right. by apply list_elem_of_here.
  - injection Hs as <-. by destruct Hmore.
  - eapply (quic_inv _ _ _ _ ok Hmore). by left.
  - destruct (li_quic s); try done. by injection Hs as <-.
  - eapply (quic_inv _ _ _ _ ok Hmore). by right.
  - by apply (receive_inv _ _ s).
  - unfold loop_error in Hs. destruct (li_kind s), (li_loop s); try done. injection Hs as <-. by destruct Hmore.
Qed.

Lemma listener_run_snoc es e s : listener_run (es ++ [e]) s = default (listener_run es s) (listener_step e (listener_run es s)).
Proof. unfold listener_run. by rewrite foldl_app. Qed.

Lemma listener_run_inv k es : NoDup (dials es) → listener_inv k es (listener_run es (listener_init k)).
Proof.
  induction es as [|e es IH] using rev_ind; intros Hd.
  - destruct k; split; simpl; try done; try (by intros c ?%not_elem_of_nil); apply NoDup_nil_2.
  - rewrite listener_run_snoc. apply listener_step_inv; [done|]. apply IH. rewrite dials_snoc in Hd.
    by apply NoDup_app in Hd as [? _].
Qed.

(** C24: listener_hands_over_once.  Whatever the order in which clients connect,
    open streams, send requests and leave, in which the goroutines run and in which
    the listener is cancelled, every connection reaches the handler of the links at
    most once, only if a client made it, over QUIC only with an open stream and
    over WebSocket only through a request that the server accepted with one of its
    subprotocols. *)
Theorem listener_hands_over_once k es :
  NoDup (dials es) →
  let s := listener_run es (listener_init k) in
  NoDup (li_handled s) ∧ ∀ c, c ∈ li_handled s → c ∈ dials es ∧ admitted k es c.
Proof.
  intros Hd s. destruct (listener_run_inv k es Hd) as [_ Hnd Hdi _ _ _ Hh]. fold s in Hnd, Hdi, Hh. split.
  - apply NoDup_app in Hnd as (_ & _ & Hnd). apply NoDup_app in Hnd as (_ & _ & Hnd). by apply NoDup_app in Hnd as (_ & _ & ?).
  - intros c Hc. split; [|by apply Hh]. apply Hdi. rewrite !elem_of_app. auto.
Qed.

(** A cancelled socket listener ends: the next [Accept] fails, the loop stops and
    the listener leaves the table. *)
Theorem socket_listener_stops s :
  li_kind s = KindSocket → li_loop s = true →
  let s' := listener_run [LCancel; LReceive] s in li_loop s' = false ∧ li_registered s' = false.
Proof.
  intros Hk Hl. unfold listener_run. simpl. unfold loop_accept. simpl. by rewrite Hl, Hk.
Qed.

(** channel_listener_never_stops.  The channel of a QUIC or WebSocket listener is
    never closed, so the accept loop of such a listener never ends and the listener
    stays in the table, also after it was cancelled. *)
Theorem channel_listener_never_stops k es :
  k ≠ KindSocket → let s := listener_run es (listener_init k) in li_loop s = true ∧ li_registered s = true.
Proof.
  intros Hk s. cut (li_kind s = k ∧ li_loop s = true ∧ li_registered s = true); [tauto|]. unfold s.
  induction es as [|e es IH] using rev_ind; [done|]. rewrite listener_run_snoc.
  set (t := listener_run es _) in *. destruct (listener_step e t) as [t'|] eqn:Hs; [|done]. simpl.
  destruct IH as (Hki & Hl & Hr). destruct e as [c|c|c|c path acc| |ok| |ok| |]; simpl in Hs.
  - destruct (li_closed t); [done|]. by injection Hs as <-.
  - by injection Hs as <-.
  - by injection Hs as <-.
  - destruct (li_kind t) eqn:E; try done. unfold ws_request in Hs. destruct (bool_decide _); [|done].
    destruct (ServeHTTP path acc); injection Hs as <-; simpl; by rewrite E.
  - by injection Hs as <-.
  - unfold quic_accept in Hs. destruct (li_quic t); try done. destruct ok.
    + destruct (li_backlog t); [done|]. by injection Hs as <-.
    + destruct (li_cancelled t), (li_closed t); try done; by injection Hs as <-.
  - destruct (li_quic t); try done. by injection Hs as <-.
  - unfold quic_stream in Hs. destruct (li_quic t); try done. destruct ok.
    + destruct (bool_decide _); [|done]. by injection Hs as <-.
    + destruct (_ || _); [|done]. by injection Hs as <-.
  - unfold loop_accept in Hs. rewrite Hl, Hki in Hs. simpl in Hs. destruct k; [done|..].
    + destruct (li_quic t); try done. by injection Hs as <-.
    + destruct (li_sending t); [done|]. by injection Hs as <-.
  - unfold loop_error in Hs. rewrite Hki in Hs. by destruct k.
Qed.

(** quic_waits_for_one_client.  While the goroutine of a QUIC listener waits for
    the stream of a client that neither opens one nor leaves, no other connection
    reaches the handler, however many clients connect and open streams. *)
Theorem quic_waits_for_one_client es s c :
  li_kind s = KindQUIC → li_quic s = QWaitStream c → c ∉ li_streams s → c ∉ li_gone s → li_cancelled s = false →
  (∀ e, e ∈ es → e ≠ LOpenStream c ∧ e ≠ LGone c ∧ e ≠ LCancel) →
  li_handled (listener_run es s) = li_handled s ∧ li_quic (listener_run es s) = QWaitStream c.
Proof.
  revert s. induction es as [|e es IH]; intros s Hk Hq Hst Hg Hc Hes; [done|].
  destruct (Hes e (list_elem_of_here _ _)) as (H1 & H2 & H3).
  assert (∀ e', e' ∈ es → e' ≠ LOpenStream c ∧ e' ≠ LGone c ∧ e' ≠ LCancel) as Hes' by (intros; apply Hes; by right).
  assert (∀ s', li_kind s' = KindQUIC → li_quic s' = QWaitStream c → c ∉ li_streams s' → c ∉ li_gone s' →
    li_cancelled s' = false → li_handled s' = li_handled s →
    li_handled (listener_run es s') = li_handled s ∧ li_quic (listener_run es s') = QWaitStream c) as Hgo.
  { intros s' ? ? ? ? ? <-. by apply IH. }
  change (listener_run (e :: es) s) with (listener_run es (default s (listener_step e s))).
  destruct e as [d|d|d|d path acc| |ok| |ok| |]; simpl.
  - destruct (li_closed s); simpl; by apply Hgo.
  - apply Hgo; try done. simpl. intros [->|?]%elem_of_cons; done.
  - apply Hgo; try done. simpl. intros [->|?]%elem_of_cons; done.
  - rewrite Hk. simpl. by apply Hgo.
  - done.
  - unfold quic_accept. rewrite Hq. by apply Hgo.
  - rewrite Hq. by apply Hgo.
  - unfold quic_stream. rewrite Hq, Hc, !bool_decide_false by done. destruct ok; by apply Hgo.
  - unfold loop_accept. rewrite Hk, Hq. destruct (li_loop s); by apply Hgo.
  - unfold loop_error. rewrite Hk. by apply Hgo.
Qed.

Module ListenersWitness.
(** A silent client, one that opens a stream, and the first one leaving. *)
Definition events : list listener_ev :=
  [LDial 1; LDial 2; LOpenStream 2; LQuicAccept true; LQuicStream true; LReceive; LGone 1; LQuicStream false;
   LQuicAccept true; LQuicStream true; LReceive; LCancel; LQuicAccept false; LReceive].

Lemma listener_hands_over_once_witness :
  li_handled (listener_run events (listener_init KindQUIC)) = [2%nat] ∧
  NoDup (li_handled (listener_run events (listener_init KindQUIC))).
Proof.
  split; [reflexivity|]. apply (listener_hands_over_once KindQUIC events).
  apply (bool_decide_unpack _). vm_compute. exact I.
Defined.

(** Two WebSocket clients, one with a foreign subprotocol, and two plain ones. *)
Definition ws_events : list listener_ev :=
  [LDial 1; LDial 2; LDial 3; LRequest 2 "/" (Some "uqda-ws"); LRequest 1 "/" (Some "chat"); LRequest 3 "/health" (Some "uqda-ws");
   LCancel; LReceive].
Lemma ws_events_run : li_handled (listener_run ws_events (listener_init KindWS)) = [2%nat].
Proof. reflexivity. Qed.
End ListenersWitness.
