(* ===== verification/Tun.v ===== *)
(** * Tun: the local network interface
    (tun.go, iface.go, options.go, admin.go and tun_linux.go of src/tun)

    Options and start of the adapter with the MTU it settles on, and its three
    goroutines: the reader that passes packets of the interface to the key store,
    the queue that buffers packets from it, and the writer that takes them off
    the queue in batches. The interface itself is a parameter. *)

From S2P Require Import Prelude Address Links GoLib Listings Config.
From Stdlib Require Import Ascii.

Open Scope string_scope.
Open Scope list_scope.
Open Scope Z_scope.

(** ** Options and state *)

Inductive TunOption := InterfaceName (name : string) | InterfaceMTU (mtu : Z) | FileDescriptor (fd : Z).

Record tun_config := TunConfig {
  tcf_fd : Z;
  tcf_name : string;
  tcf_mtu : Z;
}.

Record TunAdapter := TunAdapter_ {
  tn_config : tun_config;
  tn_mtu : Z;
  tn_iface : option string;         (* the device, by its name *)
  tn_isOpen : bool;
  tn_isEnabled : bool;
  tn_ch : option nat;               (* the capacity of the channel *)
}.

Definition tun_applyOption (c : tun_config) (opt : TunOption) : tun_config :=
  match opt with
  | InterfaceName v => TunConfig (tcf_fd c) v (tcf_mtu c)
  | InterfaceMTU v => TunConfig (tcf_fd c) (tcf_name c) v
  | FileDescriptor v => TunConfig v (tcf_name c) (tcf_mtu c)
  end.

(** ** MTU *)

Definition MaximumMTU (d : platformDefaultParameters) : Z := pd_MaximumIfMTU d.
Definition DefaultMTU (d : platformDefaultParameters) : Z := pd_IfMTU d.
Definition DefaultName (d : platformDefaultParameters) : string := pd_IfName d.

Definition getSupportedMTU (d : platformDefaultParameters) (mtu : Z) : Z :=
  if mtu <? 1280 then 1280
  else if mtu >? MaximumMTU d then MaximumMTU d
  else mtu.

Definition TunAdapter_MTU (d : platformDefaultParameters) (t : TunAdapter) : Z := getSupportedMTU d (tn_mtu t).

(** ** Start *)

Inductive tun_event :=
| CreateTUN (name : string) (mtu : Z) | AddrAdd (addr : string) | LinkSetMTU (mtu : Z) | LinkSetUp
| RwcSetMTU (mtu : Z) | GoQueue | GoRead | GoWrite.

Inductive tun_error :=
| TunAlreadyStarted | TunCreateFailed | TunFDUnsupported | TunParseAddr | TunLinkByName | TunAddrAdd | TunLinkSetMTU
| TunLinkSetUp.

(** What the system answers: the device that is created (its name, its MTU if it
    reports one, its batch size), and whether each netlink call succeeds. *)
Record tun_env := TunEnv {
  te_create : option (string * option Z * nat);
  te_parse : bool;
  te_link : bool;
  te_addradd : bool;
  te_setmtu : bool;
  te_setup : bool;
}.

(** [setupAddress] of the Linux platform. *)
Definition setupAddress (env : tun_env) (mtu : Z) (addr : string) : list tun_event * option tun_error :=
  if negb (te_parse env) then ([], Some TunParseAddr)
  else if negb (te_link env) then ([], Some TunLinkByName)
  else if negb (te_addradd env) then ([], Some TunAddrAdd)
  else if negb (te_setmtu env) then ([AddrAdd addr], Some TunLinkSetMTU)
  else if negb (te_setup env) then ([AddrAdd addr; LinkSetMTU mtu], Some TunLinkSetUp)
  else ([AddrAdd addr; LinkSetMTU mtu; LinkSetUp], None).

(** [setup] of the Linux platform: the device and MTU it stores, the batch
    size, the events and the error. *)
Definition tun_setup (d : platformDefaultParameters) (env : tun_env) (ifname addr : string) (mtu : Z) :
    option (string * Z * nat) * list tun_event * option tun_error :=
  let ifname := if String.eqb ifname "auto" then String (ascii_of_nat 0) EmptyString else ifname in
  match te_create env with
  | None => (None, [], Some TunCreateFailed)
  | Some (name, reported, batch) =>
      let tmtu := match reported with Some m => getSupportedMTU d m | None => 0 end in
      let ev := [CreateTUN ifname mtu] in
      if String.eqb addr "" then (Some (name, tmtu, batch), ev, None)
      else let '(ev', err) := setupAddress env tmtu addr in (Some (name, tmtu, batch), ev ++ ev', err)
  end.

(** The text of the interface address: the node's address with the length of
    the overlay prefix. *)
Definition tun_addr `{IPText} (addr : bytes) : string :=
  if Address_IsValid addr then IP_String addr +:+ "/7" else "".

Definition with_state (t : TunAdapter) (mtu : Z) (iface : option string) (op en : bool) (ch : option nat) : TunAdapter :=
  TunAdapter_ (tn_config t) mtu iface op en ch.

(** [_start]; [maxMTU] is that of the key store. *)
Definition tun_start `{IPText} (d : platformDefaultParameters) (env : tun_env) (address : bytes) (maxMTU : Z)
    (t : TunAdapter) : TunAdapter * list tun_event * option tun_error :=
  if tn_isOpen t then (t, [], Some TunAlreadyStarted)
  else
    let addr := tun_addr address in
    let name := tcf_name (tn_config t) in
    if String.eqb name "none" || String.eqb name "dummy" then
      (with_state t (tn_mtu t) (tn_iface t) (tn_isOpen t) false (tn_ch t), [GoQueue], None)
    else
      let mtu := if maxMTU <? tcf_mtu (tn_config t) then maxMTU else tcf_mtu (tn_config t) in
      if tcf_fd (tn_config t) >? 0 then (t, [], Some TunFDUnsupported)
      else
        match tun_setup d env name addr mtu with
        | (None, ev, err) => (t, ev, err)
        | (Some (dev, tmtu, batch), ev, Some e) =>
            (with_state t tmtu (Some dev) (tn_isOpen t) (tn_isEnabled t) (tn_ch t), ev, Some e)
        | (Some (dev, tmtu, batch), ev, None) =>
            (with_state t tmtu (Some dev) true true (Some batch),
             ev ++ [RwcSetMTU (getSupportedMTU d tmtu); GoQueue; GoRead; GoWrite], None)
        end.

(** [New]. *)
Definition tun_New `{IPText} (d : platformDefaultParameters) (env : tun_env) (address : bytes) (maxMTU : Z)
    (opts : list TunOption) : TunAdapter * list tun_event * option tun_error :=
  tun_start d env address maxMTU
    (TunAdapter_ (foldl tun_applyOption (TunConfig 0 "" 0) opts) 0 None false false None).

(** [_stop]. *)
Definition tun_stop (t : TunAdapter) : TunAdapter := with_state t (tn_mtu t) (tn_iface t) false (tn_isEnabled t) (tn_ch t).

Record GetTUNResponse := GetTUNResponse_ {
  gt_Enabled : bool;
  gt_Name : string;
  gt_MTU : Z;
}.

Definition getTUNHandler (d : platformDefaultParameters) (t : TunAdapter) : GetTUNResponse :=
  if tn_isEnabled t then
    GetTUNResponse_ true (match tn_iface t with Some n => n | None => "" end) (TunAdapter_MTU d t)
  else GetTUNResponse_ false "" 0.

(** ** The goroutines *)

(** What one read of the interface gives. *)
Inductive tun_read_result := ReadBatch (packets : list bytes) | ReadTooManySegments | ReadError.

(** [read]: the packets that are written to the key store, until a read fails
    for good. *)
Fixpoint tun_read (results : list tun_read_result) : list bytes :=
  match results with
  | [] => []
  | ReadBatch ps :: results => ps ++ tun_read results
  | ReadTooManySegments :: results => tun_read results
  | ReadError :: _ => []
  end.

(** The writer: waiting for the next batch, or filling one of [n] packets. *)
Inductive writer_state := WIdle | WFilling (n : nat) (bufs : list bytes).

(** The channel of capacity [q_cap] with the packets in it, the writer, and the
    packets written to the interface. *)
Record tun_queue := TunQueue {
  q_cap : nat;
  q_ch : list bytes;
  q_writer : writer_state;
  q_written : list bytes;
}.

(** The writer starts once the adapter is enabled, and nothing disables it, so
    every batch is written. One step of [queue] (a packet read from the key store is sent on the
    channel) or of [write]. *)
Inductive queue_action := QSend (p : bytes) | QStart | QRecv | QFlush.

Definition queue_step (q : tun_queue) (a : queue_action) : option tun_queue :=
  match a, q_writer q with
  | QSend p, w =>
      if (length (q_ch q) <? q_cap q)%nat then Some (TunQueue (q_cap q) (q_ch q ++ [p]) w (q_written q)) else None
  | QStart, WIdle =>
      let n := length (q_ch q) in
      Some (TunQueue (q_cap q) (q_ch q) (WFilling (if (n =? 0)%nat then 1%nat else n) []) (q_written q))
  | QRecv, WFilling n bufs =>
      if (length bufs <? n)%nat then
        match q_ch q with
        | msg :: ch => Some (TunQueue (q_cap q) ch (WFilling n (bufs ++ [msg])) (q_written q))
        | [] => None
        end
      else None
  | QFlush, WFilling n bufs =>
      if (length bufs =? n)%nat then Some (TunQueue (q_cap q) (q_ch q) WIdle (q_written q ++ bufs)) else None
  | _, _ => None
  end.

Definition queue_init (cap : nat) : tun_queue := TunQueue cap [] WIdle [].

Fixpoint queue_run (q : tun_queue) (acts : list queue_action) : option tun_queue :=
  match acts with
  | [] => Some q
  | a :: acts => q ← queue_step q a; queue_run q acts
  end.

(** ** Properties of the MTU *)

(** All platforms support the smallest MTU of IPv6. *)
Lemma platform_mtu p pd j : 1280 <= MaximumMTU (getDefaults p pd j) <= 65535 ∧
  DefaultMTU (getDefaults p pd j) = MaximumMTU (getDefaults p pd j).
Proof. unfold MaximumMTU, DefaultMTU. destruct p; simpl; lia. Qed.

Lemma getSupportedMTU_bounds d mtu :
  1280 <= MaximumMTU d →
  1280 <= getSupportedMTU d mtu <= MaximumMTU d ∧ getSupportedMTU d (getSupportedMTU d mtu) = getSupportedMTU d mtu ∧
  (1280 <= mtu <= MaximumMTU d → getSupportedMTU d mtu = mtu).
Proof.
  intros Hm. unfold getSupportedMTU. rewrite !Z.gtb_ltb.
  repeat (case_match; try lia); rewrite ?Z.ltb_lt, ?Z.ltb_ge in *; lia.
Qed.

(** tun_start_mtu. Starting the adapter either leaves it closed or settles
    on an MTU between 1280 and the maximum of the platform, which it reports and
    sets on the key store before its goroutines run; the interface is created
    with at most the MTU of the key store. Without an interface only the queue
    runs, so that the layers below are not blocked. *)
Theorem tun_start_mtu `{IPText} p programData joined env address maxMTU opts t ev err :
  let d := getDefaults p programData joined in
  tun_New d env address maxMTU opts = (t, ev, err) →
  (tn_isOpen t = true →
     err = None ∧ tn_isEnabled t = true ∧ 1280 <= TunAdapter_MTU d t <= MaximumMTU d ∧
     gt_MTU (getTUNHandler d t) = TunAdapter_MTU d t ∧
     ∃ ev1, ev = ev1 ++ [RwcSetMTU (TunAdapter_MTU d t); GoQueue; GoRead; GoWrite]) ∧
  (tn_isOpen t = false → tn_isEnabled t = false ∧ gt_Enabled (getTUNHandler d t) = false ∧
     GoRead ∉ ev ∧ GoWrite ∉ ev ∧ (err = None → ev = [GoQueue])) ∧
  (∀ name mtu, CreateTUN name mtu ∈ ev → mtu <= maxMTU ∧ mtu <= tcf_mtu (tn_config t)).
Proof.
  intros d. destruct (platform_mtu p programData joined) as [[Hmax _] _]. fold d in Hmax.
  unfold tun_New. set (c := foldl tun_applyOption (TunConfig 0 "" 0) opts). unfold tun_start. simpl.
  destruct (String.eqb (tcf_name c) "none" || String.eqb (tcf_name c) "dummy").
  { intros [= <- <- <-]. simpl. split_and!; intros; try done; split_and!; set_solver. }
  destruct (tcf_fd c >? 0).
  { intros [= <- <- <-]. simpl. split_and!; intros; try done; split_and!; set_solver. }
  set (mtu := if maxMTU <? tcf_mtu c then maxMTU else tcf_mtu c).
  assert (Hmtu : mtu <= maxMTU ∧ mtu <= tcf_mtu c) by (unfold mtu; destruct (Z.ltb_spec maxMTU (tcf_mtu c)); lia).
  unfold tun_setup. destruct (te_create env) as [[[dev rep] batch]|].
  2: { intros [= <- <- <-]. simpl. split_and!; intros; try done; split_and!; set_solver. }
  set (tm := match rep with Some m => _ | None => 0 end). set (ifn := if String.eqb _ "auto" then _ else _).
  assert (Hev : ∀ ev' err', setupAddress env tm (tun_addr address) = (ev', err') →
    GoRead ∉ ev' ∧ GoWrite ∉ ev' ∧ ∀ n m, CreateTUN n m ∉ ev').
  { unfold setupAddress. intros ev' err'. repeat case_match; intros; simplify_eq; set_solver. }
  destruct (String.eqb (tun_addr address) ""); [|destruct (setupAddress env tm (tun_addr address)) as [ev' [e|]] eqn:Es;
    destruct (Hev _ _ eq_refl) as (H1 & H2 & H3)].
  all: intros [= <- <- <-]; simpl; split_and!; intros; try done.
  all: try (destruct (getSupportedMTU_bounds d tm Hmax) as [[? ?] _]; split_and!; try done;
    first [by exists [CreateTUN ifn mtu] | by exists (CreateTUN ifn mtu :: ev')]).
  all: try (split_and!; set_solver).
  all: set_solver.
Qed.

(** ** The queue refines a FIFO *)

(** The abstract service: packets wait in order and are delivered in order. *)
Record fifo := Fifo {
  f_pending : list bytes;
  f_delivered : list bytes;
}.

Inductive fifo_label := FEnqueue (p : bytes) | FDeliver | FTau.

Inductive fifo_step : fifo → fifo_label → fifo → Prop :=
| fifo_enqueue p f : fifo_step f (FEnqueue p) (Fifo (f_pending f ++ [p]) (f_delivered f))
| fifo_deliver batch rest done :
    batch ≠ [] → fifo_step (Fifo (batch ++ rest) done) FDeliver (Fifo rest (done ++ batch))
| fifo_tau f : fifo_step f FTau f.

Inductive fifo_run : fifo → list fifo_label → fifo → Prop :=
| fifo_run_nil f : fifo_run f [] f
| fifo_run_cons f l f' ls f'' : fifo_step f l f' → fifo_run f' ls f'' → fifo_run f (l :: ls) f''.

Definition writer_bufs (w : writer_state) : list bytes :=
  match w with WIdle => [] | WFilling _ bufs => bufs end.

(** The abstraction function and the label of an action. *)
Definition queue_abs (q : tun_queue) : fifo := Fifo (writer_bufs (q_writer q) ++ q_ch q) (q_written q).
Definition queue_label (a : queue_action) : fifo_label :=
  match a with QSend p => FEnqueue p | QFlush => FDeliver | _ => FTau end.

(** The invariant: a batch fits the writer's [cap] buffers, and its packets are
    in the channel unless it waits for a first one. *)
Definition queue_ok (q : tun_queue) : Prop :=
  (1 <= q_cap q)%nat ∧ (length (q_ch q) <= q_cap q)%nat ∧
  match q_writer q with
  | WIdle => True
  | WFilling n bufs =>
      (1 <= n <= q_cap q)%nat ∧ (length bufs <= n)%nat ∧ ((n <= length bufs + length (q_ch q))%nat ∨ n = 1%nat)
  end.

Lemma queue_step_simulates q a q' :
  queue_ok q → queue_step q a = Some q' →
  queue_ok q' ∧ fifo_step (queue_abs q) (queue_label a) (queue_abs q').
Proof.
  destruct q as [cap ch w out]. intros (Hcap & Hch & Hw). unfold queue_step, queue_abs; simpl in *.
  destruct a as [p| | |]; [|destruct w as [|n bufs]; try done..].
  - destruct (Nat.ltb_spec (length ch) cap); [|done]. intros [= <-]; simpl. split.
    + split_and!; simpl; [done|rewrite length_app; simpl; lia|]. destruct w as [|n bufs]; [done|].
      rewrite length_app; simpl. lia.
    + rewrite app_assoc. apply (fifo_enqueue p (Fifo _ _)).
  - intros [= <-]. split; [|apply fifo_tau]. split_and!; simpl; [done|done|].
    destruct (Nat.eqb_spec (length ch) 0); simpl; lia.
  - destruct (Nat.ltb_spec (length bufs) n); [|done]. destruct ch as [|msg ch]; [done|]. intros [= <-]; simpl in *. split.
    + split_and!; simpl; [done|lia|]. rewrite length_app; simpl. lia.
    + rewrite <- app_assoc. apply fifo_tau.
  - destruct (Nat.eqb_spec (length bufs) n); [|done]. intros [= <-]; simpl. split; [by split_and!|].
    apply fifo_deliver. destruct bufs; [simpl in *; lia|done].
Qed.

Definition sent (acts : list queue_action) : list bytes :=
  omap (λ a, match a with QSend p => Some p | _ => None end) acts.

Lemma queue_run_simulates acts q q' :
  queue_ok q → queue_run q acts = Some q' →
  queue_ok q' ∧ fifo_run (queue_abs q) (queue_label <$> acts) (queue_abs q').
Proof.
  revert q. induction acts as [|a acts IH]; intros q Hok; simpl.
  { intros [= <-]. split; [done|constructor]. }
  destruct (queue_step q a) as [q1|] eqn:E; [|done]. intros Hrun.
  destruct (queue_step_simulates _ _ _ Hok E) as [Hok1 Hstep]. destruct (IH _ Hok1 Hrun) as [Hok' Hrun'].
  split; [done|]. by econstructor.
Qed.

(** A run of the abstract queue delivers what was sent, in order. *)
Lemma fifo_run_order f acts f' :
  fifo_run f (queue_label <$> acts) f' →
  f_delivered f' ++ f_pending f' = f_delivered f ++ f_pending f ++ sent acts.
Proof.
  revert f. induction acts as [|a acts IH]; intros f Hr; inversion Hr as [|? ? f1 ? ? Hs Hr']; subst.
  { simpl. by rewrite app_nil_r. }
  rewrite (IH _ Hr'). destruct a; simpl in Hs; inversion Hs; subst; simpl; by rewrite <- ?app_assoc.
Qed.

(** From any state, the writer can deliver everything that waits. *)
Lemma queue_fill n bufs ch cap out :
  (length bufs <= n <= length bufs + length ch)%nat →
  ∃ acts, sent acts = [] ∧
    queue_run (TunQueue cap ch (WFilling n bufs) out) acts =
      Some (TunQueue cap (drop (n - length bufs) ch) WIdle (out ++ bufs ++ take (n - length bufs) ch)).
Proof.
  remember (n - length bufs)%nat as k eqn:Hk. revert bufs ch Hk. induction k as [|k IH]; intros bufs ch Hk Hn.
  - exists [QFlush]. split; [done|]. simpl. rewrite drop_0, app_nil_r.
    by rewrite (proj2 (Nat.eqb_eq _ _)) by lia.
  - destruct ch as [|msg ch]; [simpl in Hn; lia|].
    destruct (IH (bufs ++ [msg]) ch) as (acts & Hs & Hr); [rewrite length_app; simpl; lia| |].
    { rewrite length_app. simpl in *. lia. }
    exists (QRecv :: acts). split; [done|]. simpl.
    rewrite (proj2 (Nat.ltb_lt _ _)) by lia. simpl. rewrite Hr. by rewrite <- app_assoc.
Qed.

Lemma queue_drain_idle ch cap out :
  ∃ acts, sent acts = [] ∧ queue_run (TunQueue cap ch WIdle out) acts = Some (TunQueue cap [] WIdle (out ++ ch)).
Proof.
  destruct ch as [|p ch]; [exists []; by rewrite app_nil_r|].
  destruct (queue_fill (length (p :: ch)) [] (p :: ch) cap out) as (acts & Hs & Hr); [simpl; lia|].
  exists (QStart :: acts). split; [done|]. simpl in *. rewrite Hr. simpl.
  by rewrite drop_all, take_ge by done.
Qed.

Lemma queue_run_app q acts1 acts2 q1 :
  queue_run q acts1 = Some q1 → queue_run q (acts1 ++ acts2) = queue_run q1 acts2.
Proof.
  revert q. induction acts1 as [|a acts1 IH]; intros q; simpl; [by intros [= <-]|].
  destruct (queue_step q a); [|done]. apply IH.
Qed.

Lemma sent_app acts1 acts2 : sent (acts1 ++ acts2) = sent acts1 ++ sent acts2.
Proof. apply omap_app. Qed.

Lemma queue_drain q :
  queue_ok q → ∃ acts q', sent acts = [] ∧ queue_run q acts = Some q' ∧
    q_written q' = q_written q ++ f_pending (queue_abs q) ∧ f_pending (queue_abs q') = [].
Proof.
  destruct q as [cap ch w out]. intros (Hcap & Hch & Hw); simpl in *. destruct w as [|n bufs].
  { destruct (queue_drain_idle ch cap out) as (acts & Hs & Hr). exists acts, (TunQueue cap [] WIdle (out ++ ch)). done. }
  destruct Hw as (Hn & Hb & Hw). destruct (decide (n <= length bufs + length ch)%nat) as [Hle|Hgt].
  - destruct (queue_fill n bufs ch cap out) as (acts & Hs & Hr); [lia|].
    destruct (queue_drain_idle (drop (n - length bufs) ch) cap (out ++ bufs ++ take (n - length bufs) ch))
      as (acts' & Hs' & Hr').
    exists (acts ++ acts'), (TunQueue cap [] WIdle (out ++ bufs ++ ch)). split_and!; try done.
    + by rewrite sent_app, Hs, Hs'.
    + rewrite (queue_run_app _ _ _ _ Hr), Hr'. by rewrite <- !app_assoc, take_drop.
  - assert (bufs = [] ∧ ch = []) as [-> ->] by (destruct Hw, bufs, ch; simpl in *; try lia; done).
    exists [], (TunQueue cap [] (WFilling n []) out). split_and!; try done. by rewrite app_nil_r.
Qed.

(** tun_queue_refines_fifo. Every interleaving of the goroutine that queues
    packets and the one that writes them in batches is a run of a FIFO: packets
    reach the interface once, in the order in which they were queued, a batch
    never exceeds the writer's buffers, and from every state the writer can
    deliver all packets that wait. *)
Theorem tun_queue_refines_fifo cap acts q :
  (1 <= cap)%nat → queue_run (queue_init cap) acts = Some q →
  fifo_run (Fifo [] []) (queue_label <$> acts) (queue_abs q) ∧
  q_written q ++ writer_bufs (q_writer q) ++ q_ch q = sent acts ∧
  (length (writer_bufs (q_writer q)) <= cap)%nat ∧
  ∃ acts' q', sent acts' = [] ∧ queue_run q acts' = Some q' ∧ q_written q' = sent acts.
Proof.
  intros Hcap Hrun. assert (H0 : queue_ok (queue_init cap)) by (split_and!; simpl; [done|lia|done]).
  destruct (queue_run_simulates _ _ _ H0 Hrun) as [Hok Hf].
  pose proof (fifo_run_order _ _ _ Hf) as Hord. simpl in Hord.
  destruct (queue_drain q Hok) as (acts' & q' & Hs' & Hr' & Hw' & _).
  split_and!; [done|done| |exists acts', q'; split_and!; [done|done|by rewrite Hw']].
  assert (Hc : q_cap q = cap).
  { clear -Hrun. assert (Hstep : ∀ acts q0 q1, queue_run q0 acts = Some q1 → q_cap q1 = q_cap q0).
    { clear. induction acts as [|a acts IH]; intros q0 q1; simpl; [by intros [= <-]|].
      destruct (queue_step q0 a) as [q2|] eqn:E; [|done]. intros Hr. rewrite (IH _ _ Hr).
      unfold queue_step in E. repeat case_match; by simplify_eq. }
    exact (Hstep _ _ _ Hrun). }
  destruct Hok as (_ & _ & Hw). destruct (q_writer q); simpl in *; lia.
Qed.

Module TunWitness.
#[local] Instance ip_text : IPText := { IP_String := EncodeToString; IPNet_String := EncodeToString }.
Definition env : tun_env := TunEnv (Some ("tun0", Some 70000, 4%nat)) true true true true true.
Definition started : TunAdapter * list tun_event * option tun_error :=
  tun_New (getDefaults Linux "" "") env (2 :: replicate 15 0) 65000 [InterfaceName "auto"; InterfaceMTU 65535].

(** Witness: the device reports more than the platform supports. *)
Lemma tun_start_mtu_witness :
  tn_isOpen (fst (fst started)) = true ∧ TunAdapter_MTU defaults_linux (fst (fst started)) = 65535 ∧
  1280 <= TunAdapter_MTU defaults_linux (fst (fst started)) <= MaximumMTU defaults_linux.
Proof.
  split; [reflexivity|]. split; [reflexivity|].
  destruct started as [[t ev] err] eqn:E.
  destruct (tun_start_mtu Linux "" "" env (2 :: replicate 15 0) 65000 [InterfaceName "auto"; InterfaceMTU 65535]
    t ev err E) as [Hopen _].
  apply Hopen. assert (Ht : fst (fst started) = t) by by rewrite E. rewrite <- Ht. reflexivity.
Defined.

(** Witness: packets arrive while a batch is being filled. *)
Definition sample : list queue_action :=
  [QSend [1]; QSend [2]; QStart; QSend [3]; QRecv; QRecv; QSend [4]; QFlush; QStart; QRecv].

Lemma tun_queue_refines_fifo_witness :
  ∃ q, queue_run (queue_init 3) sample = Some q ∧ q_written q = [[1]; [2]] ∧
    q_written q ++ writer_bufs (q_writer q) ++ q_ch q = [[1]; [2]; [3]; [4]].
Proof.
  destruct (queue_run (queue_init 3) sample) as [q|] eqn:E; [|by vm_compute in E].
  exists q. split; [done|]. split; [vm_compute in E; by injection E as <-|].
  destruct (tun_queue_refines_fifo 3 sample q) as (_ & Hw & _); [lia|exact E|]. exact Hw.
Defined.
End TunWitness.
