(* ===== verification/TunPlatforms.v ===== *)
(** * TunPlatforms: setting up the interface on macOS, the BSDs and Windows
    (tun_darwin.go, tun_freebsd.go, tun_openbsd.go, tun_windows.go and
    tun_other.go of src/tun)

    Each [setup] creates the device, settles on an MTU and assigns the node's
    address with the calls of its platform.  What the system answers is an
    argument ([plat_env]); the calls that were made are the events of the result.
    On macOS and FreeBSD the address is taken from its text, so the text that
    [net.IP.String] gives an IPv6 address and its parsing are modelled too. *)

From S2P Require Import Prelude Binary Address Links GoLib Listings Config Tun.

Open Scope string_scope.
Open Scope list_scope.
Open Scope Z_scope.

(** ** The text of an IPv6 address: [net.IP.String]

    A text is the list of its ASCII codes. *)

Definition colon : Z := 58.
Definition slash : Z := 47.

(** The digit of a value below 16. *)
Definition hex_digit (d : Z) : Z := if d <? 10 then 48 + d else 87 + d.

(** [appendHex]: a group without leading zeros. *)
Definition appendHex (x : Z) : bytes :=
  (if 0x1000 <=? x then [hex_digit (x / 0x1000)] else []) ++
  (if 0x100 <=? x then [hex_digit (x / 0x100 mod 16)] else []) ++
  (if 0x10 <=? x then [hex_digit (x / 0x10 mod 16)] else []) ++
  [hex_digit (x mod 16)].

(** The eight 16-bit groups of an address. *)
Fixpoint groups (ip : bytes) : list Z :=
  match ip with
  | hi :: lo :: ip => 256 * hi + lo :: groups ip
  | _ => []
  end.

(** The length of the run of zero groups at the front. *)
Fixpoint zero_run (gs : list Z) : nat :=
  match gs with
  | 0 :: gs => S (zero_run gs)
  | _ => O
  end.

(** The first of the longest runs of at least two zero groups: start and end. *)
Definition longest_run (gs : list Z) : option (nat * nat) :=
  foldl (λ best i,
      let l := zero_run (drop i gs) in
      let cur := match best with Some (s, e) => (e - s)%nat | None => 0%nat end in
      if decide (2 <= l ∧ cur < l)%nat then Some (i, (i + l)%nat) else best)
    None (seq 0 (length gs)).

(** Groups separated by colons. *)
Fixpoint join (sep : Z) (parts : list bytes) : bytes :=
  match parts with
  | [] => []
  | [p] => p
  | p :: parts => p ++ sep :: join sep parts
  end.

Definition ip6_string (ip : bytes) : bytes :=
  let gs := groups ip in
  match longest_run gs with
  | None => join colon (appendHex <$> gs)
  | Some (s, e) =>
      join colon (appendHex <$> take s gs) ++ [colon; colon] ++ join colon (appendHex <$> drop e gs)
  end.

(** ** Parsing it back, as the code does *)

(** [strings.Split] at one character. *)
Fixpoint split_at (sep : Z) (s : bytes) : list bytes :=
  match s with
  | [] => [[]]
  | c :: s =>
      if c =? sep then [] :: split_at sep s
      else match split_at sep s with
           | p :: ps => (c :: p) :: ps
           | [] => [[c]]
           end
  end.

Definition hex_value (c : Z) : option Z :=
  if (48 <=? c) && (c <=? 57) then Some (c - 48)
  else if (97 <=? c) && (c <=? 102) then Some (c - 87)
  else if (65 <=? c) && (c <=? 70) then Some (c - 55)
  else None.

(** [strconv.ParseUint(s, 16, 16)] with its error ignored: zero for bad syntax,
    the largest value for a value out of range. *)
Fixpoint parse_loop (s : bytes) (n : Z) : Z :=
  match s with
  | [] => n
  | c :: s =>
      match hex_value c with
      | None => 0
      | Some d => if 65535 <? n * 16 + d then 65535 else parse_loop s (n * 16 + d)
      end
  end.

Definition ParseUint16 (s : bytes) : Z := match s with [] => 0 | _ => parse_loop s 0 end.

(** [binary.LittleEndian.PutUint16] and back with [binary.BigEndian.Uint16]. *)
Definition le16 (v : Z) : bytes := [v mod 256; v / 256 mod 256].
Definition swap16 (v : Z) : Z := be_val (le16 v).

(** The loop over the eight parts; a missing part is an index out of range. *)
Fixpoint sockaddr_loop (n : nat) (parts : list bytes) : res () (list Z) :=
  match n with
  | O => Ok []
  | S n =>
      match parts with
      | [] => Panic
      | p :: parts => ws ← sockaddr_loop n parts; Ok (swap16 (ParseUint16 p) :: ws)
      end
  end.

(** [strings.Split(strings.Split(addr, "/")[0], ":")] and the loop. *)
Definition sockaddr_words (addr : bytes) : res () (list Z) :=
  sockaddr_loop 8 (split_at colon (default [] (head (split_at slash addr)))).

(** The bytes of the words in the memory of a little-endian machine. *)
Definition memory (ws : list Z) : bytes := concat (le16 <$> ws).

(** [net.CIDRMask]. *)
Fixpoint cidr_mask (len : nat) (ones : Z) : bytes :=
  match len with
  | O => []
  | S len =>
      if 8 <=? ones then 0xff :: cidr_mask len (ones - 8)
      else 0xff - Z.shiftr 0xff ones :: cidr_mask len 0
  end.

(** ** Setting up the device *)

Inductive plat_error :=
| ECreate | EDup | ENonblock | EFromFile | ENoFD | ESocket | EIoctlAddr | EIoctlMTU | EParse | EGUID | ENoAdapter
| ENotNative | ESetAddress | EIPInterface | ESetInterface.

(** The fields of sockaddr_in6 that the code sets; the address as it is in memory. *)
Record sockaddr_in6 := SockaddrIn6 { sin6_len : Z; sin6_family : Z; sin6_addr : bytes }.

(** [unsafe.Sizeof] of it: with the padding the same on every platform. *)
Definition sizeof_sockaddr_in6 : Z := 28.

(** The request that assigns an address (in6_aliasreq): the interface, the
    address, the mask, flags and the two lifetimes. *)
Record aliasreq := AliasReq {
  ifra_name : bytes;
  ifra_addr : sockaddr_in6;
  ifra_prefixmask : sockaddr_in6;
  ifra_flags : Z;
  ifra_vltime : Z;
  ifra_pltime : Z;
}.

(** The request of FreeBSD (in6_ifreq_addr). *)
Record ifreq_addr := IfreqAddr { ifr_name : bytes; ifru_addr : sockaddr_in6 }.

Inductive plat_event :=
| PCreate (name : string) (mtu : Z)
| PFromFile
| PCloseFD
| PAddress (req : aliasreq)
| PIfAddress (req : ifreq_addr)
| PIfconfig (name addr : bytes)
| PForceMTU (mtu : Z)
| PMTU (mtu : Z)
| PSetAddresses (addr : bytes)
| PDeleteAddress (iface : nat) (prefix : bytes * Z)
| PWarn.

(** An adapter of a Windows system: whether it is up, its addresses with the
    length of their prefixes. *)
Record win_adapter := WinAdapter { wa_up : bool; wa_addrs : list (bytes * Z) }.

(** The answers to [SetIPAddressesForFamily]. *)
Inductive win_set := WinSet | WinExists | WinFailed.

(** What the system answers to each call. *)
Record plat_env := PlatEnv {
  pe_create : option (bytes * option Z);     (* the device's name and the MTU it reports *)
  pe_socket : bool;
  pe_ioctl_addr : bool;
  pe_ioctl_mtu : bool;
  pe_ifconfig : bool;
  pe_parse : option (bytes * Z);             (* [net.ParseCIDR]: address and mask length *)
  pe_dup : bool;
  pe_nonblock : bool;
  pe_fromfile : option (option Z);
  pe_guid : bool;
  pe_native : bool;
  pe_ipinterface : bool;
  pe_ipset : bool;
  pe_setaddr1 : win_set;
  pe_setaddr2 : win_set;
  pe_adapters : option (list win_adapter);
}.

(** The device and MTU that are stored, the calls, and the error. *)
Record setup_result := SetupResult {
  sr_iface : option bytes;
  sr_mtu : Z;
  sr_events : list plat_event;
  sr_result : res plat_error ();
}.

Section Setup.
Context (d : platformDefaultParameters) (env : plat_env).

Definition reported_mtu (m : option Z) : Z := match m with Some m => getSupportedMTU d m | None => 0 end.

(** [copy] of a name into a fixed-size field. *)
Definition name_field (name : bytes) : bytes := copy (replicate 16 0) name.

(** *** macOS *)

(** The mask: the code does not set its address family. *)
Definition darwin_mask : sockaddr_in6 :=
  SockaddrIn6 sizeof_sockaddr_in6 0 (memory (swap16 0xFE00 :: replicate 7 0)).

Definition darwin_AF_INET6 : Z := 30.
Definition darwin_IN6_IFF_NODAD : Z := 0x0020.
Definition darwin_IN6_IFF_SECURED : Z := 0x0400.
Definition ND6_INFINITE_LIFETIME : Z := 0xFFFFFFFF.

Definition darwin_setupAddress (name : bytes) (mtu : Z) (addr : bytes) : list plat_event * res plat_error () :=
  if negb (pe_socket env) then ([], Err ESocket)
  else
    match sockaddr_words addr with
    | Ok ws =>
        let ar := AliasReq (name_field name) (SockaddrIn6 sizeof_sockaddr_in6 darwin_AF_INET6 (memory ws)) darwin_mask
                    (Z.lor darwin_IN6_IFF_NODAD darwin_IN6_IFF_SECURED) ND6_INFINITE_LIFETIME ND6_INFINITE_LIFETIME in
        if negb (pe_ioctl_addr env) then ([], Err EIoctlAddr)
        else if negb (pe_ioctl_mtu env) then ([PAddress ar], Err EIoctlMTU)
        else ([PAddress ar; PMTU (u32 mtu)], Ok ())
    | _ => ([], Panic)
    end.

Definition darwin_setup (ifname : string) (addr : bytes) (mtu : Z) : setup_result :=
  let ifname := if String.eqb ifname "auto" then "utun" else ifname in
  match pe_create env with
  | None => SetupResult None 0 [] (Err ECreate)
  | Some (name, m) =>
      let tmtu := reported_mtu m in
      if bool_decide (addr = []) then SetupResult (Some name) tmtu [PCreate ifname mtu] (Ok ())
      else let '(ev, r) := darwin_setupAddress name tmtu addr in
           SetupResult (Some name) tmtu (PCreate ifname mtu :: ev) r
  end.

Definition darwin_setupFD (name : bytes) : setup_result :=
  if negb (pe_dup env) then SetupResult None 0 [] (Err EDup)
  else if negb (pe_nonblock env) then SetupResult None 0 [PCloseFD] (Err ENonblock)
  else match pe_fromfile env with
       | None => SetupResult None 0 [PCloseFD] (Err EFromFile)
       | Some m => SetupResult (Some name) (reported_mtu m) [PFromFile] (Ok ())
       end.

(** *** FreeBSD: the result of neither attempt is returned *)

Definition freebsd_AF_INET6 : Z := 28.

Definition freebsd_setupAddress (name : bytes) (addr : bytes) : list plat_event * res plat_error () :=
  if negb (pe_socket env) then ([], Err ESocket)
  else
    match sockaddr_words addr with
    | Ok ws =>
        let ar := IfreqAddr (name_field name) (SockaddrIn6 sizeof_sockaddr_in6 freebsd_AF_INET6 (memory ws)) in
        if pe_ioctl_addr env then ([PIfAddress ar], Ok ())
        else if pe_ifconfig env then ([PIfconfig name addr], Ok ())
        else ([], Ok ())
    | _ => ([], Panic)
    end.

(** *** OpenBSD *)

(** [setSockaddr] copies sixteen bytes; a shorter argument is out of range. *)
Definition openbsd_AF_INET6 : Z := 24.

Definition setSockaddr (addr : bytes) : option sockaddr_in6 :=
  if decide (16 <= length addr)%nat
  then Some (SockaddrIn6 sizeof_sockaddr_in6 openbsd_AF_INET6 (take 16 addr)) else None.

Definition openbsd_setupAddress (name : bytes) : list plat_event * res plat_error () :=
  match pe_parse env with
  | None => ([], Err EParse)
  | Some (ip, ones) =>
      if negb (pe_socket env) then ([], Err ESocket)
      else
        match setSockaddr ip, setSockaddr (cidr_mask 16 ones) with
        | Some a, Some m =>
            let ar := AliasReq (name_field name) a m 0 ND6_INFINITE_LIFETIME ND6_INFINITE_LIFETIME in
            if pe_ioctl_addr env then ([PAddress ar], Ok ()) else ([], Err EIoctlAddr)
        | _, _ => ([], Panic)
        end
  end.

(** *** Other platforms: only a warning *)

Definition other_setupAddress : list plat_event * res plat_error () := ([PWarn], Ok ()).

(** [setup] of the BSDs and of other platforms, which differ in [setupAddress]. *)
Definition bsd_setup (setupAddr : bytes → Z → bytes → list plat_event * res plat_error ())
    (ifname : string) (addr : bytes) (mtu : Z) : setup_result :=
  match pe_create env with
  | None => SetupResult None 0 [] (Err ECreate)
  | Some (name, m) =>
      let tmtu := reported_mtu m in
      if bool_decide (addr = []) then SetupResult (Some name) tmtu [PCreate ifname mtu] (Ok ())
      else let '(ev, r) := setupAddr name tmtu addr in
           SetupResult (Some name) tmtu (PCreate ifname mtu :: ev) r
  end.

Definition freebsd_setup := bsd_setup (λ name _ addr, freebsd_setupAddress name addr).
Definition openbsd_setup := bsd_setup (λ name _ _, openbsd_setupAddress name).
Definition other_setup := bsd_setup (λ _ _ _, other_setupAddress).

(** [setupFD] of every platform but macOS. *)
Definition setupFD_unsupported : setup_result := SetupResult None 0 [] (Err ENoFD).

(** *** Windows *)

(** [cleanupAddressesOnDisconnectedInterfaces]: the addresses to delete. *)
Definition cleanup_addresses (addresses : list bytes) : list plat_event :=
  if bool_decide (addresses = []) then []
  else
    match pe_adapters env with
    | None => []
    | Some ifaces =>
        concat (imap (λ i a, if wa_up a then []
                             else PDeleteAddress i <$> filter (λ p, p.1 ∈ addresses) (wa_addrs a)) ifaces)
    end.

(** [setupAddress]; [pe_parse] is [netip.ParsePrefix]. *)
Definition windows_setupAddress (name : bytes) : list plat_event * res plat_error () :=
  if bool_decide (name = []) then ([], Err ENoAdapter)
  else if negb (pe_native env) then ([], Err ENotNative)
  else
    match pe_parse env with
    | None => ([], Err EParse)
    | Some (ip, _) =>
        match pe_setaddr1 env with
        | WinSet => ([PSetAddresses ip], Ok ())
        | WinFailed => ([], Err ESetAddress)
        | WinExists =>
            let ev := cleanup_addresses [ip] in
            match pe_setaddr2 env with
            | WinSet => (ev ++ [PSetAddresses ip], Ok ())
            | _ => (ev, Err ESetAddress)
            end
        end
    end.

Definition windows_setupMTU (name : bytes) (mtu : Z) : list plat_event * res plat_error () :=
  if bool_decide (name = []) then ([], Err ENoAdapter)
  else if negb (pe_native env) then ([], Ok ())
  else if negb (pe_ipinterface env) then ([], Err EIPInterface)
  else if pe_ipset env then ([PForceMTU (u32 mtu); PMTU (u32 mtu)], Ok ())
  else ([PForceMTU (u32 mtu)], Err ESetInterface).

(** [setup], run as the system user.  When the device does not report an MTU the
    stored one is left as it was, zero. *)
Definition windows_setup (ifname : string) (addr : bytes) (mtu : Z) : setup_result :=
  let ifname := if String.eqb ifname "auto" then DefaultName d else ifname in
  if negb (pe_guid env) then SetupResult None 0 [] (Err EGUID)
  else
    match pe_create env with
    | None => SetupResult None 0 [] (Err ECreate)
    | Some (name, m) =>
        let '(ev1, r1) := if bool_decide (addr = []) then ([], Ok ()) else windows_setupAddress name in
        let ev1 := PCreate ifname mtu :: ev1 in
        match r1 with
        | Ok _ =>
            let '(ev2, r2) := windows_setupMTU name (getSupportedMTU d mtu) in
            match r2 with
            | Ok _ => SetupResult (Some name) (default 0 m) (ev1 ++ ev2) (Ok ())
            | e => SetupResult (Some name) 0 (ev1 ++ ev2) e
            end
        | e => SetupResult (Some name) 0 ev1 e
        end
    end.
End Setup.

(** ** The address survives its text *)

Lemma hex_value_digit d : 0 <= d < 16 → hex_value (hex_digit d) = Some d.
Proof.
  intros Hd. unfold hex_value, hex_digit. destruct (Z.ltb_spec d 10).
  - rewrite (proj2 (Z.leb_le _ _)), (proj2 (Z.leb_le _ _)) by lia. simpl. f_equal. lia.
  - rewrite (proj2 (Z.leb_gt (87 + d) 57)) by lia. rewrite andb_false_r.
    rewrite (proj2 (Z.leb_le 97 _)), (proj2 (Z.leb_le _ 102)) by lia. simpl. f_equal. lia.
Qed.

Lemma hex_digit_range d : 0 <= d < 16 → 48 <= hex_digit d <= 57 ∨ 97 <= hex_digit d <= 102.
Proof. intros Hd. unfold hex_digit. destruct (Z.ltb_spec d 10); lia. Qed.

Lemma parse_loop_digit d s n :
  0 <= d < 16 → n * 16 + d <= 65535 → parse_loop (hex_digit d :: s) n = parse_loop s (n * 16 + d).
Proof.
  intros Hd Hn. cbn [parse_loop]. rewrite hex_value_digit by done.
  by rewrite (proj2 (Z.ltb_ge 65535 _)) by lia.
Qed.

Lemma parse_appendHex x : is_u16 x → ParseUint16 (appendHex x) = x.
Proof.
  intros Hx. unfold in_range in Hx. change (2 ^ 16) with 65536 in Hx.
  assert (ParseUint16 (appendHex x) = parse_loop (appendHex x) 0) as ->.
  { unfold appendHex. by repeat case_match. }
  unfold appendHex. pose proof (Z.mod_pos_bound x 16).
  pose proof (Z.mod_pos_bound (x / 0x10) 16). pose proof (Z.mod_pos_bound (x / 0x100) 16).
  destruct (Z.leb_spec 0x1000 x), (Z.leb_spec 0x100 x), (Z.leb_spec 0x10 x); try lia; cbn [app];
    rewrite ?parse_loop_digit by (Z.to_euclidean_division_equations; lia);
    cbn [parse_loop]; Z.to_euclidean_division_equations; lia.
Qed.

Lemma appendHex_chars x c : is_u16 x → c ∈ appendHex x → c ≠ colon ∧ c ≠ slash.
Proof.
  intros Hx Hc. unfold in_range in Hx. change (2 ^ 16) with 65536 in Hx. unfold colon, slash.
  assert (∃ d, 0 <= d < 16 ∧ c = hex_digit d) as (e & He & ->).
  { unfold appendHex in Hc. rewrite !elem_of_app in Hc.
    repeat match goal with
    | H : _ ∨ _ |- _ => destruct H as [H|H]
    | H : _ ∈ (if ?b then _ else _) |- _ => destruct b eqn:?
    | H : _ ∈ [] |- _ => by apply not_elem_of_nil in H
    | H : _ ∈ [_] |- _ => apply list_elem_of_singleton in H
    end; eexists; (split; [|exact Hc]); bool_to_prop; Z.to_euclidean_division_equations; lia. }
  destruct (hex_digit_range e He); lia.
Qed.

Lemma appendHex_nonempty x : appendHex x ≠ [].
Proof. unfold appendHex. by repeat case_match. Qed.

Lemma split_at_none sep p : sep ∉ p → split_at sep p = [p].
Proof.
  induction p as [|c p IH]; intros Hp; [done|]. apply not_elem_of_cons in Hp as [Hc Hp].
  simpl. rewrite (proj2 (Z.eqb_neq c sep)) by congruence. by rewrite IH.
Qed.

Lemma split_at_app sep p s : sep ∉ p → split_at sep (p ++ sep :: s) = p :: split_at sep s.
Proof.
  induction p as [|c p IH]; intros Hp; simpl; [by rewrite Z.eqb_refl|].
  apply not_elem_of_cons in Hp as [Hc Hp].
  rewrite (proj2 (Z.eqb_neq c sep)) by congruence. by rewrite IH.
Qed.

Lemma split_join sep parts :
  parts ≠ [] → Forall (λ p, sep ∉ p) parts → split_at sep (join sep parts) = parts.
Proof.
  intros Hne Hall. induction Hall as [|p parts Hp Hall IH]; [done|].
  destruct parts as [|q parts]; simpl; [by apply split_at_none|].
  rewrite split_at_app by done. f_equal. by apply IH.
Qed.

Lemma join_chars sep parts c : c ∈ join sep parts → c = sep ∨ ∃ p, p ∈ parts ∧ c ∈ p.
Proof.
  induction parts as [|p parts IH]; simpl; [by intros ?%not_elem_of_nil|].
  destruct parts as [|q parts]; [right; exists p; set_solver|].
  intros [Hc|[->|Hc]%elem_of_cons]%elem_of_app; [right; exists p; set_solver|by left|].
  destruct (IH Hc) as [?|(x & Hx & Hcx)]; [by left|]. right. exists x. set_solver.
Qed.

Lemma swap16_memory v : is_u16 v → le16 (swap16 v) = [v / 256; v mod 256].
Proof.
  intros Hv. unfold in_range in Hv. change (2 ^ 16) with 65536 in Hv.
  unfold swap16, le16, be_val. simpl foldl. rewrite Z.lor_0_l.
  rewrite lor_shiftl8 by (apply Z.mod_pos_bound; lia).
  f_equal; [|f_equal]; Z.to_euclidean_division_equations; lia.
Qed.

Lemma groups_range ip : bytes_ok ip → Forall is_u16 (groups ip).
Proof.
  revert ip. fix IH 1. intros [|hi [|lo ip]] Hok; simpl; [constructor..|].
  apply bytes_ok_cons in Hok as [Hhi Hok]. apply bytes_ok_cons in Hok as [Hlo Hok].
  constructor; [|by apply IH]. unfold in_range in *. change (2 ^ 8) with 256 in *. change (2 ^ 16) with 65536. lia.
Qed.

Lemma groups_memory ip n :
  length ip = (2 * n)%nat → bytes_ok ip → memory (swap16 <$> groups ip) = ip.
Proof.
  revert ip. induction n as [|n IH]; intros ip Hl Hok.
  { by apply nil_length_inv in Hl as ->. }
  destruct ip as [|hi [|lo ip]]; simpl in Hl; [lia..|].
  apply bytes_ok_cons in Hok as [Hhi Hok]. apply bytes_ok_cons in Hok as [Hlo Hok].
  unfold memory in *. cbn [groups fmap list_fmap concat]. unfold in_range in *. change (2 ^ 8) with 256 in *.
  rewrite swap16_memory by (unfold in_range; change (2 ^ 16) with 65536; lia).
  rewrite IH by (lia || done). cbn [app]. f_equal; [|f_equal]; Z.to_euclidean_division_equations; lia.
Qed.

Lemma groups_length ip n : length ip = (2 * n)%nat → length (groups ip) = n.
Proof.
  revert ip. induction n as [|n IH]; intros ip Hl.
  { by apply nil_length_inv in Hl as ->. }
  destruct ip as [|hi [|lo ip]]; simpl in Hl; [lia..|]. simpl. by rewrite IH by lia.
Qed.

Lemma sockaddr_loop_ok gs :
  Forall is_u16 gs → sockaddr_loop (length gs) (appendHex <$> gs) = Ok (swap16 <$> gs).
Proof.
  induction 1 as [|g gs Hg Hgs IH]; [done|]. rewrite !fmap_cons. cbn [length sockaddr_loop].
  rewrite IH. cbn [mbind res_bind]. by rewrite parse_appendHex.
Qed.

(** The address that the kernel gets is the node's, when its text has all eight
    groups. *)
Lemma sockaddr_words_exact ip rest :
  length ip = 16%nat → bytes_ok ip → longest_run (groups ip) = None →
  ∃ ws, sockaddr_words (ip6_string ip ++ slash :: rest) = Ok ws ∧ memory ws = ip.
Proof.
  intros Hl Hok Hrun. exists (swap16 <$> groups ip).
  pose proof (groups_range ip Hok) as Hg. pose proof (groups_length ip 8 Hl) as Hlen.
  assert (Forall (λ p, colon ∉ p) (appendHex <$> groups ip) ∧ Forall (λ p, slash ∉ p) (appendHex <$> groups ip))
    as [Hcol Hsla].
  { split; apply Forall_fmap; eapply Forall_impl; try exact Hg; intros x Hx Hc;
      by apply (appendHex_chars x _ Hx) in Hc as []. }
  split; [|by apply (groups_memory ip 8)].
  unfold sockaddr_words, ip6_string. rewrite Hrun. rewrite split_at_app.
  - simpl head. simpl default. rewrite split_join; [|by destruct (groups ip)|done].
    rewrite <- Hlen. by apply sockaddr_loop_ok.
  - intros [?|(p & Hp & Hc)]%join_chars; [done|]. rewrite Forall_forall in Hsla. by apply (Hsla p Hp).
Qed.

(** The address in the request of a successful set-up. *)
Definition assigned (ev : list plat_event) : list bytes :=
  omap (λ e, match e with PAddress r => Some (sin6_addr (ifra_addr r)) | PIfAddress r => Some (sin6_addr (ifru_addr r))
                  | PSetAddresses a => Some a | _ => None end) ev.

Definition assigned_mask (ev : list plat_event) : list bytes :=
  omap (λ e, match e with PAddress r => Some (sin6_addr (ifra_prefixmask r)) | _ => None end) ev.

Lemma omap_none {A B} (f : A → option B) l : (∀ x, x ∈ l → f x = None) → omap f l = [].
Proof.
  induction l as [|x l IH]; intros Hl; [done|]. simpl. rewrite (Hl x) by set_solver. apply IH. set_solver.
Qed.

(** The clean-up on Windows only deletes addresses. *)
Lemma cleanup_omap {B} env addrs (f : plat_event → option B) :
  (∀ i a, f (PDeleteAddress i a) = None) → omap f (cleanup_addresses env addrs) = [].
Proof.
  intros Hf. apply omap_none. intros e. unfold cleanup_addresses.
  destruct (bool_decide _); [by intros ?%not_elem_of_nil|].
  destruct (pe_adapters env) as [ifs|]; [|by intros ?%not_elem_of_nil].
  rewrite list_elem_of_In, in_concat. intros (l & Hl & He).
  rewrite <- list_elem_of_In in Hl. rewrite <- list_elem_of_In in He. apply elem_of_lookup_imap in Hl as (i & a & -> & _).
  destruct (wa_up a); [by apply not_elem_of_nil in He|].
  apply list_elem_of_fmap in He as (x & -> & _). apply Hf.
Qed.

Lemma reported_mtu_bounds d m : 1280 <= MaximumMTU d → reported_mtu d m = 0 ∨ 1280 <= reported_mtu d m <= MaximumMTU d.
Proof.
  intros Hm. unfold reported_mtu. destruct m as [m|]; [right|by left].
  by destruct (getSupportedMTU_bounds d m Hm).
Qed.

Lemma setSockaddr_16 a : length a = 16%nat → 
  setSockaddr a = Some (SockaddrIn6 sizeof_sockaddr_in6 openbsd_AF_INET6 a).
Proof. intros Hl. unfold setSockaddr. by rewrite decide_True, take_ge by lia. Qed.

(** platform_setup_assigns.  On macOS, OpenBSD and Windows a set-up that
    reports success has assigned exactly the node's address, and nothing else, to
    the device it created, with the mask of the overlay prefix where the request
    carries one; on macOS for every address whose text is not abbreviated.  The
    library that parses the address is taken to return it. *)
Theorem platform_setup_assigns d env ifname ip mtu :
  length ip = 16%nat → bytes_ok ip → longest_run (groups ip) = None →
  pe_parse env = Some (ip, 7) →
  let addr := ip6_string ip ++ slash :: [55] in
  ∀ r, r ∈ [darwin_setup d env ifname addr mtu; openbsd_setup d env ifname addr mtu;
            windows_setup d env ifname addr mtu] →
  sr_result r = Ok () →
  is_Some (sr_iface r) ∧ assigned (sr_events r) = [ip] ∧
  (assigned_mask (sr_events r) = [] ∨ assigned_mask (sr_events r) = [0xFE :: replicate 15 0]).
Proof.
  intros Hl Hok Hrun Hparse addr.
  assert (addr ≠ []) as Hne by (unfold addr; by intros [_ ?]%app_nil).
  destruct (sockaddr_words_exact ip [55] Hl Hok Hrun) as (ws & Hws & Hmem). fold addr in Hws.
  intros r Hr. repeat (apply elem_of_cons in Hr as [->|Hr]); [| | |by apply not_elem_of_nil in Hr].
  - unfold darwin_setup. destruct (pe_create env) as [[name m]|]; [|done].
    rewrite bool_decide_false by done. unfold darwin_setupAddress. rewrite Hws.
    destruct (pe_socket env), (pe_ioctl_addr env), (pe_ioctl_mtu env); try done. simpl. rewrite Hmem.
    intros _. split; [by eexists|]. split; [done|by right].
  - unfold openbsd_setup, bsd_setup. destruct (pe_create env) as [[name m]|]; [|done].
    rewrite bool_decide_false by done. unfold openbsd_setupAddress. rewrite Hparse, (setSockaddr_16 ip Hl).
    rewrite (setSockaddr_16 (cidr_mask 16 7)) by reflexivity.
    destruct (pe_socket env), (pe_ioctl_addr env); try done.
    intros _. split; [by eexists|]. split; [done|by right].
  - unfold windows_setup. destruct (pe_guid env); [|done]. destruct (pe_create env) as [[name m]|]; [|done].
    rewrite bool_decide_false by done. unfold windows_setupAddress, windows_setupMTU. rewrite Hparse.
    destruct (bool_decide (name = [])); [done|]. destruct (pe_native env); [|done].
    destruct (pe_setaddr1 env); [| |done].
    + destruct (pe_ipinterface env), (pe_ipset env); try done. intros _.
      split; [by eexists|]. split; [done|by left].
    + destruct (pe_setaddr2 env); [|done..]. destruct (pe_ipinterface env), (pe_ipset env); try done. intros _.
      split; [by eexists|]. cbn [negb sr_events]. unfold assigned, assigned_mask. cbn [app omap list_omap].
      rewrite <- !app_assoc, !omap_app, !cleanup_omap by done. split; [done|by left].
Qed.

(** FreeBSD: when the system call and the fallback both fail, the set-up still
    reports success, and the interface runs without the node's address. *)
Theorem freebsd_setup_hides_failure d env ifname ip mtu name m :
  length ip = 16%nat → bytes_ok ip → longest_run (groups ip) = None →
  pe_create env = Some (name, m) → pe_socket env = true →
  pe_ioctl_addr env = false → pe_ifconfig env = false →
  let r := freebsd_setup d env ifname (ip6_string ip ++ slash :: [55]) mtu in
  sr_result r = Ok () ∧ sr_iface r = Some name ∧ sr_events r = [PCreate ifname mtu].
Proof.
  intros Hl Hok Hrun Hc Hs Ha Hf. unfold freebsd_setup, bsd_setup. rewrite Hc.
  rewrite bool_decide_false by (by intros [_ ?]%app_nil).
  unfold freebsd_setupAddress. rewrite Hs, Ha, Hf.
  destruct (sockaddr_words_exact ip [55] Hl Hok Hrun) as (ws & -> & _). done.
Qed.

Module PlatformWitness.
Definition ip1 : bytes := [2; 0; 10; 11; 12; 13; 14; 15; 16; 17; 18; 19; 20; 21; 22; 23].
Definition env1 : plat_env := PlatEnv (Some ([116; 48], Some 1400)) true true true true (Some (ip1, 7))
  true true (Some None) true true true true WinExists WinSet (Some [WinAdapter false [(ip1, 64)]; WinAdapter true [(ip1, 7)]]).

Lemma platform_setup_assigns_witness :
  let r := windows_setup (defaults_windows "" "") env1 "auto" (ip6_string ip1 ++ slash :: [55]) 9000 in
  sr_result r = Ok () ∧ sr_events r =
    [PCreate "UQDA" 9000; PDeleteAddress 0 (ip1, 64); PSetAddresses ip1; PForceMTU 9000; PMTU 9000] ∧
  assigned (sr_events r) = [ip1].
Proof.
  set (r := windows_setup _ _ _ _ _).
  assert (sr_result r = Ok ()) as Hr by (vm_compute; reflexivity).
  split; [done|]. split; [vm_compute; reflexivity|].
  apply (platform_setup_assigns (defaults_windows "" "") env1 "auto" ip1 9000).
  - reflexivity.
  - apply (bool_decide_unpack _). vm_compute. exact I.
  - vm_compute. reflexivity.
  - reflexivity.
  - apply list_elem_of_further, list_elem_of_further, list_elem_of_here.
  - done.
Defined.

(** A node whose address has two adjacent zero groups gets an abbreviated text,
    which the code that assigns addresses on macOS and FreeBSD does not expect:
    it reads past the end of the parts and the daemon panics. *)
Definition ip2 : bytes := [2; 0; 0; 0; 0; 0; 14; 15; 16; 17; 18; 19; 20; 21; 22; 23].

Theorem abbreviated_address_panics :
  (∃ key, key_ok key ∧ AddrForKey key = Some ip2) ∧
  ip6_string ip2 = [50; 48; 48; 58; 58; 101; 48; 102; 58; 49; 48; 49; 49; 58; 49; 50; 49; 51; 58; 49; 52; 49; 53; 58; 49; 54; 49; 55] ∧
  sr_result (darwin_setup defaults_darwin env1 "auto" (ip6_string ip2 ++ slash :: [55]) 9000) = Panic ∧
  sr_result (freebsd_setup defaults_freebsd env1 "tun0" (ip6_string ip2 ++ slash :: [55]) 9000) = Panic.
Proof.
  split_and!; [|vm_compute; reflexivity..].
  exists (Address_GetKey ip2). split; [|vm_compute; reflexivity].
  split; [reflexivity|apply (bool_decide_unpack _); vm_compute; exact I].
Qed.
End PlatformWitness.
