(* ===== verification/Node.v ===== *)
(** * Node: assembling a node
    (options.go and New, RetryPeersNow and _close of core.go in src/core;
    main.go and chuser_unix.go of cmd/uqda; contrib/mobile/mobile.go)

    The set-up options of the core and the two passes of its constructor, the
    command line of the daemon, the options it and the mobile bindings make from
    a configuration, the log levels and the change of user. The packet
    connection, sockets and the system's user database are parameters. *)

From S2P Require Import Prelude Binary Wire Address Crypto Messages Handshake Links GoLib Listings Admin Proto Multicast Config Dial Tun.
From Stdlib Require Import Ascii.

Open Scope string_scope.
Open Scope list_scope.
Open Scope Z_scope.

(** ** Options of the core *)

Inductive core_option :=
| OptPeer (uri sintf : string)
| OptListen (addr : string)
| OptPeerFilter (f : bytes → bool)
| OptNodeInfo (m : gmap string string)
| OptNodeInfoPrivacy (b : bool)
| OptAllowedPublicKey (k : bytes)
| OptGroupPassword (pw : string).

(** The configurable part of the core, with the links actor. *)
Record core_state := CoreState {
  co_secret : bytes;
  co_public : bytes;
  co_links : links;
  co_listeners : gset string;
  co_peerFilter : option (bytes → bool);
  co_nodeinfo : gmap string string;
  co_nodeinfoPrivacy : bool;
  co_allowedPublicKeys : gset bytes;
  co_groupPassword : string;
}.

Inductive core_error :=
| CoreParsePeer | CoreLink (e : linkError) | CoreNoKey | CoreNotEd25519 | CoreKeyLength | CorePacketConn | CoreNodeInfo.

Definition core_zero : core_state := CoreState [] [] links_init ∅ None ∅ false ∅ "".

Definition with_links (c : core_state) (ls : links) : core_state :=
  CoreState (co_secret c) (co_public c) ls (co_listeners c) (co_peerFilter c) (co_nodeinfo c) (co_nodeinfoPrivacy c)
    (co_allowedPublicKeys c) (co_groupPassword c).
Definition with_identity (c : core_state) (secret public : bytes) : core_state :=
  CoreState secret public (co_links c) (co_listeners c) (co_peerFilter c) (co_nodeinfo c) (co_nodeinfoPrivacy c)
    (co_allowedPublicKeys c) (co_groupPassword c).

Section Core.
Context `{NetLib} (url_Parse : string → option url).

Definition core_applyOption (c : core_state) (opt : core_option) : res core_error core_state :=
  match opt with
  | OptPeer uri sintf =>
      match url_Parse uri with
      | None => Err CoreParsePeer
      | Some u =>
          match links_add (co_links c) u sintf linkTypePersistent with
          | (ls, _, Ok _) => Ok (with_links c ls)
          | (ls, _, Err ErrLinkAlreadyConfigured) => Ok (with_links c ls)
          | (_, _, Err e) => Err (CoreLink e)
          | (_, _, Panic) => Panic
          end
      end
  | OptListen a =>
      Ok (CoreState (co_secret c) (co_public c) (co_links c) ({[a]} ∪ co_listeners c) (co_peerFilter c) (co_nodeinfo c)
            (co_nodeinfoPrivacy c) (co_allowedPublicKeys c) (co_groupPassword c))
  | OptPeerFilter f =>
      Ok (CoreState (co_secret c) (co_public c) (co_links c) (co_listeners c) (Some f) (co_nodeinfo c)
            (co_nodeinfoPrivacy c) (co_allowedPublicKeys c) (co_groupPassword c))
  | OptNodeInfo m =>
      Ok (CoreState (co_secret c) (co_public c) (co_links c) (co_listeners c) (co_peerFilter c) m
            (co_nodeinfoPrivacy c) (co_allowedPublicKeys c) (co_groupPassword c))
  | OptNodeInfoPrivacy b =>
      Ok (CoreState (co_secret c) (co_public c) (co_links c) (co_listeners c) (co_peerFilter c) (co_nodeinfo c)
            b (co_allowedPublicKeys c) (co_groupPassword c))
  | OptAllowedPublicKey k =>
      Ok (CoreState (co_secret c) (co_public c) (co_links c) (co_listeners c) (co_peerFilter c) (co_nodeinfo c)
            (co_nodeinfoPrivacy c) ({[copy (replicate 32 0) k]} ∪ co_allowedPublicKeys c) (co_groupPassword c))
  | OptGroupPassword pw =>
      Ok (CoreState (co_secret c) (co_public c) (co_links c) (co_listeners c) (co_peerFilter c) (co_nodeinfo c)
            (co_nodeinfoPrivacy c) (co_allowedPublicKeys c) pw)
  end.

(** Peers and listeners wait for the second pass. *)
Definition is_late (opt : core_option) : bool :=
  match opt with OptPeer _ _ | OptListen _ => true | _ => false end.

Fixpoint apply_pass (late : bool) (c : core_state) (opts : list core_option) : res core_error core_state :=
  match opts with
  | [] => Ok c
  | opt :: opts =>
      if Bool.eqb (is_late opt) late then c ← core_applyOption c opt; apply_pass late c opts
      else apply_pass late c opts
  end.

(** The key in the certificate, as the type assertion of [New] sees it. *)
Inductive cert_key := NoKey | KeyOther | KeyEd25519 (k : bytes).

(** [New]: [newPC] is whether the packet connection can be created with the
    group password, [setInfo] whether the node information is accepted and
    [bind] the sockets of the listeners. The listeners that are started at the
    end only log their errors. *)
Definition start_configured_listener (bind : url → option nat) (a : string) : list listener_event :=
  match url_Parse a with
  | None => []
  | Some u => fst (links_listen u (bind u))
  end.

Definition core_New (cert : cert_key) (newPC : bytes → string → bool) (setInfo : gmap string string → bool → bool)
    (bind : url → option nat) (opts : list core_option) : res core_error (core_state * list listener_event) :=
  c ← apply_pass false core_zero opts;
  match cert with
  | NoKey => Err CoreNoKey
  | KeyOther => Err CoreNotEd25519
  | KeyEd25519 secret =>
      if negb (Nat.eqb (length secret) PrivateKeySize) then Err CoreKeyLength
      else
        let c := with_identity c secret (drop 32 secret) in
        if negb (newPC secret (co_groupPassword c)) then Err CorePacketConn
        else
          c ← apply_pass true c opts;
          if negb (setInfo (co_nodeinfo c) (co_nodeinfoPrivacy c)) then Err CoreNodeInfo
          else Ok (c, flat_map (start_configured_listener bind) (elements (co_listeners c)))
  end.
End Core.

(** [RetryPeersNow]: every link of the table is kicked. *)
Definition RetryPeersNow (c : core_state) : list nat := snd <$> map_to_list (ls_links (co_links c)).

(** [_close]: the connections are closed by the shutdown of the links, then the
    packet connection. *)
Definition core_close (c : core_state) : core_state := with_links c (links_shutdown (co_links c)).

(** ** Options made from a configuration *)

Fixpoint decode_allowed (keys : list string) : res core_error (list core_option) :=
  match keys with
  | [] => Ok []
  | a :: keys =>
      match hex_DecodeString a with
      | None => Panic
      | Some k => rest ← decode_allowed keys; Ok (OptAllowedPublicKey k :: rest)
      end
  end.

Definition interface_peers (cfg : NodeConfig) : list core_option :=
  flat_map (λ '(intf, peers), (λ p, OptPeer p intf) <$> peers) (cf_InterfacePeers cfg).

(** The daemon. *)
Definition daemon_core_options (cfg : NodeConfig) : res core_error (list core_option) :=
  allowed ← decode_allowed (cf_AllowedPublicKeys cfg);
  Ok ([OptNodeInfo (cf_NodeInfo cfg); OptNodeInfoPrivacy (cf_NodeInfoPrivacy cfg); OptPeerFilter peerFilter] ++
      (OptListen <$> cf_Listen cfg) ++ ((λ p, OptPeer p "") <$> cf_Peers cfg) ++
      (if String.eqb (cf_GroupPassword cfg) "" then [] else [OptGroupPassword (cf_GroupPassword cfg)]) ++
      interface_peers cfg ++ allowed).

(** The mobile bindings. *)
Definition mobile_core_options (cfg : NodeConfig) : res core_error (list core_option) :=
  allowed ← decode_allowed (cf_AllowedPublicKeys cfg);
  Ok ([OptPeerFilter peerFilter] ++ ((λ p, OptPeer p "") <$> cf_Peers cfg) ++ interface_peers cfg ++ allowed ++
      (OptListen <$> cf_Listen cfg)).

(** The key of the certificate of a configuration. *)
Definition cert_of (cfg : NodeConfig) : cert_key :=
  match cf_Certificate cfg with
  | None => NoKey
  | Some c => KeyEd25519 (cert_PrivateKey c)
  end.

(** Both callers panic with the error of [New]. *)
Definition must {E A} (r : res E A) : res E A := match r with Err _ => Panic | r => r end.

Section Start.
Context `{NetLib} (url_Parse : string → option url) (newPC : bytes → string → bool)
  (setInfo : gmap string string → bool → bool) (bind : url → option nat).

Definition daemon_start (cfg : NodeConfig) : res core_error (core_state * list listener_event) :=
  opts ← daemon_core_options cfg;
  must (core_New url_Parse (cert_of cfg) newPC setInfo bind opts).

Definition mobile_start (cfg : NodeConfig) : res core_error (core_state * list listener_event) :=
  opts ← mobile_core_options cfg;
  must (core_New url_Parse (cert_of cfg) newPC setInfo bind opts).
End Start.

Definition admin_options (cfg : NodeConfig) : list SetupOption :=
  [ListenAddress (cf_AdminListen cfg)] ++ (if cf_LogLookups cfg then [LogLookups] else []).

(** The priority is truncated to eight bits. *)
Definition multicast_options (cfg : NodeConfig) : list MulticastInterface :=
  (λ i, MulticastInterface_ (mc_Regex i) (mc_Beacon i) (mc_Listen i) (mc_Port i) (u8 (mc_Priority i)) (mc_Password i))
    <$> cf_MulticastInterfaces cfg.

Definition tun_options (cfg : NodeConfig) : list TunOption := [InterfaceName (cf_IfName cfg); InterfaceMTU (cf_IfMTU cfg)].

(** The promises of the final pledge. *)
Definition promises (cfg : NodeConfig) : list string :=
  ["stdio"; "rpath"; "cpath"; "inet"; "unix"; "dns"] ++
  (if (0 <? length (cf_MulticastInterfaces cfg))%nat then ["mcast"] else []).

(** The MTU that the mobile bindings set. *)
Definition mobile_mtu (cfg : NodeConfig) (maxMTU : Z) : Z :=
  if maxMTU <? cf_IfMTU cfg then maxMTU else cf_IfMTU cfg.

(** ** The life of the daemon *)

Inductive daemon_event :=
| StartCore | StartAdmin | StartMulticast | StartTun | ChangeUser (user : string) | Pledge (promises : list string)
| Notify (fd : Z) | StopAdmin | StopMulticast | StopTun | StopCore.

(** The set-up of the node from [main] on: each step panics when it fails. *)
Definition daemon_setup (cfg : NodeConfig) (user : string) : list daemon_event :=
  [StartCore; StartAdmin; StartMulticast; StartTun] ++
  (if String.eqb user "" then [] else [ChangeUser user]) ++ [Pledge (promises cfg)].

Definition daemon_shutdown : list daemon_event := [StopAdmin; StopMulticast; StopTun; StopCore].

Fixpoint run_steps (ok : daemon_event → bool) (steps : list daemon_event) : list daemon_event * bool :=
  match steps with
  | [] => ([], true)
  | e :: steps => if ok e then let '(ev, r) := run_steps ok steps in (e :: ev, r) else ([], false)
  end.

(** The events of a run and whether it ended without a panic; the shutdown is
    what follows the signal. *)
Definition daemon_main (ok : daemon_event → bool) (cfg : NodeConfig) (user : string) (notifyFd : Z) :
    list daemon_event * bool :=
  let '(ev, r) := run_steps ok (daemon_setup cfg user) in
  if negb r then (ev, false)
  else (ev ++ (if notifyFd >? 0 then [Notify notifyFd] else []) ++ daemon_shutdown, true).

(** ** The command line of the daemon *)

Record flags := Flags {
  fl_genconf : bool; fl_useconf : bool; fl_useconffile : string; fl_normaliseconf : bool; fl_exportkey : bool;
  fl_json : bool; fl_autoconf : bool; fl_version : bool; fl_address : bool; fl_subnet : bool; fl_publickey : bool;
  fl_user : string; fl_loglevel : string;
}.

Inductive config_source := FromAuto | FromStdin | FromFile (path : string).

Inductive daemon_action :=
| ActVersion
| ActGenconf (json : bool)
| ActUsage (needs_config needs_daemon : bool)
| ActAddress (s : config_source) | ActSubnet (s : config_source) | ActPublicKey (s : config_source)
| ActNormalise (s : config_source) (json : bool) | ActExportKey (s : config_source)
| ActRun (s : config_source).

Definition daemon_dispatch (f : flags) : daemon_action :=
  let go s :=
    if fl_address f then ActAddress s
    else if fl_subnet f then ActSubnet s
    else if fl_publickey f then ActPublicKey s
    else if fl_normaliseconf f then ActNormalise s (fl_json f)
    else if fl_exportkey f then ActExportKey s
    else ActRun s in
  if fl_version f then ActVersion
  else if fl_autoconf f then go FromAuto
  else if fl_useconf f then go FromStdin
  else if negb (String.eqb (fl_useconffile f) "") then go (FromFile (fl_useconffile f))
  else if fl_genconf f then ActGenconf (fl_json f)
  else ActUsage (fl_address f || fl_subnet f || fl_publickey f || fl_exportkey f || fl_normaliseconf f)
         (negb (String.eqb (fl_user f) "")).

Definition set_AdminListen (cfg : NodeConfig) (a : string) : NodeConfig :=
  NodeConfig_ (cf_PrivateKey cfg) (cf_PrivateKeyPath cfg) (cf_Certificate cfg) (cf_Peers cfg) (cf_InterfacePeers cfg)
    (cf_Listen cfg) a (cf_MulticastInterfaces cfg) (cf_AllowedPublicKeys cfg) (cf_GroupPassword cfg) (cf_IfName cfg)
    (cf_IfMTU cfg) (cf_LogLookups cfg) (cf_NodeInfoPrivacy cfg) (cf_NodeInfo cfg).

(** The configuration that -genconf and -normaliseconf print. *)
Definition genconf_output (cfg : NodeConfig) : NodeConfig := set_AdminListen cfg "".
Definition normalised (cfg : NodeConfig) : NodeConfig :=
  let cfg := set_AdminListen cfg "" in
  if String.eqb (cf_PrivateKeyPath cfg) "" then cfg else set_PrivateKey cfg [].

(** What -address, -subnet and -publickey print. *)
Definition printed_address `{IPText} (cfg : NodeConfig) : res config_error string :=
  pub ← ed_PublicHalf (cf_PrivateKey cfg);
  match AddrForKey pub with Some a => Ok (IP_String a) | None => Panic end.
Definition printed_subnet `{IPText} (cfg : NodeConfig) : res config_error string :=
  pub ← ed_PublicHalf (cf_PrivateKey cfg);
  match SubnetForKey pub with Some s => Ok (IPNet_String (s ++ replicate 8 0)) | None => Panic end.
Definition printed_publickey (cfg : NodeConfig) : res config_error string :=
  pub ← ed_PublicHalf (cf_PrivateKey cfg); Ok (EncodeToString pub).

(** [SummaryForConfig] of the mobile bindings, on a configuration that was read;
    [None] is the nil summary. *)
Record ConfigSummary := ConfigSummary_ { cs_PublicKey : string; cs_IPv6Address : string; cs_IPv6Subnet : string }.

Definition SummaryForConfig `{IPText} (cfg : NodeConfig) : option ConfigSummary :=
  if negb (Nat.eqb (length (cf_PrivateKey cfg)) PrivateKeySize) then None
  else
    let pub := drop 32 (cf_PrivateKey cfg) in
    match AddrForKey pub, SubnetForKey pub with
    | Some addr, Some snet =>
        Some (ConfigSummary_ (EncodeToString pub) (IP_String addr) (IPNet_String (snet ++ replicate 8 0)))
    | _, _ => None
    end.

(** What the bindings hand to the packet layer; [started] is whether there is
    one. *)
Definition mobile_SendBuffer (started : bool) (p : bytes) (length : Z) : option bytes :=
  if negb started then None
  else if (length <? 0) || (len p <? length) then None
  else Some (take (Z.to_nat length) p).

(** ** Log levels *)

Definition log_levels : list string := ["error"; "warn"; "info"; "debug"; "trace"].

Fixpoint enable_until (level : string) (levels : list string) : list string :=
  match levels with
  | [] => []
  | l :: levels => l :: (if String.eqb l level then [] else enable_until level levels)
  end.

(** [setLogLevel]: the levels that are enabled. *)
Definition setLogLevel (loglevel : string) : list string :=
  let level := ToLower loglevel in
  let level := if existsb (String.eqb level) log_levels then level else "info" in
  enable_until level log_levels.

(** ** Where the daemon logs to *)

Inductive log_target := LogStdout | LogSyslog | LogFile (path : string).

#[export] Instance log_target_eq_dec : EqDecision log_target.
Proof. solve_decision. Defined.

(** The logger of the daemon with the flag -logto, whether it had to fall back to
    the standard output (with a warning), and its levels; [syslog] and [file] say
    whether the system log and the file can be opened. *)
Definition daemon_logger (logto loglevel : string) (normaliseconf syslog : bool) (file : string → bool) :
    log_target * bool * list string :=
  let logger :=
    if String.eqb logto "stdout" then Some LogStdout
    else if String.eqb logto "syslog" then if syslog then Some LogSyslog else None
    else if file logto then Some (LogFile logto) else None in
  (default LogStdout logger, bool_decide (logger = None), setLogLevel (if normaliseconf then "error" else loglevel)).

(** ** Change of user *)

Inductive user_event := Chown (path : string) (uid gid : Z) | Setgroups (gid : Z) | Setgid (gid : Z) | Setuid (uid : Z).

Inductive user_error := UserEmpty | GroupEmpty | UserUnknown | UidInvalid | GroupUnknown | ChownFailed | SetFailed.

(** The user database: a user is its uid and gid texts, a group its gid text;
    [ue_ok] is whether a call succeeds. *)
Record user_env := UserEnv {
  ue_LookupId : string → option (string * string);
  ue_Lookup : string → option (string * string);
  ue_LookupGroupId : string → option string;
  ue_LookupGroup : string → option string;
  ue_ok : user_event → bool;
}.

(** [strings.Cut(input, ":")]: the parts, and whether the separator occurs. *)
Fixpoint cut_colon (s : string) : string * string * bool :=
  match s with
  | EmptyString => (EmptyString, EmptyString, false)
  | String ":" s => (EmptyString, s, true)
  | String c s => let '(a, b, found) := cut_colon s in (String c a, b, found)
  end.

(** Calls in sequence, up to the first that fails. *)
Fixpoint run_calls (env : user_env) (calls : list user_event) : list user_event * bool :=
  match calls with
  | [] => ([], true)
  | e :: calls =>
      if ue_ok env e then let '(ev, ok) := run_calls env calls in (e :: ev, ok) else ([], false)
  end.

Definition atoi_or_0 (s : string) : Z := match Atoi s with Some n => n | None => 0 end.

(** [chuser]: the calls that succeed, and the error. [url_Parse] gives scheme
    and path of the administration endpoint. *)
Definition chuser (env : user_env) (url_Parse : string → option (string * string)) (input adminSockUrl : string) :
    list user_event * option user_error :=
  let '(givenUser, givenGroup, found) := cut_colon input in
  if String.eqb givenUser "" then ([], Some UserEmpty)
  else if found && String.eqb givenGroup "" then ([], Some GroupEmpty)
  else
    match match ue_LookupId env givenUser with Some u => Some u | None => ue_Lookup env givenUser end with
    | None => ([], Some UserUnknown)
    | Some (uidtext, gidtext) =>
        match Atoi uidtext with
        | None => ([], Some UidInvalid)
        | Some uid =>
            let gid :=
              if String.eqb givenGroup "" then Some (atoi_or_0 gidtext)
              else match match ue_LookupGroupId env givenGroup with
                         | Some g => Some g
                         | None => ue_LookupGroup env givenGroup
                         end with
                   | Some g => Some (atoi_or_0 g)
                   | None => None
                   end in
            match gid with
            | None => ([], Some GroupUnknown)
            | Some gid =>
                let chown :=
                  if String.eqb adminSockUrl "" then Some []
                  else match url_Parse adminSockUrl with
                       | None => None
                       | Some (scheme, path) => if String.eqb scheme "unix" then Some [Chown path uid gid] else Some []
                       end in
                match chown with
                | None => ([], Some ChownFailed)
                | Some chown =>
                    let '(ev1, ok1) := run_calls env chown in
                    if negb ok1 then (ev1, Some ChownFailed)
                    else
                      let '(ev2, ok2) := run_calls env [Setgroups gid; Setgid gid; Setuid uid] in
                      (ev1 ++ ev2, if ok2 then None else Some SetFailed)
                end
            end
        end
    end.

(** ** Properties of the constructor *)

Section CoreLaws.
Context `{NetLib} (url_Parse : string → option url).

Definition allowed_of (opts : list core_option) : gset bytes :=
  list_to_set (omap (λ o, match o with OptAllowedPublicKey k => Some (copy (replicate 32 0) k) | _ => None end) opts).
Definition listeners_of (opts : list core_option) : gset string :=
  list_to_set (omap (λ o, match o with OptListen a => Some a | _ => None end) opts).

(** The last value that an option sets, or the one from before. *)
Definition last_of {A} (get : core_option → option A) (opts : list core_option) (dflt : A) : A :=
  foldl (λ a o, default a (get o)) dflt opts.
Definition get_password (o : core_option) : option string := match o with OptGroupPassword p => Some p | _ => None end.
Definition get_privacy (o : core_option) : option bool := match o with OptNodeInfoPrivacy b => Some b | _ => None end.
Definition get_nodeinfo (o : core_option) : option (gmap string string) := match o with OptNodeInfo m => Some m | _ => None end.
Definition get_filter (o : core_option) : option (option (bytes → bool)) :=
  match o with OptPeerFilter f => Some (Some f) | _ => None end.

(** The first pass sets the options and leaves links and listeners alone. *)
Lemma early_pass opts c c' :
  apply_pass url_Parse false c opts = Ok c' →
  co_links c' = co_links c ∧ co_listeners c' = co_listeners c ∧
  co_allowedPublicKeys c' = allowed_of opts ∪ co_allowedPublicKeys c ∧
  co_groupPassword c' = last_of get_password opts (co_groupPassword c) ∧
  co_nodeinfo c' = last_of get_nodeinfo opts (co_nodeinfo c) ∧
  co_nodeinfoPrivacy c' = last_of get_privacy opts (co_nodeinfoPrivacy c) ∧
  co_peerFilter c' = last_of get_filter opts (co_peerFilter c).
Proof.
  revert c. induction opts as [|o opts IH]; intros c; simpl.
  { intros [= <-]. unfold allowed_of. simpl. split_and!; try done. set_solver. }
  destruct o; simpl; intros Hr; destruct (IH _ Hr) as (-> & -> & -> & -> & -> & -> & ->); simpl; split_and!; try done.
  unfold allowed_of. simpl. set_solver.
Qed.

(** The options of a URI never make the error of a peer that is there. *)
Lemma add_options_error u : add_options u ≠ Err ErrLinkAlreadyConfigured.
Proof.
  assert (Hp : ∀ ks pins, parse_pins ks pins ≠ Err ErrLinkAlreadyConfigured).
  { induction ks as [|k ks IH]; intros pins; simpl; [done|]. case_match; [apply IH|done]. }
  unfold add_options, parse_priority, parse_password, parse_secure, parse_backoff, or_err.
  specialize (Hp (u_query u "key") []). destruct (parse_pins _ _) as [|e|]; simpl in *; [|congruence|congruence].
  clear Hp. repeat (case_match; simplify_eq/=; try congruence).
Qed.

Lemma dialerFor_error u : dialerFor u ≠ Err ErrLinkAlreadyConfigured.
Proof. unfold dialerFor. by repeat case_match. Qed.

(** What a successful [links_add] or one that finds the peer there leaves. *)
Lemma links_add_known ls u sintf ls' k r :
  links_add ls u sintf linkTypePersistent = (ls', k, r) →
  (∃ id, r = Ok id) ∨ r = Err ErrLinkAlreadyConfigured →
  is_Some (ls_links ls' !! (u_base u, sintf)) ∧ ∀ i, is_Some (ls_links ls !! i) → is_Some (ls_links ls' !! i).
Proof.
  unfold links_add. pose proof (dialerFor_error u). pose proof (add_options_error u). intros Heq Hr.
  destruct (dialerFor u); [|naive_solver..]. destruct (add_options u); [|naive_solver..].
  destruct (ls_links ls !! (u_base u, sintf)) as [id|] eqn:El; simplify_eq; [by eauto|]. simpl.
  split; [rewrite lookup_insert_eq; by eauto|]. intros i Hi. destruct (decide (i = (u_base u, sintf))) as [->|Hne].
  - rewrite lookup_insert_eq. by eauto.
  - by rewrite lookup_insert_ne.
Qed.

(** The second pass starts the peers and collects the listeners, and leaves the
    other options alone. *)
Definition same_options (c c' : core_state) : Prop :=
  co_secret c' = co_secret c ∧ co_public c' = co_public c ∧ co_allowedPublicKeys c' = co_allowedPublicKeys c ∧
  co_groupPassword c' = co_groupPassword c ∧ co_nodeinfo c' = co_nodeinfo c ∧
  co_nodeinfoPrivacy c' = co_nodeinfoPrivacy c ∧ co_peerFilter c' = co_peerFilter c.

Definition has_peer (c : core_state) (uri sintf : string) : Prop :=
  ∃ u, url_Parse uri = Some u ∧ is_Some (ls_links (co_links c) !! (u_base u, sintf)).

Lemma apply_peer c uri sintf c' :
  core_applyOption url_Parse c (OptPeer uri sintf) = Ok c' →
  same_options c c' ∧ co_listeners c' = co_listeners c ∧ has_peer c' uri sintf ∧
  ∀ uri' sintf', has_peer c uri' sintf' → has_peer c' uri' sintf'.
Proof.
  simpl. destruct (url_Parse uri) as [u|] eqn:Eu; [|done].
  destruct (links_add (co_links c) u sintf linkTypePersistent) as [[ls k] r] eqn:El. intros Hr.
  assert (Hok : c' = with_links c ls ∧ ((∃ id, r = Ok id) ∨ r = Err ErrLinkAlreadyConfigured))
    by (destruct r as [|e|]; [|destruct e|]; naive_solver).
  destruct Hok as [-> Hok]. destruct (links_add_known _ _ _ _ _ _ El Hok) as [Hin Hmono].
  split_and!; [by unfold same_options; split_and!|done|by exists u|]. intros uri' sintf' (u' & Hu' & Hi'). exists u'. split; [done|]. by apply Hmono.
Qed.

Lemma late_pass opts c c' :
  apply_pass url_Parse true c opts = Ok c' →
  same_options c c' ∧ co_listeners c' = listeners_of opts ∪ co_listeners c ∧
  (∀ uri sintf, OptPeer uri sintf ∈ opts → has_peer c' uri sintf) ∧
  (∀ uri sintf, has_peer c uri sintf → has_peer c' uri sintf).
Proof.
  revert c. induction opts as [|o opts IH]; intros c; simpl.
  { intros [= <-]. unfold listeners_of. simpl. split_and!; [by unfold same_options; split_and!|set_solver|set_solver|done]. }
  assert (Hskip : is_late o = false → apply_pass url_Parse true c opts = Ok c' →
    same_options c c' ∧ co_listeners c' = listeners_of (o :: opts) ∪ co_listeners c ∧
    (∀ uri sintf, OptPeer uri sintf ∈ o :: opts → has_peer c' uri sintf) ∧
    (∀ uri sintf, has_peer c uri sintf → has_peer c' uri sintf)).
  { intros Hl Hr. destruct (IH _ Hr) as (H1 & H2 & H3 & H4). split_and!; try done.
    - rewrite H2. unfold listeners_of. by destruct o.
    - intros uri sintf Hin. apply elem_of_cons in Hin as [<-|Hin]; [done|by apply H3]. }
  destruct o as [uri sintf|a| | | | |]; try (by apply Hskip).
  - cbn [is_late Bool.eqb]. destruct (core_applyOption url_Parse c (OptPeer uri sintf)) as [c1| |] eqn:E; [|done|done].
    destruct (apply_peer _ _ _ _ E) as (S1 & L1 & P1 & M1). cbn [mbind res_bind]. intros Hr.
    destruct (IH _ Hr) as (S2 & L2 & P2 & M2). split_and!.
    + unfold same_options in *. intuition congruence.
    + by rewrite L2, L1.
    + intros u' s' Hin. apply elem_of_cons in Hin as [[= -> ->]|Hin]; [by apply M2|by apply P2].
    + intros. by apply M2, M1.
  - simpl. intros Hr. destruct (IH _ Hr) as (S2 & L2 & P2 & M2). split_and!; try done.
    + rewrite L2. unfold listeners_of. simpl. set_solver.
    + intros u' s' Hin. apply elem_of_cons in Hin as [?|Hin]; [done|by apply P2].
Qed.

(** A node that was constructed has every option that was passed, in whatever
    order they came. *)
Lemma core_New_spec cert newPC setInfo bind opts c evs :
  core_New url_Parse cert newPC setInfo bind opts = Ok (c, evs) →
  cert = KeyEd25519 (co_secret c) ∧ length (co_secret c) = 64%nat ∧ co_public c = drop 32 (co_secret c) ∧
  newPC (co_secret c) (co_groupPassword c) = true ∧
  co_allowedPublicKeys c = allowed_of opts ∧ co_listeners c = listeners_of opts ∧
  co_groupPassword c = last_of get_password opts "" ∧ co_nodeinfo c = last_of get_nodeinfo opts ∅ ∧
  co_nodeinfoPrivacy c = last_of get_privacy opts false ∧ co_peerFilter c = last_of get_filter opts None ∧
  evs = flat_map (start_configured_listener url_Parse bind) (elements (listeners_of opts)) ∧
  ∀ uri sintf, OptPeer uri sintf ∈ opts → has_peer c uri sintf.
Proof.
  unfold core_New. destruct (apply_pass url_Parse false core_zero opts) as [c1| |] eqn:E1; [|done|done]. simpl.
  destruct (early_pass _ _ _ E1) as (L1 & Li1 & A1 & G1 & N1 & Pv1 & F1).
  destruct cert as [| |secret]; [done|done|].
  destruct (Nat.eqb_spec (length secret) PrivateKeySize) as [Hlen|]; simpl; [|done].
  destruct (newPC secret (co_groupPassword c1)) eqn:Epc; simpl; [|done].
  destruct (apply_pass url_Parse true (with_identity c1 secret (drop 32 secret)) opts) as [c2| |] eqn:E2; [|done|done]. simpl.
  destruct (setInfo _ _); simpl; [|done]. intros [= <- <-].
  destruct (late_pass _ _ _ E2) as ((S1 & S2 & S3 & S4 & S5 & S6 & S7) & Li2 & P2 & _). simpl in *.
  rewrite S1, S2, S3, S4, S5, S6, S7, Li2, A1, G1, N1, Pv1, F1, Li1. simpl. rewrite !(right_id_L ∅ (∪)).
  split_and!; [reflexivity|exact Hlen|reflexivity|by rewrite <- G1|reflexivity..|exact P2].
Qed.
End CoreLaws.

(** ** Properties of the callers *)

(** The allowed keys of a configuration, as the core keeps them. *)
Definition config_allowed (cfg : NodeConfig) : gset bytes :=
  list_to_set (omap (λ s, copy (replicate 32 0) <$> hex_DecodeString s) (cf_AllowedPublicKeys cfg)).

Lemma decode_allowed_spec ks opts :
  decode_allowed ks = Ok opts →
  (∀ o, o ∈ opts → ∃ k, o = OptAllowedPublicKey k) ∧
  allowed_of opts = list_to_set (omap (λ s, copy (replicate 32 0) <$> hex_DecodeString s) ks) ∧
  Forall (λ s, is_Some (hex_DecodeString s)) ks.
Proof.
  revert opts. induction ks as [|a ks IH]; intros opts; cbn [decode_allowed].
  { intros [= <-]. split_and!; [set_solver|done|constructor]. }
  destruct (hex_DecodeString a) as [k|] eqn:Ek; [|done].
  destruct (decode_allowed ks) as [rest| |] eqn:Er; [|done|done]. cbn [mbind res_bind]. intros [= <-].
  destruct (IH _ eq_refl) as (H1 & H2 & H3). split_and!.
  - intros o [->|Ho]%elem_of_cons; [by exists k|by apply H1].
  - unfold allowed_of in *. cbn [omap list_omap list_to_set]. rewrite Ek. cbn [fmap option_fmap option_map list_to_set].
    by rewrite H2.
  - by constructor.
Qed.

Lemma last_of_app {A} (get : core_option → option A) l1 l2 d :
  last_of get (l1 ++ l2) d = last_of get l2 (last_of get l1 d).
Proof. apply foldl_app. Qed.

Lemma last_of_none {A} (get : core_option → option A) l d : (∀ o, o ∈ l → get o = None) → last_of get l d = d.
Proof.
  induction l as [|o l IH]; intros Hn; [done|]. cbn [last_of foldl]. rewrite Hn by left. apply IH. intros. apply Hn. by right.
Qed.

(** Which options a list of peers, listeners or allowed keys can hold. *)
Definition only (P : core_option → bool) (l : list core_option) : Prop := ∀ o, o ∈ l → P o = true.
Definition is_peer (o : core_option) : bool := match o with OptPeer _ _ => true | _ => false end.
Definition is_listen (o : core_option) : bool := match o with OptListen _ => true | _ => false end.
Definition is_allowed (o : core_option) : bool := match o with OptAllowedPublicKey _ => true | _ => false end.

Lemma peers_only ps : only is_peer ((λ p, OptPeer p "") <$> ps).
Proof. by intros o (p & -> & _)%list_elem_of_fmap. Qed.
Lemma listens_only ps : only is_listen (OptListen <$> ps).
Proof. by intros o (p & -> & _)%list_elem_of_fmap. Qed.
Lemma interface_peers_only cfg : only is_peer (interface_peers cfg).
Proof.
  intros o Ho. apply list_elem_of_In, in_flat_map in Ho as ([intf ps] & _ & Ho%list_elem_of_In).
  by apply list_elem_of_fmap in Ho as (p & -> & _).
Qed.
Lemma allowed_only ks opts : decode_allowed ks = Ok opts → only is_allowed opts.
Proof. intros (Hk & _)%decode_allowed_spec o Ho. by destruct (Hk _ Ho) as [k ->]. Qed.

Lemma only_none {A} (get : core_option → option A) P l d :
  only P l → (∀ o, P o = true → get o = None) → last_of get l d = d.
Proof. intros Ho Hg. apply last_of_none. intros o Hin. apply Hg, Ho, Hin. Qed.

Lemma listeners_of_app l1 l2 : listeners_of (l1 ++ l2) = listeners_of l1 ∪ listeners_of l2.
Proof. unfold listeners_of. by rewrite omap_app, list_to_set_app_L. Qed.
Lemma allowed_of_app l1 l2 : allowed_of (l1 ++ l2) = allowed_of l1 ∪ allowed_of l2.
Proof. unfold allowed_of. by rewrite omap_app, list_to_set_app_L. Qed.

Lemma listeners_of_only P l : only P l → (∀ o, P o = true → is_listen o = false) → listeners_of l = ∅.
Proof.
  intros Ho Hp. induction l as [|o l IH]; [done|]. unfold listeners_of in *. cbn [omap list_omap].
  assert (is_listen o = false) as Hl by (apply Hp, Ho; by left). rewrite <- IH by (intros x Hx; apply Ho; by right).
  by destruct o.
Qed.
Lemma allowed_of_only P l : only P l → (∀ o, P o = true → is_allowed o = false) → allowed_of l = ∅.
Proof.
  intros Ho Hp. induction l as [|o l IH]; [done|]. unfold allowed_of in *. cbn [omap list_omap].
  assert (is_allowed o = false) as Hl by (apply Hp, Ho; by left). rewrite <- IH by (intros x Hx; apply Ho; by right).
  by destruct o.
Qed.
Lemma listeners_of_listens ps : listeners_of (OptListen <$> ps) = list_to_set ps.
Proof. unfold listeners_of. induction ps as [|p ps IH]; [done|]. cbn [fmap list_fmap omap list_omap list_to_set] in *. by rewrite IH. Qed.

(** The parts of an option list that do not set a value are skipped. *)
Ltac not_that_option := solve [intros []; done | eauto using peers_only, listens_only, interface_peers_only, allowed_only].
Ltac skip_options :=
  rewrite ?last_of_app;
  repeat match goal with
  | |- context [last_of ?g ?l ?d] =>
      first [rewrite (only_none g is_peer l d) by not_that_option
            |rewrite (only_none g is_listen l d) by not_that_option
            |rewrite (only_none g is_allowed l d) by not_that_option]
  end.

Section CallerLaws.
Context `{NetLib} (url_Parse : string → option url) (newPC : bytes → string → bool)
  (setInfo : gmap string string → bool → bool) (bind : url → option nat).

Lemma must_Ok {E A} (r : res E A) a : must r = Ok a → r = Ok a.
Proof. by destruct r. Qed.

(** The peers of a configuration and the interfaces that they are dialled on. *)
Definition config_peer (cfg : NodeConfig) (uri intf : string) : Prop :=
  (uri ∈ cf_Peers cfg ∧ intf = "") ∨ ∃ peers, (intf, peers) ∈ cf_InterfacePeers cfg ∧ uri ∈ peers.

Lemma config_peer_option cfg uri intf :
  config_peer cfg uri intf → OptPeer uri intf ∈ ((λ p, OptPeer p "") <$> cf_Peers cfg) ++ interface_peers cfg.
Proof.
  intros [[Hin ->]|(peers & Hp & Hin)]; apply elem_of_app; [left|right].
  - apply list_elem_of_fmap. by exists uri.
  - apply list_elem_of_In, in_flat_map. exists (intf, peers). split; [by apply list_elem_of_In|].
    apply list_elem_of_In, list_elem_of_fmap. by exists uri.
Qed.

(** C31: daemon_applies_config.  A node that the daemon starts from a
    configuration has the identity of the configuration's certificate and all of
    its settings: the group password (which the packet connection was made with),
    the node information and its privacy, the filter that keeps peerings off the
    overlay, exactly the configured listeners and exactly the configured allowed
    keys (each of which is valid hexadecimal), and a link for every peer, with the
    interface it was configured for. *)
Theorem daemon_applies_config cfg c evs :
  daemon_start url_Parse newPC setInfo bind cfg = Ok (c, evs) →
  cert_of cfg = KeyEd25519 (co_secret c) ∧ co_public c = drop 32 (co_secret c) ∧ length (co_secret c) = 64%nat ∧
  co_groupPassword c = cf_GroupPassword cfg ∧ newPC (co_secret c) (cf_GroupPassword cfg) = true ∧
  co_nodeinfo c = cf_NodeInfo cfg ∧ co_nodeinfoPrivacy c = cf_NodeInfoPrivacy cfg ∧
  co_peerFilter c = Some peerFilter ∧
  co_listeners c = list_to_set (cf_Listen cfg) ∧
  co_allowedPublicKeys c = config_allowed cfg ∧
  Forall (λ s, is_Some (hex_DecodeString s)) (cf_AllowedPublicKeys cfg) ∧
  ∀ uri intf, config_peer cfg uri intf → has_peer url_Parse c uri intf.
Proof.
  unfold daemon_start, daemon_core_options. destruct (decode_allowed _) as [allowed| |] eqn:Ea; [|done|done].
  destruct (decode_allowed_spec _ _ Ea) as (_ & Hall & Hhex). cbn [mbind res_bind].
  set (pw := if String.eqb (cf_GroupPassword cfg) "" then [] else [OptGroupPassword (cf_GroupPassword cfg)]).
  intros Hok%must_Ok%core_New_spec. destruct Hok as (Hc & Hl & Hp & Hpc & HA & HL & HG & HN & HV & HF & _ & HP).
  assert (Hpw : co_groupPassword c = cf_GroupPassword cfg).
  { rewrite HG. skip_options. unfold pw. destruct (String.eqb_spec (cf_GroupPassword cfg) "") as [->|]; done. }
  assert (Hnone : only (λ o, bool_decide (is_Some (get_password o))) pw).
  { intros o Ho. unfold pw in Ho. case_match; [set_solver|]. by apply list_elem_of_singleton in Ho as ->. }
  rewrite <- Hpw. split_and!; try done.
  - rewrite HN. skip_options. apply (only_none _ _ _ _ Hnone). by intros [].
  - rewrite HV. skip_options. apply (only_none _ _ _ _ Hnone). by intros [].
  - rewrite HF. skip_options. apply (only_none _ _ _ _ Hnone). by intros [].
  - rewrite HL, !listeners_of_app, listeners_of_listens.
    rewrite (listeners_of_only _ _ (peers_only _)), (listeners_of_only _ _ (interface_peers_only _)),
      (listeners_of_only _ _ (allowed_only _ _ Ea)), (listeners_of_only _ _ Hnone) by (by intros []). set_solver.
  - rewrite HA, !allowed_of_app, Hall.
    rewrite (allowed_of_only _ _ (peers_only _)), (allowed_of_only _ _ (interface_peers_only _)),
      (allowed_of_only _ _ (listens_only _)), (allowed_of_only _ _ Hnone) by (by intros []).
    unfold config_allowed. set_solver.
  - intros uri intf Hpeer. apply HP. apply config_peer_option in Hpeer. rewrite !elem_of_app in *. tauto.
Qed.

(** The mobile bindings start the same peers and listeners under the same
    filter, but pass neither the group password nor the node information on: a
    node with a configured group password runs in the public group. *)
Theorem mobile_group_password_ignored cfg c evs :
  mobile_start url_Parse newPC setInfo bind cfg = Ok (c, evs) →
  co_groupPassword c = "" ∧ newPC (co_secret c) "" = true ∧ co_nodeinfo c = ∅ ∧ co_nodeinfoPrivacy c = false ∧
  co_peerFilter c = Some peerFilter ∧ co_listeners c = list_to_set (cf_Listen cfg) ∧
  co_allowedPublicKeys c = config_allowed cfg ∧
  ∀ uri intf, config_peer cfg uri intf → has_peer url_Parse c uri intf.
Proof.
  unfold mobile_start, mobile_core_options. destruct (decode_allowed _) as [allowed| |] eqn:Ea; [|done|done].
  destruct (decode_allowed_spec _ _ Ea) as (_ & Hall & _). cbn [mbind res_bind].
  intros Hok%must_Ok%core_New_spec. destruct Hok as (Hc & Hl & Hp & Hpc & HA & HL & HG & HN & HV & HF & _ & HP).
  assert (Hpw : co_groupPassword c = "") by (rewrite HG; by skip_options).
  split_and!; try done.
  - by rewrite <- Hpw.
  - rewrite HN. by skip_options.
  - rewrite HV. by skip_options.
  - rewrite HF. by skip_options.
  - rewrite HL, !listeners_of_app, listeners_of_listens.
    rewrite (listeners_of_only _ _ (peers_only _)), (listeners_of_only _ _ (interface_peers_only _)),
      (listeners_of_only _ _ (allowed_only _ _ Ea)) by (by intros []). set_solver.
  - rewrite HA, !allowed_of_app, Hall.
    rewrite (allowed_of_only _ _ (peers_only _)), (allowed_of_only _ _ (interface_peers_only _)),
      (allowed_of_only _ _ (listens_only _)) by (by intros []).
    unfold config_allowed. set_solver.
  - intros uri intf Hpeer. apply HP. apply config_peer_option in Hpeer. rewrite !elem_of_app in *. tauto.
Qed.
End CallerLaws.

(** ** Identity, log levels and the change of user *)

(** identity_printed_is_identity_used.  What -address, -subnet and
    -publickey print for a configuration with a full private key whose
    certificate belongs to it, and what the mobile bindings summarise, are the
    address, subnet and key of the node that runs with that configuration (as
    getSelf reports them). *)
Theorem identity_printed_is_identity_used `{NetLib} `{IPText} url_Parse newPC setInfo bind cfg c evs cert :
  daemon_start url_Parse newPC setInfo bind cfg = Ok (c, evs) →
  cf_Certificate cfg = Some cert → cert_PrivateKey cert = cf_PrivateKey cfg → bytes_ok (cf_PrivateKey cfg) →
  ∃ addr snet, Core_Address (co_public c) = Some addr ∧ Core_Subnet (co_public c) = Some snet ∧
    printed_address cfg = Ok (IP_String addr) ∧ printed_subnet cfg = Ok (IPNet_String snet) ∧
    printed_publickey cfg = Ok (EncodeToString (co_public c)) ∧
    SummaryForConfig cfg =
      Some (ConfigSummary_ (EncodeToString (co_public c)) (IP_String addr) (IPNet_String snet)).
Proof.
  unfold daemon_start. destruct (daemon_core_options cfg); [|done|done]. cbn [mbind res_bind].
  intros Hok%must_Ok%core_New_spec Hcert Hkey Hbytes. destruct Hok as (Hc & Hl & Hp & _).
  unfold cert_of in Hc. rewrite Hcert, Hkey in Hc. injection Hc as Hc.
  assert (Hpub : ed_PublicHalf (cf_PrivateKey cfg) = Ok (co_public c)).
  { unfold ed_PublicHalf. rewrite Hc, Hl, Hp. cbn [Nat.ltb Nat.leb]. by rewrite copy_full by (rewrite length_drop, Hl; done). }
  assert (Hok : key_ok (co_public c)).
  { rewrite Hp, <- Hc. split; [rewrite length_drop, Hc, Hl; done|by apply Forall_drop]. }
  destruct (AddrForKey_bits _ Hok) as (addr & Ha & Hal & _ & Hb0 & _).
  pose proof (SubnetForKey_addr _ _ Ha Hal Hb0) as Hs.
  exists addr, ((0x03 :: take 7 (drop 1 addr)) ++ replicate 8 0).
  unfold Core_Address, Core_Subnet, printed_address, printed_subnet, printed_publickey, SummaryForConfig.
  rewrite Hpub, Hc, Hl. cbn [mbind res_bind Nat.eqb PrivateKeySize negb]. rewrite <- Hp, Ha, Hs. split_and!; reflexivity.
Qed.

(** The enabled levels are those up to the chosen one: an unknown level enables
    as much as info does. *)
Lemma setLogLevel_prefix level :
  ∃ n, (1 <= n <= 5)%nat ∧ setLogLevel level = take n log_levels ∧
    (ToLower level ∈ log_levels → last (setLogLevel level) = Some (ToLower level)) ∧
    (ToLower level ∉ log_levels → n = 3%nat).
Proof.
  unfold setLogLevel. set (l := ToLower level). destruct (existsb (String.eqb l) log_levels) eqn:E.
  - apply existsb_exists in E as (x & Hx & ->%String.eqb_eq). unfold log_levels in Hx. simpl in Hx.
    destruct Hx as [<-|[<-|[<-|[<-|[<-|[]]]]]]; [exists 1%nat|exists 2%nat|exists 3%nat|exists 4%nat|exists 5%nat];
      (split_and!; [lia|lia|reflexivity|reflexivity|]); intros Hn; exfalso; apply Hn; unfold log_levels; set_solver.
  - exists 3%nat. split_and!; [lia|lia|reflexivity| |done]. intros Hin. exfalso.
    assert (existsb (String.eqb l) log_levels = true) as Ht; [|by rewrite Ht in E].
    apply existsb_exists. exists l. split; [by apply list_elem_of_In|apply String.eqb_refl].
Qed.

(** The daemon always has a logger: the one that was asked for, or the standard
    output, with a warning; while it prints a configuration only errors are logged. *)
Lemma daemon_logger_total logto loglevel normaliseconf syslog file :
  let '(target, warned, levels) := daemon_logger logto loglevel normaliseconf syslog file in
  (warned = true → target = LogStdout ∧ logto ≠ "stdout") ∧
  (warned = false → target = LogStdout ∧ logto = "stdout" ∨ target = LogSyslog ∧ logto = "syslog" ∧ syslog = true ∨
     target = LogFile logto ∧ file logto = true) ∧
  (normaliseconf = true → levels = ["error"]).
Proof.
  unfold daemon_logger. destruct (String.eqb_spec logto "stdout") as [->|Hs].
  - split_and!; [done|by left|by intros ->].
  - destruct (String.eqb_spec logto "syslog") as [->|Hy]; [destruct syslog|destruct (file logto)];
      split_and!; try done; try (by intros ->); auto.
Qed.

Lemma run_calls_prefix env calls : fst (run_calls env calls) `prefix_of` calls.
Proof.
  induction calls as [|e calls IH]; [done|]. cbn [run_calls]. destruct (ue_ok env e); [|apply prefix_nil].
  destruct (run_calls env calls). by apply prefix_cons.
Qed.
Lemma run_calls_all env calls ev : run_calls env calls = (ev, true) → ev = calls.
Proof.
  revert ev. induction calls as [|e calls IH]; intros ev; cbn [run_calls]; [by intros [= <-]|].
  destruct (ue_ok env e); [|done]. destruct (run_calls env calls) as [ev' ok] eqn:E. intros [= <- ->]. f_equal. by apply IH.
Qed.
Lemma run_calls_some env calls ev : run_calls env calls = (ev, false) → (length ev < length calls)%nat.
Proof.
  revert ev. induction calls as [|e calls IH]; intros ev; cbn [run_calls]; [done|].
  destruct (ue_ok env e); [|intros [= <-]; simpl; lia].
  destruct (run_calls env calls) as [ev' ok] eqn:E. intros [= <- ->]. specialize (IH _ eq_refl). simpl. lia.
Qed.

(** The calls that drop the privileges to a user and a group, after the socket
    of the administration endpoint was given to them. *)
Definition drop_sequence (sock : list user_event) (uid gid : Z) : list user_event :=
  sock ++ [Setgroups gid; Setgid gid; Setuid uid].

(** chuser_order.  Whatever the user database and the calls answer, the
    change of user makes a prefix of one fixed sequence of calls: the
    administration socket is given to the new owner while the process may still
    do that, the groups are dropped before the user, and the user identity comes
    last. It reports success exactly when the whole sequence ran, and it made no
    call at all when the argument names no user, or an empty group. *)
Theorem chuser_order env url_Parse input sock ev err :
  chuser env url_Parse input sock = (ev, err) →
  (∃ chown uid gid, ev `prefix_of` drop_sequence chown uid gid ∧
    (chown = [] ∨ ∃ path, url_Parse sock = Some ("unix", path) ∧ chown = [Chown path uid gid]) ∧
    (err = None ↔ ev = drop_sequence chown uid gid)) ∧
  (err = Some UserEmpty ∨ err = Some GroupEmpty ∨ err = Some UserUnknown ∨ err = Some GroupUnknown → ev = []).
Proof.
  assert (Hnone : ∀ e, (∃ chown uid gid, ([] : list user_event) `prefix_of` drop_sequence chown uid gid ∧
    (chown = [] ∨ ∃ path, url_Parse sock = Some ("unix", path) ∧ chown = [Chown path uid gid]) ∧
    (Some e = @None user_error ↔ [] = drop_sequence chown uid gid))).
  { intros e. exists [], 0, 0. split; [apply prefix_nil|]. split; [by left|]. by split. }
  unfold chuser. destruct (cut_colon input) as [[user group] found].
  destruct (String.eqb user ""); [intros [= <- <-]; by split|].
  destruct (found && String.eqb group ""); [intros [= <- <-]; by split|].
  destruct (match ue_LookupId env user with Some u => Some u | None => ue_Lookup env user end) as [[ut gt]|];
    [|intros [= <- <-]; by split].
  destruct (Atoi ut) as [uid|]; [|intros [= <- <-]; by split].
  destruct (if String.eqb group "" then Some (atoi_or_0 gt) else _) as [gid|]; [|intros [= <- <-]; by split].
  set (chown := if String.eqb sock "" then Some [] else _).
  destruct chown as [ch|] eqn:Ech; [|intros [= <- <-]; by split].
  assert (Hch : ch = [] ∨ ∃ path, url_Parse sock = Some ("unix", path) ∧ ch = [Chown path uid gid]).
  { unfold chown in Ech. destruct (String.eqb sock ""); [injection Ech as <-; by left|].
    destruct (url_Parse sock) as [[scheme path]|]; [|done].
    destruct (String.eqb_spec scheme "unix") as [->|]; injection Ech as <-; [right; by exists path|by left]. }
  clear chown Ech. pose proof (run_calls_prefix env ch) as Hpre.
  destruct (run_calls env ch) as [ev1 ok1] eqn:E1. cbn [fst] in Hpre. destruct ok1; cbn [negb].
  - apply run_calls_all in E1 as ->. pose proof (run_calls_prefix env [Setgroups gid; Setgid gid; Setuid uid]) as Hpre2.
    destruct (run_calls env [Setgroups gid; Setgid gid; Setuid uid]) as [ev2 ok2] eqn:E2. cbn [fst] in Hpre2.
    intros [= <- <-]. split; [|destruct ok2; naive_solver].
    exists ch, uid, gid. split; [by apply prefix_app|]. split; [exact Hch|]. destruct ok2.
    + apply run_calls_all in E2 as ->. done.
    + apply run_calls_some in E2. split; [done|]. intros Heq%(app_inv_head ch). subst. simpl in E2. lia.
  - intros [= <- <-]. split; [|naive_solver]. exists ch, uid, gid.
    split; [by apply prefix_app_r|]. split; [exact Hch|]. split; [done|]. intros ->. apply prefix_length in Hpre.
    unfold drop_sequence in Hpre. rewrite length_app in Hpre. simpl in Hpre. lia.
Qed.

Lemma run_steps_prefix ok steps : fst (run_steps ok steps) `prefix_of` steps.
Proof.
  induction steps as [|e steps IH]; [done|]. cbn [run_steps]. destruct (ok e); [|apply prefix_nil].
  destruct (run_steps ok steps). by apply prefix_cons.
Qed.
Lemma run_steps_all ok steps ev : run_steps ok steps = (ev, true) → ev = steps.
Proof.
  revert ev. induction steps as [|e steps IH]; intros ev; cbn [run_steps]; [by intros [= <-]|].
  destruct (ok e); [|done]. destruct (run_steps ok steps) as [ev' r]. intros [= <- ->]. f_equal. by apply IH.
Qed.

(** The daemon changes its user only after the core, the administration socket,
    multicast and the interface are open, reports readiness only after that and
    the pledge, and stops the parts in the reverse dependence on the core. A run
    that fails on the way has made a prefix of the set-up. *)
Lemma daemon_order ok cfg user fd ev r :
  daemon_main ok cfg user fd = (ev, r) →
  (r = false → ev `prefix_of` daemon_setup cfg user) ∧
  (r = true → ev = daemon_setup cfg user ++ (if fd >? 0 then [Notify fd] else []) ++ daemon_shutdown) ∧
  ∀ u pre post, ev = pre ++ ChangeUser u :: post → pre = [StartCore; StartAdmin; StartMulticast; StartTun].
Proof.
  unfold daemon_main. pose proof (run_steps_prefix ok (daemon_setup cfg user)) as Hpre.
  destruct (run_steps ok (daemon_setup cfg user)) as [ev' r'] eqn:E. cbn [fst] in Hpre.
  assert (Huser : ∀ l u pre post, (∀ v, ChangeUser v ∉ l) → daemon_setup cfg user ++ l = pre ++ ChangeUser u :: post →
    pre = [StartCore; StartAdmin; StartMulticast; StartTun]).
  { intros l u pre post Hl Heq. unfold daemon_setup in Heq. cbn [app] in Heq.
    destruct pre as [|e1 [|e2 [|e3 [|e4 pre]]]]; try discriminate Heq. injection Heq as <- <- <- <- Heq.
    assert (Hin : ∀ pre, l = pre ++ ChangeUser u :: post → False).
    { intros q ->. apply (Hl u). apply elem_of_app. right. by left. }
    destruct pre as [|e pre]; [done|]. exfalso. destruct (String.eqb user ""); cbn [app] in Heq.
    - injection Heq as _ Heq. by eapply Hin.
    - destruct pre as [|e' pre]; [done|]. injection Heq as _ _ Heq. by eapply Hin. }
  destruct r'; cbn [negb]; intros [= <- <-].
  - apply run_steps_all in E as ->. split_and!; [done|done|]. intros u pre post. apply Huser.
    intros v Hv. destruct (fd >? 0); set_solver.
  - split_and!; [done|done|]. intros u pre post Heq. destruct Hpre as [rest Hrest].
    apply (Huser [] u pre (post ++ rest)); [set_solver|]. rewrite app_nil_r, Hrest, Heq. by rewrite <- app_assoc.
Qed.

(** ** Witnesses *)

Module NodeWitness.
Import LinksWitness.

Definition parse (uri : string) : option url := Some (Url "tls" "192.0.2.1" (λ _, []) uri).
Definition key0 : bytes := replicate 32 9 ++ replicate 32 7.
Definition cfg0 : NodeConfig :=
  NodeConfig_ key0 "" (Some (Certificate_ key0 (replicate 32 7))) ["tls://192.0.2.1:1"; "tls://192.0.2.1:1"]
    [("eth0", ["tls://192.0.2.1:2"])] ["tls://[::]:5"] "" [] ["00ff"] "secret" "auto" 65535 false true {["name" := "node"]}.
Definition start0 := daemon_start parse (λ _ _, true) (λ _ _, true) (λ _, Some 4%nat) cfg0.
Definition mobile0 := mobile_start parse (λ _ _, true) (λ _ _, true) (λ _, Some 4%nat) cfg0.

(** A configuration with a duplicate peer, a peer on an interface, a listener,
    an allowed key and a group password. *)
Lemma daemon_applies_config_witness :
  ∃ c, start0 = Ok (c, [ListenerBound 4; ListenerRegistered 4]) ∧ co_groupPassword c = "secret" ∧
    has_peer parse c "tls://192.0.2.1:2" "eth0" ∧ size (ls_links (co_links c)) = 2%nat.
Proof.
  assert (Hrun : match start0 with
                 | Ok (c, evs) => evs = [ListenerBound 4; ListenerRegistered 4] ∧ size (ls_links (co_links c)) = 2%nat
                 | _ => False
                 end) by (vm_compute; split; reflexivity).
  destruct start0 as [[c evs]| |] eqn:E; [unfold start0 in E|destruct Hrun|destruct Hrun].
  destruct Hrun as [-> Hsize]. destruct (daemon_applies_config parse (λ _ _, true) (λ _ _, true) (λ _, Some 4%nat) cfg0 c _ E)
    as (_ & _ & _ & Hpw & _ & _ & _ & _ & _ & _ & _ & Hpeer).
  exists c. split_and!; [reflexivity|exact Hpw| |exact Hsize].
  apply Hpeer. right. exists ["tls://192.0.2.1:2"]. split; apply list_elem_of_singleton; reflexivity.
Defined.

(** The same configuration on the mobile bindings. *)
Lemma mobile_group_password_ignored_witness :
  ∃ c evs, mobile0 = Ok (c, evs) ∧ co_groupPassword c = "" ∧ cf_GroupPassword cfg0 = "secret".
Proof.
  assert (Hrun : match mobile0 with Ok _ => True | _ => False end) by (vm_compute; exact I).
  destruct mobile0 as [[c evs]| |] eqn:E; [unfold mobile0 in E|destruct Hrun|destruct Hrun].
  exists c, evs. split_and!; [reflexivity| |reflexivity].
  apply (mobile_group_password_ignored parse (λ _ _, true) (λ _ _, true) (λ _, Some 4%nat) cfg0 c evs E).
Defined.

#[local] Instance ip_text : IPText := { IP_String := EncodeToString; IPNet_String := EncodeToString }.

Lemma identity_printed_is_identity_used_witness :
  ∃ c evs addr, start0 = Ok (c, evs) ∧ Core_Address (co_public c) = Some addr ∧
    printed_address cfg0 = Ok (EncodeToString addr).
Proof.
  assert (Hrun : match start0 with Ok _ => True | _ => False end) by (vm_compute; exact I).
  destruct start0 as [[c evs]| |] eqn:E; [unfold start0 in E|destruct Hrun|destruct Hrun].
  destruct (identity_printed_is_identity_used parse (λ _ _, true) (λ _ _, true) (λ _, Some 4%nat) cfg0 c evs
    (Certificate_ key0 (replicate 32 7)) E eq_refl eq_refl) as (addr & snet & Ha & _ & Hp & _).
  { clear. apply Forall_app. split; apply Forall_replicate; split; lia. }
  exists c, evs, addr. split_and!; [reflexivity|exact Ha|exact Hp].
Defined.

(** A user that is found by name, with a Unix administration socket, where the
    last call fails. *)
Definition users : user_env :=
  UserEnv (λ _, None) (λ u, if String.eqb u "uqda" then Some ("100", "101") else None) (λ _, None) (λ _, None)
    (λ e, match e with Setuid _ => false | _ => true end).

Lemma chuser_order_witness :
  let r := chuser users (λ _, Some ("unix", "/run/s")) "uqda" "unix:///run/s" in
  r = ([Chown "/run/s" 100 101; Setgroups 101; Setgid 101], Some SetFailed) ∧
  ∃ chown uid gid, fst r `prefix_of` drop_sequence chown uid gid.
Proof.
  intros r. split; [reflexivity|].
  destruct (chuser_order users (λ _, Some ("unix", "/run/s")) "uqda" "unix:///run/s" _ _ eq_refl) as [(ch & u & g & Hp & _) _].
  exists ch, u, g. exact Hp.
Defined.
End NodeWitness.
