(* ===== verification/Mobile.v ===== *)
(** * Mobile: the bindings for mobile platforms
    (contrib/mobile/mobile.go and TakeOverTUN of mobile_apple.go)

    An instance starts out empty; [StartJSON] makes its parts from a
    configuration, and the other calls use them.  A call on a part that is not
    there dereferences a nil pointer, except where the code checks. *)

From S2P Require Import Prelude Binary Wire Address Crypto Messages Handshake KeyStore Links Proto GoLib Listings Admin Remote Multicast Config Dial Tun Node.

Open Scope string_scope.
Open Scope list_scope.
Open Scope Z_scope.

(** The parts of an instance: the configuration is only used while it starts. *)
Record UQDA := UQDA_ {
  uq_core : option core_state;
  uq_iprwc : option keyStore;
  uq_multicast : option (list MulticastInterface);
  uq_tun : bool;
}.

Definition UQDA_zero : UQDA := UQDA_ None None None false.

(** What happens outside: random seed, files, the packet connection, node
    information, sockets, regular expressions and the MTU of the connection. *)
Record mobile_env := MobileEnv {
  me_seed : bytes;
  me_readFile : string → option bytes;
  me_newPC : bytes → string → bool;
  me_setInfo : gmap string string → bool → bool;
  me_bind : url → option nat;
  me_Compile : string → bool;
  me_pcMTU : Z;
}.

Inductive mobile_call :=
| MStartAutoconfigure
| MStartJSON (configjson : bytes)
| MSend (p : bytes)
| MSendBuffer (p : bytes) (length : Z)
| MRecv (packet : option (bytes * bytes))               (* what [readPC] gets: packet and sender, or an error *)
| MRecvBuffer (buf : bytes) (packet : option (bytes * bytes))
| MRetryPeersNow
| MGetMTU
| MGetRoutingEntries (self : SelfInfo)
| MTakeOverTUN
| MStop (ok : mobile_part → bool).

Inductive mobile_reply :=
| RDone
| RError (e : config_error)
| RSent (out : list ks_output)
| RPacket (p : bytes)
| RLength (n : Z)
| RKicked (ids : list nat)
| RNumber (n : Z)
| RTun (options : Z)                                     (* the MTU option *)
| RStopped (parts : list mobile_part) (ok : bool).

Section Mobile.
Context `{ConfigLib} `{NetLib} `{IcmpMarshal} (url_Parse : string → option url) (defaults : platformDefaultParameters)
  (env : mobile_env).

(** [GenerateConfigJSON]: the configuration that is encoded. *)
Definition GenerateConfigJSON : res config_error NodeConfig :=
  nc ← GenerateConfig defaults (me_seed env);
  Ok (NodeConfig_ (cf_PrivateKey nc) (cf_PrivateKeyPath nc) (cf_Certificate nc) (cf_Peers nc) (cf_InterfacePeers nc)
        (cf_Listen nc) (cf_AdminListen nc) (cf_MulticastInterfaces nc) (cf_AllowedPublicKeys nc) (cf_GroupPassword nc)
        "none" (cf_IfMTU nc) (cf_LogLookups nc) (cf_NodeInfoPrivacy nc) (cf_NodeInfo nc)).

(** The multicast module is made when there are interfaces; an invalid regular
    expression panics, an error of [multicast.New] is only logged. *)
Definition mobile_multicast (cfg : NodeConfig) (old : option (list MulticastInterface)) :
    res () (option (list MulticastInterface)) :=
  match cf_MulticastInterfaces cfg with
  | [] => Ok old
  | ifs =>
      if forallb (λ i, me_Compile env (mc_Regex i)) ifs then Ok (Some (multicast_options cfg)) else Panic
  end.

(** [StartJSON]: an error of the configuration is returned, every other failure
    panics. *)
Definition StartJSON (m : UQDA) (configjson : bytes) : UQDA * res () mobile_reply :=
  match GenerateConfig defaults (me_seed env) with
  | Ok cfg =>
      match UnmarshalHJSON (me_readFile env) cfg configjson with
      | Err e => (m, Ok (RError e))
      | Panic => (m, Panic)
      | Ok cfg =>
          match mobile_start url_Parse (me_newPC env) (me_setInfo env) (me_bind env) cfg with
          | Ok (core, _) =>
              let m := UQDA_ (Some core) (uq_iprwc m) (uq_multicast m) (uq_tun m) in
              match mobile_multicast cfg (uq_multicast m), ks_init (co_public core) with
              | Ok mc, Some ks =>
                  let ks := rwc_setMTU (me_pcMTU env) ks (mobile_mtu cfg (rwc_MaxMTU (me_pcMTU env))) in
                  (UQDA_ (Some core) (Some ks) mc (uq_tun m), Ok RDone)
              | _, _ => (m, Panic)
              end
          | _ => (m, Panic)
          end
      end
  | _ => (m, Panic)
  end.

(** Reading: one packet through the key store, into a buffer of the given size;
    [None] while the reader waits for the next one. *)
Definition mobile_read (ks : keyStore) (size : Z) (packet : option (bytes * bytes)) : keyStore * option bytes :=
  match packet with
  | None => (ks, Some [])
  | Some (bs, from) =>
      let '(ks, _, delivered) := readPC_step ks bs from in
      (ks, take (Z.to_nat size) <$> delivered)
  end.

Definition set_iprwc (ks : keyStore) (m : UQDA) : UQDA := UQDA_ (uq_core m) (Some ks) (uq_multicast m) (uq_tun m).

(** A call with the core, which must be there. *)
Definition with_core {A} (m : UQDA) (f : core_state → A) : res () A :=
  match uq_core m with Some c => Ok (f c) | None => Panic end.

Definition StartAutoconfigure (m : UQDA) : UQDA * res () mobile_reply := StartJSON m [123; 125].

Definition mobile_Send (m : UQDA) (p : bytes) : UQDA * res () mobile_reply :=
  match uq_iprwc m with
  | None => (m, Ok RDone)
  | Some ks => let '(ks, out, _) := writePC ks p in (set_iprwc ks m, Ok (RSent out))
  end.

Definition mobile_Recv (m : UQDA) (packet : option (bytes * bytes)) : UQDA * res () mobile_reply :=
  match uq_iprwc m with
  | None => (m, Ok (RPacket []))
  | Some ks =>
      let '(ks, p) := mobile_read ks 65535 packet in
      (set_iprwc ks m, Ok (match p with Some p => RPacket p | None => RDone end))
  end.

Definition mobile_RecvBuffer (m : UQDA) (buf : bytes) (packet : option (bytes * bytes)) : UQDA * res () mobile_reply :=
  match uq_iprwc m with
  | None => (m, Ok (RLength 0))
  | Some ks =>
      let '(ks, p) := mobile_read ks (len buf) packet in
      (set_iprwc ks m, Ok (match p with Some p => RLength (len p) | None => RDone end))
  end.

Definition mobile_RetryPeersNow (m : UQDA) : res () mobile_reply := with_core m (λ c, RKicked (RetryPeersNow c)).
Definition mobile_GetMTU (m : UQDA) : res () mobile_reply := with_core m (λ _, RNumber (Core_MTU (me_pcMTU env))).
Definition mobile_GetRoutingEntries (m : UQDA) (self : SelfInfo) : res () mobile_reply :=
  with_core m (λ _, RNumber (si_RoutingEntries self)).

(** The adapter is kept also when its start failed. *)
Definition TakeOverTUN (m : UQDA) : UQDA * res () mobile_reply :=
  match uq_iprwc m with
  | None => (m, Panic)
  | Some ks => (UQDA_ (uq_core m) (uq_iprwc m) (uq_multicast m) true, Ok (RTun (rwc_MTU ks)))
  end.

(** The listings as JSON; an error of the encoder gives an empty object. *)
Definition mobile_GetPathsJSON (marshal : list PathEntryInfo → option string) (ps : list DebugPathInfo) : string :=
  default "{}" (marshal (Core_GetPaths ps)).
Definition mobile_GetTreeJSON (marshal : list TreeEntryInfo → option string) (ts : list DebugTreeInfo) : string :=
  default "{}" (marshal (Core_GetTree ts)).

Definition mobile_do (c : mobile_call) (m : UQDA) : UQDA * res () mobile_reply :=
  match c with
  | MStartAutoconfigure => StartAutoconfigure m
  | MStartJSON j => StartJSON m j
  | MSend p => mobile_Send m p
  | MSendBuffer p length =>
      match mobile_SendBuffer (bool_decide (is_Some (uq_iprwc m))) p length with
      | None => (m, Ok RDone)
      | Some p => mobile_Send m p
      end
  | MRecv packet => mobile_Recv m packet
  | MRecvBuffer buf packet => mobile_RecvBuffer m buf packet
  | MRetryPeersNow => (m, mobile_RetryPeersNow m)
  | MGetMTU => (m, mobile_GetMTU m)
  | MGetRoutingEntries self => (m, mobile_GetRoutingEntries m self)
  | MTakeOverTUN => TakeOverTUN m
  | MStop ok =>
      let '(parts, r) := mobile_Stop (bool_decide (is_Some (uq_multicast m))) (uq_tun m) ok in
      if r then (m, with_core m (λ _, RStopped parts true)) else (m, Ok (RStopped parts false))
  end.

(** ** Properties *)

(** The parts that the calls need. *)
Definition started (m : UQDA) : Prop := is_Some (uq_core m) ∧ is_Some (uq_iprwc m).

Definition is_start (c : mobile_call) : bool :=
  match c with MStartAutoconfigure | MStartJSON _ => true | _ => false end.

(** A start that succeeds makes the parts; the MTU of the key store is the
    configured one within the limits. *)
Lemma StartJSON_started m j m' :
  StartJSON m j = (m', Ok RDone) →
  started m' ∧ ∃ ks, uq_iprwc m' = Some ks ∧ 1280 <= ks_mtu ks.
Proof.
  unfold StartJSON. destruct (GenerateConfig _ _) as [cfg| |]; [|done..].
  destruct (UnmarshalHJSON _ _ _) as [cfg'| |]; [|done..].
  destruct (mobile_start _ _ _ _ _) as [[core evs]| |]; [|done..].
  destruct (mobile_multicast _ _) as [mc| |]; [|done..]. destruct (ks_init _) as [ks|]; [|done].
  intros [= <-]. split; [split; by eexists|]. eexists. split; [reflexivity|].
  unfold rwc_setMTU, SetMTU. cbn [ks_mtu]. repeat case_match; bool_to_prop; lia.
Qed.

(** Whatever a start does, it does not take away what an earlier one made. *)
Lemma StartJSON_keeps m j m' r : StartJSON m j = (m', r) → started m → started m'.
Proof.
  intros Hs [Hc Hk]. unfold StartJSON in Hs.
  destruct (GenerateConfig _ _) as [cfg| |]; [|by injection Hs as <- _..].
  destruct (UnmarshalHJSON _ _ _) as [cfg'| |]; [|by injection Hs as <- _..].
  destruct (mobile_start _ _ _ _ _) as [[core evs]| |]; [|by injection Hs as <- _..].
  destruct (mobile_multicast _ _) as [mc| |]; [destruct (ks_init _) as [ks|]|..]; injection Hs as <- _;
    (split; [by eexists|]); try done; by eexists.
Qed.

(** A started instance stays started, and its other calls do not panic. *)
Lemma mobile_do_started c m m' r :
  mobile_do c m = (m', r) → started m → started m' ∧ (is_start c = false → r ≠ Panic).
Proof.
  intros Hd Hst. destruct Hst as [[core Hc] [ks Hk]].
  assert (∀ k, started (set_iprwc k m)) as Hset by (intros k; split; [by exists core|by eexists]).
  assert (started m) as Hm by (split; by eexists).
  assert (∀ p, mobile_Send m p = (m', r) → started m' ∧ (is_start c = false → r ≠ Panic)) as Hsend.
  { intros p. unfold mobile_Send. rewrite Hk. destruct (writePC ks p) as [[k o] w]. by intros [= <- <-]. }
  destruct c as [|j|p|p l|packet|buf packet| | |n| |ok]; cbn [mobile_do] in Hd;
    unfold with_core, StartAutoconfigure, mobile_Recv, mobile_RecvBuffer, mobile_RetryPeersNow, mobile_GetMTU,
      mobile_GetRoutingEntries, TakeOverTUN, with_core in Hd; rewrite ?Hc, ?Hk in Hd.
  - split; [by eapply StartJSON_keeps|done].
  - split; [by eapply StartJSON_keeps|done].
  - by apply (Hsend p).
  - destruct (mobile_SendBuffer _ _ _); [by eapply Hsend|by injection Hd as <- <-].
  - destruct (mobile_read _ _ _) as [k o]. by injection Hd as <- <-.
  - destruct (mobile_read _ _ _) as [k o]. by injection Hd as <- <-.
  - by injection Hd as <- <-.
  - by injection Hd as <- <-.
  - by injection Hd as <- <-.
  - injection Hd as <- <-. split; [split; by eexists|done].
  - destruct (mobile_Stop _ _ _) as [parts [|]]; by injection Hd as <- <-.
Qed.

Fixpoint mobile_run (cs : list mobile_call) (m : UQDA) : UQDA * list (res () mobile_reply) :=
  match cs with
  | [] => (m, [])
  | c :: cs => let '(m, r) := mobile_do c m in let '(m, rs) := mobile_run cs m in (m, r :: rs)
  end.

(** mobile_calls_safe.  Once a start succeeded, no call of the application other
    than another start panics, in any order, also after the instance was stopped;
    before that, sending and receiving do nothing. *)
Theorem mobile_calls_safe m j m' cs m'' rs :
  StartJSON m j = (m', Ok RDone) → Forall (λ c, is_start c = false) cs → mobile_run cs m' = (m'', rs) →
  started m'' ∧ Forall (λ r, r ≠ Panic) rs.
Proof.
  intros Hs Hcs. destruct (StartJSON_started m j m' Hs) as [Hst _]. clear Hs. revert m' m'' rs Hst.
  induction Hcs as [|c cs Hc Hcs IH]; intros m' m'' rs Hst; simpl; [intros [= <- <-]; by split|].
  destruct (mobile_do c m') as [m1 r] eqn:Hd. destruct (mobile_run cs m1) as [m2 rs2] eqn:Hr. intros [= <- <-].
  destruct (mobile_do_started c m' m1 r Hd Hst) as [Hst1 Hp]. destruct (IH m1 m2 rs2 Hst1 Hr) as [Hst2 Hall].
  split; [done|]. constructor; [by apply Hp|done].
Qed.

Lemma mobile_before_start p l packet buf :
  (mobile_do (MSend p) UQDA_zero).2 = Ok RDone ∧ (mobile_do (MSendBuffer p l) UQDA_zero).2 = Ok RDone ∧
  (mobile_do (MRecv packet) UQDA_zero).2 = Ok (RPacket []) ∧ (mobile_do (MRecvBuffer buf packet) UQDA_zero).2 = Ok (RLength 0) ∧
  (mobile_do MGetMTU UQDA_zero).2 = Panic.
Proof. done. Qed.
End Mobile.
