(* ===== verification/Ctl.v ===== *)
(** * Ctl: the command-line client
    (main.go, cmd_line_env.go, style.go and rootcheck_posix.go of cmd/uqdactl)

    Colours, the choice of the endpoint, the request that the arguments make, the
    exchange with the node and the table of every command, with the exit code of
    the process. The socket, JSON, the formatting of numbers and the rendering of
    tables are parameters. *)

From S2P Require Import Prelude Binary Wire Address Crypto Messages Handshake Links GoLib Listings Admin Multicast Config Tun.
From Stdlib Require Import Ascii SpecFloat.

Open Scope string_scope.
Open Scope list_scope.
Open Scope Z_scope.

(** ** Colours *)

(** The escape sequences by their parameter; the text of a cell is a list of
    plain strings and escapes. *)
Inductive span := Text (s : string) | Escape (param : string).
Definition cell : Type := list span.

Definition ansiReset : span := Escape "0".
Definition ansiBold : span := Escape "1".
Definition ansiRed : span := Escape "31".
Definition ansiGreen : span := Escape "32".
Definition ansiYellow : span := Escape "33".
Definition ansiCyan : span := Escape "36".
Definition ansiBoldRed : span := Escape "1;31".

(** [shouldUseColor]; [None] is the error. *)
Definition shouldUseColor (mode : string) (jsonOutput tty : bool) (getenv : string → string) : option bool :=
  if jsonOutput then Some false
  else
    let m := ToLower mode in
    if String.eqb m "always" then Some true
    else if String.eqb m "never" then Some false
    else if String.eqb m "auto" || String.eqb m "" then
      Some (tty && String.eqb (getenv "NO_COLOR") "" && negb (String.eqb (getenv "TERM") "dumb"))
    else None.

(** The style is whether colours are enabled. *)
Definition paint (enabled : bool) (code : list span) (value : string) : cell :=
  if negb enabled || String.eqb value "" then [Text value] else code ++ [Text value; ansiReset].

Definition style_header (s : bool) : string → cell := paint s [ansiBold; ansiCyan].
Definition style_good (s : bool) : string → cell := paint s [ansiGreen].
Definition style_warn (s : bool) : string → cell := paint s [ansiYellow].
Definition style_bad (s : bool) : string → cell := paint s [ansiBoldRed].
Definition style_label (s : bool) : string → cell := paint s [ansiCyan].
Definition style_strong (s : bool) : string → cell := paint s [ansiBold].
Definition style_headers (s : bool) (values : list string) : list cell := style_header s <$> values.

Definition is_one_of (s : string) (l : list string) : bool := existsb (String.eqb s) l.

Definition style_status (s : bool) (value : string) : cell :=
  let v := ToLower value in
  if is_one_of v ["pass"; "up"; "healthy"; "yes"; "enabled"] then style_good s value
  else if is_one_of v ["warn"; "warning"; "next"] then style_warn s value
  else if is_one_of v ["fail"; "failure"; "error"; "down"; "no"; "disabled"] then style_bad s value
  else [Text value].

Definition style_latency (s : bool) (value : string) (milliseconds : spec_float) : cell :=
  if SFleb milliseconds (float64_of 20) then style_good s value
  else if SFleb milliseconds (float64_of 70) then style_warn s value
  else style_bad s value.

(** ** The endpoint *)

(** What [setEndpoint] reads: the default configuration file, its decoding
    and the string in its AdminListen entry, if there is one. *)
Record ctl_files := CtlFiles {
  cfi_read : option bytes;
  cfi_utf16 : bytes → option bytes;
  cfi_adminListen : bytes → option (option string);       (* [None]: not HJSON *)
}.

(** [cfg[0:2]] is within the capacity of the buffer of [os.ReadFile], whose
    bytes past the end of the file are zero. *)
Definition ctl_bom (cfg : bytes) : bool :=
  let h := take 2 (cfg ++ [0; 0]) in
  bool_decide (h = [0xFF; 0xFE]) || bool_decide (h = [0xFE; 0xFF]).

(** [endpoint] is the platform default, [server] the value of -endpoint. *)
Definition setEndpoint (files : ctl_files) (endpoint server : string) : res () string :=
  if String.eqb server endpoint then
    match cfi_read files with
    | None => Ok endpoint
    | Some cfg =>
        match (if ctl_bom cfg then cfi_utf16 files cfg else Some cfg) with
        | None => Panic
        | Some cfg =>
            match cfi_adminListen files cfg with
            | None => Panic
            | Some (Some ep) => if negb (String.eqb ep "none") && negb (String.eqb ep "") then Ok ep else Ok endpoint
            | Some None => Ok endpoint
            end
        end
    end
  else Ok server.

(** ** The request *)

(** [strings.SplitN(a, "=", 2)]: [None] when there is one token. *)
Fixpoint split_eq (a : string) : option (string * string) :=
  match a with
  | EmptyString => None
  | String "=" a => Some ("", a)
  | String c a => '(k, v) ← split_eq a; Some (String c k, v)
  end.

Definition request_name (args : list string) : string :=
  match args with
  | String "-" _ :: _ => ""
  | a :: _ => a
  | [] => ""
  end.

Definition request_arguments (args : list string) : gmap string string :=
  foldl (λ m a, match split_eq a with Some (k, v) => <[k := v]> m | None => m end) ∅ (drop 1 args).

(** ** Tables *)

(** The decoding of the responses of the commands, and the formatting that the
    tables use: [%d], [%.02fms], [%v] of a path, a data size, a
    [time.Duration] and its rounding to seconds, and the text of a summary. *)
Class CtlLib := {
  dec_Doctor : string → option DoctorResponse;
  dec_List : string → option (list ListEntry);
  dec_Self : string → option GetSelfResponse;
  dec_Peers : string → option (list PeerEntry);
  dec_Tree : string → option (list TreeEntry);
  dec_Paths : string → option (list PathEntry);
  dec_Sessions : string → option (list SessionEntry);
  dec_NodeInfo : string → option (list (string * string));
  dec_Multicast : string → option (list MulticastInterfaceState);
  dec_Tun : string → option GetTUNResponse;
  MarshalIndent : string → option string;
  fmt_d : Z → string;
  fmt_ms : spec_float → string;
  fmt_path : list Z → string;
  fmt_data : data_text → string;
  fmt_duration : Z → string;
  round_second : Z → Z;
  fmt_summary : list fmt_piece → string;
  clean_uri : string → option string;       (* the URI without its query *)
}.

Inductive output :=
| Line (cells : list cell)
| ErrLine (s : string)
| Table (borders : bool) (header : list cell) (rows : list (list cell)).

(** The end of a command: its output and exit code, or a panic. *)
Definition ending : Type := list output * res () Z.

Section Tables.
Context `{CtlLib} (style borders : bool).

Definition plain (s : string) : cell := [Text s].
Definition join_commas (l : list string) : string := String.concat ", " l.

Definition doctor_rows (resp : DoctorResponse) : list (list cell) :=
  ((λ c, [style_status style (ToUpper (dc_Status c)); style_label style (dc_Name c); plain (fmt_summary (dc_Summary c))])
    <$> dr_Checks resp) ++
  ((λ r, [style_status style "NEXT"; style_label style "recommendation"; plain r]) <$> dr_Recommendations resp).

Definition doctor_table (resp : DoctorResponse) : list output :=
  [Table borders (style_headers style ["Status"; "Check"; "Result"]) (doctor_rows resp);
   Line [style_strong style "Overall status:"; style_status style (ToUpper (dr_Status resp))]].

Definition list_table (l : list ListEntry) : output :=
  Table borders (style_headers style ["Command"; "Arguments"; "Description"])
    ((λ e, [style_label style (le_Command e); plain (join_commas ((λ f, f +:+ "=...") <$> le_Fields e));
            plain (le_Description e)]) <$> l).

Definition self_table (r : GetSelfResponse) : output :=
  Table borders []
    [[style_label style "Build name:"; plain (gs_BuildName r)];
     [style_label style "Build version:"; style_good style (gs_BuildVersion r)];
     [style_label style "IPv6 address:"; plain (gs_IPAddress r)];
     [style_label style "IPv6 subnet:"; plain (gs_Subnet r)];
     [style_label style "Routing table size:"; plain (fmt_d (gs_RoutingEntries r))];
     [style_label style "Public key:"; plain (gs_PublicKey r)]].

(** [float64(Latency.Microseconds()) / 1000]. *)
Definition rtt_ms (latency : Z) : spec_float := fdiv (float64_of (Z.quot latency 1000)) (float64_of 1000).

Definition peer_rtt (p : PeerEntry) : cell :=
  if pe_Up p && SFltb (float64_of 0) (rtt_ms (pe_Latency p))
  then style_latency style (fmt_ms (rtt_ms (pe_Latency p))) (rtt_ms (pe_Latency p))
  else plain "-".

Definition peer_lasterr (p : PeerEntry) : string :=
  if negb (pe_Up p) && negb (String.eqb (pe_LastError p) "")
  then fmt_duration (round_second (pe_LastErrorTime p)) +:+ " ago: " +:+ pe_LastError p
  else "-".

Definition peer_rate (rate : Z) : string := if rate >? 0 then fmt_data (DataUnit_String rate) +:+ "/s" else "-".

(** [(time.Duration(uptime) * time.Second).String()]. *)
Definition uptime_text (uptime : spec_float) : string := fmt_duration (int64 (int_of_float uptime * Second)).

Definition peer_row (p : PeerEntry) : list cell :=
  let lasterr := peer_lasterr p in
  [plain (default (pe_URI p) (clean_uri (pe_URI p)));
   style_status style (if pe_Up p then "Up" else "Down");
   plain (if pe_Inbound p then "In" else "Out");
   plain (pe_IPAddress p);
   plain (uptime_text (pe_Uptime p));
   peer_rtt p;
   plain (fmt_data (DataUnit_String (pe_RXBytes p)));
   plain (fmt_data (DataUnit_String (pe_TXBytes p)));
   plain (peer_rate (pe_RXRate p));
   plain (peer_rate (pe_TXRate p));
   plain (fmt_d (pe_Priority p));
   plain (fmt_d (pe_Cost p));
   if String.eqb lasterr "-" then plain lasterr else style_bad style lasterr].

Definition peers_table (ps : list PeerEntry) : output :=
  Table borders (style_headers style ["URI"; "State"; "Dir"; "IP Address"; "Uptime"; "RTT"; "RX"; "TX"; "Down"; "Up";
    "Pr"; "Cost"; "Last Error"]) (peer_row <$> ps).

Definition tree_table (l : list TreeEntry) : output :=
  Table borders (style_headers style ["Public Key"; "IP Address"; "Parent"; "Sequence"])
    ((λ t, [plain (te_PublicKey t); plain (te_IPAddress t); plain (te_Parent t); plain (fmt_d (te_Sequence t))]) <$> l).

Definition paths_table (l : list PathEntry) : output :=
  Table borders (style_headers style ["Public Key"; "IP Address"; "Path"; "Seq"])
    ((λ p, [plain (pae_PublicKey p); plain (pae_IPAddress p); plain (fmt_path (pae_Path p)); plain (fmt_d (pae_Sequence p))])
      <$> l).

Definition sessions_table (l : list SessionEntry) : output :=
  Table borders (style_headers style ["Public Key"; "IP Address"; "Uptime"; "RX"; "TX"])
    ((λ s, [plain (see_PublicKey s); plain (see_IPAddress s); plain (uptime_text (see_Uptime s));
            plain (fmt_data (DataUnit_String (see_RXBytes s))); plain (fmt_data (DataUnit_String (see_TXBytes s)))]) <$> l).

Definition fmtBool (b : bool) : cell := if b then style_status style "Yes" else plain "-".

Definition multicast_table (l : list MulticastInterfaceState) : output :=
  Table borders (style_headers style ["Name"; "Listen Address"; "Beacon"; "Listen"; "Password"])
    ((λ p, [plain (mis_Name p); plain (mis_Address p); fmtBool (mis_Beacon p); fmtBool (mis_Listen p);
            fmtBool (mis_Password p)]) <$> l).

Definition tun_table (r : GetTUNResponse) : output :=
  Table borders []
    ([style_label style "TUN enabled:"; if gt_Enabled r then style_good style "true" else style_warn style "false"] ::
     (if gt_Enabled r
      then [[style_label style "Interface name:"; plain (gt_Name r)];
            [style_label style "Interface MTU:"; plain (fmt_d (gt_MTU r))]]
      else [])).

(** A response that does not decode is a panic. *)
Definition show {A} (r : option A) (f : A → list output) : ending :=
  match r with Some a => (f a, Ok 0) | None => ([], Panic) end.

(** The switch on the lower-case name of the command. *)
Definition show_response (name response : string) : ending :=
  let n := ToLower name in
  if String.eqb n "doctor" then
    match dec_Doctor response with
    | Some resp => (doctor_table resp, Ok (doctorExitCode resp))
    | None => ([], Panic)
    end
  else if String.eqb n "list" then show (dec_List response) (λ l, [list_table l])
  else if String.eqb n "getself" then show (dec_Self response) (λ r, [self_table r])
  else if String.eqb n "getpeers" then show (dec_Peers response) (λ l, [peers_table l])
  else if String.eqb n "gettree" then show (dec_Tree response) (λ l, [tree_table l])
  else if String.eqb n "getpaths" then show (dec_Paths response) (λ l, [paths_table l])
  else if String.eqb n "getsessions" then show (dec_Sessions response) (λ l, [sessions_table l])
  else if String.eqb n "getnodeinfo" then
    show (dec_NodeInfo response) (λ l, match l with (_, v) :: _ => [Line [plain v]] | [] => [] end)
  else if String.eqb n "getmulticastinterfaces" then show (dec_Multicast response) (λ l, [multicast_table l])
  else if String.eqb n "gettun" then show (dec_Tun response) (λ r, [tun_table r])
  else if String.eqb n "addpeer" || String.eqb n "removepeer" then ([], Ok 0)
  else ([Line [plain response]], Ok 0).
End Tables.

(** ** The command *)

(** What a run depends on: the arguments and flags, the platform's default
    endpoint, terminal and environment, the effective user, the configuration
    file, [url.Parse] (scheme and host), whether a socket can be dialled, whether
    the second pledge succeeds, and the exchange with the node (status, error and
    response of the reply; [None] when sending or receiving fails). *)
Record ctl_env := CtlEnv {
  ce_args : list string;
  ce_server : string;
  ce_endpoint : string;
  ce_color : string;
  ce_injson : bool;
  ce_borders : bool;
  ce_ver : bool;
  ce_tty : bool;
  ce_getenv : string → string;
  ce_euid : Z;
  ce_files : ctl_files;
  ce_parse : string → option (string * string);
  ce_dial : string → string → bool;
  ce_pledge : bool;
  ce_exchange : string → gmap string string → option (string * string * string);
}.

Definition requireAdministrator (euid : Z) : bool := euid =? 0.

Fixpoint drop_chars (n : nat) (s : string) : option string :=
  match n, s with
  | O, _ => Some s
  | S n, String _ s => drop_chars n s
  | S _, EmptyString => None
  end.

(** The connection: whether it was made. When the endpoint does not parse, the
    log line before the dialling dereferences the nil URL. *)
Definition connect (e : ctl_env) (endpoint : string) : res () bool :=
  match ce_parse e endpoint with
  | Some (scheme, host) =>
      let s := ToLower scheme in
      if String.eqb s "unix" then
        match drop_chars 7 endpoint with
        | Some path => Ok (ce_dial e "unix" path)
        | None => Panic
        end
      else if String.eqb s "tcp" then Ok (ce_dial e "tcp" host)
      else Ok false
  | None => Panic
  end.

Section Run.
Context `{CtlLib}.

(** The part of [run] after the request was made. *)
Definition handle_reply (e : ctl_env) (style : bool) (name status error response : string) : ending :=
  if String.eqb status "error" then
    ([Line [plain (if String.eqb error ""
                   then "Admin socket returned an error but didn't specify any error text"
                   else "Admin socket returned an error: " +:+ error)]], Ok 1)
  else if ce_injson e then
    let out := match MarshalIndent response with Some s => [Line [plain s]] | None => [] end in
    if String.eqb (ToLower name) "doctor" then
      match dec_Doctor response with
      | Some resp => (out, Ok (doctorExitCode resp))
      | None => (out, Panic)
      end
    else (out, Ok 0)
  else show_response style (ce_borders e) name response.

Definition ctl_run (e : ctl_env) : ending :=
  match shouldUseColor (ce_color e) (ce_injson e) (ce_tty e) (ce_getenv e) with
  | None => ([ErrLine "invalid -color value"], Ok 1)
  | Some style =>
      if ce_ver e then ([Line [plain "Build name:"]; Line [plain "Build version:"];
                          Line [plain "To get the version number of the running UQDA node, run"; plain "getSelf"]], Ok 0)
      else if bool_decide (ce_args e = []) then ([ErrLine "usage"], Ok 0)
      else if negb (requireAdministrator (ce_euid e)) then ([ErrLine "administrative access requires root privileges"], Ok 1)
      else
        match setEndpoint (ce_files e) (ce_endpoint e) (ce_server e) with
        | Ok endpoint =>
            match connect e endpoint with
            | Ok true =>
                if negb (ce_pledge e) then ([], Panic)
                else
                  let name := request_name (ce_args e) in
                  match ce_exchange e name (request_arguments (ce_args e)) with
                  | Some (status, error, response) => handle_reply e style name status error response
                  | None => ([], Panic)
                  end
            | Ok false => ([ErrLine "could not connect to the administration endpoint"], Ok 1)
            | _ => ([], Panic)
            end
        | _ => ([], Panic)
        end
  end.

(** The deferred function of [run] recovers from a panic and prints the log, but
    its own result is dropped, and [run] returns the zero value. *)
Definition exit_code (r : ending) : Z := match snd r with Ok n => n | _ => 0 end.
End Run.

(** ** Properties *)

(** A string without the separator. *)
Definition no_eq (s : string) : Prop := "="%char ∉ String.list_ascii_of_string s.

Lemma split_eq_spec a k v : split_eq a = Some (k, v) ↔ a = k +:+ "=" +:+ v ∧ no_eq k.
Proof.
  unfold no_eq. revert k. induction a as [|c a IH]; intros k; cbn [split_eq].
  { split; [done|]. intros [Heq _]. by destruct k. }
  destruct (decide (c = "="%char)) as [->|Hc].
  - split; [intros [= <- <-]; split; [done|set_solver]|]. intros [Heq Hn]. destruct k as [|c k]; [by injection Heq as ->|].
    injection Heq as <- _. cbn in Hn. set_solver.
  - assert (Hs : split_eq (String c a) = ('(k, v) ← split_eq a; Some (String c k, v))).
    { cbn [split_eq]. destruct c as [[] [] [] [] [] [] [] []]; done. }
    cbn [split_eq] in Hs. rewrite Hs. clear Hs. split.
    + destruct (split_eq a) as [[k' v']|] eqn:E; [|done]. cbn. intros [= <- <-].
      destruct (proj1 (IH k') eq_refl) as [-> Hn]. split; [done|]. cbn. rewrite not_elem_of_cons. by split.
    + intros [Heq Hn]. destruct k as [|c' k]; [by injection Heq as -> _|]. injection Heq as -> Heq.
      cbn in Hn. apply not_elem_of_cons in Hn as [_ Hn]. rewrite (proj2 (IH k) (conj Heq Hn)). done.
Qed.

(** Which argument decides a key: the last that sets it. *)
Definition sets (k v a : string) : Prop := split_eq a = Some (k, v).

Lemma arguments_snoc l a :
  foldl (λ m a, match split_eq a with Some (k, v) => <[k := v]> m | None => m end) (∅ : gmap string string) (l ++ [a]) =
  match split_eq a with
  | Some (k, v) => <[k := v]> (foldl (λ m a, match split_eq a with Some (k, v) => <[k := v]> m | None => m end) ∅ l)
  | None => foldl (λ m a, match split_eq a with Some (k, v) => <[k := v]> m | None => m end) ∅ l
  end.
Proof. by rewrite foldl_app. Qed.

(** An argument at the end that does not set the key changes nothing. *)
Lemma snoc_case (args : list string) a k v :
  (∀ w, ¬ sets k w a) →
  (∃ pre b post, args = pre ++ b :: post ∧ sets k v b ∧ ∀ b v', b ∈ post → ¬ sets k v' b) ↔
  (∃ pre b post, args ++ [a] = pre ++ b :: post ∧ sets k v b ∧ ∀ b v', b ∈ post → ¬ sets k v' b).
Proof.
  intros Ha. split.
  - intros (pre & b & post & -> & Hb & Hpost). exists pre, b, (post ++ [a]). split_and!; [by rewrite <- app_assoc|done|].
    intros c v' [Hc|Hc]%elem_of_app; [by apply Hpost|]. apply list_elem_of_singleton in Hc as ->. apply Ha.
  - intros (pre & b & post & Heq & Hb & Hpost). destruct post as [|c post _] using rev_ind.
    { apply app_inj_tail in Heq as [_ <-]. by destruct (Ha v). }
    rewrite app_comm_cons, app_assoc in Heq. apply app_inj_tail in Heq as [-> <-].
    exists pre, b, post. split_and!; [done|done|]. intros d v' Hd. apply Hpost. set_solver.
Qed.

(** ctl_request_arguments.  The request of uqdactl carries exactly the
    key=value arguments after the command, split at the first equals sign (so
    that values may contain more of them), where the last one given for a key
    wins; arguments without an equals sign are left out. *)
Theorem ctl_request_arguments name args k v :
  request_arguments (name :: args) !! k = Some v ↔
  no_eq k ∧ ∃ pre post, args = pre ++ (k +:+ "=" +:+ v) :: post ∧ ∀ b v', b ∈ post → b ≠ k +:+ "=" +:+ v'.
Proof.
  unfold request_arguments. change (drop 1 (name :: args)) with args.
  transitivity (∃ pre a post, args = pre ++ a :: post ∧ sets k v a ∧ ∀ b v', b ∈ post → ¬ sets k v' b).
  - induction args as [|a args IH] using rev_ind.
    { split; [cbn; by rewrite lookup_empty|]. intros (pre & a & post & Heq & _). by destruct pre. }
    rewrite arguments_snoc. destruct (split_eq a) as [[k' v']|] eqn:Ea; [destruct (decide (k' = k)) as [->|Hk]|].
    + rewrite lookup_insert_eq. split.
      * intros [= ->]. exists args, a, []. split_and!; [done|done|set_solver].
      * intros (pre & b & post & Heq & Hb & Hpost). destruct post as [|c post _] using rev_ind.
        { apply app_inj_tail in Heq as [_ <-]. unfold sets in Hb. congruence. }
        rewrite app_comm_cons, app_assoc in Heq. apply app_inj_tail in Heq as [_ <-]. exfalso.
        by eapply (Hpost a v'); [set_solver|].
    + rewrite lookup_insert_ne by done. rewrite IH. apply snoc_case. intros w. unfold sets. rewrite Ea. congruence.
    + rewrite IH. apply snoc_case. intros w. unfold sets. rewrite Ea. congruence.
  - split.
    + intros (pre & a & post & -> & [-> Hk]%split_eq_spec & Hpost). split; [done|]. exists pre, post. split; [done|].
      intros b v' Hb ->. eapply Hpost; [exact Hb|]. by apply split_eq_spec.
    + intros (Hk & pre & post & -> & Hpost). exists pre, (k +:+ "=" +:+ v), post. split_and!; [done|by apply split_eq_spec|].
      intros b v' Hb [-> _]%split_eq_spec. by eapply Hpost.
Qed.

(** Lemmas on cells and rows of a table. *)
Create HintDb ctl.

Section RunLaws.
Context `{CtlLib}.

(** A table is rectangular: every row has a cell for every column, and two cells
    when there is no header. *)
Definition rectangular (o : output) : Prop :=
  match o with
  | Table _ header rows => Forall (λ r : list cell, length r = if header is [] then 2%nat else length header) rows
  | _ => True
  end.

Lemma show_rectangular style borders name response :
  Forall rectangular (fst (show_response style borders name response)).
Proof.
  unfold show_response, show.
  repeat (case_match; cbn [fst]; repeat constructor); unfold rectangular;
    try (apply Forall_fmap, Forall_true; intros; reflexivity).
  unfold doctor_rows. rewrite Forall_app, !Forall_fmap. split; apply Forall_true; intros; reflexivity.
Qed.

(** A run that gets as far as the reply of the node. *)
Definition connected (e : ctl_env) (endpoint : string) : Prop :=
  is_Some (shouldUseColor (ce_color e) (ce_injson e) (ce_tty e) (ce_getenv e)) ∧ ce_ver e = false ∧ ce_args e ≠ [] ∧
  ce_euid e = 0 ∧ setEndpoint (ce_files e) (ce_endpoint e) (ce_server e) = Ok endpoint.

Lemma run_connected e endpoint :
  connected e endpoint → ∃ style, shouldUseColor (ce_color e) (ce_injson e) (ce_tty e) (ce_getenv e) = Some style ∧
  ctl_run e =
    match connect e endpoint with
    | Ok true =>
        if negb (ce_pledge e) then ([], Panic)
        else
          match ce_exchange e (request_name (ce_args e)) (request_arguments (ce_args e)) with
          | Some (status, error, response) => handle_reply e style (request_name (ce_args e)) status error response
          | None => ([], Panic)
          end
    | Ok false => ([ErrLine "could not connect to the administration endpoint"], Ok 1)
    | _ => ([], Panic)
    end.
Proof.
  intros ([style Hs] & Hv & Ha & Hu & He). exists style. split; [done|]. unfold ctl_run.
  rewrite Hs, Hv, (bool_decide_eq_false_2 _ Ha), Hu, He. done.
Qed.

(** Whether the reply to a command can be shown: all but a few commands decode
    it, with -json only the doctor. *)
Definition decodes (injson : bool) (name response : string) : bool :=
  let n := ToLower name in
  let ok {A} (r : option A) := match r with Some _ => true | None => false end in
  if String.eqb n "doctor" then ok (dec_Doctor response)
  else if injson then true
  else if String.eqb n "list" then ok (dec_List response)
  else if String.eqb n "getself" then ok (dec_Self response)
  else if String.eqb n "getpeers" then ok (dec_Peers response)
  else if String.eqb n "gettree" then ok (dec_Tree response)
  else if String.eqb n "getpaths" then ok (dec_Paths response)
  else if String.eqb n "getsessions" then ok (dec_Sessions response)
  else if String.eqb n "getnodeinfo" then ok (dec_NodeInfo response)
  else if String.eqb n "getmulticastinterfaces" then ok (dec_Multicast response)
  else if String.eqb n "gettun" then ok (dec_Tun response)
  else true.

Lemma handle_reply_status e style name status error response :
  status ≠ "error" →
  snd (handle_reply e style name status error response) =
    if decodes (ce_injson e) name response
    then Ok (if String.eqb (ToLower name) "doctor" then
               match dec_Doctor response with Some resp => doctorExitCode resp | None => 0 end
             else 0)
    else Panic.
Proof.
  intros Hs%String.eqb_neq. unfold handle_reply, decodes. rewrite Hs.
  destruct (ce_injson e); [destruct (String.eqb _ "doctor"), (dec_Doctor response); done|].
  unfold show_response, show. repeat (case_match; try done).
Qed.

(** C38: ctl_exit_status.  uqdactl returns 1 for an invalid -color value and
    when it is not run as root, and 0 for -version and when no command is given.
    Otherwise, with an endpoint that parses, it returns 1 when it cannot connect
    or the node reports an error; when the node answers and the answer decodes,
    it returns the verdict of the diagnosis for the doctor command (the same with
    -json) and 0 for every other command; an answer that does not decode is a
    panic. What it returns is the exit status of the process. *)
Theorem ctl_exit_status e :
  let result := snd (ctl_run e) in
  let colour := shouldUseColor (ce_color e) (ce_injson e) (ce_tty e) (ce_getenv e) in
  (∀ n, result = Ok n → exit_code (ctl_run e) = n) ∧
  (colour = None → result = Ok 1) ∧
  (is_Some colour → ce_ver e = true ∨ ce_args e = [] → result = Ok 0) ∧
  (is_Some colour → ce_ver e = false → ce_args e ≠ [] → ce_euid e ≠ 0 → result = Ok 1) ∧
  ∀ endpoint, connected e endpoint →
    (connect e endpoint = Ok false → result = Ok 1) ∧
    ∀ status error response,
      connect e endpoint = Ok true → ce_pledge e = true →
      ce_exchange e (request_name (ce_args e)) (request_arguments (ce_args e)) = Some (status, error, response) →
      (status = "error" → result = Ok 1) ∧
      (status ≠ "error" →
         (∀ resp, ToLower (request_name (ce_args e)) = "doctor" → dec_Doctor response = Some resp →
            result = Ok (doctorExitCode resp)) ∧
         (ToLower (request_name (ce_args e)) ≠ "doctor" →
            decodes (ce_injson e) (request_name (ce_args e)) response = true → result = Ok 0) ∧
         (decodes (ce_injson e) (request_name (ce_args e)) response = false → result = Panic)).
Proof.
  intros result colour. subst result. split_and!.
  - intros n Hn. unfold exit_code. by rewrite Hn.
  - intros Hc. unfold ctl_run. fold colour. by rewrite Hc.
  - intros [st Hc] Hv. unfold ctl_run. fold colour. rewrite Hc. destruct (ce_ver e) eqn:Ev; [done|].
    destruct Hv as [?| ->]; [done|]. done.
  - intros [st Hc] Hv Ha Hu. unfold ctl_run. fold colour. rewrite Hc, Hv, bool_decide_eq_false_2 by done.
    unfold requireAdministrator. by rewrite (proj2 (Z.eqb_neq _ _) Hu).
  - intros endpoint (style & _ & ->)%run_connected. split; [by intros ->|].
    intros status error response -> -> ->. cbn [negb]. split.
    + intros ->. done.
    + intros Hs. pose proof (handle_reply_status e style (request_name (ce_args e)) status error response Hs) as ->.
      split_and!.
      * intros resp Hd Hr. unfold decodes. by rewrite Hd, Hr.
      * intros Hd%String.eqb_neq ->. by rewrite Hd.
      * by intros ->.
Qed.

(** A run that panics exits with 0: an endpoint that is not a URL, a connection
    that breaks before the reply, and a reply that does not decode are not
    reported to the caller of the process, although [main] exists to return an
    error code. *)
Theorem ctl_panic_exits_zero e endpoint :
  connected e endpoint →
  ce_parse e endpoint = None ∨
  (connect e endpoint = Ok true ∧
   match ce_exchange e (request_name (ce_args e)) (request_arguments (ce_args e)) with
   | None => True
   | Some (status, _, response) => status ≠ "error" ∧ decodes (ce_injson e) (request_name (ce_args e)) response = false
   end) →
  snd (ctl_run e) = Panic ∧ exit_code (ctl_run e) = 0.
Proof.
  intros (style & _ & ->)%run_connected Hc.
  match goal with |- snd ?r = Panic ∧ _ => assert (snd r = Panic) as Hp end; [|unfold exit_code; by rewrite Hp].
  destruct Hc as [Hp|[-> Hx]]; [unfold connect; by rewrite Hp|]. destruct (ce_pledge e); [|done]. cbn [negb].
  destruct (ce_exchange e _ _) as [[[status error] response]|]; [|done]. destruct Hx as [Hs Hd].
  by rewrite handle_reply_status, Hd.
Qed.
End RunLaws.

(** ** Text without escape sequences *)

(** A text without the escape character. *)
Fixpoint no_esc (s : string) : bool :=
  match s with
  | EmptyString => true
  | String c s => negb (Ascii.eqb c "027") && no_esc s
  end.
Definition clean (s : string) : Prop := no_esc s = true.

(** Output without escape sequences: none is added, and no text has one. *)
Definition is_text (sp : span) : Prop := match sp with Text s => clean s | Escape _ => False end.
Definition colourless (o : output) : Prop :=
  match o with
  | Line cells => Forall (Forall is_text) cells
  | ErrLine s => clean s
  | Table _ header rows => Forall (Forall is_text) header ∧ Forall (Forall (Forall is_text)) rows
  end.

(** Replies whose strings have no escape character. *)
Definition pieces_clean (l : list fmt_piece) : Prop := Forall (λ p, match p with Txt s => clean s | _ => True end) l.
Definition doctor_clean (r : DoctorResponse) : Prop :=
  clean (dr_Status r) ∧ Forall clean (dr_Recommendations r) ∧
  Forall (λ c, clean (dc_Status c) ∧ clean (dc_Name c) ∧ pieces_clean (dc_Summary c)) (dr_Checks r).

Record reply_clean `{CtlLib} (response : string) : Prop := {
  rc_raw : clean response;
  rc_doctor : ∀ r, dec_Doctor response = Some r → doctor_clean r;
  rc_list : ∀ l, dec_List response = Some l →
    Forall (λ e, clean (le_Command e) ∧ clean (le_Description e) ∧ Forall clean (le_Fields e)) l;
  rc_self : ∀ r, dec_Self response = Some r →
    clean (gs_BuildName r) ∧ clean (gs_BuildVersion r) ∧ clean (gs_IPAddress r) ∧ clean (gs_Subnet r) ∧ clean (gs_PublicKey r);
  rc_peers : ∀ l, dec_Peers response = Some l →
    Forall (λ p, clean (pe_URI p) ∧ clean (pe_IPAddress p) ∧ clean (pe_LastError p)) l;
  rc_tree : ∀ l, dec_Tree response = Some l →
    Forall (λ t, clean (te_PublicKey t) ∧ clean (te_IPAddress t) ∧ clean (te_Parent t)) l;
  rc_paths : ∀ l, dec_Paths response = Some l → Forall (λ t, clean (pae_PublicKey t) ∧ clean (pae_IPAddress t)) l;
  rc_sessions : ∀ l, dec_Sessions response = Some l → Forall (λ t, clean (see_PublicKey t) ∧ clean (see_IPAddress t)) l;
  rc_nodeinfo : ∀ l, dec_NodeInfo response = Some l → Forall (λ kv, clean (snd kv)) l;
  rc_multicast : ∀ l, dec_Multicast response = Some l → Forall (λ t, clean (mis_Name t) ∧ clean (mis_Address t)) l;
  rc_tun : ∀ r, dec_Tun response = Some r → clean (gt_Name r);
}.

(** What the formatting does: numbers, durations and sizes have no escape
    character, and none is added to texts. *)
Class CtlTextLaws `{CtlLib} := {
  fmt_d_clean z : clean (fmt_d z);
  fmt_ms_clean f : clean (fmt_ms f);
  fmt_path_clean l : clean (fmt_path l);
  fmt_data_clean d : clean (fmt_data d);
  fmt_duration_clean z : clean (fmt_duration z);
  fmt_summary_clean l : pieces_clean l → clean (fmt_summary l);
  clean_uri_clean s t : clean s → clean_uri s = Some t → clean t;
  MarshalIndent_clean s t : clean s → MarshalIndent s = Some t → clean t;
}.

Lemma clean_app s t : clean s → clean t → clean (s +:+ t).
Proof.
  unfold clean. induction s as [|c s IH]; [done|]. cbn. intros [Hc Hs]%andb_true_iff Ht.
  apply andb_true_iff. split; [done|]. by apply IH.
Qed.

Lemma clean_ToUpper s : clean s → clean (ToUpper s).
Proof.
  unfold clean. induction s as [|c s IH]; [done|]. cbn. intros [Hc Hs]%andb_true_iff.
  apply andb_true_iff. split; [|by apply IH]. clear -Hc. revert Hc.
  by destruct c as [[] [] [] [] [] [] [] []]; vm_compute.
Qed.

Lemma clean_concat sep l : clean sep → Forall clean l → clean (String.concat sep l).
Proof.
  intros Hsep Hl. induction Hl as [|x l Hx Hl IH]; [done|]. cbn. destruct l as [|y l]; [done|].
  apply clean_app; [done|]. by apply clean_app.
Qed.

Section OutputLaws.
Context `{CtlTextLaws}.

Lemma text_cell v : clean v → Forall is_text [Text v].
Proof. by repeat constructor. Qed.
Lemma paint_cell code v : clean v → Forall is_text (paint false code v).
Proof. by repeat constructor. Qed.
Lemma status_cell v : clean v → Forall is_text (style_status false v).
Proof. intros Hv. unfold style_status, style_good, style_warn, style_bad. repeat case_match; by apply text_cell. Qed.
Lemma rtt_cell p : Forall is_text (peer_rtt false p).
Proof.
  unfold peer_rtt, style_latency, style_good, style_warn, style_bad, plain.
  repeat case_match; apply text_cell; first [apply fmt_ms_clean|done].
Qed.
Lemma fmtBool_cell b : Forall is_text (fmtBool false b).
Proof. unfold fmtBool. destruct b; [by apply status_cell|by apply text_cell]. Qed.
Lemma headers_off values : Forall clean values → Forall (Forall is_text) (style_headers false values).
Proof. intros Hv. unfold style_headers, style_header. apply Forall_fmap. by eapply Forall_impl; [exact Hv|]; intros v; apply text_cell. Qed.

#[local] Hint Resolve text_cell paint_cell status_cell rtt_cell fmtBool_cell fmt_d_clean fmt_ms_clean fmt_path_clean
  fmt_data_clean fmt_duration_clean fmt_summary_clean clean_app clean_ToUpper Forall_cons_2 Forall_nil_2 : ctl.
#[local] Hint Extern 1 (clean (String _ _)) => reflexivity : ctl.
#[local] Hint Extern 1 (clean EmptyString) => reflexivity : ctl.

(** The rows of a listing. *)
Lemma rows_off {A} (P : A → Prop) (f : A → list cell) l :
  Forall P l → (∀ x, P x → Forall (Forall is_text) (f x)) → Forall (Forall (Forall is_text)) (f <$> l).
Proof. intros Hl Hf. apply Forall_fmap. eapply Forall_impl; [exact Hl|]. exact Hf. Qed.

Lemma peer_row_off p :
  clean (pe_URI p) ∧ clean (pe_IPAddress p) ∧ clean (pe_LastError p) → Forall (Forall is_text) (peer_row false p).
Proof.
  intros (Hu & Hi & He).
  assert (clean (default (pe_URI p) (clean_uri (pe_URI p)))) as Huri.
  { destruct (clean_uri (pe_URI p)) as [t|] eqn:E; [exact (clean_uri_clean _ _ Hu E)|done]. }
  assert (clean (peer_lasterr p)) as Herr by (unfold peer_lasterr; case_match; auto 6 with ctl).
  assert (∀ r, clean (peer_rate r)) as Hrate by (intros r; unfold peer_rate; case_match; auto with ctl).
  unfold peer_row, plain, style_bad, uptime_text.
  repeat (apply Forall_cons_2; [try (case_match; auto with ctl); auto with ctl|]). by auto with ctl.
Qed.

Lemma doctor_off resp borders : doctor_clean resp → Forall colourless (doctor_table false borders resp).
Proof.
  intros (Hs & Hr & Hc). unfold doctor_table, doctor_rows. apply Forall_cons_2; [|apply Forall_singleton].
  - split; [apply headers_off; by repeat constructor|]. apply Forall_app. split.
    + eapply rows_off; [exact Hc|]. intros c (H1 & H2 & H3). unfold style_label, plain. auto 10 with ctl.
    + eapply rows_off; [exact Hr|]. intros r H1. unfold style_label, plain. auto 10 with ctl.
  - cbn [colourless]. unfold style_strong. auto 10 with ctl.
Qed.

Lemma show_off {A} (P : A → Prop) r (f : A → list output) :
  (∀ a, r = Some a → P a) → (∀ a, P a → Forall colourless (f a)) → Forall colourless (fst (show r f)).
Proof. intros Hr Hf. unfold show. destruct r as [a|]; [|done]. by apply Hf, Hr. Qed.

(** One table with the given header. *)
Lemma table_off borders headers rows :
  Forall clean headers → Forall (Forall (Forall is_text)) rows →
  Forall colourless [Table borders (style_headers false headers) rows].
Proof. intros Hh Hr. apply Forall_singleton. split; [by apply headers_off|done]. Qed.

Lemma self_off r borders :
  clean (gs_BuildName r) ∧ clean (gs_BuildVersion r) ∧ clean (gs_IPAddress r) ∧ clean (gs_Subnet r) ∧ clean (gs_PublicKey r) →
  Forall colourless [self_table false borders r].
Proof.
  intros (H1 & H2 & H3 & H4 & H5). apply Forall_singleton. split; [done|]. unfold self_table, style_label, style_good, plain.
  auto 20 with ctl.
Qed.

Lemma tun_off r borders : clean (gt_Name r) → Forall colourless [tun_table false borders r].
Proof.
  intros Hn. apply Forall_singleton. split; [done|]. unfold style_label, style_good, style_warn, plain.
  destruct (gt_Enabled r); auto 20 with ctl.
Qed.

Lemma show_colourless borders name response :
  reply_clean response → Forall colourless (fst (show_response false borders name response)).
Proof.
  intros []. unfold show_response.
  repeat (match goal with |- context [if ?b then _ else _] => destruct b end); cbn [fst];
    try (by repeat constructor).
  - destruct (dec_Doctor response) as [r|] eqn:E; [|done]. by apply doctor_off, rc_doctor0.
  - eapply show_off; [exact rc_list0|]. intros l Hl. apply table_off; [by repeat constructor|].
    eapply rows_off; [exact Hl|]. intros x (H1 & H2 & H3).
    assert (clean (join_commas ((λ f, f +:+ "=...") <$> le_Fields x))) as Hj.
    { apply clean_concat; [done|]. apply Forall_fmap. eapply Forall_impl; [exact H3|]. intros v Hv. by apply clean_app. }
    unfold style_label, plain. auto 10 with ctl.
  - eapply show_off; [exact rc_self0|]. intros r. apply self_off.
  - eapply show_off; [exact rc_peers0|]. intros l Hl. apply table_off; [by repeat constructor|].
    eapply rows_off; [exact Hl|]. exact peer_row_off.
  - eapply show_off; [exact rc_tree0|]. intros l Hl. apply table_off; [by repeat constructor|].
    eapply rows_off; [exact Hl|]. intros x (H1 & H2 & H3). unfold plain. auto 10 with ctl.
  - eapply show_off; [exact rc_paths0|]. intros l Hl. apply table_off; [by repeat constructor|].
    eapply rows_off; [exact Hl|]. intros x (H1 & H2). unfold plain. auto 10 with ctl.
  - eapply show_off; [exact rc_sessions0|]. intros l Hl. apply table_off; [by repeat constructor|].
    eapply rows_off; [exact Hl|]. intros x (H1 & H2). unfold plain, uptime_text. auto 10 with ctl.
  - eapply show_off; [exact rc_nodeinfo0|]. intros [|[k v] l] Hl; [done|].
    apply Forall_cons in Hl as [Hv _]. apply Forall_singleton. unfold plain. simpl in *. auto with ctl.
  - eapply show_off; [exact rc_multicast0|]. intros l Hl. apply table_off; [by repeat constructor|].
    eapply rows_off; [exact Hl|]. intros x (H1 & H2). unfold plain. auto 10 with ctl.
  - eapply show_off; [exact rc_tun0|]. intros r. apply tun_off.
Qed.

(** When colours are off. *)
Definition colours_off (e : ctl_env) : Prop :=
  ce_injson e = true ∨ ToLower (ce_color e) = "never" ∨
  ((ToLower (ce_color e) = "auto" ∨ ce_color e = "") ∧
   (ce_tty e = false ∨ ce_getenv e "NO_COLOR" ≠ "" ∨ ce_getenv e "TERM" = "dumb")).

Lemma colours_off_style e :
  colours_off e → shouldUseColor (ce_color e) (ce_injson e) (ce_tty e) (ce_getenv e) = Some false.
Proof.
  unfold shouldUseColor. intros [->|[->|[Hc Ht]]]; [done|by destruct (ce_injson e)|].
  destruct (ce_injson e); [done|].
  assert (ce_tty e && String.eqb (ce_getenv e "NO_COLOR") "" && negb (String.eqb (ce_getenv e "TERM") "dumb") = false) as Hoff.
  { destruct Ht as [->|[Hn%String.eqb_neq| ->]]; [done|rewrite Hn; by rewrite andb_false_r|by rewrite andb_false_r]. }
  by destruct Hc as [->| ->]; simpl; rewrite Hoff.
Qed.

End OutputLaws.

(** endpoint_precedence.  The endpoint of uqdactl is the one of the command
    line when it differs from the platform default; otherwise that of the default
    configuration file when it names one, and the default when it is absent,
    empty or "none". (So the platform default cannot be forced when the file
    names another.) *)
Theorem endpoint_precedence files endpoint server :
  (server ≠ endpoint → setEndpoint files endpoint server = Ok server) ∧
  (cfi_read files = None → setEndpoint files endpoint endpoint = Ok endpoint) ∧
  ∀ cfg, cfi_read files = Some cfg →
    (∀ text ep, (if ctl_bom cfg then cfi_utf16 files cfg else Some cfg) = Some text →
       cfi_adminListen files text = Some (Some ep) →
       setEndpoint files endpoint endpoint = Ok (if is_one_of ep ["none"; ""] then endpoint else ep)) ∧
    (∀ text, (if ctl_bom cfg then cfi_utf16 files cfg else Some cfg) = Some text →
       cfi_adminListen files text = Some None → setEndpoint files endpoint endpoint = Ok endpoint) ∧
    ((2 <= length cfg)%nat → ctl_bom cfg = has_bom cfg).
Proof.
  unfold setEndpoint. rewrite String.eqb_refl. split_and!.
  - intros ->%String.eqb_neq. done.
  - by intros ->.
  - intros cfg ->. split_and!.
    + intros text ep -> ->. unfold is_one_of. cbn [existsb]. rewrite orb_false_r.
      by destruct (String.eqb ep "none"), (String.eqb ep "").
    + by intros text -> ->.
    + intros Hlen. unfold ctl_bom, has_bom, len. rewrite take_app_le by lia.
      by replace (2 <=? Z.of_nat (length cfg)) with true by (symmetry; apply Z.leb_le; lia).
Qed.

(** ** Witnesses *)

Module CtlWitness.
#[local] Instance toy_ctl : CtlLib := {
  dec_Doctor s := if String.eqb s "warn" then Some (DoctorResponse_ DoctorWarn [DoctorCheck_ "tun" DoctorWarn []] ["start it"]) else None;
  dec_List _ := Some [LEntry "getPeers" "Show peers" ["sort"]];
  dec_Self _ := None;
  dec_Peers _ := Some [];
  dec_Tree _ := None;
  dec_Paths _ := None;
  dec_Sessions _ := None;
  dec_NodeInfo _ := None;
  dec_Multicast _ := None;
  dec_Tun _ := Some (GetTUNResponse_ true "tun0" 65535);
  MarshalIndent s := Some s;
  fmt_d _ := "1";
  fmt_ms _ := "1.00ms";
  fmt_path _ := "[1]";
  fmt_data _ := "1KB";
  fmt_duration _ := "1s";
  round_second z := z;
  fmt_summary _ := "text";
  clean_uri s := Some s;
}.

Definition files (ep : option string) : ctl_files := CtlFiles (Some [123]) Some (λ _, Some ep).
Definition env (args : list string) (ep : option string) (color : string) (reply : option (string * string * string)) : ctl_env :=
  CtlEnv args "tcp://localhost:9001" "tcp://localhost:9001" color false true false true (λ _, "") 0 (files ep)
    (λ s, if String.eqb s "127.0.0.1:9001" then None else Some ("tcp", "localhost:9001")) (λ _ _, true) true (λ _ _, reply).

#[local] Instance toy_ctl_laws : CtlTextLaws.
Proof. split; try done; [|]; intros s t Hs [= <-]; exact Hs. Qed.

Lemma toy_clean : reply_clean "warn".
Proof.
  split; try done; try (intros ? [= <-]); repeat constructor; done.
Qed.


Lemma ctl_exit_status_witness :
  exit_code (ctl_run (env ["doctor"] None "auto" (Some ("success", "", "warn")))) = 2 ∧
  snd (ctl_run (env ["getPeers"; "sort=cost"] None "auto" (Some ("error", "denied", "")))) = Ok 1.
Proof.
  split.
  - destruct (ctl_exit_status (env ["doctor"] None "auto" (Some ("success", "", "warn")))) as (Hx & _ & _ & _ & H2).
    apply Hx. destruct (H2 "tcp://localhost:9001") as [_ H3].
    { split_and!; [by eexists|reflexivity|done|reflexivity|reflexivity]. }
    destruct (H3 "success" "" "warn" eq_refl eq_refl eq_refl) as [_ Hd].
    destruct (Hd ltac:(done)) as [Hdoc _]. by rewrite (Hdoc _ eq_refl eq_refl).
  - destruct (ctl_exit_status (env ["getPeers"; "sort=cost"] None "auto" (Some ("error", "denied", ""))))
      as (_ & _ & _ & _ & H2).
    destruct (H2 "tcp://localhost:9001") as [_ H3].
    { split_and!; [by eexists|reflexivity|done|reflexivity|reflexivity]. }
    by destruct (H3 "error" "denied" "" eq_refl eq_refl eq_refl) as [He _]; apply He.
Defined.

(** An address without a scheme in the configuration file. *)
Lemma ctl_panic_exits_zero_witness :
  exit_code (ctl_run (env ["getSelf"] (Some "127.0.0.1:9001") "auto" None)) = 0.
Proof.
  apply (ctl_panic_exits_zero (env ["getSelf"] (Some "127.0.0.1:9001") "auto" None) "127.0.0.1:9001").
  - split_and!; [by eexists|reflexivity|done|reflexivity|reflexivity].
  - left; reflexivity.
Defined.

Lemma endpoint_precedence_witness :
  setEndpoint (files (Some "unix:///run/s")) "tcp://localhost:9001" "tcp://localhost:9001" = Ok "unix:///run/s".
Proof.
  apply (endpoint_precedence (files (Some "unix:///run/s")) "tcp://localhost:9001" "") with (cfg := [123]) (text := [123]) (ep := "unix:///run/s");
    reflexivity.
Defined.
End CtlWitness.
