(* ===== verification/GenKeys.v ===== *)
(** * GenKeys: the generators of identities
    (cmd/genkeys/main.go and contrib/ansible/genkeys.go)

    The search for a key that gives a better address, on its threads and in the
    collecting loop, and the selection of the keys of a set of hosts. Keys come
    from crypto/ed25519: a run is described by the list of the keys that it draws. *)

From S2P Require Import Prelude Binary Wire Address Crypto Messages Handshake Links GoLib Listings.
From stdpp Require Import sorting.

Open Scope list_scope.
Open Scope Z_scope.

(** ** cmd/genkeys *)

(** [isBetter]; an index outside of [newPub] panics. *)
Fixpoint isBetter (oldPub newPub : bytes) : res () bool :=
  match oldPub, newPub with
  | [], _ => Ok false
  | o :: oldPub, n :: newPub =>
      if n <? o then Ok true else if n >? o then Ok false else isBetter oldPub newPub
  | _ :: _, [] => Panic
  end.

(** The test of an [if], on keys of one length, which cannot panic; the
    [isBetter] of the Ansible generator differs only in returning where this one
    breaks. *)
Definition better (oldPub newPub : bytes) : bool := match isBetter oldPub newPub with Ok b => b | _ => false end.

(** The private half, which only travels with the key to the output, is left out. *)
Record keySet := KeySet { ks_pub : bytes; ks_count : Z }.

(** One iteration of [doKeys]: its best key and counter, and what it sends. *)
Definition doKeys_step (st : bytes * Z) (pub : bytes) : (bytes * Z) * option keySet :=
  let '(bestKey, count) := st in
  let count := u64 (count + 1) in
  if negb (better bestKey pub) then ((bestKey, count), None)
  else ((pub, 0), Some (KeySet pub count)).

Fixpoint doKeys_loop (st : bytes * Z) (pubs : list bytes) : list keySet :=
  match pubs with
  | [] => []
  | pub :: pubs =>
      let '(st, out) := doKeys_step st pub in
      match out with
      | Some k => k :: doKeys_loop st pubs
      | None => doKeys_loop st pubs
      end
  end.

Definition doKeys (pubs : list bytes) : list keySet := doKeys_loop (replicate 32 0xff, 0) pubs.

(** The loop of [main]: the best key, the total, and the lines that it prints. *)
Definition collect_step (st : bytes * Z * list (bytes * Z)) (newKey : keySet) : bytes * Z * list (bytes * Z) :=
  let '(currentBest, totalKeys, printed) := st in
  if better currentBest (ks_pub newKey) || bool_decide (currentBest = []) then
    let totalKeys := u64 (totalKeys + ks_count newKey) in
    (ks_pub newKey, totalKeys, printed ++ [(ks_pub newKey, totalKeys)])
  else st.

Definition collect (keys : list keySet) : bytes * Z * list (bytes * Z) := foldl collect_step ([], 0, []) keys.

(** ** contrib/ansible *)

(** [bubbleUpTo]: at most [n] comparisons from the front, [n] being
    [len(sets)-num-1]. *)
Fixpoint bubble (n : nat) (sets : list bytes) : list bytes :=
  match n, sets with
  | S n, x :: y :: rest => if better y x then y :: bubble n (x :: rest) else sets
  | _, _ => sets
  end.

Definition bubbleUpTo (sets : list bytes) (num : nat) : list bytes := bubble (length sets - num - 1) sets.

Definition sortKeySetArray (sets : list bytes) : list bytes := foldl bubbleUpTo sets (seq 0 (length sets)).

(** One try of [main]: the front key is replaced and moved up. *)
Definition try_key (keys : list bytes) (pub : bytes) : list bytes :=
  match keys with [] => [] | _ :: keys => bubbleUpTo (pub :: keys) 0 end.

(** The keys of the hosts, [first] and [tries] being the keys that are drawn before
    and after the sorting. *)
Definition host_keys (first tries : list bytes) : list bytes := drop 1 (foldl try_key (sortKeySetArray first) tries).

(** A number in hexadecimal, as [%x] prints it. *)
Definition hex_digit (n : N) : string := if decide (n < 10)%N then String (Ascii.ascii_of_N (48 + n)) "" else String (Ascii.ascii_of_N (87 + n)) "".

Fixpoint hex_number (fuel : nat) (n : N) : string :=
  match fuel with
  | O => ""
  | S fuel => if decide (n < 16)%N then hex_digit n else (hex_number fuel (n / 16) +:+ hex_digit (n mod 16))%string
  end.

(** A file and its text, or a directory. *)
Inductive ansible_event := MkdirAll (path : string) | WriteFile (path text : string).

Definition newline : string := String (Ascii.ascii_of_N 10) "".
Definition quote : string := String (Ascii.ascii_of_N 34) "".

(** The iteration of the last loop of [main] for one host; [priv] is the private
    half of a key and [create] whether a file can be created. A failure ends the
    program, with what was written before. *)
Definition ansible_host `{IPText} (priv : bytes → bytes) (create : string → bool) (host : nat) (pub : bytes) :
    list ansible_event * bool :=
  let dir := ("host_vars/" +:+ hex_number host (N.of_nat host))%string in
  let vars := (dir +:+ "/vars")%string in
  let vault := (dir +:+ "/vault")%string in
  let ip := IP_String (default [] (AddrForKey pub)) in
  if negb (create vars) then ([MkdirAll dir], false)
  else
    let text := ("uqda_public_key: " +:+ EncodeToString pub +:+ newline +:+
      "uqda_private_key: " +:+ quote +:+ "{{ vault_uqda_private_key }}" +:+ quote +:+ newline +:+
      "ansible_host: " +:+ ip +:+ newline)%string in
    if negb (create vault) then ([MkdirAll dir; WriteFile vars text], false)
    else ([MkdirAll dir; WriteFile vars text;
           WriteFile vault ("vault_uqda_private_key: " +:+ EncodeToString (priv pub) +:+ newline)%string], true).

Fixpoint ansible_hosts `{IPText} (priv : bytes → bytes) (create : string → bool) (host : nat) (pubs : list bytes) :
    list ansible_event :=
  match pubs with
  | [] => []
  | pub :: pubs =>
      let '(ev, ok) := ansible_host priv create host pub in
      ev ++ (if ok then ansible_hosts priv create (S host) pubs else [])
  end.

(** [main]: with fewer tries than hosts nothing is written. *)
Definition ansible_main `{IPText} (priv : bytes → bytes) (create : string → bool) (numHosts keyTries : Z)
    (first tries : list bytes) : list ansible_event :=
  if keyTries <? numHosts then []
  else MkdirAll "host_vars" :: ansible_hosts priv create 1 (host_keys first tries).

(** ** Order of keys and order of addresses *)

(** On keys of equal length the byte-wise test is the order of keys of the
    routing layer, and it does not read past the end of the new key. *)
Lemma isBetter_spec oldPub newPub :
  length oldPub = length newPub → isBetter oldPub newPub = Ok (key_less newPub oldPub).
Proof.
  revert newPub. induction oldPub as [|o old IH]; intros [|n new] Hlen; try done. cbn [isBetter key_less].
  destruct (n <? o); [done|]. rewrite Z.gtb_ltb. destruct (o <? n); [done|]. apply IH. by injection Hlen.
Qed.
Lemma better_spec oldPub newPub : length oldPub = length newPub → better oldPub newPub = key_less newPub oldPub.
Proof. intros Hl. unfold better. by rewrite isBetter_spec. Qed.

Lemma high_bit x q : 0 < q → Z.testbit x q = Z.testbit (Z.div2 x) (q - 1).
Proof. intros Hq. rewrite Z.div2_div, Z.div2_bits by lia. f_equal. lia. Qed.

(** The highest bit in which two numbers differ. *)
Lemma less_bit (w : nat) x y :
  0 <= x < y → y < 2 ^ Z.of_nat w →
  ∃ p, 0 <= p < Z.of_nat w ∧ (∀ q, p < q → Z.testbit x q = Z.testbit y q) ∧
    Z.testbit x p = false ∧ Z.testbit y p = true.
Proof.
  revert x y. induction w as [|w IH]; intros x y Hxy Hy; [change (2 ^ Z.of_nat 0) with 1 in Hy; lia|].
  rewrite Nat2Z.inj_succ, Z.pow_succ_r in Hy by lia.
  assert (Hx2 := Z.div2_odd x). assert (Hy2 := Z.div2_odd y).
  destruct (decide (Z.div2 x = Z.div2 y)) as [Heq|Hne].
  - exists 0. split; [lia|]. rewrite !Z.bit0_odd. split.
    + intros q Hq. rewrite (high_bit x), (high_bit y), Heq by lia. done.
    + rewrite Heq in Hx2. destruct (Z.odd x), (Z.odd y); simpl Z.b2z in *; try done; lia.
  - destruct (IH (Z.div2 x) (Z.div2 y)) as (p & Hp & Hab & H0 & H1).
    + destruct (Z.odd x), (Z.odd y); simpl Z.b2z in *; lia.
    + destruct (Z.odd y); simpl Z.b2z in *; lia.
    + exists (p + 1). rewrite !(high_bit _ (p + 1)), !Z.add_simpl_r by lia. split_and!; try done; try lia.
      intros q Hq. rewrite (high_bit x), (high_bit y) by lia. apply Hab. lia.
Qed.

(** Two byte strings agree up to bit [i], where the first has a zero and the
    second a one. *)
Definition less_at (a b : bytes) (i : nat) : Prop :=
  (∀ j, (j < i)%nat → bit a j = bit b j) ∧ bit a i = false ∧ bit b i = true.

Lemma bit_cons_low x l i : (i < 8)%nat → bit (x :: l) i = Z.testbit x (7 - Z.of_nat i).
Proof. intros Hi. apply (bit_at (x :: l) 0 i Hi). Qed.
Lemma bit_cons_high x l i : bit (x :: l) (8 + i) = bit l i.
Proof. apply (bit_app_r [x] l i). Qed.

Lemma less_at_cons x a b i : less_at a b i → less_at (x :: a) (x :: b) (8 + i).
Proof.
  intros (Hj & H0 & H1). split_and!; [|by rewrite bit_cons_high..]. intros j Hlt. destruct (decide (j < 8)%nat).
  - by rewrite !bit_cons_low.
  - replace j with (8 + (j - 8))%nat by lia. rewrite !bit_cons_high. apply Hj. lia.
Qed.

Lemma key_less_bits a b :
  length a = length b → bytes_ok a → bytes_ok b → key_less a b = true → ∃ i, (i < 8 * length a)%nat ∧ less_at a b i.
Proof.
  revert b. induction a as [|x a IH]; intros [|y b] Hlen Ha Hb; try done. cbn [key_less].
  inversion Ha as [|?? Hx Ha']. inversion Hb as [|?? Hy Hb']. subst.
  destruct (Z.ltb_spec x y) as [Hlt|Hge].
  - intros _. destruct (less_bit 8 x y) as (p & Hp & Hab & H0 & H1); [destruct Hx; lia|destruct Hy; lia|].
    exists (Z.to_nat (7 - p)). split; [simpl; lia|]. split_and!.
    + intros j Hj. rewrite !bit_cons_low by lia. apply Hab. lia.
    + rewrite bit_cons_low by lia. by replace (7 - Z.of_nat (Z.to_nat (7 - p))) with p by lia.
    + rewrite bit_cons_low by lia. by replace (7 - Z.of_nat (Z.to_nat (7 - p))) with p by lia.
  - destruct (Z.ltb_spec y x) as [|Hge']; [done|]. assert (x = y) as -> by lia. intros Hr.
    destruct (IH b) as (i & Hi & Hat); [by injection Hlen|done|done|done|].
    exists (8 + i)%nat. split; [simpl; lia|by apply less_at_cons].
Qed.

(** The number of leading ones of the inverted key grows as the key gets less. *)
Lemma lead_ones_at k n :
  (n < 256)%nat → (∀ j, (j < n)%nat → bit k j = false) → bit k n = true → lead_ones k = n.
Proof.
  intros Hn Hz H1. destruct (lead_ones_spec k) as (Hle & Hones & Hstop). unfold inv_bit in *.
  destruct (Nat.lt_trichotomy (lead_ones k) n) as [Hlt|[Heq|Hgt]]; [|done|].
  - specialize (Hstop ltac:(lia)). rewrite Hz in Hstop by done. done.
  - specialize (Hones n Hgt). by rewrite H1 in Hones.
Qed.

Lemma zeros_lead k j : (j < lead_ones k)%nat → bit k j = false.
Proof. intros Hj. destruct (lead_ones_spec k) as (_ & Hones & _). specialize (Hones _ Hj). unfold inv_bit in Hones. by destruct (bit k j). Qed.
Lemma lead_bit k : (lead_ones k < 256)%nat → bit k (lead_ones k) = true.
Proof. intros Hj. destruct (lead_ones_spec k) as (_ & _ & Hs). specialize (Hs Hj). unfold inv_bit in Hs. by destruct (bit k _). Qed.

Lemma less_lead old new d :
  (d < 256)%nat → less_at new old d →
  (lead_ones old = d ∧ (d < lead_ones new)%nat) ∨ (lead_ones old = lead_ones new ∧ (lead_ones old < d)%nat).
Proof.
  intros Hd (Hj & H0 & H1). set (n := lead_ones old).
  assert (Hnd : (n <= d)%nat).
  { destruct (decide (n <= d)%nat) as [|Hn]; [done|]. rewrite (zeros_lead old d) in H1 by (fold n; lia). done. }
  assert (Hn1 : bit old n = true) by (apply lead_bit; lia).
  destruct (decide (n = d)) as [Heq|Hne]; [left|right].
  - split; [done|]. rewrite Heq in *. destruct (decide (d < lead_ones new)%nat) as [|Hle]; [done|].
    assert (bit new (lead_ones new) = true) as Hb by (apply lead_bit; lia).
    destruct (decide (lead_ones new = d)) as [He|]; [rewrite He in Hb; congruence|].
    rewrite Hj in Hb by lia. rewrite (zeros_lead old) in Hb by (fold n; lia). done.
  - split; [|lia]. symmetry. apply lead_ones_at; [lia| |rewrite Hj by lia; done].
    intros j Hjn. rewrite Hj by lia. apply zeros_lead. done.
Qed.

(** Equal leading bytes do not decide. *)
Lemma key_less_two x y a b : key_less (x :: y :: a) (x :: y :: b) = key_less a b.
Proof. cbn [key_less]. by rewrite !Z.ltb_irrefl. Qed.

Lemma addr_split a : length a = 16%nat → a = nth 0 a 0 :: nth 1 a 0 :: drop 2 a.
Proof. destruct a as [|x [|y a]]; done. Qed.

Lemma bit_drop2 a j : (2 <= length a)%nat → bit (drop 2 a) j = bit a (16 + j).
Proof.
  destruct a as [|x [|y a]]; [simpl; lia..|]. intros _. change (16 + j)%nat with (8 + (8 + j))%nat.
  by rewrite !bit_cons_high.
Qed.

(** better_key_better_address.  A key that the generators take for better
    is less than the old one in the order of the routing layer, and its address
    is not lower than the old address: it has more leading ones to leave out, or
    the same number and an inverse that is not lower. (The all-zero key, whose
    count of ones wraps around to 0, is excluded.) *)
Theorem better_key_better_address old new aold anew :
  key_ok old → key_ok new → (lead_ones new < 256)%nat → isBetter old new = Ok true →
  AddrForKey old = Some aold → AddrForKey new = Some anew →
  key_less new old = true ∧ key_less anew aold = false.
Proof.
  intros [Hlo Hoo] [Hln Hon] H256. rewrite isBetter_spec by congruence. intros [= Hless] Ho Hn. split; [done|].
  destruct (key_less_bits new old) as (d & Hd & Hat); [congruence|done|done|done|].
  destruct (AddrForKey_bits old) as (a1 & Ha1 & Hl1 & Hok1 & Hp1 & Hc1 & Hb1); [done|].
  destruct (AddrForKey_bits new) as (a2 & Ha2 & Hl2 & Hok2 & Hp2 & Hc2 & Hb2); [done|]. simplify_eq.
  rewrite (addr_split aold Hl1), (addr_split anew Hl2), Hp1, Hp2, Hc1, Hc2.
  assert (Hu : ∀ n, (n < 256)%nat → u8 (Z.of_nat n) = Z.of_nat n).
  { intros n Hn'. unfold u8. apply wrap_small. split; lia. }
  rewrite Hln in Hd. unfold PublicKeySize in Hd.
  destruct (less_lead old new d ltac:(lia) Hat) as [[Heq Hgt]|[Heq Hlt]].
  - rewrite !Hu by lia. cbn [key_less]. rewrite Z.ltb_irrefl.
    destruct (Z.ltb_spec (Z.of_nat (lead_ones new)) (Z.of_nat (lead_ones old))); [lia|].
    destruct (Z.ltb_spec (Z.of_nat (lead_ones old)) (Z.of_nat (lead_ones new))); [done|lia].
  - rewrite Heq, key_less_two. apply not_true_is_false. intros Hal.
    destruct (key_less_bits (drop 2 anew) (drop 2 aold)) as (i & Hi & Hj & H0 & H1);
      [rewrite !length_drop; lia|apply Forall_drop, Hok2|apply Forall_drop, Hok1|exact Hal|].
    rewrite length_drop, Hl2 in Hi. rewrite bit_drop2 in H0, H1 by lia. rewrite Hb2 in H0 by lia. rewrite Hb1 in H1 by lia.
    rewrite Heq in H1. destruct (decide (i < kept_bits (lead_ones new))%nat) as [Hk|]; [|done].
    set (n := lead_ones new) in *. destruct Hat as (Hagree & Hd0 & Hd1). unfold inv_bit in *.
    destruct (Nat.lt_trichotomy (n + 1 + i) d) as [Hlow|[Hsame|Hhigh]].
    + rewrite Hagree in H0 by done. congruence.
    + rewrite Hsame, Hd0 in H0. done.
    + specialize (Hj (d - (n + 1))%nat ltac:(lia)). rewrite !bit_drop2, Hb1, Hb2, Heq in Hj by lia. fold n in Hj.
      rewrite !decide_True in Hj by lia. replace (n + 1 + (d - (n + 1)))%nat with d in Hj by lia.
      by rewrite Hd0, Hd1 in Hj.
Qed.

(** ** The search *)

(** Reference: the keys that are less than all that were drawn before, with the
    number of keys that were drawn up to each. *)
Fixpoint records (seen : list bytes) (tried : Z) (pubs : list bytes) : list (bytes * Z) :=
  match pubs with
  | [] => []
  | x :: pubs =>
      if forallb (key_less x) seen then (x, tried + 1) :: records (x :: seen) (tried + 1) pubs
      else records (x :: seen) (tried + 1) pubs
  end.

(** [best] is the least of the keys [seen]. *)
Definition least (best : bytes) (seen : list bytes) : Prop :=
  ∀ x, length x = 32%nat → key_less x best = forallb (key_less x) seen.

Lemma least_cons_new best seen x :
  least best seen → length x = 32%nat → length best = 32%nat → key_less x best = true → least x (x :: seen).
Proof.
  intros Hl Hx Hb Hless y Hy. cbn [forallb]. rewrite <- (Hl y Hy).
  destruct (key_less y x) eqn:E; [|done]. symmetry. by apply (key_less_trans y x).
Qed.

Lemma least_cons_old best seen x :
  least best seen → length x = 32%nat → length best = 32%nat → key_less x best = false → least best (x :: seen).
Proof.
  intros Hl Hx Hb Hless y Hy. cbn [forallb]. rewrite <- (Hl y Hy).
  destruct (key_less y best) eqn:E; [|by rewrite andb_false_r]. rewrite andb_true_r. symmetry.
  destruct (decide (x = best)) as [->|Hne]; [done|].
  apply (key_less_trans y best x); [done|]. destruct (key_less best x) eqn:E2; [done|].
  destruct Hne. apply key_less_total; congruence.
Qed.

Lemma search_loop pubs best cnt seen cb tot printed :
  Forall (λ x, length x = 32%nat) pubs → length best = 32%nat → least best seen → cb = best ∨ cb = [] →
  0 <= cnt → 0 <= tot → tot + cnt + Z.of_nat (length pubs) < 2 ^ 64 →
  snd (foldl collect_step (cb, tot, printed) (doKeys_loop (best, cnt) pubs)) = printed ++ records seen (tot + cnt) pubs.
Proof.
  revert best cnt seen cb tot printed. induction pubs as [|x pubs IH]; intros best cnt seen cb tot printed Hall Hb Hl Hcb Hc Ht Hlt.
  { cbn. by rewrite app_nil_r. }
  apply Forall_cons in Hall as [Hx Hall]. cbn [doKeys_loop doKeys_step records length] in *.
  rewrite better_spec by congruence. rewrite (wrap_small 64) by (split; lia).
  rewrite <- (Hl x Hx). destruct (key_less x best) eqn:E; cbn [negb].
  - assert (Hstep : collect_step (cb, tot, printed) (KeySet x (cnt + 1)) =
      (x, tot + (cnt + 1), printed ++ [(x, tot + (cnt + 1))])).
    { unfold collect_step. cbn [ks_pub ks_count].
      assert (better cb x || bool_decide (cb = []) = true) as ->.
      { destruct Hcb as [->| ->]; [rewrite better_spec by congruence; by rewrite E|done]. }
      by rewrite (wrap_small 64) by (split; lia). }
    cbn [foldl]. rewrite Hstep.
    rewrite (IH x 0 (x :: seen) x (tot + (cnt + 1)) _) by (try done; try lia; eauto using least_cons_new).
    rewrite <- app_assoc. cbn [app]. do 2 f_equal; [f_equal; lia|]. f_equal. lia.
  - rewrite (IH best (cnt + 1) (x :: seen) cb tot printed) by (try done; try lia; eauto using least_cons_old).
    do 2 f_equal. lia.
Qed.

(** C39: search_prints_records.  With one thread the key generator prints
    exactly the keys that are better than every key drawn before (and than the
    all-ones key), each with the number of keys that were tried up to it: the
    search with its running best, its counter that is reset for every key sent
    and the collecting loop agree with the reference that compares each key with
    all of its predecessors. *)
Theorem search_prints_records pubs :
  Forall (λ x, length x = 32%nat) pubs → Z.of_nat (length pubs) < 2 ^ 64 →
  snd (collect (doKeys pubs)) = records [replicate 32 0xff] 0 pubs.
Proof.
  intros Hall Hlt. unfold collect, doKeys.
  rewrite (search_loop pubs (replicate 32 0xff) 0 [replicate 32 0xff] [] 0 []); [done|done|done| |by right|lia..].
  intros x Hx. cbn [forallb]. by rewrite andb_true_r.
Qed.

(** With two threads the counters of the keys that lose against the other
    thread's are dropped: four keys were tried here when the line says two. *)
Lemma two_threads_undercount :
  let k b := replicate 32 b in
  let a := doKeys [k 5; k 2] in
  let b := doKeys [k 4; k 3] in
  snd (collect (take 1 b ++ a ++ drop 1 b)) = [(k 4, 1); (k 2, 2)].
Proof. reflexivity. Qed.

(** ** The selection of host keys *)

(** The keys from worst to best: no key is better than a later one. *)
Definition ascending (keys : list bytes) : Prop := StronglySorted (λ a b, better b a = false) keys.

Lemma bubble_perm n keys : bubble n keys ≡ₚ keys.
Proof.
  revert keys. induction n as [|n IH]; intros [|x [|y keys]]; try done. cbn [bubble].
  destruct (better y x); [|done]. rewrite IH. apply Permutation_swap.
Qed.
Lemma bubbleUpTo_perm keys num : bubbleUpTo keys num ≡ₚ keys.
Proof. apply bubble_perm. Qed.
Lemma sortKeySetArray_perm keys : sortKeySetArray keys ≡ₚ keys.
Proof.
  unfold sortKeySetArray. generalize (seq 0 (length keys)) as l. intros l. revert keys.
  induction l as [|i l IH]; intros keys; [done|]. cbn [foldl]. rewrite IH. apply bubbleUpTo_perm.
Qed.

Definition keys32 (keys : list bytes) : Prop := Forall (λ k, length k = 32%nat) keys.

(** Not being better is transitive on keys. *)
Lemma worse_trans x y z :
  length x = 32%nat → length y = 32%nat → length z = 32%nat →
  better y x = false → better z y = false → better z x = false.
Proof.
  intros Hx Hy Hz. rewrite !better_spec by congruence. intros H1 H2. apply not_true_is_false. intros H3.
  destruct (key_less y x) eqn:E.
  - rewrite (key_less_trans y x z E H3) in H2. done.
  - assert (x = y) as -> by (apply key_less_total; congruence). congruence.
Qed.

Lemma bubble_ascending n x keys :
  keys32 (x :: keys) → (length keys <= n)%nat → ascending keys → ascending (bubble n (x :: keys)).
Proof.
  revert n x. induction keys as [|y keys IH]; intros n x H32 Hn Hs.
  { destruct n; repeat constructor. }
  destruct n as [|n]; [simpl in Hn; lia|]. cbn [bubble].
  apply Forall_cons in H32 as [Hx H32]. pose proof H32 as [Hy Hk]%Forall_cons.
  apply StronglySorted_inv in Hs as [Hs Hall].
  destruct (better y x) eqn:E.
  - constructor; [apply IH; [by constructor|simpl in Hn; lia|done]|].
    apply (Permutation_Forall (symmetry (bubble_perm n (x :: keys)))). constructor; [|done].
    rewrite better_spec in * by congruence. by apply key_less_asym.
  - constructor; [by constructor|]. constructor; [done|]. rewrite Forall_forall in *. intros z Hz.
    apply (worse_trans x y z); auto.
Qed.

Lemma try_key_spec x keys pub :
  keys32 (x :: keys) → length pub = 32%nat → ascending (x :: keys) →
  ∃ y keys', try_key (x :: keys) pub = y :: keys' ∧ ascending (y :: keys') ∧ y :: keys' ≡ₚ pub :: keys.
Proof.
  intros H32 Hp Hs. cbn [try_key]. pose proof (bubbleUpTo_perm (pub :: keys) 0) as Hperm.
  apply StronglySorted_inv in Hs as [Hs _]. apply Forall_cons in H32 as [Hx H32].
  assert (ascending (bubbleUpTo (pub :: keys) 0)) as Hasc.
  { unfold bubbleUpTo. apply bubble_ascending; [by constructor|cbn [length]; lia|done]. }
  destruct (bubbleUpTo (pub :: keys) 0) as [|y keys'] eqn:E; [by apply Permutation_nil_cons in Hperm|].
  by exists y, keys'.
Qed.

(** The invariant of the tries: the array is ascending, its tail is kept, and no
    discarded key is better than a key that is kept. *)
Lemma tries_spec tries x keys dropped :
  keys32 (x :: keys ++ dropped) → keys32 tries → ascending (x :: keys) →
  (∀ d k, d ∈ x :: dropped → k ∈ keys → better k d = false) →
  ∃ y keys' dropped', foldl try_key (x :: keys) tries = y :: keys' ∧ ascending (y :: keys') ∧
    keys' ++ y :: dropped' ≡ₚ x :: keys ++ dropped ++ tries ∧
    ∀ d k, d ∈ y :: dropped' → k ∈ keys' → better k d = false.
Proof.
  revert x keys dropped. induction tries as [|pub tries IH]; intros x keys dropped H32 Ht Hs Hd.
  { exists x, keys, dropped. rewrite app_nil_r. split_and!; [done|done|by rewrite Permutation_middle|done]. }
  apply Forall_cons in Ht as [Hp Ht]. pose proof H32 as [Hx Hkd]%Forall_cons. apply Forall_app in Hkd as [Hk Hdr].
  destruct (try_key_spec x keys pub) as (y & keys' & Hstep & Hs' & Hperm); [by constructor|done|done|].
  assert (Hin : ∀ k, k ∈ y :: keys' → k = pub ∨ k ∈ keys) by (intros k Hk'; rewrite Hperm in Hk'; by apply elem_of_cons).
  assert (Hl32 : keys32 (y :: keys')) by (apply (Permutation_Forall (symmetry Hperm)); by constructor).
  pose proof Hl32 as [Hy Hk']%Forall_cons. pose proof Hs' as [_ Hfront]%StronglySorted_inv.
  destruct (IH y keys' (x :: dropped)) as (z & keys2 & dropped2 & Hf & Hs2 & Hp2 & Hd2).
  - constructor; [done|]. apply Forall_app. split; [done|by constructor].
  - done.
  - done.
  - intros d k [->|Hdd]%elem_of_cons Hkk; [rewrite Forall_forall in Hfront; by apply Hfront|].
    assert (Hlen : ∀ l a, Forall (λ k : bytes, length k = 32%nat) l → a ∈ l → length a = 32%nat)
      by (intros l a Hf; rewrite Forall_forall in Hf; apply Hf).
    assert (Hld : length d = 32%nat) by (apply (Hlen (x :: dropped)); [by constructor|done]).
    destruct (decide (y = pub)) as [->|Hne].
    + apply (Permutation_cons_inv (a := pub)) in Hperm. rewrite Hperm in Hkk. by apply Hd.
    + assert (Hyk : y ∈ keys) by (destruct (Hin y) as [?|?]; [by left|done|done]).
      rewrite !Forall_forall in *. apply (worse_trans d y k); [done|done|by apply Hk'|by apply Hd|by apply Hfront].
  - exists z, keys2, dropped2. cbn [foldl]. rewrite Hstep. split_and!; [done|done| |done].
    rewrite Hp2, app_comm_cons, Hperm. cbn [app]. rewrite <- !Permutation_middle. apply Permutation_swap.
Qed.

(** host_keys_best.  When the first keys are in order, the array of the
    generator for Ansible keeps, in order, the best of all the keys that it draws:
    nothing it leaves out is better than a key that it gives to a host. *)
Theorem host_keys_best first tries :
  keys32 first → keys32 tries → first ≠ [] → ascending (sortKeySetArray first) →
  ascending (host_keys first tries) ∧
  ∃ dropped, host_keys first tries ++ dropped ≡ₚ first ++ tries ∧
    ∀ d k, d ∈ dropped → k ∈ host_keys first tries → better k d = false.
Proof.
  intros Hf Ht Hne Hs. pose proof (sortKeySetArray_perm first) as Hperm. unfold host_keys.
  destruct (sortKeySetArray first) as [|x keys]; [by apply Permutation_nil_l in Hperm|].
  destruct (tries_spec tries x keys []) as (y & keys' & dropped & -> & Hs' & Hp & Hd).
  - rewrite app_nil_r. by apply (Permutation_Forall (symmetry Hperm)).
  - done.
  - done.
  - intros d k Hd%list_elem_of_singleton Hk. subst d. apply StronglySorted_inv in Hs as [_ Hs]. rewrite Forall_forall in Hs. by apply Hs.
  - cbn. rewrite drop_0. split; [by apply StronglySorted_inv in Hs' as [? _]|]. exists (y :: dropped). split; [|done].
    rewrite Hp. cbn [app]. by rewrite app_comm_cons, Hperm.
Qed.

(** When the files can be created every host gets its own key, the private half in
    its vault file only; at the first file that cannot be created the program ends. *)
Lemma ansible_hosts_complete `{IPText} priv create host pubs i pub :
  (∀ p, create p = true) → pubs !! i = Some pub →
  ∃ pre post, ansible_hosts priv create host pubs = pre ++ fst (ansible_host priv create (host + i) pub) ++ post ∧
    length pre = (3 * i)%nat ∧ length post = (3 * (length pubs - i - 1))%nat.
Proof.
  intros Hc. assert (∀ h k, ∃ a b c, ansible_host priv create h k = ([a; b; c], true)) as Hone.
  { intros h k. unfold ansible_host. rewrite !Hc. cbn [negb]. eauto. }
  assert (∀ h l, length (ansible_hosts priv create h l) = (3 * length l)%nat) as Hlen.
  { intros h l. revert h. induction l as [|k l IH]; intros h; [done|]. cbn [ansible_hosts].
    destruct (Hone h k) as (a & b & c & ->). cbn. rewrite IH. lia. }
  revert host i. induction pubs as [|k pubs IH]; intros host [|i] Hi; [done|done| |]; cbn [ansible_hosts].
  - injection Hi as ->. rewrite Nat.add_0_r. destruct (Hone host pub) as (a & b & c & ->). cbn [fst].
    exists [], (ansible_hosts priv create (S host) pubs). split_and!; [done|done|]. rewrite Hlen. simpl. lia.
  - destruct (IH (S host) i Hi) as (pre & post & -> & Hpre & Hpost). destruct (Hone host k) as (a & b & c & ->).
    exists ([a; b; c] ++ pre), post. rewrite <- Nat.add_succ_comm, <- app_assoc. split_and!; [done|simpl; lia|simpl; lia].
Qed.

(** But the sorting stops at the first pair that is in order, so it does not
    sort: here it leaves three keys as they are, and the front key, which is
    overwritten, is better than one that a host gets. *)
Theorem sortKeySetArray_does_not_sort :
  let k b := replicate 32 b in
  sortKeySetArray [k 2; k 1; k 3] = [k 2; k 1; k 3] ∧ ¬ ascending (sortKeySetArray [k 2; k 1; k 3]) ∧
  host_keys [k 2; k 1; k 3] [] = [k 1; k 3] ∧ isBetter (k 3) (k 2) = Ok true.
Proof.
  intros k. split_and!; [reflexivity| |reflexivity|reflexivity]. intros Hs.
  change (sortKeySetArray [k 2; k 1; k 3]) with [k 2; k 1; k 3] in Hs.
  apply StronglySorted_inv in Hs as [[_ Hs]%StronglySorted_inv _]. apply Forall_cons in Hs as [Hs _]. by vm_compute in Hs.
Qed.

(** ** Witnesses *)

Module GenKeysWitness.
Definition k (b : Z) : bytes := replicate 32 b.

Lemma better_key_better_address_witness :
  ∃ a1 a2, AddrForKey (k 5) = Some a1 ∧ AddrForKey (k 3) = Some a2 ∧ key_less (k 3) (k 5) = true ∧ key_less a2 a1 = false.
Proof.
  destruct (AddrForKey (k 5)) as [a1|] eqn:E1; [|by vm_compute in E1].
  destruct (AddrForKey (k 3)) as [a2|] eqn:E2; [|by vm_compute in E2].
  exists a1, a2. split; [reflexivity|]. split; [reflexivity|].
  apply (better_key_better_address (k 5) (k 3) a1 a2); [| | |reflexivity|exact E1|exact E2].
  - split; [reflexivity|]. apply Forall_replicate. split; lia.
  - split; [reflexivity|]. apply Forall_replicate. split; lia.
  - apply Nat.ltb_lt. reflexivity.
Defined.

Lemma search_prints_records_witness :
  snd (collect (doKeys [k 9; k 12; k 4; k 4; k 2])) = [(k 9, 1); (k 4, 3); (k 2, 5)].
Proof.
  rewrite (search_prints_records [k 9; k 12; k 4; k 4; k 2]); [reflexivity|repeat constructor|reflexivity].
Defined.

Lemma host_keys_best_witness :
  host_keys [k 9; k 6] [k 4; k 7] = [k 4] ∧ ascending (host_keys [k 9; k 6] [k 4; k 7]).
Proof.
  split; [reflexivity|].
  apply (host_keys_best [k 9; k 6] [k 4; k 7]); [repeat constructor|repeat constructor|done|].
  change (sortKeySetArray [k 9; k 6]) with [k 9; k 6]. repeat constructor.
Defined.
End GenKeysWitness.
