(* ===== verification/CommandLine.v ===== *)
(** * The command lines of the programs (package flag as cmd/uqda and cmd/uqdactl use it)

    The rules of Go's package flag for one set of flags, the flags that the daemon
    and the client define, and how their settings reach the two programs. An
    error of the parser ends a program with status 2, -help with 0. *)

From S2P Require Import Prelude Binary Wire Address Crypto Messages Handshake Links GoLib Listings Admin Proto Multicast Config Dial Tun Node Ctl.
From Stdlib Require Import Ascii.

Open Scope string_scope.
Open Scope list_scope.
Open Scope Z_scope.

Inductive flag_value := FBool (b : bool) | FString (s : string) | FInt (n : Z).

#[export] Instance flag_value_eq_dec : EqDecision flag_value.
Proof. solve_decision. Defined.

Inductive flag_error := BadSyntax (arg : string) | Undefined (name : string) | Help | NeedsArgument (name : string)
  | BadValue (name value : string).

(** The defined flags with their values, at first the defaults. *)
Abbreviation flag_set := (gmap string flag_value).

(** [strconv.ParseBool] *)
Definition ParseBool (s : string) : option bool :=
  if existsb (String.eqb s) ["1"; "t"; "T"; "true"; "TRUE"; "True"] then Some true
  else if existsb (String.eqb s) ["0"; "f"; "F"; "false"; "FALSE"; "False"] then Some false
  else None.

(** What the first characters of an argument say. *)
Inductive flag_shape := NotFlag | Terminator | BadFlag | IsFlag (name : string).

Definition flag_named (name : string) : flag_shape :=
  match name with
  | String "-" _ | String "=" _ | EmptyString => BadFlag
  | _ => IsFlag name
  end.

Definition shape (arg : string) : flag_shape :=
  match arg with
  | String "-" (String "-" EmptyString) => Terminator
  | String "-" (String "-" name) => flag_named name
  | String "-" EmptyString => NotFlag
  | String "-" name => flag_named name
  | _ => NotFlag
  end.

Section Parse.
(** [strconv.ParseInt] in base 0 and the width of an [int]. *)
Context (ParseInt : string → option Z).

(** [Value.Set] *)
Definition flag_Set (old : flag_value) (text : string) : option flag_value :=
  match old with
  | FBool _ => FBool <$> ParseBool text
  | FString _ => Some (FString text)
  | FInt _ => FInt <$> ParseInt text
  end.

(** [FlagSet.Parse] with the loop over [parseOne]. *)
Fixpoint flag_Parse (fs : flag_set) (args : list string) : res flag_error (flag_set * list string) :=
  match args with
  | [] => Ok (fs, [])
  | arg :: rest =>
      match shape arg with
      | NotFlag => Ok (fs, arg :: rest)
      | Terminator => Ok (fs, rest)
      | BadFlag => Err (BadSyntax arg)
      | IsFlag s =>
          let '(name, value) := match split_eq s with Some (name, value) => (name, Some value) | None => (s, None) end in
          match fs !! name with
          | None => Err (if String.eqb name "help" || String.eqb name "h" then Help else Undefined name)
          | Some old =>
              let set text rest :=
                match flag_Set old text with
                | Some v => flag_Parse (<[name := v]> fs) rest
                | None => Err (BadValue name text)
                end in
              match old, value with
              | _, Some text => set text rest
              | FBool _, None => set "true" rest
              | _, None =>
                  match rest with
                  | text :: rest =>
                      match flag_Set old text with
                      | Some v => flag_Parse (<[name := v]> fs) rest
                      | None => Err (BadValue name text)
                      end
                  | [] => Err (NeedsArgument name)
                  end
              end
          end
      end
  end.
End Parse.

Definition flag_bool (fs : flag_set) (name : string) : bool := match fs !! name with Some (FBool b) => b | _ => false end.
Definition flag_string (fs : flag_set) (name : string) : string := match fs !! name with Some (FString s) => s | _ => "" end.
Definition flag_int (fs : flag_set) (name : string) : Z := match fs !! name with Some (FInt n) => n | _ => 0 end.

(** ** The client *)

Definition ctl_flags (endpoint : string) : flag_set :=
  list_to_map [("endpoint", FString endpoint); ("json", FBool false); ("borders", FBool true); ("color", FString "auto");
               ("version", FBool false)].

(** [newCmdLineEnv] and [parseFlagsAndArgs]: the settings of a run; [e] is the rest
    of its environment. *)
Definition parseFlagsAndArgs (ParseInt : string → option Z) (args : list string) (e : ctl_env) : res flag_error ctl_env :=
  '(fs, rest) ← flag_Parse ParseInt (ctl_flags (ce_endpoint e)) args;
  Ok (CtlEnv rest (flag_string fs "endpoint") (ce_endpoint e) (flag_string fs "color") (flag_bool fs "json")
        (flag_bool fs "borders") (flag_bool fs "version") (ce_tty e) (ce_getenv e) (ce_euid e) (ce_files e) (ce_parse e)
        (ce_dial e) (ce_pledge e) (ce_exchange e)).

Definition flag_exit (err : flag_error) : Z := match err with Help => 0 | _ => 2 end.

(** The exit status of the client for its arguments. *)
Definition ctl_main `{CtlLib} (ParseInt : string → option Z) (args : list string) (e : ctl_env) : Z :=
  match parseFlagsAndArgs ParseInt args e with
  | Ok e => exit_code (ctl_run e)
  | Err err => flag_exit err
  | Panic => 2
  end.

(** ** The daemon *)

Definition daemon_flags : flag_set :=
  list_to_map [("genconf", FBool false); ("useconf", FBool false); ("useconffile", FString ""); ("normaliseconf", FBool false);
    ("exportkey", FBool false); ("json", FBool false); ("autoconf", FBool false); ("version", FBool false);
    ("logto", FString "stdout"); ("address", FBool false); ("subnet", FBool false); ("publickey", FBool false);
    ("loglevel", FString "info"); ("user", FString ""); ("notifyfd", FInt (-1))].

Definition read_flags (fs : flag_set) : flags :=
  Flags (flag_bool fs "genconf") (flag_bool fs "useconf") (flag_string fs "useconffile") (flag_bool fs "normaliseconf")
    (flag_bool fs "exportkey") (flag_bool fs "json") (flag_bool fs "autoconf") (flag_bool fs "version") (flag_bool fs "address")
    (flag_bool fs "subnet") (flag_bool fs "publickey") (flag_string fs "user") (flag_string fs "loglevel").

(** What the daemon does for its arguments: the action, its logger and the
    descriptor that it notifies. *)
Definition daemon_command (ParseInt : string → option Z) (syslog : bool) (file : string → bool) (args : list string) :
    res flag_error (daemon_action * (log_target * bool * list string) * Z) :=
  '(fs, _) ← flag_Parse ParseInt daemon_flags args;
  let f := read_flags fs in
  Ok (daemon_dispatch f, daemon_logger (flag_string fs "logto") (fl_loglevel f) (fl_normaliseconf f) syslog file,
      flag_int fs "notifyfd").

(** ** Properties *)

Section ParseLaws.
Context (ParseInt : string → option Z).

Definition same_kind (v w : flag_value) : Prop :=
  match v, w with FBool _, FBool _ | FString _, FString _ | FInt _, FInt _ => True | _, _ => False end.

Lemma Set_kind old text v : flag_Set ParseInt old text = Some v → same_kind old v.
Proof. destruct old; simpl; [destruct (ParseBool text)| |destruct (ParseInt text)]; intros [= <-]; done. Qed.

(** A set of flags with other values of the same kinds. *)
Definition same_flags (fs fs' : flag_set) : Prop := ∀ name, option_relation same_kind (λ _, False) (λ _, False) (fs !! name) (fs' !! name).

Lemma same_flags_refl fs : same_flags fs fs.
Proof. intros name. destruct (fs !! name) as [[]|]; by constructor. Qed.

Lemma same_flags_insert fs fs' name old v :
  fs !! name = Some old → same_kind old v → same_flags (<[name := v]> fs) fs' → same_flags fs fs'.
Proof.
  intros Hn Hk Hs n. specialize (Hs n). destruct (decide (n = name)) as [->|Hne].
  - rewrite lookup_insert_eq in Hs. rewrite Hn. destruct (fs' !! name) as [w|]; [|done].
    simpl in *. by destruct old, v, w.
  - by rewrite lookup_insert_ne in Hs.
Qed.

(** Parsing ends without a panic; the flags keep their kinds, and the arguments that
    are left are the last ones. *)
Lemma flag_Parse_total args : ∀ fs,
  match flag_Parse ParseInt fs args with
  | Ok (fs', rest) => same_flags fs fs' ∧ rest `suffix_of` args
  | Err _ => True
  | Panic => False
  end.
Proof.
  induction args as [args IH] using (induction_ltof1 _ (@length string)). intros fs.
  destruct args as [|arg rest]; simpl; [by split; [apply same_flags_refl|]|].
  assert (∀ name old text tail, fs !! name = Some old → tail `suffix_of` rest →
    match match flag_Set ParseInt old text with
          | Some v => flag_Parse ParseInt (<[name := v]> fs) tail
          | None => Err (BadValue name text)
          end with
    | Ok (fs', rest') => same_flags fs fs' ∧ rest' `suffix_of` arg :: rest
    | Err _ => True
    | Panic => False
    end) as Hset.
  { intros name old text tail Hn Hsuf. destruct (flag_Set ParseInt old text) as [v|] eqn:Es; [|done].
    assert (length tail <= length rest)%nat as Hlen by (destruct Hsuf as [k ->]; rewrite length_app; lia).
    pose proof (IH tail ltac:(unfold ltof; simpl; lia) (<[name := v]> fs)) as Hi.
    destruct (flag_Parse ParseInt _ tail) as [[fs' rest']| |]; [|done..]. destruct Hi as [Hs Hr]. split.
    - by eapply same_flags_insert; [| |exact Hs]; [|eapply Set_kind].
    - apply suffix_cons_r. by etrans. }
  destruct (shape arg) as [| | |s]; [by split; [apply same_flags_refl|]| |done|].
  { split; [apply same_flags_refl|]. by apply suffix_cons_r. }
  destruct (match split_eq s with Some _ => _ | None => _ end) as [name value].
  destruct (fs !! name) as [old|] eqn:Hn; [|done].
  destruct old, value as [text|]; try (by apply Hset); (destruct rest as [|text rest]; [done|]); apply Hset; try done; by apply suffix_cons_r.
Qed.

(** ** Flags as they are written *)

Definition flag_arg (name text : string) : string := "-" +:+ name +:+ "=" +:+ text.

Definition name_ok (name : string) : Prop := flag_named name = IsFlag name ∧ no_eq name.

Lemma shape_flag_arg name text : name_ok name → shape (flag_arg name text) = IsFlag (name +:+ "=" +:+ text).
Proof.
  intros [Hn _]. destruct name as [|c name]; [done|].
  assert (c ≠ "-"%char ∧ c ≠ "="%char) as [H1 H2] by (split; intros ->; done).
  destruct c as [[] [] [] [] [] [] [] []]; try done.
Qed.

(** The settings [l], one after the other. *)
Fixpoint apply_settings (fs : flag_set) (l : list (string * string)) : option flag_set :=
  match l with
  | [] => Some fs
  | (name, text) :: l => old ← fs !! name; v ← flag_Set ParseInt old text; apply_settings (<[name := v]> fs) l
  end.

(** A command line that sets flags and then names a command: every setting takes
    effect, later ones over earlier ones, and what follows the command is left to
    it, even when it looks like a flag. *)
Theorem flags_roundtrip fs l fs' rest :
  Forall (λ '(name, _), name_ok name) l → apply_settings fs l = Some fs' →
  (rest = [] ∨ ∃ cmd args, rest = cmd :: args ∧ shape cmd = NotFlag) →
  flag_Parse ParseInt fs (((λ '(name, text), flag_arg name text) <$> l) ++ rest) = Ok (fs', rest).
Proof.
  intros Hl Happ Hrest. revert fs Happ. induction Hl as [|[name text] l Hn Hl IH]; intros fs Happ; simpl in Happ.
  - injection Happ as <-. destruct Hrest as [->|(cmd & args & -> & Hs)]; [done|]. simpl. by rewrite Hs.
  - cbn [fmap list_fmap app flag_Parse]. rewrite shape_flag_arg by done.
    assert (split_eq (name +:+ "=" +:+ text) = Some (name, text)) as -> by (apply split_eq_spec; split; [done|apply Hn]).
    destruct (fs !! name) as [old|]; simpl in Happ; [|done].
    destruct (flag_Set ParseInt old text) as [v|] eqn:Es; simpl in Happ; [|done].
    by destruct old; apply IH.
Qed.
End ParseLaws.

(** The same for the client: the settings before the command are those of the run,
    the command and its arguments come after them. *)
Theorem ctl_settings `{CtlLib} ParseInt l cmd args e fs :
  Forall (λ '(name, _), name_ok name) l → apply_settings ParseInt (ctl_flags (ce_endpoint e)) l = Some fs → shape cmd = NotFlag →
  ∃ e', parseFlagsAndArgs ParseInt (((λ '(name, text), flag_arg name text) <$> l) ++ cmd :: args) e = Ok e' ∧
    ce_args e' = cmd :: args ∧ ce_server e' = flag_string fs "endpoint" ∧ ce_injson e' = flag_bool fs "json" ∧
    ce_color e' = flag_string fs "color" ∧ ce_borders e' = flag_bool fs "borders" ∧ ce_ver e' = flag_bool fs "version" ∧
    ctl_main ParseInt (((λ '(name, text), flag_arg name text) <$> l) ++ cmd :: args) e = exit_code (ctl_run e').
Proof.
  intros Hl Ha Hs. unfold ctl_main, parseFlagsAndArgs.
  rewrite (flags_roundtrip ParseInt _ l fs (cmd :: args) Hl Ha) by (right; eauto). eexists. by split_and!.
Qed.

Module CommandLineWitness.
Definition no_ints (s : string) : option Z := if String.eqb s "5" then Some 5 else None.

Definition settings1 : list (string * string) := [("useconffile", "uqda.conf"); ("json", "1"); ("notifyfd", "5")].
Definition flags1 : flag_set := default ∅ (apply_settings no_ints daemon_flags settings1).

Lemma settings1_ok : apply_settings no_ints daemon_flags settings1 = Some flags1.
Proof.
  assert ((if apply_settings no_ints daemon_flags settings1 is Some _ then true else false) = true) as Hs by (vm_compute; reflexivity).
  unfold flags1. by destruct (apply_settings no_ints daemon_flags settings1).
Qed.

Lemma flags_roundtrip_witness :
  flag_Parse no_ints daemon_flags ["-useconffile=uqda.conf"; "-json=1"; "-notifyfd=5"; "x"; "-json=0"] = Ok (flags1, ["x"; "-json=0"]) ∧
  flag_string flags1 "useconffile" = "uqda.conf" ∧ flag_bool flags1 "json" = true ∧ flag_int flags1 "notifyfd" = 5.
Proof.
  split; [|split_and!; vm_compute; reflexivity].
  apply (flags_roundtrip no_ints daemon_flags settings1).
  - assert (∀ s, bool_decide (no_eq s) = true → no_eq s) as Hno by (intros s; apply bool_decide_eq_true).
    repeat constructor; by apply Hno; vm_compute.
  - exact settings1_ok.
  - right. by eexists _, _.
Defined.

(** The other forms: two dashes, a value as the next argument, a flag without a
    value, an unknown flag, a value that is missing. *)
Definition parsed (args : list string) : res flag_error (flags * list string) :=
  '(fs, rest) ← flag_Parse no_ints daemon_flags args; Ok (read_flags fs, rest).

Lemma flag_forms :
  parsed ["--user"; "nobody"; "-json"; "--"; "-version"] =
    Ok (Flags false false "" false false true false false false false false "nobody" "info", ["-version"]) ∧
  parsed ["-nameserver=x"] = Err (Undefined "nameserver") ∧
  parsed ["-user"] = Err (NeedsArgument "user") ∧
  parsed ["-json=maybe"] = Err (BadValue "json" "maybe") ∧
  parsed ["---json"] = Err (BadSyntax "---json") ∧ parsed ["-h"] = Err Help.
Proof. split_and!; vm_compute; reflexivity. Qed.

Lemma daemon_command_example :
  daemon_command no_ints true (λ _, false) ["-useconffile"; "uqda.conf"; "-logto=uqda.log"; "-address"] =
    Ok (ActAddress (FromFile "uqda.conf"), (LogStdout, true, ["error"; "warn"; "info"]), -1).
Proof. vm_compute. reflexivity. Qed.
End CommandLineWitness.
